(* ===== verification/_CoqProject ===== *)
-Q . S2P
Prelude.v
Numbers.v
Text.v
Json.v
Chat.v
LlmErrors.v
Domain.v
Events.v
Model.v
ExecState.v
Driver.v
Pruning.v
Hooks.v
World.v
Limits.v
ContextMw.v
DelegationMw.v
AgentConfig.v
Compaction.v
Retry.v
CallLlm.v
ModelCall.v
ToolCalls.v
Transitions.v
Wait.v
Maintenance.v
Machine.v
Fixtures.v
Pairing.v
WaitSpec.v
HistoryProps.v
CycleInv.v
Termination.v
CycleProps.v
WaitProps.v
ModelProps.v
MiddlewareProps.v
ToolProps.v
WireProps.v
ScheduleDomain.v
ScheduleRepo.v
SchedWorld.v
Scheduler.v
SchedWake.v
SchedStates.v
SchedulerProps.v
Delegations.v
DelegationSpec.v
DelegationProps.v
HookWire.v
HookEngine.v
HookProps.v
SessionRows.v
Undo.v
UndoSpec.v
UndoProps.v
TextOps.v
SlashCommands.v
SlashProps.v
LlmConfigs.v
ConfigProps.v
SessionActor.v
ActorProps.v
PromptTurn.v
PromptProps.v
EditTool.v
EditOutput.v
EditSpec.v
FileTools.v
EditProps.v
ForkProps.v
Invites.v
MeshAdmission.v
MeshProps.v
RemoteStreams.v
RemoteProps.v
Providers.v
Codex.v
ProviderProps.v
CodexProps.v
