(* ===== verification/Prelude.v ===== *)
(** * QueryMT agent: verification development

    This library models the agent of QueryMT, crates/agent: the turn of an
    agent, in which a language model is called, its answer is stored, the
    tools it asks for are run, and so on until the model stops, a limit is
    reached, a hook stops the turn or the user cancels it; and what is built
    around the turn: the session actor that queues prompts and cancels turns,
    undo and redo, the configuration of a session, lifecycle hooks, slash
    commands, the scheduler, the orchestrator of delegations to other agents,
    the editing tools; two parts of querymt-remote/: the invites by which
    peers join a mesh, and the streams of a provider that runs on another
    node; and the providers of Anthropic, OpenAI and Codex with the adapter that
    reads their streams.  Paths below are relative to src/crates/agent/src
    unless they start with querymt/, querymt-remote/ or providers/<name>/,
    which stand for the src of these crates.

    ** The program's parts and how they interact

    A session actor (agent/session_actor.rs) handles its messages one at a
    time.  A prompt starts a task, which waits for the session's execution
    permit, cleans up after an undo (agent/undo.rs), expands slash commands
    (slash_commands/), runs the submit hook (hooks/), stores the user's
    message, takes a snapshot of the worktree (snapshot/) and runs the turn by
    [execute_cycle_state_machine] (agent/execution/mod.rs).  That loads the
    effective history of the session, makes a [ConversationContext] of it and
    runs a state machine over the states of [ExecutionState]
    (middleware/state.rs):

      BeforeLlmCall -> CallLlm -> AfterLlm -> ProcessingToolCalls
        -> (WaitingForEvent ->) BeforeLlmCall ... -> Complete | Stopped | Cancelled

    Before each transition the pipeline of middleware drivers
    (middleware/driver.rs) may replace the state.  The transitions
    (agent/execution/transitions.rs) call the provider, under the retry loops
    of llm_retry.rs; store messages; and run tool calls (tool_calls.rs), which
    run hooks, ask for permissions and record artifacts and delegations.  A
    recorded delegation makes the turn wait for events (wait.rs).  A context
    that has grown too large is compacted, and old tool results are pruned at
    the end of a turn (maintenance.rs, session/compaction.rs,
    session/pruning.rs).

    A requested delegation is an event on which the orchestrator
    (delegation/core.rs) spawns a task: it starts a child session of another
    agent, prompts it, verifies its result and reports the outcome, which is
    the event the waiting turn receives.  The scheduler (scheduler/mod.rs)
    starts turns by itself, at times or when enough events were seen, with its
    schedules in the database (session/repo_schedule.rs) and a lease that makes
    one instance the leader.

    A provider of another node of the mesh is called through a host there, which
    reads its stream and relays the chunks in batches, with heartbeats, a lease
    and a grace for reconnecting (querymt-remote/provider_host_actor.rs); a
    router on the calling node buffers and delivers them
    (provider_stream_router.rs), and the client's stream yields them one by one
    (provider_client_runtime.rs, remote_chat_provider.rs).

    ** The model

    Stateful code is written in the state-and-error monad [M] of this file;
    an error keeps the effects before it, as an early return by [?] does.  The
    state of a turn is the record [World] (World.v): the stored messages,
    tasks, delegations, progress and artifacts, the emitted events, the
    permission cache and the other fields of [SessionRuntime], the events still
    to be received by the turn's receiver, the middleware's cells, and a
    logical clock.  Everything outside the modelled code is a parameter, in two
    classes: [Json] (Json.v) for serde_json, with the laws that are used, and
    [Env] (World.v) for the provider, the hooks, the tools, the client, the
    stores' failures, the snapshots of the MCP tools, time, random ids, the
    order of a race and the moment of a cancellation.  Each interaction with
    the outside moves the clock, and an answer of the environment is a function
    of the clock and of the request: no two interactions need to be answered
    alike, and a theorem about every [Env] is one about every behaviour of the
    outside.  Cancellation is a moment of the clock from which on the token is
    cancelled.  The other components have worlds of their own, of the same
    kind: [UndoWorld] (files, snapshot repository and session rows),
    [ConfigWorld] (sessions and model configurations), [PromptWorld] (a
    [World] and the intent rows), [SchedWorld], [Disk] (the files the editing
    tools see), [MeshNode] (the two stores of a mesh node and their files),
    [HostSystem] (the task of a provider stream), [RoutedRequest] and
    [ClientStream] (its two other ends), with the classes [Channels] and
    [Network] for the channels and the links between them.  A message sent
    over a link with an acknowledgement has arrived when the sending reports
    no error; one sent without is only handed over, and may be lost unnoticed.
    The snapshot library follows renames ([ue_renames]), as its diffs do.

    [select!] between a future and the cancellation is [select_cancel]: once
    the token is cancelled either branch may win, as the environment says.  The
    futures of a batch of tool calls ([join_all]) run in call order, each of
    them possibly dropped at any of its await points once the token is
    cancelled; that their awaits interleave is not modelled.

    Concurrency is a step relation over a system's state, and the properties
    are invariants of every interleaving: [sched_step] (Scheduler.v: mailbox,
    timers, renewal loop, other instances), [orch_step] (Delegations.v: the
    listener and the delegation tasks, each of which runs a program of
    operations that can stop at any await) and [actor_step] (SessionActor.v:
    the actor's mailbox and its prompt tasks).

    Integers: [usize], [u64] and [u32] are [Z] with their wrap-around in the
    arithmetic ([usize_add], [u64_add], [u32_add]) and their clamping in
    [u32_from_usize]; list lengths and attempt counters are [nat].  [f64] is
    the binary64 of the Standard Library's [SpecFloat].  Text is a [string] of
    UTF-8 bytes.

    ** Files

    Shared:
    - Prelude.v: results, the monad with its weakest preconditions ([wp]) and
      frame predicate ([keeps]), strings and lists, the [qmt] hint databases.
    - Numbers.v, Text.v, TextOps.v, Json.v: machine numbers, UTF-8 text with the
      truncation helpers of agent/utils.rs, tools/builtins/helpers.rs and
      querymt-utils, the [str] and path operations the code uses, JSON.

    Data:
    - Chat.v: querymt/chat/mod.rs, lib.rs, providers/types.rs.
    - LlmErrors.v: querymt/error.rs.
    - Domain.v: session/domain.rs, index/merkle.rs ([DiffPaths]) and the modes
      and policies of agent/core.rs.  Events.v: events.rs.  Hooks.v: the
      requests and results of hooks/engine.rs.
    - Model.v: model.rs, the stored messages and their conversion for the
      provider.  ExecState.v: middleware/state.rs, model_info.rs.

    The turn (state and operations under the names of the code):
    - World.v: the state, the environment, and session/provider.rs.
    - Driver.v, Limits.v, ContextMw.v, DelegationMw.v: the drivers of
      middleware/; a driver is a record of handlers ([MiddlewareDriver]), and
      a driver with state owns the cell of the world at its index.
    - AgentConfig.v: agent/agent_config.rs, agent/tools.rs, tools/registry.rs,
      config/execution.rs.
    - Retry.v: agent/execution/llm_retry.rs.
    - CallLlm.v, Transitions.v: agent/execution/transitions.rs.
    - ToolCalls.v: agent/execution/tool_calls.rs, with session/runtime.rs and
      session/repo_delegation.rs.
    - Wait.v: agent/execution/wait.rs.
    - Pruning.v, Compaction.v: session/pruning.rs, session/compaction.rs.
    - Maintenance.v: agent/execution/maintenance.rs.
    - Machine.v: agent/execution/mod.rs; [step_machine] is one iteration of the
      loop and [run_machine] the loop.

    Around the turn:
    - PromptTurn.v: the prompt task of agent/session_actor.rs after its permit,
      session/runtime.rs (the working context) and session/repo_intent.rs.
    - SessionActor.v: the actor, its messages and the wait for the permit.
      LlmConfigs.v: its messages that change a session's model, with
      querymt/params.rs and the rows of session/store.rs.
    - SessionRows.v, Undo.v: error.rs; the statements on messages, revert
      frames and the event journal and [fork_session] (session/sqlite_storage/),
      snapshot/git.rs,
      agent/undo.rs.
    - HookWire.v, HookEngine.v: hooks/config.rs, schema.rs, output_parser.rs;
      runner.rs and engine.rs.
    - SlashCommands.v: slash_commands/.
    - EditTool.v, EditOutput.v: tools/builtins/edit.rs (the matching strategies)
      and edit_output.rs (hunks and receipts).  FileTools.v: the calls of the
      edit, multiedit, write and delete tools over a disk; tools/context.rs.
    - Invites.v: querymt-remote/invite.rs (grants, tokens, their bytes).
      MeshAdmission.v: its store of invites, querymt-remote/scope.rs and
      mesh_state.rs, the admission handler of agent/remote/node_manager.rs,
      admission.rs, mesh/join.rs and api/mesh/invite.rs.
    - RemoteStreams.v: querymt-remote/provider_protocol.rs,
      stream_router_protocol.rs, provider_stream_router.rs,
      provider_host_actor.rs (a handler of the actor runs between two
      iterations of the task), provider_stream_state.rs, the stream of
      remote_chat_provider.rs, provider_host_support.rs and the allowlist of
      provider_backend_helpers.rs.
    - Providers.v: querymt/adapters.rs (the lines of a stream),
      providers/anthropic/lib.rs, providers/openai/api.rs.  Codex.v:
      providers/codex/api.rs.
    - ScheduleDomain.v, ScheduleRepo.v: session/domain_schedule.rs,
      scheduler/wake.rs, session/repo_schedule.rs.  SchedWorld.v, Scheduler.v:
      scheduler/mod.rs and messages.rs.
    - Delegations.v: delegation/core.rs, model_overrides.rs, summarizer.rs.

    Specifications, invariants and their lemmas:
    - ModelCall.v: the response as a function of the chunks of one stream.
    - Pairing.v, CycleInv.v: the pairing invariant, as an automaton over the
      stored history ([open_calls]), and the class [WellBehaved] of drivers
      that respect it, with an instance for each modelled driver.
    - Termination.v: the measure of an iteration and the class [Calm] of
      drivers that do not undo progress.
    - WaitSpec.v: which outcomes settle a wait.
    - SchedWake.v, SchedStates.v: the scheduler's wake invariant; what its
      handlers write to the schedule rows, message by message
      ([message_changes]).
    - DelegationSpec.v: the outcome of a delegation, as a scan of its
      operations.
    - UndoSpec.v: the contents of the worktree after patches are undone.
    - EditSpec.v: lines and their offsets in a text; the regions of a diff and
      the patch they are.
    - Fixtures.v: concrete environments, for witnesses and examples.

    Properties (the comment of a listed one begins with its number):
    - CycleProps.v: the pairing of tool uses and results over a whole turn, for
      any providers, tools, hooks and failures; what storing a response and
      running its calls write; termination under a step limit; and the ways in
      which a turn leaves calls open, restarts or runs on for ever.
      PromptProps.v: the same pairing over a whole prompt, and what a prompt
      stores and announces on each of its paths.
    - ModelProps.v: retries, streaming, cache breakpoints, usage and cost.
    - WaitProps.v: both wait policies, the clean-up after a timeout, and that a
      turn awaits exactly the delegations it recorded.
    - MiddlewareProps.v: composition of pipelines, limits, context warnings,
      the delegation guard, task completion.
    - HistoryProps.v: effective history, compaction, pruning.
    - ToolProps.v: permissions, dispatch, the tools offered, truncation.
    - WireProps.v: conversion of the history for the provider, with the results
      of one batch that were stored apart merged; errors on the wire.
    - SchedulerProps.v: no wake is lost, one leader per lease, the changes each
      message makes to the schedules and their states, the outcome of
      completions and failures, thresholds and backoff.
    - DelegationProps.v: a delegation settles once, in the state it reports;
      the bound on those running; what a cancellation leaves out.
    - ActorProps.v: the turns of a session never overlap; which turns a
      cancellation reaches.
    - UndoProps.v: what an undo restores, that a redo brings it back (but for
      files that were moved), and that the next prompt drops exactly the undone
      turns.
    - ConfigProps.v: a change of one session's configuration leaves the others;
      what a change of the model keeps.
    - HookProps.v: the order and the failures of an event's commands, and the
      verdicts of several of them.
    - SlashProps.v: the registry holds the best command of each name; when a
      text is an invocation and what it expands to.
    - EditProps.v: an edit changes one place, several are made or none, and a
      receipt's hunks are a patch.  ForkProps.v: what a fork copies.
    - MeshProps.v: an invite gives out no more memberships than it has uses; its
      text decodes to what was signed; what a signature covers; what admission
      asks for, and exactly which tokens readmission takes; the search for an admitting node ends; scopes
      keep their names apart.
    - RemoteProps.v: what the client yields of what the provider streamed, by
      what the link keeps ([Guarantee]: anything may happen, messages are only
      lost, or all arrive in order), with one theorem on each of host, router and
      client and their composition; the relaying loop ends on a link that is
      down; an expired lease ends the stream; whose API key a request runs with.
      The lemmas at its end show the executions in which chunks are lost,
      doubled or reordered.
    - ProviderProps.v: a stream does not depend on how the network cuts it; the
      calls the streams of Anthropic and OpenAI complete are the announced ones
      with the streamed arguments; requests keep the pairing of the messages.
      CodexProps.v: the calls of Codex's stream.

    ** Fuel

    Loops whose end is not structural take fuel and fail with [OutOfFuel]
    without it.  The search of a joiner takes its fuel as an argument, and
    [admission_search_ends] says how much is enough.  The retry loops are given
    [max_retries + 1] ([retry_fuel]), and the streaming loop [max_stream_retries + 2] ([stream_fuel]): each of
    their iterations but the last uses up an attempt, and the theorem
    [model_call_answers_context] shows that a model call never runs out.
    The loops of a provider stream are runs of single steps ([host_run]), and
    [dead_link_ends_stream] and [expired_lease_ends_stream] bound how many are
    needed; the client's loop recurses on the turns that come.  The
    waits recurse on the events still to be received, and the compaction
    retries on their number.  The loop of a turn takes its fuel as an argument,
    since a turn need not end: [cycle_terminates] shows that
    [10 * max_steps + 9] iterations ([cycle_fuel]) are enough under a step
    limit with a model that reports its usage (a step takes at most five
    iterations, one in each working state, and the single continuation a stop
    hook is granted can start the turn over once), and
    [unreported_usage_never_stops] and [blocked_compaction_never_ends] exhibit
    turns that do not end.  The commits of a snapshot repository are walked
    with as much fuel as there are commits: a chain of parents visits no
    commit twice.  [free_index] (Codex.v) looks at as many indices as there are
    entries, which [free_index_is_free] shows is enough.  [occurrences] (EditTool.v) advances by at least a byte.
    ** Not modelled

    Logging and tracing; the agent handles, the session registry and the remote
    mesh beside admission and provider streams; the processes, networks, files and SQL behind the environments, apart
    from the statements named above; the elicitation channel of a tool; the
    event relays and file proxying of the session actor;
    snapshots' ignore rules, which are git's; the code indexes, the knowledge
    store, exports, authentication, the user interface servers, and the wire
    formats of the other providers.  Of the program's own
    logic this leaves out the deduplication driver (it needs the function
    index), templates, the text processing of the knowledge store, the patch
    and read tools and skills. *)
From stdpp Require Export base list list_numbers strings pretty gmap sets.
From Stdlib Require Export ZArith Lia.

Declare Scope qmt_scope.
Delimit Scope qmt_scope with qmt.
#[global] Open Scope qmt_scope.

Create HintDb qmt.
Create Rewrite HintDb qmt.

(** ** Rust's [Result] *)

Inductive result (E A : Type) : Type :=
| Ok (a : A)
| Err (e : E).
Arguments Ok {E A} a.
Arguments Err {E A} e.

Definition is_ok {E A} (r : result E A) : bool :=
  match r with Ok _ => true | Err _ => false end.

(** ** The state-and-error monad the stateful code is translated to

    A computation reads and updates a store [S] and either returns a value or
    fails; the store as it is at the failure is kept, as it is in the code,
    where an early [?] return leaves every earlier effect in place. *)

Definition M (S E A : Type) : Type := S -> result E A * S.

#[export] Instance M_ret {S E} : MRet (M S E) := fun A a s => (Ok a, s).

#[export] Instance M_bind {S E} : MBind (M S E) := fun A B f m s =>
  match m s with
  | (Ok a, s') => f a s'
  | (Err e, s') => (Err e, s')
  end.

Definition fail {S E A} (e : E) : M S E A := fun s => (Err e, s).
Definition get {S E} : M S E S := fun s => (Ok s, s).
Definition gets {S E A} (f : S -> A) : M S E A := fun s => (Ok (f s), s).
Definition modify {S E} (f : S -> S) : M S E unit := fun s => (Ok tt, f s).

(** An update of the store that gives a value. *)
Definition updating {S E A} (f : S -> A * S) : M S E A := fun s => let '(a, s') := f s in (Ok a, s').

(** The result of a fallible call as a value ([match call().await { Ok.. Err.. }]). *)
Definition attempt {S E A} (m : M S E A) : M S E (result E A) := fun s =>
  let '(r, s') := m s in (Ok r, s').

Definition lift_result {S E A} (r : result E A) : M S E A := fun s => (r, s).

Fixpoint mapM_ {S E A} (f : A -> M S E unit) (l : list A) : M S E unit :=
  match l with
  | [] => mret tt
  | x :: l' => f x ≫= fun _ => mapM_ f l'
  end.

(** ** Equations of the monad *)

Section monad_lemmas.
Context {S E : Type}.

Lemma bind_ret {A B} (a : A) (f : A -> M S E B) (s : S) :
  (mret a ≫= f) s = f a s.
Proof. reflexivity. Qed.

Lemma bind_ok {A B} (m : M S E A) (f : A -> M S E B) s a s' :
  m s = (Ok a, s') -> (m ≫= f) s = f a s'.
Proof. intros H. unfold mbind, M_bind. by rewrite H. Qed.

Lemma bind_err {A B} (m : M S E A) (f : A -> M S E B) s e s' :
  m s = (Err e, s') -> (m ≫= f) s = (Err e, s').
Proof. intros H. unfold mbind, M_bind. by rewrite H. Qed.

Lemma bind_inv_ok {A B} (m : M S E A) (f : A -> M S E B) s b s'' :
  (m ≫= f) s = (Ok b, s'') -> exists a s', m s = (Ok a, s') /\ f a s' = (Ok b, s'').
Proof.
  unfold mbind, M_bind. destruct (m s) as [[a|e] s'] eqn:Em; intros H; [|by simplify_eq].
  eauto.
Qed.
End monad_lemmas.

(** Runs the first of two composed computations, when it only returns. *)
Ltac run_ret :=
  match goal with
  | |- context [mbind ?f (mret ?a) ?s] => change (mbind f (mret a) s) with (f a s); cbv beta
  end.

(** ** Postconditions

    [wp m Q] holds at [s] when every outcome of [m] from [s], a result or an
    error, satisfies [Q].  Proofs about a handler go through its calls with
    the rules below, and the specification of each call. *)

Definition wp {S E A} (m : M S E A) (Q : result E A -> S -> Prop) (s : S) : Prop :=
  let '(r, s') := m s in Q r s'.

Section wp_rules.
Context {S E : Type}.

Lemma wp_ret {A} (a : A) (Q : result E A -> S -> Prop) s :
  Q (Ok a) s -> wp (mret a) Q s.
Proof. auto. Qed.

Lemma wp_fail {A} (e : E) (Q : result E A -> S -> Prop) s :
  Q (Err e) s -> wp (fail e) Q s.
Proof. auto. Qed.

Lemma wp_bind {A B} (m : M S E A) (f : A -> M S E B) (Q : result E B -> S -> Prop) s :
  wp m (fun r s' => match r with Ok a => wp (f a) Q s' | Err e => Q (Err e) s' end) s ->
  wp (m ≫= f) Q s.
Proof. unfold wp, mbind, M_bind. by destruct (m s) as [[a|e] s']. Qed.

Lemma wp_mono {A} (m : M S E A) (P Q : result E A -> S -> Prop) s :
  wp m P s -> (forall r s', P r s' -> Q r s') -> wp m Q s.
Proof. unfold wp. destruct (m s); auto. Qed.

Lemma wp_conj {A} (m : M S E A) (P Q : result E A -> S -> Prop) s :
  wp m P s -> wp m Q s -> wp m (fun r s' => P r s' /\ Q r s') s.
Proof. unfold wp. destruct (m s); auto. Qed.

Lemma wp_attempt {A} (m : M S E A) (Q : result E (result E A) -> S -> Prop) s :
  wp m (fun r s' => Q (Ok r) s') s -> wp (attempt m) Q s.
Proof. unfold wp, attempt. by destruct (m s). Qed.

Lemma wp_gets {A} (f : S -> A) (Q : result E A -> S -> Prop) s :
  Q (Ok (f s)) s -> wp (gets f) Q s.
Proof. auto. Qed.

Lemma wp_modify (f : S -> S) (Q : result E unit -> S -> Prop) s :
  Q (Ok tt) (f s) -> wp (modify f) Q s.
Proof. auto. Qed.

Lemma wp_updating {A} (f : S -> A * S) (Q : result E A -> S -> Prop) s :
  Q (Ok (f s).1) (f s).2 -> wp (updating f) Q s.
Proof. unfold wp, updating. by destruct (f s). Qed.

Lemma wp_lift {A} (r : result E A) (Q : result E A -> S -> Prop) s :
  Q r s -> wp (lift_result r) Q s.
Proof. auto. Qed.

Lemma wp_run {A} (m : M S E A) (Q : result E A -> S -> Prop) s r s' :
  wp m Q s -> m s = (r, s') -> Q r s'.
Proof. unfold wp. intros H E1. by rewrite E1 in H. Qed.

Lemma wp_intro {A} (m : M S E A) (Q : result E A -> S -> Prop) s :
  (forall r s', m s = (r, s') -> Q r s') -> wp m Q s.
Proof. unfold wp. destruct (m s); auto. Qed.

(** A computation keeps an invariant of the store when each of its parts does. *)
Definition keeps {A} (I : S -> Prop) (m : M S E A) : Prop :=
  forall s, I s -> wp m (fun _ s' => I s') s.

Lemma keeps_ret {A} I (a : A) : keeps I (mret a).
Proof. intros s H. exact H. Qed.

Lemma keeps_fail {A} I (e : E) : keeps I (fail (A:=A) e).
Proof. intros s H. exact H. Qed.

Lemma keeps_gets {A} I (f : S -> A) : keeps I (gets f).
Proof. intros s H. exact H. Qed.

Lemma keeps_lift {A} I (r : result E A) : keeps I (lift_result r).
Proof. intros s H. exact H. Qed.

Lemma keeps_bind {A B} I (m : M S E A) (f : A -> M S E B) :
  keeps I m -> (forall a, keeps I (f a)) -> keeps I (m ≫= f).
Proof.
  intros Hm Hf s Hs. apply wp_bind. eapply wp_mono; [by apply Hm|].
  intros [a|e] s' Hs'; [by apply Hf|done].
Qed.

Lemma keeps_attempt {A} I (m : M S E A) : keeps I m -> keeps I (attempt m).
Proof. intros Hm s Hs. apply wp_attempt. by apply Hm. Qed.

Lemma keeps_modify I (f : S -> S) : (forall s, I s -> I (f s)) -> keeps I (modify f).
Proof. intros Hf s Hs. by apply Hf. Qed.

Lemma keeps_updating {A} I (f : S -> A * S) :
  (forall s, I s -> I (f s).2) -> keeps I (updating f).
Proof. intros Hf s Hs. apply wp_updating. by apply Hf. Qed.

Lemma keeps_mapM_ {A} I (f : A -> M S E unit) l :
  (forall a, keeps I (f a)) -> keeps I (mapM_ f l).
Proof. intros Hf. induction l; simpl; [apply keeps_ret|by apply keeps_bind]. Qed.
End wp_rules.

#[export] Hint Resolve keeps_ret keeps_fail keeps_gets keeps_lift keeps_bind keeps_attempt
  keeps_mapM_ : qmt.

(** [keeps] goes through a computation by its syntax: binds, branches and the
    registered [keeps] lemmas of the operations it calls. *)
Ltac keeps_step :=
  match goal with
  | |- keeps _ (mbind _ _) => apply keeps_bind; [|intros ?]
  | |- keeps _ (mret _) => apply keeps_ret
  | |- keeps _ (fail _) => apply keeps_fail
  | |- keeps _ (gets _) => apply keeps_gets
  | |- keeps _ (lift_result _) => apply keeps_lift
  | |- keeps _ (attempt _) => apply keeps_attempt
  | |- keeps _ (mapM_ _ _) => apply keeps_mapM_; intros ?
  | |- keeps _ (match ?x with _ => _ end) => destruct x eqn:?
  | |- keeps _ (let '_ := ?x in _) => destruct x eqn:?
  | |- keeps _ _ => solve [eauto with qmt]
  end.
Ltac keeps_auto := intros; repeat (keeps_step; cbn beta iota).

(** ** Options *)

Definition unwrap_or {A} (d : A) (o : option A) : A := default d o.

Definition or_else {A} (o d : option A) : option A :=
  match o with Some a => Some a | None => d end.

Lemma or_else_None_r {A} (o : option A) : or_else o None = o.
Proof. by destruct o. Qed.

(** ** Lists *)

Section list_lemmas.
Context {A : Type}.

(** [l.last()] *)
Lemma last_app_singleton (l : list A) x : last (l ++ [x]) = Some x.
Proof. apply last_snoc. Qed.

Lemma omap_cons {B} (f : A -> option B) x l : omap f (x :: l) =
  match f x with Some y => y :: omap f l | None => omap f l end.
Proof. reflexivity. Qed.

Lemma prefix_trans' (l1 l2 l3 : list A) :
  l1 `prefix_of` l2 -> l2 `prefix_of` l3 -> l1 `prefix_of` l3.
Proof. intros. by etrans. Qed.
End list_lemmas.

(** [l.sort_by], which is stable, and [ORDER BY key ASC] where rows that tie
    stay in the order of their ids. *)
Fixpoint insert_on {A} (le : A -> A -> bool) (x : A) (l : list A) : list A :=
  match l with
  | [] => [x]
  | y :: l' => if le x y then x :: l else y :: insert_on le x l'
  end.
Definition sort_on {A} (le : A -> A -> bool) (l : list A) : list A := foldr (insert_on le) [] l.

(** [items.join(sep)] *)
Fixpoint join (sep : string) (l : list string) : string :=
  match l with
  | [] => ""
  | [s] => s
  | s :: l' => s +:+ sep +:+ join sep l'
  end.

(** Byte length of a string ([str::len]). *)
Abbreviation slen := String.length.

Definition is_empty_str (s : string) : bool :=
  match s with EmptyString => true | _ => false end.

Lemma is_empty_str_spec s : is_empty_str s = true <-> s = "".
Proof. by destruct s. Qed.

(** String concatenation laws used by every accumulator proof. *)
Lemma sapp_cons c (s t : string) : String c s +:+ t = String c (s +:+ t).
Proof. reflexivity. Qed.

Lemma sapp_nil_l (s : string) : "" +:+ s = s.
Proof. reflexivity. Qed.

Lemma sapp_nil_r (s : string) : s +:+ "" = s.
Proof. induction s as [|c s IH]; [done|]. by rewrite sapp_cons, IH. Qed.

Lemma sapp_assoc (a b c : string) : a +:+ (b +:+ c) = (a +:+ b) +:+ c.
Proof. induction a as [|x a IH]; [done|]. by rewrite !sapp_cons, IH. Qed.

Lemma slen_app (a b : string) : slen (a +:+ b) = (slen a + slen b)%nat.
Proof. induction a as [|x a IH]; [done|]. rewrite sapp_cons. simpl. by rewrite IH. Qed.

#[export] Hint Rewrite sapp_nil_l sapp_nil_r slen_app : qmt.

Fixpoint sconcat (l : list string) : string :=
  match l with [] => "" | s :: l' => s +:+ sconcat l' end.

Lemma sconcat_app l1 l2 : sconcat (l1 ++ l2) = sconcat l1 +:+ sconcat l2.
Proof. induction l1 as [|s l1 IH]; [done|]. simpl. by rewrite IH, sapp_assoc. Qed.

(** A Rust character literal: newline. *)
Definition nl : string := String (Ascii.ascii_of_nat 10) "".

(** [m.map_err(f)] *)
Definition map_err {S E E' A} (f : E -> E') (m : M S E A) : M S E' A := fun s =>
  match m s with
  | (Ok a, s') => (Ok a, s')
  | (Err e, s') => (Err (f e), s')
  end.

Lemma wp_map_err {S E E' A} (f : E -> E') (m : M S E A) (Q : result E' A -> S -> Prop) s :
  wp m (fun r s' => Q (match r with Ok a => Ok a | Err e => Err (f e) end) s') s ->
  wp (map_err f m) Q s.
Proof. unfold wp, map_err. by destruct (m s) as [[a|e] s']. Qed.

Lemma keeps_map_err {S E E' A} (I : S -> Prop) (f : E -> E') (m : M S E A) :
  keeps I m -> keeps I (map_err f m).
Proof. intros Hm s Hs. apply wp_map_err. by apply Hm. Qed.

#[export] Hint Resolve keeps_map_err : qmt.
