(* ===== verification/Numbers.v ===== *)
(** Machine numbers: Rust's [u32], [u64] and [usize] as [Z] with their
    wrap-around and clamping conversions, and [f64] as the IEEE 754 binary64
    operations of the Standard Library's [SpecFloat] (53 bits of precision,
    emax 1024), with the conversions and the fixed-precision formatting the
    agent uses. *)
From S2P Require Import Prelude.
From Stdlib Require Import SpecFloat.

Local Open Scope Z_scope.

(** ** Unsigned integers *)

Definition U32_MAX : Z := 2 ^ 32 - 1.
Definition U64_MOD : Z := 2 ^ 64.

Definition is_u32 (z : Z) : Prop := 0 <= z < 2 ^ 32.
Definition is_u64 (z : Z) : Prop := 0 <= z < 2 ^ 64.

(** [+] on [u32], [u64] and [usize] in a release build wraps. *)
Definition u32_add (a b : Z) : Z := (a + b) mod 2 ^ 32.
Definition u64_add (a b : Z) : Z := (a + b) mod 2 ^ 64.
Definition usize_add (a b : Z) : Z := (a + b) mod 2 ^ 64.

Definition usize_saturating_add (a b : Z) : Z := Z.min (a + b) (2 ^ 64 - 1).
Definition u32_saturating_add (a b : Z) : Z := Z.min (a + b) (2 ^ 32 - 1).
Definition u32_saturating_sub (a b : Z) : Z := Z.max (a - b) 0.
Definition u32_saturating_mul (a b : Z) : Z := Z.min (a * b) (2 ^ 32 - 1).
Definition usize_saturating_mul (a b : Z) : Z := Z.min (a * b) (2 ^ 64 - 1).
Definition div_ceil (a b : Z) : Z := (a + b - 1) / b.

Lemma u64_add_small a b : 0 <= a -> 0 <= b -> a + b < 2 ^ 64 -> u64_add a b = a + b.
Proof. intros. unfold u64_add. apply Z.mod_small. lia. Qed.

Lemma usize_add_small a b : 0 <= a -> 0 <= b -> a + b < 2 ^ 64 -> usize_add a b = a + b.
Proof. intros. unfold usize_add. apply Z.mod_small. lia. Qed.

Lemma u32_add_small a b : 0 <= a -> 0 <= b -> a + b < 2 ^ 32 -> u32_add a b = a + b.
Proof. intros. unfold u32_add. apply Z.mod_small. lia. Qed.

Lemma u64_add_range a b : is_u64 (u64_add a b).
Proof. unfold is_u64, u64_add. apply Z.mod_pos_bound. lia. Qed.

Lemma u32_add_range a b : is_u32 (u32_add a b).
Proof. unfold is_u32, u32_add. apply Z.mod_pos_bound. lia. Qed.

#[export] Hint Resolve u64_add_range u32_add_range : qmt.

(** ** [f64] *)

Definition f64 : Type := spec_float.

Definition f64_prec : Z := 53.
Definition f64_emax : Z := 1024.

Definition f64_add : f64 -> f64 -> f64 := SFadd f64_prec f64_emax.
Definition f64_sub : f64 -> f64 -> f64 := SFsub f64_prec f64_emax.
Definition f64_mul : f64 -> f64 -> f64 := SFmul f64_prec f64_emax.
Definition f64_div : f64 -> f64 -> f64 := SFdiv f64_prec f64_emax.
Definition f64_sqrt : f64 -> f64 := SFsqrt f64_prec f64_emax.

(** [z as f64], to the nearest, ties to even. *)
Definition f64_of_Z (z : Z) : f64 := binary_normalize f64_prec f64_emax z 0 false.

Definition f64_lt : f64 -> f64 -> bool := SFltb.
Definition f64_gt (x y : f64) : bool := SFltb y x.
Definition f64_is_nan (x : f64) : bool :=
  match x with S754_nan => true | _ => false end.

(** [f64::min] and [f64::max]: the other operand when one is a NaN. *)
Definition f64_min (x y : f64) : f64 :=
  if f64_is_nan x then y else if f64_is_nan y then x else if f64_lt y x then y else x.
Definition f64_max (x y : f64) : f64 :=
  if f64_is_nan x then y else if f64_is_nan y then x else if f64_lt x y then y else x.

(** The integer part of a finite float, towards zero. *)
Definition f64_trunc (x : f64) : option Z :=
  match x with
  | S754_zero _ => Some 0
  | S754_finite s m e =>
      let a := match e with
               | Z0 => Zpos m
               | Zpos p => Zpos m * 2 ^ Zpos p
               | Zneg p => Zpos m / 2 ^ Zpos p
               end in
      Some (if s then - a else a)
  | _ => None
  end.

(** [x as uN]: truncation, saturating at the bounds, NaN to 0. *)
Definition f64_as_unsigned (max : Z) (x : f64) : Z :=
  match x with
  | S754_nan => 0
  | S754_infinity s => if s then 0 else max
  | _ => match f64_trunc x with
         | Some z => Z.min max (Z.max 0 z)
         | None => 0
         end
  end.
Definition f64_as_usize : f64 -> Z := f64_as_unsigned (2 ^ 64 - 1).
Definition f64_as_u32 : f64 -> Z := f64_as_unsigned (2 ^ 32 - 1).

Lemma f64_as_unsigned_range max x : 0 <= max -> 0 <= f64_as_unsigned max x <= max.
Proof.
  intros Hm. unfold f64_as_unsigned.
  destruct x as [s|s| |s m e]; simpl; try destruct s; lia.
Qed.

(** [x.floor()] *)
Definition f64_floor (x : f64) : f64 :=
  match x with
  | S754_finite s m (Zneg p) =>
      let q := Zpos m / 2 ^ Zpos p in
      let r := Zpos m mod 2 ^ Zpos p in
      let z := if s then (if r =? 0 then - q else - q - 1) else q in
      binary_normalize f64_prec f64_emax z 0 s
  | _ => x
  end.

(** [{:.N}] formatting: the exact value rounded to N decimals, ties to even. *)
Definition dec_of_Z (z : Z) : string := pretty z.

Fixpoint pad_zeros (n : nat) (s : string) : string :=
  match n with O => s | S n' => String (Ascii.ascii_of_nat 48) (pad_zeros n' s) end.

Definition fmt_scaled (neg : bool) (q : Z) (prec : nat) : string :=
  let p := 10 ^ Z.of_nat prec in
  let whole := dec_of_Z (q / p) in
  let frac := dec_of_Z (q mod p) in
  (if neg then "-" else "") +:+
  match prec with
  | O => whole
  | _ => whole +:+ "." +:+ pad_zeros (prec - slen frac) frac
  end.

Definition fmt_fixed (prec : nat) (x : f64) : string :=
  match x with
  | S754_nan => "NaN"
  | S754_infinity s => if s then "-inf" else "inf"
  | S754_zero s => fmt_scaled s 0 prec
  | S754_finite s m e =>
      let n := Zpos m * 10 ^ Z.of_nat prec in
      let q := match e with
               | Zneg p =>
                   let d := 2 ^ Zpos p in
                   let q := n / d in
                   let r := n mod d in
                   if 2 * r <? d then q
                   else if d <? 2 * r then q + 1
                   else if Z.even q then q else q + 1
               | _ => n * 2 ^ e
               end in
      fmt_scaled s q prec
  end.

Example fmt_fixed_third : fmt_fixed 4 (f64_div (f64_of_Z 1) (f64_of_Z 3)) = "0.3333".
Proof. vm_compute. reflexivity. Qed.

Example fmt_fixed_half_even : fmt_fixed 0 (f64_div (f64_of_Z 5) (f64_of_Z 2)) = "2".
Proof. vm_compute. reflexivity. Qed.

Example f64_as_usize_ex : f64_as_usize (f64_mul (f64_of_Z 32000) (f64_div (f64_of_Z 85) (f64_of_Z 100))) = 27200.
Proof. vm_compute. reflexivity. Qed.
