(* ===== verification/Text.v ===== *)
(** UTF-8 text: the characters and character boundaries of a Rust [str]
    (a byte string here), [trim], [lines], and the two truncation routines of
    the agent: [truncate_to_bytes] (agent/utils.rs) and [truncate_output] with
    its messages (tools/builtins/helpers.rs). *)
From S2P Require Import Prelude Numbers.

(** ** Characters of a byte string *)

Definition byte_of (c : Ascii.ascii) : N := Ascii.N_of_ascii c.

(** A UTF-8 continuation byte: [10xxxxxx]. *)
Definition is_cont (c : Ascii.ascii) : bool := N.eqb (N.land (byte_of c) 192) 128.

Definition starts_with_cont (s : string) : bool :=
  match s with EmptyString => false | String c _ => is_cont c end.

(** [s.chars()], each character as the string of its bytes. *)
Fixpoint chars (s : string) : list string :=
  match s with
  | EmptyString => []
  | String c s' =>
      match chars s' with
      | [] => [String c ""]
      | ch :: rest =>
          if starts_with_cont ch then String c ch :: rest else String c "" :: ch :: rest
      end
  end.

(** [s.chars().take(n).collect()] and [s.chars().skip(n).collect()] *)
Definition take_chars (n : nat) (s : string) : string := sconcat (take n (chars s)).
Definition skip_chars (n : nat) (s : string) : string := sconcat (drop n (chars s)).
Definition char_count (s : string) : nat := length (chars s).

(** [&s[..n]] and [&s[n..]] *)
Fixpoint str_take (n : nat) (s : string) : string :=
  match n, s with
  | S n', String c s' => String c (str_take n' s')
  | _, _ => ""
  end.

Fixpoint str_drop (n : nat) (s : string) : string :=
  match n, s with
  | S n', String _ s' => str_drop n' s'
  | _, _ => s
  end.

(** [s.is_char_boundary(i)] *)
Fixpoint is_char_boundary (s : string) (i : nat) : bool :=
  match i, s with
  | O, _ => true
  | S O, EmptyString => false
  | S O, String _ s' => negb (starts_with_cont s')
  | S i', String _ s' => is_char_boundary s' i'
  | S _, EmptyString => false
  end.

(** The Unicode White_Space characters, as [char::is_whitespace] has them. *)
Definition is_ws_char (ch : string) : bool :=
  match map byte_of (String.list_ascii_of_string ch) with
  | [b] => (N.leb 9 b && N.leb b 13) || N.eqb b 32
  | [b1; b2] => N.eqb b1 194 && (N.eqb b2 133 || N.eqb b2 160)
  | [b1; b2; b3] =>
      (N.eqb b1 225 && N.eqb b2 154 && N.eqb b3 128)
      || (N.eqb b1 226 && N.eqb b2 128
          && ((N.leb 128 b3 && N.leb b3 138) || N.eqb b3 168 || N.eqb b3 169 || N.eqb b3 175))
      || (N.eqb b1 226 && N.eqb b2 129 && N.eqb b3 159)
      || (N.eqb b1 227 && N.eqb b2 128 && N.eqb b3 128)
  | _ => false
  end.

Fixpoint drop_ws (l : list string) : list string :=
  match l with
  | ch :: l' => if is_ws_char ch then drop_ws l' else l
  | [] => []
  end.

(** [s.trim()] *)
Definition trim (s : string) : string :=
  sconcat (rev (drop_ws (rev (drop_ws (chars s))))).

(** [haystack.contains(needle)] *)
Fixpoint is_prefix_of (p s : string) : bool :=
  match p, s with
  | EmptyString, _ => true
  | String a p', String b s' => Ascii.eqb a b && is_prefix_of p' s'
  | _, EmptyString => false
  end.

Fixpoint contains (s needle : string) : bool :=
  is_prefix_of needle s || match s with EmptyString => false | String _ s' => contains s' needle end.

Fixpoint ends_with_rev (suffix s : list Ascii.ascii) : bool :=
  match suffix, s with
  | [], _ => true
  | a :: p', b :: s' => Ascii.eqb a b && ends_with_rev p' s'
  | _, [] => false
  end.

(** [s.ends_with(suffix)] *)
Definition ends_with (s suffix : string) : bool :=
  ends_with_rev (rev (String.list_ascii_of_string suffix)) (rev (String.list_ascii_of_string s)).

(** [s.to_lowercase()] on its ASCII letters. *)
Definition ascii_lower (c : Ascii.ascii) : Ascii.ascii :=
  if N.leb 65 (byte_of c) && N.leb (byte_of c) 90 then Ascii.ascii_of_N (byte_of c + 32) else c.

Fixpoint to_ascii_lowercase (s : string) : string :=
  match s with EmptyString => "" | String c s' => String (ascii_lower c) (to_ascii_lowercase s') end.

Definition is_nl (c : Ascii.ascii) : bool := N.eqb (byte_of c) 10.

(** [s.split_inclusive('\n')] *)
Fixpoint split_inclusive_nl (s : string) : list string :=
  match s with
  | EmptyString => []
  | String c s' =>
      if is_nl c then String c "" :: split_inclusive_nl s'
      else match split_inclusive_nl s' with
           | [] => [String c ""]
           | l :: rest => String c l :: rest
           end
  end.

(** The line without its ["\n"] or ["\r\n"] terminator. *)
Fixpoint strip_eol (s : string) : string :=
  match s with
  | EmptyString => ""
  | String c EmptyString => if is_nl c then "" else String c ""
  | String c (String d EmptyString) =>
      if is_nl d then (if N.eqb (byte_of c) 13 then "" else String c "")
      else String c (String d "")
  | String c s' => String c (strip_eol s')
  end.

(** [s.lines()] *)
Definition lines (s : string) : list string := map strip_eol (split_inclusive_nl s).

Example lines_ex : lines ("a" +:+ nl +:+ nl +:+ "b") = ["a"; ""; "b"].
Proof. vm_compute. reflexivity. Qed.

(** ** Laws of characters and boundaries *)

Lemma sconcat_chars s : sconcat (chars s) = s.
Proof.
  induction s as [|c s IH]; [done|]. simpl.
  destruct (chars s) as [|ch rest] eqn:E; simpl in *; subst; [done|].
  destruct (starts_with_cont ch); simpl; by rewrite ?sapp_cons.
Qed.

Lemma take_drop_chars n s : take_chars n s +:+ skip_chars n s = s.
Proof. unfold take_chars, skip_chars. by rewrite <- sconcat_app, take_drop, sconcat_chars. Qed.

Lemma str_take_drop n s : str_take n s +:+ str_drop n s = s.
Proof. revert s; induction n; intros [|c s]; simpl; try done. by rewrite sapp_cons, IHn. Qed.

Lemma slen_str_take n s : (n <= slen s)%nat -> slen (str_take n s) = n.
Proof. revert s; induction n; intros [|c s]; simpl; intros; [lia..|]. rewrite IHn; lia. Qed.

Lemma str_take_all s : str_take (slen s) s = s.
Proof. induction s; simpl; by f_equal. Qed.

Lemma is_char_boundary_0 s : is_char_boundary s 0 = true.
Proof. by destruct s. Qed.

Lemma chars_nonempty s ch : ch ∈ chars s -> (1 <= slen ch)%nat.
Proof.
  induction s as [|c s IH]; simpl; [by intros ?%not_elem_of_nil|].
  destruct (chars s) as [|ch' rest] eqn:E.
  - intros ->%list_elem_of_singleton. simpl; lia.
  - destruct (starts_with_cont ch'); rewrite !elem_of_cons; intros H;
      destruct_or?; subst; simpl; try lia; apply IH; set_solver.
Qed.

(** Every character starts at a non-continuation byte, but for the first one. *)
Lemma chars_head s ch rest :
  chars s = ch :: rest -> starts_with_cont ch = starts_with_cont s.
Proof.
  destruct s as [|c s]; simpl; [done|].
  destruct (chars s) as [|ch' rest'] eqn:E; [by intros [= <- <-]|].
  destruct (starts_with_cont ch'); by intros [= <- <-].
Qed.

Lemma char_count_le s : (char_count s <= slen s)%nat.
Proof.
  unfold char_count. induction s as [|c s IH]; simpl; [lia|].
  destruct (chars s); simpl in *; [lia|]. destruct (starts_with_cont _); simpl; lia.
Qed.

Lemma take_chars_length n s : (char_count (take_chars n s) <= slen (take_chars n s))%nat.
Proof. apply char_count_le. Qed.

(** ** [truncate_to_bytes] (agent/utils.rs) *)

Definition truncated_note : string := nl +:+ "[truncated]".

(** [while !input.is_char_boundary(end) && end > 0 { end -= 1 }] *)
Fixpoint boundary_down (s : string) (e : nat) : nat :=
  if is_char_boundary s e then e
  else match e with O => O | S e' => boundary_down s e' end.

Definition truncate_to_bytes (input : string) (max_bytes : nat) : string :=
  if (slen input <=? max_bytes)%nat then input
  else if (max_bytes <=? slen truncated_note)%nat then take_chars max_bytes input
  else str_take (boundary_down input (max_bytes - slen truncated_note)) input +:+ truncated_note.

Lemma boundary_down_le s e : (boundary_down s e <= e)%nat.
Proof. induction e; simpl; destruct (is_char_boundary _ _); lia. Qed.

Lemma boundary_down_S s e :
  boundary_down s (S e) = if is_char_boundary s (S e) then S e else boundary_down s e.
Proof. reflexivity. Qed.

Lemma boundary_down_is_boundary s e : is_char_boundary s (boundary_down s e) = true.
Proof.
  induction e as [|e IH].
  - by destruct s.
  - rewrite boundary_down_S. by destruct (is_char_boundary s (S e)) eqn:E.
Qed.

Lemma boundary_down_max s e i :
  (boundary_down s e < i <= e)%nat -> is_char_boundary s i = false.
Proof.
  induction e as [|e IH]; [destruct s; simpl; lia|].
  rewrite boundary_down_S. intros Hi.
  destruct (is_char_boundary s (S e)) eqn:Eb; [lia|].
  destruct (decide (i = S e)) as [->|]; [done|]. apply IH. lia.
Qed.

(** ** [truncate_output] and its messages (tools/builtins/helpers.rs) *)

Inductive TruncationDirection := Head | Tail.

Record TruncationResult := {
  tr_content : string;
  tr_was_truncated : bool;
  tr_original_line_count : nat;
  tr_original_byte_count : nat;
}.

Definition truncate_lines (ls : list string) (max_lines : nat) (direction : TruncationDirection)
    : list string :=
  if (max_lines <? length ls)%nat
  then match direction with
       | Head => take max_lines ls
       | Tail => drop (length ls - max_lines) ls
       end
  else ls.

Definition truncate_output (content : string) (max_lines max_bytes : nat)
    (direction : TruncationDirection) : TruncationResult :=
  let ls := lines content in
  let by_lines := (max_lines <? length ls)%nat in
  let result := join nl (truncate_lines ls max_lines direction) in
  let by_bytes := (max_bytes <? slen result)%nat in
  {| tr_content :=
       if by_bytes
       then match direction with
            | Head => take_chars max_bytes result
            | Tail => skip_chars (slen result - max_bytes) result
            end
       else result;
     tr_was_truncated := by_lines || by_bytes;
     tr_original_line_count := length ls;
     tr_original_byte_count := slen content |}.

Definition nat_str (n : nat) : string := pretty (N.of_nat n).

Definition dir_str (direction : TruncationDirection) : string :=
  match direction with Head => "first" | Tail => "last" end.

(** [OverflowStorage]: where a tool output that was cut is kept. *)
Inductive OverflowStorage := Discard | TempDir | DataDir.

Record OverflowSaveResult := {
  os_path : option string;
  os_error : option string;
}.

(** [path.push(c)] for a relative component. *)
Definition path_push (p c : string) : string := p +:+ "/" +:+ c.

(** [temp_dir] is the answer of [std::env::temp_dir()]. *)
Definition get_overflow_directory (temp_dir : string) (storage : OverflowStorage)
    (session_id : string) (data_dir : option string) : option string :=
  match storage with
  | Discard => None
  | TempDir => Some (path_push (path_push temp_dir "qmt-tool-outputs") session_id)
  | DataDir =>
      match data_dir with
      | Some d => Some (path_push (path_push d "overflow") session_id)
      | None => None
      end
  end.

(** The file system answers: [create_dir dir] and [write path content] fail with an error text. *)
Definition save_overflow_output (temp_dir : string) (timestamp : Z)
    (create_dir : string -> option string) (write : string -> string -> option string)
    (content : string) (storage : OverflowStorage) (session_id tool_call_id : string)
    (data_dir : option string) : OverflowSaveResult :=
  match get_overflow_directory temp_dir storage session_id data_dir with
  | None => {| os_path := None; os_error := None |}
  | Some dir =>
      match create_dir dir with
      | Some e =>
          {| os_path := None; os_error := Some ("Failed to create overflow directory: " +:+ e) |}
      | None =>
          let filename := tool_call_id +:+ "-" +:+ dec_of_Z timestamp +:+ ".txt" in
          let file_path := path_push dir filename in
          match write file_path content with
          | None => {| os_path := Some file_path; os_error := None |}
          | Some e => {| os_path := None; os_error := Some ("Failed to write overflow file: " +:+ e) |}
          end
      end
  end.

Definition format_truncation_message (result : TruncationResult)
    (direction : TruncationDirection) : string :=
  if negb (tr_was_truncated result) then ""
  else nl +:+ nl +:+ "[Output truncated: showing " +:+ dir_str direction +:+ " "
       +:+ nat_str (length (lines (tr_content result))) +:+ " lines / "
       +:+ nat_str (slen (tr_content result)) +:+ " bytes of "
       +:+ nat_str (tr_original_line_count result) +:+ " lines / "
       +:+ nat_str (tr_original_byte_count result)
       +:+ " bytes total. Use offset/limit parameters to view other sections.]".

Definition format_truncation_message_with_overflow (result : TruncationResult)
    (direction : TruncationDirection) (overflow_result : option OverflowSaveResult)
    (tool_hint : option string) : string :=
  if negb (tr_was_truncated result) then ""
  else
    let overflow_info :=
      match overflow_result with
      | Some {| os_path := Some p |} => " Full output saved to: " +:+ p
      | Some {| os_error := Some e |} => " (Failed to save overflow: " +:+ e +:+ ")"
      | _ => ""
      end in
    let hint_str := match tool_hint with Some h => nl +:+ nl +:+ h | None => "" end in
    nl +:+ nl +:+ "[Output truncated: showing " +:+ dir_str direction +:+ " "
       +:+ nat_str (length (lines (tr_content result))) +:+ " lines / "
       +:+ nat_str (slen (tr_content result)) +:+ " bytes of "
       +:+ nat_str (tr_original_line_count result) +:+ " lines / "
       +:+ nat_str (tr_original_byte_count result) +:+ " bytes total."
       +:+ overflow_info +:+ "]" +:+ hint_str.

(** [u32_from_usize]: the clamping conversion of the wire-facing counters. *)
Definition u32_from_usize (value : Z) : Z :=
  if Z.leb value U32_MAX then value else U32_MAX.
