(* ===== verification/Json.v ===== *)
(** The interface of [serde_json] the agent relies on. The crate is a
    dependency, not part of the repository, so its values are opaque here and
    the operations are parameters of every definition that uses them. *)
From S2P Require Import Prelude.

(** [serde_json::Value] and the operations the code calls on it. *)
Class Json := {
  Value : Type;
  (** [Value]'s [PartialEq]. *)
  Value_eq_dec :: EqDecision Value;
  (** [Value::Object(Default::default())] and [Value::Null] *)
  object_empty : Value;
  value_null : Value;
  (** [serde_json::from_str::<Value>], with the error's text. *)
  from_str : string -> result string Value;
  (** [v.get(key)] *)
  value_get : Value -> string -> option Value;
  (** [v.as_str()] *)
  value_as_str : Value -> option string;
  (** [Value::String(s)] *)
  value_string : string -> Value;
  (** [json!({k: v, ...})] *)
  value_object : list (string * Value) -> Value;
  (** [v.to_string()] *)
  value_to_string : Value -> string;
}.

Section json.
Context `{J : Json}.

(** [serde_json::from_str(s).unwrap_or_else(|_| Value::Object(Default::default()))] *)
Definition parse_arguments (s : string) : Value :=
  match from_str s with Ok v => v | Err _ => object_empty end.

(** [serde_json::from_str(s).unwrap_or_default()]: [Value::Null] on failure, given as [null]. *)
Definition value_get_str (v : Value) (key : string) : option string :=
  v' ← value_get v key; value_as_str v'.
End json.

(** ** A small instance, for the concrete inputs of the witnesses

    Flat objects of strings, written [{k:v,k:v}]; every text parses. *)
Inductive toy_value : Type :=
| TStr (s : string)
| TObj (fields : list (string * string)).

#[export] Instance toy_value_eq_dec : EqDecision toy_value.
Proof. solve_decision. Defined.

Definition toy_to_string (v : toy_value) : string :=
  match v with
  | TStr s => s
  | TObj fs => "{" +:+ join "," (map (fun kv => kv.1 +:+ ":" +:+ kv.2) fs) +:+ "}"
  end.

(** The pieces of a text between the characters of [is_sep]. *)
Fixpoint toy_split (is_sep : Ascii.ascii -> bool) (s : string) : list string :=
  match s with
  | EmptyString => [""]
  | String c s' =>
      if is_sep c then "" :: toy_split is_sep s'
      else match toy_split is_sep s' with
           | [] => [String c ""]
           | h :: t => String c h :: t
           end
  end.

Definition toy_char (n : nat) (c : Ascii.ascii) : bool := Nat.eqb (Ascii.nat_of_ascii c) n.

Definition toy_field (s : string) : option (string * string) :=
  match toy_split (toy_char 58) s with [k; v] => Some (k, v) | _ => None end.

Definition toy_parse (s : string) : toy_value :=
  match toy_split (fun c => toy_char 123 c || toy_char 125 c) s with
  | [_; body; _] => TObj (omap toy_field (toy_split (toy_char 44) body))
  | _ => TStr s
  end.

Definition toy_json : Json := {|
  Value := toy_value;
  object_empty := TObj [];
  value_null := TStr "null";
  from_str s := Ok (toy_parse s);
  value_get v key :=
    match v with
    | TStr _ => None
    | TObj fs => option_map (fun kv => TStr kv.2) (List.find (fun kv => String.eqb kv.1 key) fs)
    end;
  value_as_str v := match v with TStr s => Some s | TObj _ => None end;
  value_string := TStr;
  value_object fs := TObj (map (fun kv => (kv.1, toy_to_string kv.2)) fs);
  value_to_string := toy_to_string;
|}.

Example toy_parse_ex : toy_parse "{path:a.rs,mode:w}" = TObj [("path", "a.rs"); ("mode", "w")].
Proof. reflexivity. Qed.
