(* ===== verification/Chat.v ===== *)
(** The chat types of the [querymt] crate (chat/mod.rs, lib.rs,
    providers/types.rs): content blocks with their equality and display,
    messages, stream chunks, token usage and model pricing. *)
From S2P Require Import Prelude Numbers Text Json.

Local Open Scope Z_scope.

(** [querymt::FunctionCall] and [querymt::ToolCall] *)
Record FunctionCall := { fc_name : string; fc_arguments : string }.
Record ToolCall := { tc_id : string; tc_call_type : string; tc_function : FunctionCall }.

#[export] Instance FunctionCall_eq_dec : EqDecision FunctionCall.
Proof. solve_decision. Defined.
#[export] Instance ToolCall_eq_dec : EqDecision ToolCall.
Proof. solve_decision. Defined.

Definition tc_name (tc : ToolCall) : string := fc_name (tc_function tc).
Definition tc_arguments (tc : ToolCall) : string := fc_arguments (tc_function tc).

Section content.
Context `{J : Json}.

(** Binary payloads ([Vec<u8>]) are byte strings. *)
Inductive Content : Type :=
| CText (text : string)
| CImage (mime_type : string) (data : string)
| CImageUrl (url : string)
| CPdf (data : string)
| CAudio (mime_type : string) (data : string)
| CThinking (text : string) (signature : option string)
| CToolUse (id name : string) (arguments : Value)
| CToolResult (id : string) (name : option string) (is_error : bool) (content : list Content)
| CResourceLink (uri : string) (name description mime_type : option string).

(** Induction that goes into the blocks of a tool result. *)
Fixpoint Content_nested_ind (P : Content -> Prop)
    (Hleaf : forall c, (forall i n e l, c <> CToolResult i n e l) -> P c)
    (Hres : forall i n e l, Forall P l -> P (CToolResult i n e l)) (c : Content) : P c.
Proof.
  destruct c as [| | | | | | |i n e l|]; try (apply Hleaf; discriminate).
  apply Hres. induction l as [|c l IH]; constructor; [|exact IH].
  apply Content_nested_ind; assumption.
Defined.

(** Constructors ([Content::text] and the like). *)
Definition content_text (s : string) : Content := CText s.
Definition content_image (mime data : string) : Content := CImage mime data.
Definition content_image_url (url : string) : Content := CImageUrl url.
Definition content_pdf (data : string) : Content := CPdf data.
Definition content_audio (mime data : string) : Content := CAudio mime data.
Definition content_thinking (s : string) : Content := CThinking s None.
Definition content_tool_use (id name : string) (arguments : Value) : Content :=
  CToolUse id name arguments.
Definition content_tool_result (id : string) (content : list Content) : Content :=
  CToolResult id None false content.
Definition content_resource_link (uri : string) : Content := CResourceLink uri None None None.
Definition content_tool_result_error (id : string) (content : list Content) : Content :=
  CToolResult id None true content.

Definition as_text (c : Content) : option string :=
  match c with CText t => Some t | _ => None end.
Definition is_tool_use (c : Content) : bool :=
  match c with CToolUse _ _ _ => true | _ => false end.
Definition is_tool_result (c : Content) : bool :=
  match c with CToolResult _ _ _ _ => true | _ => false end.

(** [impl PartialEq for Content] *)
Fixpoint content_eq (c d : Content) : bool :=
  match c, d with
  | CText a, CText b => String.eqb a b
  | CImage ma da, CImage mb db => String.eqb ma mb && String.eqb da db
  | CImageUrl a, CImageUrl b => String.eqb a b
  | CPdf a, CPdf b => String.eqb a b
  | CAudio ma da, CAudio mb db => String.eqb ma mb && String.eqb da db
  | CThinking a sa, CThinking b sb => String.eqb a b && bool_decide (sa = sb)
  | CToolUse ia na aa, CToolUse ib nb ab =>
      String.eqb ia ib && String.eqb na nb && bool_decide (aa = ab)
  | CToolResult ia na ea ca, CToolResult ib nb eb cb =>
      String.eqb ia ib && bool_decide (na = nb) && Bool.eqb ea eb
      && (fix eqs (l l' : list Content) : bool :=
            match l, l' with
            | [], [] => true
            | x :: l, y :: l' => content_eq x y && eqs l l'
            | _, _ => false
            end) ca cb
  | CResourceLink ua na da ma, CResourceLink ub nb db mb =>
      String.eqb ua ub && bool_decide (na = nb) && bool_decide (da = db) && bool_decide (ma = mb)
  | _, _ => false
  end.

Definition nat_dec (n : nat) : string := pretty (N.of_nat n).

(** [impl Display for Content] *)
Definition content_display (c : Content) : string :=
  match c with
  | CText text => text
  | CImage mime data => "[Image: " +:+ mime +:+ ", " +:+ nat_dec (slen data) +:+ " bytes]"
  | CImageUrl url => "[Image URL: " +:+ url +:+ "]"
  | CPdf data => "[PDF: " +:+ nat_dec (slen data) +:+ " bytes]"
  | CAudio mime data => "[Audio: " +:+ mime +:+ ", " +:+ nat_dec (slen data) +:+ " bytes]"
  | CThinking text _ => "[Thinking: " +:+ text +:+ "]"
  | CToolUse id name _ => "[ToolUse: " +:+ name +:+ " (" +:+ id +:+ ")]"
  | CToolResult id _ is_error content =>
      "[" +:+ (if is_error then "ToolError" else "ToolResult") +:+ ": " +:+ id +:+ ", "
      +:+ nat_dec (length content) +:+ " blocks]"
  | CResourceLink uri name _ _ =>
      match name with
      | Some name => "[Resource: " +:+ name +:+ " (" +:+ uri +:+ ")]"
      | None => "[Resource: " +:+ uri +:+ "]"
      end
  end.

Lemma content_eq_refl c : content_eq c c = true.
Proof.
  induction c as [c Hc|i n e l IH] using Content_nested_ind.
  - destruct c; simpl; rewrite ?String.eqb_refl, ?bool_decide_eq_true_2 by done; try done.
    by destruct (Hc id name is_error content).
  - simpl. rewrite String.eqb_refl, bool_decide_eq_true_2, Bool.eqb_reflx by done. simpl.
    induction IH as [|x l Hx _ IHl]; [done|]. by rewrite Hx.
Qed.

Lemma content_eq_true c d : content_eq c d = true -> c = d.
Proof.
  revert d. induction c as [c Hc|i n e l IH] using Content_nested_ind; intros d.
  - destruct c, d; simpl; try discriminate;
      rewrite ?andb_true_iff, ?String.eqb_eq, ?bool_decide_eq_true;
      try (intros; destruct_and?; by subst).
    by destruct (Hc id name is_error content).
  - destruct d as [| | | | | | |i' n' e' l'|]; simpl; try discriminate.
    rewrite !andb_true_iff, String.eqb_eq, bool_decide_eq_true, Bool.eqb_true_iff.
    intros [[[-> ->] ->] Hl]. f_equal. revert l' Hl.
    induction IH as [|x l Hx _ IHl]; intros [|y l']; try done.
    rewrite andb_true_iff. intros [Hxy Hl]. f_equal; [by apply Hx|by apply IHl].
Qed.

(** Roles, cache hints and messages. *)
Inductive ChatRole := User | Assistant.
Inductive CacheHint := Ephemeral (ttl_seconds : option Z).

Record ChatMessage := {
  cm_role : ChatRole;
  cm_content : list Content;
  cm_cache : option CacheHint;
}.

Definition from_user (content : list Content) : ChatMessage :=
  {| cm_role := User; cm_content := content; cm_cache := None |}.
Definition from_assistant (content : list Content) : ChatMessage :=
  {| cm_role := Assistant; cm_content := content; cm_cache := None |}.

(** [ChatMessage::text]: the text blocks, concatenated. *)
Definition cm_text (m : ChatMessage) : string :=
  sconcat (omap as_text (cm_content m)).
Definition has_tool_use (m : ChatMessage) : bool := existsb is_tool_use (cm_content m).
Definition tool_uses (m : ChatMessage) : list Content := List.filter is_tool_use (cm_content m).
Definition has_tool_result (m : ChatMessage) : bool := existsb is_tool_result (cm_content m).
Definition cm_thinking (m : ChatMessage) : option string :=
  head (omap (fun b => match b with CThinking t _ => Some t | _ => None end) (cm_content m)).

(** Tools as they are offered to a provider. *)
Record FunctionTool := { ft_name : string; ft_description : string; ft_parameters : Value }.
Record Tool := { tool_type : string; tool_function : FunctionTool }.

Inductive FinishReason :=
| FrStop | FrLength | FrContentFilter | FrToolCalls | FrError | FrOther | FrUnknown.

(** [querymt::chat::ReasoningEffort] *)
Inductive ReasoningEffort := ReLow | ReMedium | ReHigh | ReMax.

(** [Usage]: token counts, each a [u32]. *)
Record Usage := {
  u_input : Z; u_output : Z; u_reasoning : Z; u_cache_read : Z; u_cache_write : Z;
}.

Definition usage_default : Usage :=
  {| u_input := 0; u_output := 0; u_reasoning := 0; u_cache_read := 0; u_cache_write := 0 |}.

(** [Usage::merge_max] *)
Definition merge_max (a b : Usage) : Usage :=
  {| u_input := Z.max (u_input a) (u_input b);
     u_output := Z.max (u_output a) (u_output b);
     u_reasoning := Z.max (u_reasoning a) (u_reasoning b);
     u_cache_read := Z.max (u_cache_read a) (u_cache_read b);
     u_cache_write := Z.max (u_cache_write a) (u_cache_write b) |}.

(** [StreamChunk] *)
Inductive StreamChunk :=
| ScText (delta : string)
| ScThinking (delta : string)
| ScThinkingSignature (delta : string)
| ScToolUseStart (index : Z) (id name : string)
| ScToolUseInputDelta (index : Z) (partial_json : string)
| ScToolUseComplete (index : Z) (tool_call : ToolCall)
| ScUsage (usage : Usage)
| ScDone (finish_reason : FinishReason).

(** The answers of a [dyn ChatResponse]. *)
Record ChatResponse := {
  cr_text : option string;
  cr_tool_calls : option (list ToolCall);
  cr_finish_reason : option FinishReason;
  cr_thinking : option string;
  cr_usage : option Usage;
}.

Definition nonempty_block (f : string -> Content) (o : option string) : list Content :=
  match o with
  | Some t => if is_empty_str t then [] else [f t]
  | None => []
  end.

(** [From<&dyn ChatResponse> for ChatMessage] *)
Definition message_of_response (r : ChatResponse) : ChatMessage :=
  {| cm_role := Assistant;
     cm_content :=
       nonempty_block content_thinking (cr_thinking r)
       ++ nonempty_block content_text (cr_text r)
       ++ match cr_tool_calls r with
          | Some calls =>
              map (fun c => CToolUse (tc_id c) (tc_name c) (parse_arguments (tc_arguments c))) calls
          | None => []
          end;
     cm_cache := None |}.
End content.

#[export] Instance ChatRole_eq_dec : EqDecision ChatRole.
Proof. solve_decision. Defined.
#[export] Instance FinishReason_eq_dec : EqDecision FinishReason.
Proof. solve_decision. Defined.
#[export] Instance Usage_eq_dec : EqDecision Usage.
Proof. solve_decision. Defined.
#[export] Instance CacheHint_eq_dec : EqDecision CacheHint.
Proof. solve_decision. Defined.
#[export] Instance Content_eq_dec `{J : Json} : EqDecision Content.
Proof.
  intros c d. destruct (content_eq c d) eqn:E; [left; by apply content_eq_true|].
  right. intros ->. by rewrite content_eq_refl in E.
Defined.
