(* ===== verification/LlmErrors.v ===== *)
(** [querymt::error] (crates/querymt/src/error.rs): the provider errors, their
    wire payload and the retry classification. *)
From S2P Require Import Prelude Numbers.

Local Open Scope Z_scope.

Inductive TransportErrorKind :=
| ConnectionRefused | ConnectionReset | Timeout | ConnectionClosed | Dns | Tls | TkOther.

#[export] Instance TransportErrorKind_eq_dec : EqDecision TransportErrorKind.
Proof. solve_decision. Defined.

(** The errors of [serde_json], [url] and [std::io] that are wrapped are kept
    as the text their [to_string] gives, all that the code reads of them. *)
Inductive LLMError :=
| GenericError (message : string)
| ProviderError (message : string)
| AuthError (message : string)
| ToolConfigError (message : string)
| PluginError (message : string)
| InvalidRequest (message : string)
| ResponseFormatError (message raw_response : string)
| RateLimited (message : string) (retry_after_secs : option Z)
| HttpStatus (status_code : Z) (message : string) (retry_after_secs : option Z)
| HttpError (message : string)
| Transport (kind : TransportErrorKind) (message : string)
| ErrCancelled
| RemoteStreamDisconnected (message : string)
| RemoteStreamReconnected (message : string)
| NotImplemented (message : string)
| JsonError (err : string)
| InvalidUrl (err : string)
| IoError (err : string).

Inductive LLMErrorPayload :=
| PGenericError (message : string)
| PProviderError (message : string)
| PAuthError (message : string)
| PToolConfigError (message : string)
| PPluginError (message : string)
| PInvalidRequest (message : string)
| PResponseFormatError (message raw_response : string)
| PRateLimited (message : string) (retry_after_secs : option Z)
| PHttpStatus (status_code : Z) (message : string) (retry_after_secs : option Z)
| PHttpError (message : string)
| PTransport (kind : TransportErrorKind) (message : string)
| PCancelled
| PRemoteStreamDisconnected (message : string)
| PRemoteStreamReconnected (message : string)
| PNotImplemented (message : string)
| PJsonError (message : string)
| PInvalidUrl (message : string)
| PIoError (message : string).

(** The [#[error(...)]] texts. *)
Definition llm_error_display (e : LLMError) : string :=
  match e with
  | GenericError m => "Generic Error: " +:+ m
  | ProviderError m => "LLM Provider Error: " +:+ m
  | AuthError m => "Auth Error: " +:+ m
  | ToolConfigError m => "Tool Configuration Error: " +:+ m
  | PluginError m => "Plugin Error: " +:+ m
  | InvalidRequest m => "Invalid Request: " +:+ m
  | ResponseFormatError m r => "Response Format Error: " +:+ m +:+ ". Raw response: '" +:+ r +:+ "'"
  | RateLimited m _ => "Rate limited: " +:+ m
  | HttpStatus c m _ => "HTTP " +:+ dec_of_Z c +:+ ": " +:+ m
  | HttpError m => "HTTP Error: " +:+ m
  | Transport _ m => m
  | ErrCancelled => "Cancelled"
  | RemoteStreamDisconnected m => "Remote stream disconnected: " +:+ m
  | RemoteStreamReconnected m => "Remote stream reconnected: " +:+ m
  | NotImplemented m => "Not Implemented: " +:+ m
  | JsonError m => "JSON Error: " +:+ m
  | InvalidUrl _ => "Invalid URL"
  | IoError _ => "I/O Error"
  end.

Definition to_payload (e : LLMError) : LLMErrorPayload :=
  match e with
  | GenericError m => PGenericError m
  | ProviderError m => PProviderError m
  | AuthError m => PAuthError m
  | ToolConfigError m => PToolConfigError m
  | PluginError m => PPluginError m
  | InvalidRequest m => PInvalidRequest m
  | ResponseFormatError m r => PResponseFormatError m r
  | RateLimited m s => PRateLimited m s
  | HttpStatus c m s => PHttpStatus c m s
  | HttpError m => PHttpError m
  | Transport k m => PTransport k m
  | ErrCancelled => PCancelled
  | RemoteStreamDisconnected m => PRemoteStreamDisconnected m
  | RemoteStreamReconnected m => PRemoteStreamReconnected m
  | NotImplemented m => PNotImplemented m
  | JsonError m => PJsonError m
  | InvalidUrl m => PInvalidUrl m
  | IoError m => PIoError m
  end.

Definition from_payload (p : LLMErrorPayload) : LLMError :=
  match p with
  | PGenericError m => GenericError m
  | PProviderError m => ProviderError m
  | PAuthError m => AuthError m
  | PToolConfigError m => ToolConfigError m
  | PPluginError m => PluginError m
  | PInvalidRequest m => InvalidRequest m
  | PResponseFormatError m r => ResponseFormatError m r
  | PRateLimited m s => RateLimited m s
  | PHttpStatus c m s => HttpStatus c m s
  | PHttpError m => HttpError m
  | PTransport k m => Transport k m
  | PCancelled => ErrCancelled
  | PRemoteStreamDisconnected m => RemoteStreamDisconnected m
  | PRemoteStreamReconnected m => RemoteStreamReconnected m
  | PNotImplemented m => NotImplemented m
  | PJsonError m => PluginError m
  | PInvalidUrl m => HttpError m
  | PIoError m => Transport TkOther m
  end.

Definition retry_after_secs (e : LLMError) : option Z :=
  match e with
  | RateLimited _ s => s
  | HttpStatus _ _ s => s
  | _ => None
  end.

Definition is_retryable (e : LLMError) : bool :=
  match e with
  | Transport _ _ => true
  | HttpError _ => true
  | RateLimited _ _ => true
  | HttpStatus c _ _ => (c =? 429) || ((500 <=? c) && (c <=? 599))
  | PluginError _ => true
  | IoError _ => true
  | AuthError _ => false
  | InvalidRequest _ => false
  | ProviderError _ => false
  | ToolConfigError _ => false
  | ResponseFormatError _ _ => false
  | GenericError _ => false
  | ErrCancelled => false
  | JsonError _ => false
  | InvalidUrl _ => false
  | NotImplemented _ => false
  | RemoteStreamDisconnected _ => false
  | RemoteStreamReconnected _ => false
  end.

Definition is_retryable_setup_failure (e : LLMError) : bool := is_retryable e.

(** [duration_to_secs], on a duration as whole seconds and nanoseconds. *)
Definition duration_to_secs (secs nanos : Z) : Z :=
  if 0 <? secs then secs else if (secs =? 0) && (nanos =? 0) then 0 else 1.
