(* ===== verification/Domain.v ===== *)
(** The domain entities of the session layer (session/domain.rs), with the
    verification specification a delegation carries (verification/mod.rs) and
    the file-change summaries of the index (index/merkle.rs); agent modes, tool
    and snapshot policies (agent/core.rs). *)
From S2P Require Import Prelude Numbers Json Chat.

Local Open Scope Z_scope.

(** [RapidHash(u64)]; the hash function itself is a dependency's. *)
Definition RapidHash : Type := Z.

Inductive TaskKind := Finite | Recurring | Evolving.
Inductive TaskStatus := TsActive | TsPaused | TsDone | TsCancelled.

#[export] Instance TaskKind_eq_dec : EqDecision TaskKind.
Proof. solve_decision. Defined.
#[export] Instance TaskStatus_eq_dec : EqDecision TaskStatus.
Proof. solve_decision. Defined.

(** Times are Unix timestamps. *)
Record Task := {
  task_id : Z;
  task_public_id : string;
  task_session_id : Z;
  task_kind : TaskKind;
  task_status : TaskStatus;
  task_expected_deliverable : option string;
  task_acceptance_criteria : option string;
  task_created_at : Z;
  task_updated_at : Z;
}.

Record IntentSnapshot := {
  is_id : Z;
  is_session_id : Z;
  is_task_id : option Z;
  is_summary : string;
  is_constraints : option string;
  is_next_step_hint : option string;
  is_created_at : Z;
}.

Inductive DecisionStatus := Accepted | Rejected.
Record Decision_ := {
  dec_id : Z;
  dec_session_id : Z;
  dec_task_id : option Z;
  dec_description : string;
  dec_rationale : option string;
  dec_status : DecisionStatus;
  dec_created_at : Z;
}.

Inductive AlternativeStatus := AsActive | AsDiscarded.
Record Alternative := {
  alt_id : Z;
  alt_session_id : Z;
  alt_task_id : option Z;
  alt_description : string;
  alt_status : AlternativeStatus;
  alt_created_at : Z;
}.

Inductive ProgressKind := PkToolCall | PkArtifact | PkNote | PkCheckpoint.
Record ProgressEntry := {
  pe_id : Z;
  pe_session_id : Z;
  pe_task_id : option Z;
  pe_kind : ProgressKind;
  pe_content : string;
  pe_metadata : option string;
  pe_created_at : Z;
}.

Record Artifact := {
  art_id : Z;
  art_session_id : Z;
  art_task_id : option Z;
  art_kind : string;
  art_uri : option string;
  art_path : option string;
  art_summary : option string;
  art_created_at : Z;
}.

Inductive DelegationStatus := DsRequested | DsRunning | DsComplete | DsFailed | DsCancelled.

#[export] Instance DelegationStatus_eq_dec : EqDecision DelegationStatus.
Proof. solve_decision. Defined.

Inductive ForkPointType := FpMessageIndex | FpProgressEntry.
Inductive ForkOrigin := FoUser | FoDelegation.

#[export] Instance ForkPointType_eq_dec : EqDecision ForkPointType.
Proof. solve_decision. Defined.
#[export] Instance ForkOrigin_eq_dec : EqDecision ForkOrigin.
Proof. solve_decision. Defined.

Definition fork_origin_display (o : ForkOrigin) : string :=
  match o with FoUser => "user" | FoDelegation => "delegation" end.
Definition fork_origin_from_str (s : string) : result string ForkOrigin :=
  if String.eqb s "user" then Ok FoUser
  else if String.eqb s "delegation" then Ok FoDelegation
  else Err ("Unknown fork origin: " +:+ s).

Definition fork_point_type_display (p : ForkPointType) : string :=
  match p with FpMessageIndex => "message_index" | FpProgressEntry => "progress_entry" end.
Definition fork_point_type_from_str (s : string) : result string ForkPointType :=
  if String.eqb s "message_index" then Ok FpMessageIndex
  else if String.eqb s "progress_entry" then Ok FpProgressEntry
  else Err ("Unknown fork point type: " +:+ s).

Section verification.
Context `{J : Json}.

(** [verification::Expectation], [VerificationStep], [VerificationStrategy]
    and [VerificationSpec]. *)
Inductive Expectation :=
| ExSuccess
| ExContains (s : string)
| ExMatchesRegex (s : string)
| ExJsonMatches (v : Value)
| ExCustom (expression : string) (context : Value).

Inductive VerificationStep :=
| VsToolCall (tool_name : string) (arguments : Value) (expectation : Expectation)
    (error_message : option string)
| VsFileAssertion (path : string) (exists_ : bool) (contains matches_regex : option string)
| VsWaitFor (poll_interval_ms timeout_ms : Z) (condition : VerificationStep)
| VsParallel (steps : list VerificationStep).

Inductive VerificationStrategy := VsAll | VsAny | VsUntilFailure.

Record VerificationSpec := {
  vs_description : string;
  vs_steps : list VerificationStep;
  vs_strategy : VerificationStrategy;
}.

Record Delegation := {
  del_id : Z;
  del_public_id : string;
  del_session_id : Z;
  del_task_id : option Z;
  del_target_agent_id : string;
  del_objective : string;
  del_objective_hash : RapidHash;
  del_context : option string;
  del_constraints : option string;
  del_expected_output : option string;
  del_verification_spec : option VerificationSpec;
  del_planning_summary : option string;
  del_status : DelegationStatus;
  del_retry_count : Z;
  del_created_at : Z;
  del_completed_at : option Z;
}.
End verification.

(** [index::merkle::DiffPaths] *)
Record DiffPaths := {
  dp_added : list string;
  dp_modified : list string;
  dp_removed : list string;
}.

#[export] Instance DiffPaths_eq_dec : EqDecision DiffPaths.
Proof. solve_decision. Defined.

Definition diff_paths_new : DiffPaths := {| dp_added := []; dp_modified := []; dp_removed := [] |}.

Definition is_nil {A} (l : list A) : bool := match l with [] => true | _ => false end.

Definition diff_is_empty (d : DiffPaths) : bool :=
  is_nil (dp_added d) && is_nil (dp_modified d) && is_nil (dp_removed d).

Definition diff_summary_of (d : DiffPaths) : string :=
  let parts :=
    (if is_nil (dp_added d) then [] else ["+" +:+ nat_dec (length (dp_added d)) +:+ " files"])
    ++ (if is_nil (dp_removed d) then [] else ["-" +:+ nat_dec (length (dp_removed d)) +:+ " files"])
    ++ (if is_nil (dp_modified d) then [] else [nat_dec (length (dp_modified d)) +:+ " modified"]) in
  if is_nil parts then "No changes" else join ", " parts.

Definition changed_files (d : DiffPaths) : list string := dp_added d ++ dp_modified d.

Lemma diff_is_empty_iff d : diff_is_empty d = true <-> d = diff_paths_new.
Proof.
  destruct d as [a m r]. unfold diff_is_empty, diff_paths_new; simpl.
  rewrite !andb_true_iff. destruct a, m, r; simpl; naive_solver.
Qed.

(** ** Modes and policies *)


(** [AgentMode], a [#[repr(u8)]] enum. *)
Inductive AgentMode := Build | Plan | Review.

#[export] Instance AgentMode_eq_dec : EqDecision AgentMode.
Proof. solve_decision. Defined.

Definition mode_from_u8 (v : Z) : AgentMode :=
  match v with 1 => Plan | 2 => Review | _ => Build end.
(** [mode as u8] *)
Definition mode_as_u8 (m : AgentMode) : Z :=
  match m with Build => 0 | Plan => 1 | Review => 2 end.

Definition mode_next (m : AgentMode) : AgentMode :=
  match m with Build => Plan | Plan => Review | Review => Build end.

Definition mode_as_str (m : AgentMode) : string :=
  match m with Build => "build" | Plan => "plan" | Review => "review" end.

Definition is_read_only (m : AgentMode) : bool :=
  match m with Plan | Review => true | Build => false end.

Definition mode_from_str (s : string) : result string AgentMode :=
  if String.eqb s "build" then Ok Build
  else if String.eqb s "plan" then Ok Plan
  else if String.eqb s "review" then Ok Review
  else Err ("unknown agent mode: '" +:+ s +:+ "'. Valid modes: build, plan, review").

Inductive DelegationContextTiming := FirstTurnOnly | EveryTurn | DctDisabled.

Record DelegationContextConfig := {
  dcc_timing : DelegationContextTiming;
  dcc_auto_inject : bool;
}.

Inductive ToolPolicy := BuiltInOnly | ProviderOnly | BuiltInAndProvider.

#[export] Instance ToolPolicy_eq_dec : EqDecision ToolPolicy.
Proof. solve_decision. Defined.

(** [HashSet<String>] as [gset]. *)
Record ToolConfig := {
  tcfg_policy : ToolPolicy;
  tcfg_allowlist : option (gset string);
  tcfg_denylist : gset string;
}.

Inductive SnapshotPolicy := SpNone | SpMetadata | SpDiff.

#[export] Instance SnapshotPolicy_eq_dec : EqDecision SnapshotPolicy.
Proof. solve_decision. Defined.

Definition snapshot_policy_display (p : SnapshotPolicy) : string :=
  match p with SpNone => "none" | SpMetadata => "metadata" | SpDiff => "diff" end.
