(* ===== verification/Events.v ===== *)
(** Agent events (events.rs): stop types, metrics, the event kinds, durable and
    ephemeral envelopes and the durability classification. *)
From S2P Require Import Prelude Numbers Json Chat Domain.

Local Open Scope Z_scope.

(** The protocol's [StopReason]: the reasons the source names. *)
Inductive StopReason := EndTurn | MaxTokens | MaxTurnRequests | SrCancelled.

Inductive StopType :=
| StepLimit | TurnLimit | PriceLimit | ContextThreshold | ModelTokenLimit
| StContentFilter | DelegationBlocked | StOther.

#[export] Instance StopReason_eq_dec : EqDecision StopReason.
Proof. solve_decision. Defined.
#[export] Instance StopType_eq_dec : EqDecision StopType.
Proof. solve_decision. Defined.

(** [impl From<StopType> for StopReason] *)
Definition stop_reason_of (t : StopType) : StopReason :=
  match t with
  | StepLimit | TurnLimit | DelegationBlocked => MaxTurnRequests
  | PriceLimit | ContextThreshold | ModelTokenLimit => MaxTokens
  | StContentFilter | StOther => EndTurn
  end.

(** Step and turn counts, as [u32]. *)
Record ExecutionMetrics := { em_steps : Z; em_turns : Z }.

Record SessionLimits := {
  sl_max_steps : option Z;
  sl_max_turns : option Z;
  sl_max_cost_usd : option f64;
}.

Definition session_limits_default : SessionLimits :=
  {| sl_max_steps := None; sl_max_turns := None; sl_max_cost_usd := None |}.

Inductive EventOrigin := OrLocal | OrRemote | OrUnknown (s : string).

#[export] Instance EventOrigin_eq_dec : EqDecision EventOrigin.
Proof. solve_decision. Defined.

(** The string form of the serde implementations. *)
Definition event_origin_serialize (o : EventOrigin) : string :=
  match o with OrLocal => "local" | OrRemote => "remote" | OrUnknown other => other end.
Definition event_origin_deserialize (value : string) : EventOrigin :=
  if String.eqb value "local" then OrLocal
  else if String.eqb value "remote" then OrRemote
  else OrUnknown value.

(** [middleware::dedup_check::DuplicateWarning] and [config::McpServerConfig]. *)
Record FunctionLocation := {
  fl_file_path : string; fl_function_name : string; fl_start_line : Z; fl_end_line : Z;
}.
Record SimilarMatch := {
  sm_file_path : string; sm_function_name : string; sm_start_line : Z; sm_end_line : Z;
  sm_similarity : f64; sm_body_text : string;
}.
Record DuplicateWarning := {
  dw_new_function : FunctionLocation; dw_matches : list SimilarMatch;
}.
Inductive McpServerConfig :=
| McpStdio (name command : string) (args : list string) (env : gmap string string)
| McpHttp (name url : string) (headers : gmap string string).

Inductive Durability := Durable | Ephemeral_.

Section events.
Context `{J : Json}.

Inductive AgentEventKind :=
| SessionCreated
| PromptReceived (content : string) (message_id : option string)
| UserMessageStored (content : string)
| TurnStarted
| AssistantMessageStored (content : string) (thinking message_id : option string)
| AssistantContentDelta (content message_id : string)
| AssistantThinkingDelta (content message_id : string)
| EvRemoteStreamDisconnected (message : string) (message_id : option string)
| EvRemoteStreamReconnected (message : string) (message_id : option string)
| RemoteSessionDisconnected (message : string) (node_id : option string)
| RemoteProviderHeartbeat (phase : string) (elapsed_ms idle_ms chunk_count : Z)
    (message_id : option string)
| StreamRecovering (message : string) (attempt max_attempts : Z) (message_id : option string)
| LlmRequestStart (message_count : Z)
| LlmRequestEnd (usage : option Usage) (tool_calls : Z) (finish_reason : option FinishReason)
    (cost_usd cumulative_cost_usd : option f64) (context_tokens : Z) (metrics : ExecutionMetrics)
| ProviderChanged (provider model : string) (config_id : Z) (context_limit : option Z)
    (provider_node_id : option string)
| ToolCallStart (tool_call_id tool_name arguments : string)
| ToolCallEnd (tool_call_id tool_name : string) (is_error : bool) (result : string)
| EvHookNotice (event_name message : string) (is_error : bool)
| SnapshotStart (policy : string)
| SnapshotEnd (summary : option string)
| CompactionStart (token_estimate : Z)
| CompactionEnd (summary : string) (summary_len : Z)
| MiddlewareInjected (message : string)
| MiddlewareStopped (stop_type : StopType) (reason : string) (metrics : ExecutionMetrics)
| SessionQueued (reason : string)
| SessionStopRequested
| SessionForceStopped (escalated_after_ms : Z) (reason : string)
| EvCancelled
| EvError (message : string)
| IntentUpdated (intent_snapshot : IntentSnapshot)
| TaskCreated (task : Task)
| TaskUpdated (task : Task)
| TaskStatusChanged (task : Task)
| DecisionRecorded (decision : Decision_)
| AlternativeRecorded (alternative : Alternative)
| AlternativeDiscarded (alternative_id : Z) (task_id : option Z)
| ProgressRecorded (progress_entry : ProgressEntry)
| ArtifactRecorded (artifact : Artifact)
| DelegationRequested (delegation : Delegation) (tool_call_id : option string)
| DelegationCompleted (delegation_id : string) (result : option string)
| DelegationFailed (delegation_id error : string)
| DelegationCancelled (delegation_id : string)
| DelegationCancelRequested (delegation_id : string)
| UncertaintyEscalated (task_id : option string) (description : string) (options : list string)
| PermissionRequested (permission_id : string) (task_id : option string)
    (tool_name reason : string)
| PermissionGranted (permission_id : string) (granted : bool)
| ElicitationRequested (elicitation_id session_id message : string) (requested_schema : Value)
    (source : string)
| SessionForked (parent_session_id child_session_id target_agent_id : string)
    (origin : ForkOrigin) (fork_point_type : ForkPointType) (fork_point_ref : string)
    (instructions : option string)
| SessionConfigured (cwd : option string) (mcp_servers : list McpServerConfig)
    (limits : option SessionLimits)
| ToolsAvailable (tools : list Tool) (tools_hash : RapidHash)
| DuplicateCodeDetected (warnings : list DuplicateWarning) (overflow_path : option string)
| ModeChanged (mode previous_mode : string)
| SessionModeChanged (mode : AgentMode)
| EvRateLimited (message : string) (wait_secs started_at attempt max_attempts : Z)
| RateLimitResume (attempt : Z)
| WorkspaceIndexReady (workspace_root : string)
| ScheduleCreated (schedule_public_id session_public_id task_public_id : string)
| ScheduleFired (schedule_public_id session_public_id : string)
| ScheduleCycleCompleted (schedule_public_id turn_id : string) (run_count : Z)
| ScheduleCycleFailed (schedule_public_id : string) (turn_id : option string) (error : string)
| SchedulePaused (schedule_public_id : string)
| ScheduleResumed (schedule_public_id : string)
| ScheduleExhausted (schedule_public_id : string)
| ScheduleFailed (schedule_public_id : string) (consecutive_failures : Z)
| ScheduledExecutionCompleted (schedule_public_id turn_id : string)
| ScheduledExecutionFailed (schedule_public_id : string) (turn_id : option string)
    (error : string)
| ScheduleDebounceCompleted (schedule_public_id : string)
| KnowledgeIngested (scope entry_public_id source : string)
| KnowledgeConsolidated (scope consolidation_public_id : string) (source_count : Z).

Record AgentEvent := {
  ae_seq : Z;
  ae_timestamp : Z;
  ae_session_id : string;
  ae_origin : EventOrigin;
  ae_source_node : option string;
  ae_kind : AgentEventKind;
}.



Record DurableEvent := {
  de_event_id : string;
  de_stream_seq : Z;
  de_session_id : string;
  de_timestamp : Z;
  de_origin : EventOrigin;
  de_source_node : option string;
  de_kind : AgentEventKind;
}.

Record EphemeralEvent := {
  ee_session_id : string;
  ee_timestamp : Z;
  ee_origin : EventOrigin;
  ee_source_node : option string;
  ee_kind : AgentEventKind;
}.

Inductive EventEnvelope :=
| EnvDurable (e : DurableEvent)
| EnvEphemeral (e : EphemeralEvent).

Definition agent_event_of_durable (de : DurableEvent) : AgentEvent :=
  {| ae_seq := de_stream_seq de; ae_timestamp := de_timestamp de;
     ae_session_id := de_session_id de; ae_origin := de_origin de;
     ae_source_node := de_source_node de; ae_kind := de_kind de |}.

Definition agent_event_of_ephemeral (ee : EphemeralEvent) : AgentEvent :=
  {| ae_seq := 0; ae_timestamp := ee_timestamp ee;
     ae_session_id := ee_session_id ee; ae_origin := ee_origin ee;
     ae_source_node := ee_source_node ee; ae_kind := ee_kind ee |}.

(** [impl From<AgentEvent> for EventEnvelope] *)
Definition envelope_of_event (event : AgentEvent) : EventEnvelope :=
  EnvDurable
    {| de_event_id := "legacy-" +:+ dec_of_Z (ae_seq event);
       de_stream_seq := ae_seq event; de_session_id := ae_session_id event;
       de_timestamp := ae_timestamp event; de_origin := ae_origin event;
       de_source_node := ae_source_node event; de_kind := ae_kind event |}.

Definition env_session_id (e : EventEnvelope) : string :=
  match e with EnvDurable e => de_session_id e | EnvEphemeral e => ee_session_id e end.
Definition env_kind (e : EventEnvelope) : AgentEventKind :=
  match e with EnvDurable e => de_kind e | EnvEphemeral e => ee_kind e end.
Definition env_timestamp (e : EventEnvelope) : Z :=
  match e with EnvDurable e => de_timestamp e | EnvEphemeral e => ee_timestamp e end.
Definition env_is_durable (e : EventEnvelope) : bool :=
  match e with EnvDurable _ => true | EnvEphemeral _ => false end.
Definition env_is_ephemeral (e : EventEnvelope) : bool :=
  match e with EnvDurable _ => false | EnvEphemeral _ => true end.
Definition env_seq (e : EventEnvelope) : Z :=
  match e with EnvDurable e => de_stream_seq e | EnvEphemeral _ => 0 end.
Definition env_origin (e : EventEnvelope) : EventOrigin :=
  match e with EnvDurable e => de_origin e | EnvEphemeral e => ee_origin e end.
Definition env_source_node (e : EventEnvelope) : option string :=
  match e with EnvDurable e => de_source_node e | EnvEphemeral e => ee_source_node e end.

(** [classify_durability]: durable by default. *)
Definition classify_durability (kind : AgentEventKind) : Durability :=
  match kind with
  | AssistantContentDelta _ _ => Ephemeral_
  | AssistantThinkingDelta _ _ => Ephemeral_
  | EvRemoteStreamDisconnected _ _ => Ephemeral_
  | EvRemoteStreamReconnected _ _ => Ephemeral_
  | RemoteSessionDisconnected _ _ => Ephemeral_
  | RemoteProviderHeartbeat _ _ _ _ _ => Ephemeral_
  | StreamRecovering _ _ _ _ => Ephemeral_
  | _ => Durable
  end.
End events.
