(* ===== verification/Model.v ===== *)
(** The stored conversation (model.rs): message parts, agent messages and their
    conversion to chat messages, with the prompt rendering and the other
    helpers of agent/utils.rs. *)
From S2P Require Import Prelude Numbers Text Json Chat Domain.

Local Open Scope Z_scope.

(** The protocol's [ContentBlock], with the fields the source reads. *)
Inductive EmbeddedResource :=
| TextResourceContents (uri text : string)
| BlobResourceContents (uri blob : string)
| ErUnsupported.

Inductive ContentBlock :=
| CbText (text : string)
| CbResourceLink (name uri : string) (description : option string)
| CbResource (resource : EmbeddedResource)
| CbImage (mime_type data : string)
| CbAudio (mime_type data : string)
| CbUnsupported.

Section model.
Context `{J : Json}.

Inductive MessagePart :=
| MpText (content : string)
| MpPrompt (blocks : list ContentBlock)
| MpReasoning (content : string) (signature : option string) (time_ms : option Z)
| MpStepStart (step_id description : string)
| MpStepFinish (step_id : string) (success : bool) (cost : option f64)
| MpToolUse (tc : ToolCall)
| MpToolResult (call_id : string) (content : list Content) (is_error : bool)
    (tool_name tool_arguments : option string) (compacted_at : option Z)
| MpPatch (id : string) (files : list string) (diff : string)
| MpSnapshot (root_hash : RapidHash) (changed_paths : DiffPaths)
| MpCompaction (summary : string) (original_token_count : Z)
| MpCompactionRequest (original_token_count : Z)
| MpTurnSnapshotStart (turn_id snapshot_id : string)
| MpTurnSnapshotPatch (turn_id snapshot_id : string) (changed_paths : list string).

Definition type_name (p : MessagePart) : string :=
  match p with
  | MpText _ => "text"
  | MpPrompt _ => "prompt"
  | MpReasoning _ _ _ => "reasoning"
  | MpStepStart _ _ => "step_start"
  | MpStepFinish _ _ _ => "step_finish"
  | MpToolUse _ => "tool_use"
  | MpToolResult _ _ _ _ _ _ => "tool_result"
  | MpPatch _ _ _ => "patch"
  | MpSnapshot _ _ => "snapshot"
  | MpCompaction _ _ => "compaction"
  | MpCompactionRequest _ => "compaction_request"
  | MpTurnSnapshotStart _ _ => "turn_snapshot_start"
  | MpTurnSnapshotPatch _ _ _ => "turn_snapshot_patch"
  end.

Definition diff_summary (p : MessagePart) : option string :=
  match p with MpSnapshot _ cp => Some (diff_summary_of cp) | _ => None end.
Definition part_changed_paths (p : MessagePart) : option DiffPaths :=
  match p with MpSnapshot _ cp => Some cp | _ => None end.

Record AgentMessage := {
  am_id : string;
  am_session_id : string;
  am_role : ChatRole;
  am_parts : list MessagePart;
  am_created_at : Z;
  am_parent_message_id : option string;
  am_source_provider : option string;
  am_source_model : option string;
}.

(** [AgentMessage::new], with the fresh id and the time it reads. *)
Definition agent_message_new (id : string) (now : Z) (session_id : string) (role : ChatRole)
    : AgentMessage :=
  {| am_id := id; am_session_id := session_id; am_role := role; am_parts := [];
     am_created_at := now; am_parent_message_id := None;
     am_source_provider := None; am_source_model := None |}.

(** [format_prompt_user_text_only] *)
Definition format_prompt_user_text_only (blocks : list ContentBlock) : string :=
  match head blocks with
  | Some (CbText text) => text
  | _ => ""
  end.

(** [render_prompt_for_display] *)
Definition render_prompt_for_display (blocks : list ContentBlock) : string :=
  let user_text := trim (format_prompt_user_text_only blocks) in
  if negb (is_empty_str user_text) then user_text
  else match nth_error blocks 1 with
       | Some _ => "(attachments included)"
       | None => ""
       end.

Definition render_block (block : ContentBlock) : string :=
  match block with
  | CbText text => text
  | CbResourceLink name uri description =>
      "[Resource: " +:+ name +:+ "] " +:+ uri +:+ nl +:+ unwrap_or "" description
  | CbResource (TextResourceContents uri text) =>
      "[Embedded Resource: " +:+ uri +:+ "]" +:+ nl +:+ text
  | CbResource (BlobResourceContents uri blob) =>
      "[Embedded Resource: " +:+ uri +:+ "] (blob, " +:+ nat_dec (slen blob) +:+ " bytes)"
  | CbResource ErUnsupported => "[Embedded Resource: unsupported]"
  | CbImage mime data => "[Image] mime=" +:+ mime +:+ ", bytes=" +:+ nat_dec (slen data)
  | CbAudio mime data => "[Audio] mime=" +:+ mime +:+ ", bytes=" +:+ nat_dec (slen data)
  | CbUnsupported => "[Unsupported content block]"
  end.

(** The loop of [render_prompt_for_llm]: the separator goes before a block
    only when something was rendered before it. *)
Fixpoint render_blocks (content : string) (blocks : list ContentBlock) : string :=
  match blocks with
  | [] => content
  | b :: rest =>
      let content := if is_empty_str content then content else content +:+ nl +:+ nl in
      render_blocks (content +:+ render_block b) rest
  end.

Definition render_prompt_for_llm (blocks : list ContentBlock) (max_prompt_bytes : option nat)
    : string :=
  let content := render_blocks "" blocks in
  match max_prompt_bytes with
  | Some max_bytes => truncate_to_bytes content max_bytes
  | None => content
  end.

(** [match (target_provider, target_model, source_provider, source_model)] *)
Definition preserve_provider_metadata (tp tm sp sm : option string) : bool :=
  match tp, tm, sp, sm with
  | Some tp, Some tm, Some sp, Some sm => String.eqb tp sp && String.eqb tm sm
  | _, _, _, _ => true
  end.

Definition cleared_text : string := "[Old tool result content cleared]".

(** The block a part adds, if any. *)
Definition part_to_block (preserve : bool) (max_prompt_bytes : option nat) (p : MessagePart)
    : option Content :=
  match p with
  | MpText content => Some (CText content)
  | MpPrompt blocks => Some (CText (render_prompt_for_llm blocks max_prompt_bytes))
  | MpReasoning content signature _ =>
      Some (CThinking content (if preserve then signature else None))
  | MpToolUse tc => Some (CToolUse (tc_id tc) (tc_name tc) (parse_arguments (tc_arguments tc)))
  | MpToolResult call_id content is_error tool_name _ compacted_at =>
      let inner := match compacted_at with
                   | Some _ => [CText cleared_text]
                   | None => content
                   end in
      Some (CToolResult call_id tool_name is_error inner)
  | MpSnapshot _ changed_paths =>
      if diff_is_empty changed_paths then None
      else Some (CText (nl +:+ "[System: File changes: " +:+ diff_summary_of changed_paths +:+ "]"))
  | MpCompaction summary _ => Some (CText summary)
  | MpCompactionRequest _ => Some (CText "Summarize our conversation so far.")
  | _ => None
  end.

(** [blocks.sort_by_key(|b| if b.is_tool_result() { 0 } else { 1 })]: a stable
    sort on a two-valued key keeps each class in its order. *)
Definition sort_tool_results_first (blocks : list Content) : list Content :=
  List.filter is_tool_result blocks ++ List.filter (fun b => negb (is_tool_result b)) blocks.

Definition to_chat_message_with_target (m : AgentMessage)
    (target_provider target_model : option string) (max_prompt_bytes : option nat)
    : ChatMessage :=
  let preserve := preserve_provider_metadata target_provider target_model
                    (am_source_provider m) (am_source_model m) in
  let blocks := omap (part_to_block preserve max_prompt_bytes) (am_parts m) in
  let blocks :=
    if bool_decide (am_role m = User) && existsb is_tool_result blocks
    then sort_tool_results_first blocks else blocks in
  {| cm_role := am_role m; cm_content := blocks; cm_cache := None |}.

Definition to_chat_message (m : AgentMessage) : ChatMessage :=
  to_chat_message_with_target m None None None.
Definition to_chat_message_with_max_prompt_bytes (m : AgentMessage) (mx : option nat)
    : ChatMessage :=
  to_chat_message_with_target m None None mx.

(** The ids a message uses and answers, the two sides of the pairing that
    the model APIs require. *)
Definition part_tool_use_id (p : MessagePart) : option string :=
  match p with MpToolUse tc => Some (tc_id tc) | _ => None end.
Definition part_tool_result_id (p : MessagePart) : option string :=
  match p with MpToolResult id _ _ _ _ _ => Some id | _ => None end.
Definition used_ids (m : AgentMessage) : list string := omap part_tool_use_id (am_parts m).
Definition answered_ids (m : AgentMessage) : list string := omap part_tool_result_id (am_parts m).
End model.

(** [tool_kind_for_tool], on the protocol's tool kinds. *)
Inductive ToolKind := TkSearch | TkEdit | TkDelete | TkExecute | TkFetch | TkOtherKind.

Definition tool_kind_for_tool (name : string) : ToolKind :=
  if bool_decide (name ∈ ["search_text"; "mdq"]) then TkSearch
  else if bool_decide (name ∈ ["write_file"; "edit"; "multiedit"]) then TkEdit
  else if bool_decide (name = "delete_file") then TkDelete
  else if bool_decide (name = "shell") then TkExecute
  else if bool_decide (name ∈ ["web_fetch"; "browse"]) then TkFetch
  else TkOtherKind.

(** [extract_locations]: [path], then [root]; [is_object] is [as_object().is_some()]. *)
Definition extract_locations `{J : Json} (is_object : Value -> bool) (args : Value) : list string :=
  if is_object args then
    option_list (value_get_str args "path") ++ option_list (value_get_str args "root")
  else [].
