(* ===== verification/ExecState.v ===== *)
(** Execution state (middleware/state.rs): statistics and costs, the
    conversation context, responses, tool results, wait conditions and the
    states of the agent's state machine. *)
From S2P Require Import Prelude Numbers Text Json Chat Domain Events Model.

Local Open Scope Z_scope.

(** ** Model pricing (providers/types.rs) *)

Record ModelPricing := {
  mp_input : option f64;
  mp_output : option f64;
  mp_cache_read : option f64;
  mp_cache_write : option f64;
}.

Definition million : f64 := f64_of_Z 1000000.

(** [(tokens as f64 / 1_000_000.0) * rate] *)
Definition token_cost (tokens : Z) (rate : f64) : f64 :=
  f64_mul (f64_div (f64_of_Z tokens) million) rate.

Definition calculate_cost (p : ModelPricing) (input_tokens output_tokens : Z) : option f64 :=
  input_cost ← mp_input p;
  output_cost ← mp_output p;
  Some (f64_add (token_cost input_tokens input_cost) (token_cost output_tokens output_cost)).

Definition calculate_cache_cost (p : ModelPricing) (cache_read_tokens cache_write_tokens : Z)
    : option f64 * option f64 :=
  (token_cost cache_read_tokens <$> mp_cache_read p,
   token_cost cache_write_tokens <$> mp_cache_write p).

Record ModelCapabilities := {
  mc_attachment : bool; mc_reasoning : bool; mc_temperature : bool; mc_tool_call : bool;
}.

Definition capabilities_supports (c : ModelCapabilities)
    (requires_tools requires_attachments : bool) : bool :=
  let tools_ok := negb requires_tools || mc_tool_call c in
  let attachments_ok := negb requires_attachments || mc_attachment c in
  tools_ok && attachments_ok.

Record ModelInfo := {
  mi_id : string;
  mi_name : string;
  mi_capabilities : ModelCapabilities;
  mi_limit_context : option Z;
  mi_limit_output : option Z;
  mi_pricing : ModelPricing;
}.

Definition context_limit (m : ModelInfo) : option Z := mi_limit_context m.
Definition output_limit (m : ModelInfo) : option Z := mi_limit_output m.

Definition validate_output_limit (m : ModelInfo) (requested_tokens : Z) : result string unit :=
  match mi_limit_output m with
  | Some limit =>
      if limit <? requested_tokens
      then Err ("Requested " +:+ dec_of_Z requested_tokens
                +:+ " output tokens exceeds model limit of " +:+ dec_of_Z limit)
      else Ok tt
  | None => Ok tt
  end.

(** ** [AgentStats] *)

Record AgentStats := {
  st_steps : Z;
  st_turns : Z;
  st_total_input_tokens : Z;
  st_total_output_tokens : Z;
  st_context_tokens : Z;
  st_total_cost_usd : f64;
  st_input_cost_usd : f64;
  st_output_cost_usd : f64;
  st_reasoning_tokens : Z;
  st_cache_read_tokens : Z;
  st_cache_write_tokens : Z;
  st_cache_read_cost_usd : f64;
  st_cache_write_cost_usd : f64;
}.

Definition f64_zero : f64 := f64_of_Z 0.

Definition stats_default : AgentStats :=
  {| st_steps := 0; st_turns := 0; st_total_input_tokens := 0; st_total_output_tokens := 0;
     st_context_tokens := 0; st_total_cost_usd := f64_zero; st_input_cost_usd := f64_zero;
     st_output_cost_usd := f64_zero; st_reasoning_tokens := 0; st_cache_read_tokens := 0;
     st_cache_write_tokens := 0; st_cache_read_cost_usd := f64_zero;
     st_cache_write_cost_usd := f64_zero |}.

(** The cost fields after an update; the counters are left alone. *)
Definition with_costs (s : AgentStats) (total input output cache_read cache_write : f64)
    : AgentStats :=
  {| st_steps := st_steps s; st_turns := st_turns s;
     st_total_input_tokens := st_total_input_tokens s;
     st_total_output_tokens := st_total_output_tokens s;
     st_context_tokens := st_context_tokens s;
     st_total_cost_usd := total; st_input_cost_usd := input; st_output_cost_usd := output;
     st_reasoning_tokens := st_reasoning_tokens s;
     st_cache_read_tokens := st_cache_read_tokens s;
     st_cache_write_tokens := st_cache_write_tokens s;
     st_cache_read_cost_usd := cache_read; st_cache_write_cost_usd := cache_write |}.

Definition update_costs (s : AgentStats) (pricing : ModelPricing) : AgentStats :=
  let billable_output := u64_add (st_total_output_tokens s) (st_reasoning_tokens s) in
  let '(total, input, output) :=
    match calculate_cost pricing (st_total_input_tokens s) billable_output with
    | Some cost =>
        (cost,
         match mp_input pricing with
         | Some input_rate => token_cost (st_total_input_tokens s) input_rate
         | None => st_input_cost_usd s
         end,
         match mp_output pricing with
         | Some output_rate => token_cost billable_output output_rate
         | None => st_output_cost_usd s
         end)
    | None => (st_total_cost_usd s, st_input_cost_usd s, st_output_cost_usd s)
    end in
  let '(cache_read_cost, cache_write_cost) :=
    calculate_cache_cost pricing (st_cache_read_tokens s) (st_cache_write_tokens s) in
  let '(total, read) :=
    match cache_read_cost with
    | Some read_cost => (f64_add total read_cost, read_cost)
    | None => (total, st_cache_read_cost_usd s)
    end in
  let '(total, write) :=
    match cache_write_cost with
    | Some write_cost => (f64_add total write_cost, write_cost)
    | None => (total, st_cache_write_cost_usd s)
    end in
  with_costs s total input output read write.

(** [calculate_context_tokens]: the sum is taken in [u32] before the cast. *)
Definition calculate_context_tokens (usage : option Usage) : Z :=
  match usage with
  | Some u =>
      u32_add (u32_add (u32_add (u32_add (u_input u) (u_output u)) (u_reasoning u))
                 (u_cache_read u)) (u_cache_write u)
  | None => 0
  end.

(** ** Tool calls, context, responses *)

(** [middleware::state::ToolCall] and [ToolFunction] *)
Record ToolFunction := { tf_name : string; tf_arguments : string }.
Record MwToolCall := { mtc_id : string; mtc_function : ToolFunction }.

#[export] Instance ToolFunction_eq_dec : EqDecision ToolFunction.
Proof. solve_decision. Defined.
#[export] Instance MwToolCall_eq_dec : EqDecision MwToolCall.
Proof. solve_decision. Defined.

Inductive WaitReason := WrDelegation.

#[export] Instance WaitReason_eq_dec : EqDecision WaitReason.
Proof. solve_decision. Defined.

Record WaitCondition := { wc_reason : WaitReason; wc_correlation_ids : list string }.

Definition wait_delegation (id : string) : WaitCondition :=
  {| wc_reason := WrDelegation; wc_correlation_ids := [id] |}.

(** The loop of [WaitCondition::merge]. *)
Fixpoint merge_loop (reason : option WaitReason) (ids : list string) (conditions : list WaitCondition)
    : option WaitReason * list string :=
  match conditions with
  | [] => (reason, ids)
  | condition :: rest =>
      let reason := match reason with None => Some (wc_reason condition) | Some r => Some r end in
      let ids := if bool_decide (reason = Some (wc_reason condition))
                 then ids ++ wc_correlation_ids condition else ids in
      merge_loop reason ids rest
  end.

Definition wait_merge (conditions : list WaitCondition) : option WaitCondition :=
  let '(reason, ids) := merge_loop None [] conditions in
  match reason with
  | Some r => Some {| wc_reason := r; wc_correlation_ids := ids |}
  | None => None
  end.

Section state.
Context `{J : Json}.

Record ConversationContext := {
  cc_session_id : string;
  cc_messages : list ChatMessage;
  cc_stats : AgentStats;
  cc_provider : string;
  cc_model : string;
  cc_session_mode : AgentMode;
}.

Definition context_new (session_id : string) (messages : list ChatMessage) (stats : AgentStats)
    (provider model : string) : ConversationContext :=
  {| cc_session_id := session_id; cc_messages := messages; cc_stats := stats;
     cc_provider := provider; cc_model := model; cc_session_mode := Build |}.

Definition is_user_message (m : ChatMessage) : bool := bool_decide (cm_role m = User).

Definition user_message_count (c : ConversationContext) : nat :=
  length (List.filter is_user_message (cc_messages c)).

Definition with_messages (c : ConversationContext) (messages : list ChatMessage)
    : ConversationContext :=
  {| cc_session_id := cc_session_id c; cc_messages := messages; cc_stats := cc_stats c;
     cc_provider := cc_provider c; cc_model := cc_model c;
     cc_session_mode := cc_session_mode c |}.

Definition inject_message (c : ConversationContext) (content : string) : ConversationContext :=
  with_messages c
    (cc_messages c ++ [{| cm_role := User; cm_content := [CText content]; cm_cache := None |}]).

Definition with_session_mode (c : ConversationContext) (mode : AgentMode) : ConversationContext :=
  {| cc_session_id := cc_session_id c; cc_messages := cc_messages c; cc_stats := cc_stats c;
     cc_provider := cc_provider c; cc_model := cc_model c; cc_session_mode := mode |}.

Definition is_first_turn (c : ConversationContext) : bool := st_turns (cc_stats c) <=? 1.

Record LlmResponse := {
  lr_content : string;
  lr_thinking : option string;
  lr_thinking_signature : option string;
  lr_tool_calls : list MwToolCall;
  lr_usage : option Usage;
  lr_finish_reason : option FinishReason;
  lr_message_id : option string;
}.

Definition llm_response_new (content : string) (tool_calls : list MwToolCall)
    (usage : option Usage) (finish_reason : option FinishReason) : LlmResponse :=
  {| lr_content := content; lr_thinking := None; lr_thinking_signature := None;
     lr_tool_calls := tool_calls; lr_usage := usage; lr_finish_reason := finish_reason;
     lr_message_id := None |}.

Definition with_message_id (r : LlmResponse) (id : string) : LlmResponse :=
  {| lr_content := lr_content r; lr_thinking := lr_thinking r;
     lr_thinking_signature := lr_thinking_signature r; lr_tool_calls := lr_tool_calls r;
     lr_usage := lr_usage r; lr_finish_reason := lr_finish_reason r;
     lr_message_id := Some id |}.
Definition with_thinking (r : LlmResponse) (thinking : option string) : LlmResponse :=
  {| lr_content := lr_content r; lr_thinking := thinking;
     lr_thinking_signature := lr_thinking_signature r; lr_tool_calls := lr_tool_calls r;
     lr_usage := lr_usage r; lr_finish_reason := lr_finish_reason r;
     lr_message_id := lr_message_id r |}.
Definition with_thinking_signature (r : LlmResponse) (signature : option string) : LlmResponse :=
  {| lr_content := lr_content r; lr_thinking := lr_thinking r;
     lr_thinking_signature := signature; lr_tool_calls := lr_tool_calls r;
     lr_usage := lr_usage r; lr_finish_reason := lr_finish_reason r;
     lr_message_id := lr_message_id r |}.

Definition has_tool_calls (r : LlmResponse) : bool := negb (is_nil (lr_tool_calls r)).
Definition is_stop (r : LlmResponse) : bool :=
  bool_decide (default FrUnknown (lr_finish_reason r) = FrStop).

Record ToolResult := {
  tr_call_id : string;
  tr_result_content : list Content;
  tr_is_error : bool;
  tr_tool_name : option string;
  tr_tool_arguments : option string;
  tr_snapshot_part : option MessagePart;
}.

Definition tool_result_new (call_id : string) (content : list Content) (is_error : bool)
    (tool_name tool_arguments : option string) : ToolResult :=
  {| tr_call_id := call_id; tr_result_content := content; tr_is_error := is_error;
     tr_tool_name := tool_name; tr_tool_arguments := tool_arguments;
     tr_snapshot_part := None |}.

Definition with_snapshot (r : ToolResult) (part : MessagePart) : ToolResult :=
  {| tr_call_id := tr_call_id r; tr_result_content := tr_result_content r;
     tr_is_error := tr_is_error r; tr_tool_name := tr_tool_name r;
     tr_tool_arguments := tr_tool_arguments r; tr_snapshot_part := Some part |}.

Definition text_content (r : ToolResult) : string :=
  join nl (omap as_text (tr_result_content r)).

Inductive ExecutionState :=
| BeforeLlmCall (context : ConversationContext)
| CallLlm (context : ConversationContext) (tools : list Tool)
| AfterLlm (response : LlmResponse) (context : ConversationContext)
| ProcessingToolCalls (remaining_calls : list MwToolCall) (results : list ToolResult)
    (context : ConversationContext)
| WaitingForEvent (context : ConversationContext) (wait : WaitCondition)
| Complete
| Stopped (message : string) (stop_type : StopType) (context : option ConversationContext)
| Cancelled.

Definition state_name (s : ExecutionState) : string :=
  match s with
  | BeforeLlmCall _ => "BeforeLlmCall"
  | CallLlm _ _ => "CallLlm"
  | AfterLlm _ _ => "AfterLlm"
  | ProcessingToolCalls _ _ _ => "ProcessingToolCalls"
  | WaitingForEvent _ _ => "WaitingForEvent"
  | Complete => "Complete"
  | Stopped _ _ _ => "Stopped"
  | Cancelled => "Cancelled"
  end.

Definition state_context (s : ExecutionState) : option ConversationContext :=
  match s with
  | BeforeLlmCall c => Some c
  | CallLlm c _ => Some c
  | AfterLlm _ c => Some c
  | ProcessingToolCalls _ _ c => Some c
  | WaitingForEvent c _ => Some c
  | Stopped _ _ c => c
  | Complete | Cancelled => None
  end.
End state.

(** ** Model information for the middleware (model_info.rs) *)

Inductive ModelInfoSource :=
| Manual (context_limit : option Z) (output_limit : option Z)
    (supports_tools supports_attachments supports_reasoning : bool)
    (input_cost_per_million output_cost_per_million : option f64)
| FromSession.

Definition manual : ModelInfoSource :=
  Manual (Some 32000) (Some 4096) true false false None None.

Definition source_context_limit (s : ModelInfoSource) (limit : Z) : ModelInfoSource :=
  match s with
  | Manual _ o t a r ic oc => Manual (Some limit) o t a r ic oc
  | FromSession => FromSession
  end.
Definition source_output_limit (s : ModelInfoSource) (limit : Z) : ModelInfoSource :=
  match s with
  | Manual c _ t a r ic oc => Manual c (Some limit) t a r ic oc
  | FromSession => FromSession
  end.
Definition source_pricing (s : ModelInfoSource) (input output : f64) : ModelInfoSource :=
  match s with
  | Manual c o t a r _ _ => Manual c o t a r (Some input) (Some output)
  | FromSession => FromSession
  end.
Definition source_capabilities (s : ModelInfoSource) (tools attachments reasoning : bool)
    : ModelInfoSource :=
  match s with
  | Manual c o _ _ _ ic oc => Manual c o tools attachments reasoning ic oc
  | FromSession => FromSession
  end.

(** [get_model_info] reads the provider registry; its answer is a parameter
    wherever it is called. *)
Definition ModelRegistry : Type := string -> string -> option ModelInfo.
