(* ===== verification/Driver.v ===== *)
(** The middleware pipeline (middleware/driver.rs): the driver interface with
    its default methods, and the composite driver that runs a list of them. *)
From S2P Require Import Prelude Numbers Json Chat Domain Events Model ExecState.

Section driver.
Context `{J : Json} {S : Type}.

(** A phase handler: the state in, the state out, effects on the store. *)
Definition handler : Type := ExecutionState -> M S string ExecutionState.

(** [trait MiddlewareDriver] *)
Record MiddlewareDriver := {
  on_turn_start : handler;
  on_step_start : handler;
  on_after_llm : handler;
  on_processing_tool_calls : handler;
  on_turn_end : handler;
  md_reset : S -> S;
  md_name : string;
  md_get_limits : option SessionLimits;
}.

(** The default methods: the state is passed on, no limits. *)
Definition pass : handler := fun state => mret state.

Definition default_driver (name : string) (reset : S -> S) : MiddlewareDriver :=
  {| on_turn_start := pass; on_step_start := pass; on_after_llm := pass;
     on_processing_tool_calls := pass; on_turn_end := pass;
     md_reset := reset; md_name := name; md_get_limits := None |}.

Inductive MiddlewarePhase :=
| PhTurnStart | PhStepStart | PhAfterLlm | PhProcessingToolCalls | PhTurnEnd.

Definition phase_name (p : MiddlewarePhase) : string :=
  match p with
  | PhTurnStart => "turn_start"
  | PhStepStart => "step_start"
  | PhAfterLlm => "after_llm"
  | PhProcessingToolCalls => "processing_tool_calls"
  | PhTurnEnd => "turn_end"
  end.

Definition phase_handler (d : MiddlewareDriver) (p : MiddlewarePhase) : handler :=
  match p with
  | PhTurnStart => on_turn_start d
  | PhStepStart => on_step_start d
  | PhAfterLlm => on_after_llm d
  | PhProcessingToolCalls => on_processing_tool_calls d
  | PhTurnEnd => on_turn_end d
  end.

(** What ends the pipeline: in the turn-end phase [Complete] passes on. *)
Definition is_terminal (p : MiddlewarePhase) (s : ExecutionState) : bool :=
  match p, s with
  | _, Stopped _ _ _ | _, Cancelled => true
  | PhTurnEnd, Complete => false
  | _, Complete => true
  | _, _ => false
  end.

(** [CompositeDriver] *)
Definition CompositeDriver : Type := list MiddlewareDriver.

Definition composite_is_empty (d : CompositeDriver) : bool := is_nil d.
Definition composite_len (d : CompositeDriver) : nat := length d.

Fixpoint run_phase (drivers : CompositeDriver) (phase : MiddlewarePhase)
    (current : ExecutionState) : M S string ExecutionState :=
  match drivers with
  | [] => mret current
  | driver :: rest =>
      current ← phase_handler driver phase current;
      if is_terminal phase current then mret current
      else run_phase rest phase current
  end.

Definition run_turn_start (d : CompositeDriver) : handler := run_phase d PhTurnStart.
Definition run_step_start (d : CompositeDriver) : handler := run_phase d PhStepStart.
Definition run_after_llm (d : CompositeDriver) : handler := run_phase d PhAfterLlm.
Definition run_processing_tool_calls (d : CompositeDriver) : handler :=
  run_phase d PhProcessingToolCalls.
Definition run_turn_end (d : CompositeDriver) : handler := run_phase d PhTurnEnd.

Definition composite_reset (d : CompositeDriver) (s : S) : S :=
  fold_left (fun s driver => md_reset driver s) d s.

(** One driver's contribution to the aggregated limits. *)
Definition merge_limits (limits driver_limits : SessionLimits) : SessionLimits :=
  {| sl_max_steps := or_else (sl_max_steps limits) (sl_max_steps driver_limits);
     sl_max_turns := or_else (sl_max_turns limits) (sl_max_turns driver_limits);
     sl_max_cost_usd := or_else (sl_max_cost_usd limits) (sl_max_cost_usd driver_limits) |}.

Fixpoint get_limits_loop (limits : SessionLimits) (has_any : bool) (d : CompositeDriver)
    : option SessionLimits :=
  match d with
  | [] => if has_any then Some limits else None
  | driver :: rest =>
      match md_get_limits driver with
      | Some driver_limits => get_limits_loop (merge_limits limits driver_limits) true rest
      | None => get_limits_loop limits has_any rest
      end
  end.

Definition composite_get_limits (d : CompositeDriver) : option SessionLimits :=
  get_limits_loop session_limits_default false d.

(** ** Laws of the pipeline *)

Lemma run_phase_app d1 d2 p st s :
  run_phase (d1 ++ d2) p st s =
  match run_phase d1 p st s with
  | (Ok st', s') =>
      if is_terminal p st' && negb (is_nil d1) then (Ok st', s') else run_phase d2 p st' s'
  | (Err e, s') => (Err e, s')
  end.
Proof.
  revert st s. induction d1 as [|d d1 IH]; intros st s; simpl.
  - unfold mret, M_ret. by rewrite andb_false_r.
  - unfold mbind, M_bind. destruct (phase_handler d p st s) as [[st'|e] s'] eqn:E; [|done].
    destruct (is_terminal p st') eqn:Et; simpl.
    + unfold mret, M_ret. by rewrite Et.
    + rewrite IH. destruct (run_phase d1 p st' s') as [[st''|e] s''] eqn:E2; [|done].
      rewrite andb_true_r. destruct d1; simpl; [|by rewrite andb_true_r].
      simpl in E2. unfold mret, M_ret in E2. simplify_eq. by rewrite Et.
Qed.

(** A pipeline whose drivers pass a phase on leaves state and store alone. *)
Lemma run_phase_pass d p st s :
  Forall (fun dr => forall st s, phase_handler dr p st s = (Ok st, s)) d ->
  run_phase d p st s = (Ok st, s).
Proof.
  induction 1 as [|dr d Hdr _ IH]; simpl; [done|].
  unfold mbind, M_bind. rewrite Hdr. destruct (is_terminal p st); [done|exact IH].
Qed.

Lemma get_limits_loop_spec limits b d :
  get_limits_loop limits b d =
  let all := omap md_get_limits d in
  if b || negb (is_nil all)
  then Some {|
    sl_max_steps := or_else (sl_max_steps limits) (head (omap sl_max_steps all));
    sl_max_turns := or_else (sl_max_turns limits) (head (omap sl_max_turns all));
    sl_max_cost_usd := or_else (sl_max_cost_usd limits) (head (omap sl_max_cost_usd all)) |}
  else None.
Proof.
  revert limits b. induction d as [|dr d IH]; intros limits b; simpl.
  - rewrite orb_false_r, !or_else_None_r. by destruct limits, b.
  - destruct (md_get_limits dr) as [l|]; simpl; rewrite IH; [|done].
    simpl. rewrite orb_true_r. destruct limits as [[] [] []], l as [[] [] []]; reflexivity.
Qed.

(** [keeps] of a phase from [keeps] of each driver's handler. *)
Lemma keeps_run_phase (I : S -> Prop) d p st :
  Forall (fun dr => forall st, keeps I (phase_handler dr p st)) d ->
  keeps I (run_phase d p st).
Proof.
  intros H. revert st. induction H as [|dr d Hdr _ IH]; intros st; simpl; [apply keeps_ret|].
  apply keeps_bind; [apply Hdr|]. intros st'. destruct (is_terminal p st'); [apply keeps_ret|apply IH].
Qed.
End driver.

Arguments MiddlewareDriver {J} S.
Arguments CompositeDriver {J} S.
