(* ===== verification/Pruning.v ===== *)
(** Tool output pruning (session/pruning.rs): the token cost estimators and
    the selection of the tool results to mark as compacted. *)
From S2P Require Import Prelude Numbers Text Json Chat Domain Model ExecState.

Local Open Scope Z_scope.

(** ** Image costs *)

(** [imagesize::blob_size] is a dependency's: [blob_size data] is its answer. *)
Definition image_dimensions (blob_size : string -> option (Z * Z)) (data : string)
    : option (Z * Z) :=
  '(w, h) ← blob_size data;
  if (w <=? U32_MAX) && (h <=? U32_MAX) then Some (w, h) else None.

Inductive OpenAIImageCostModel :=
| Tile (base_tokens tile_tokens : Z)
| Patch (patch_budget multiplier_num multiplier_den : Z).

Definition openai_image_cost_model (model : string) : option OpenAIImageCostModel :=
  let model := to_ascii_lowercase model in
  if bool_decide (model ∈ ["gpt-5"; "gpt-5-chat-latest"]) then Some (Tile 70 140)
  else if bool_decide (model ∈ ["gpt-4o"; "gpt-4.1"; "gpt-4.5"]) then Some (Tile 85 170)
  else if bool_decide (model = "gpt-4o-mini") then Some (Tile 2833 5667)
  else if bool_decide (model ∈ ["o1"; "o1-pro"; "o3"]) then Some (Tile 75 150)
  else if bool_decide (model = "computer-use-preview") then Some (Tile 65 129)
  else if bool_decide (model ∈ ["gpt-5.4-mini"; "gpt-5-mini"; "gpt-4.1-mini";
                                "gpt-4.1-mini-2025-04-14"]) then Some (Patch 1536 162 100)
  else if bool_decide (model ∈ ["gpt-5.4-nano"; "gpt-5-nano"; "gpt-4.1-nano";
                                "gpt-4.1-nano-2025-04-14"]) then Some (Patch 1536 246 100)
  else if bool_decide (model = "o4-mini") then Some (Patch 1536 172 100)
  else if bool_decide (model = "gpt-5.4") then Some (Patch 2500 1 1)
  else if contains model "codex" then Some (Tile 70 140)
  else None.

Definition div_ceil_u32 (value divisor : Z) : Z :=
  u32_saturating_add value (u32_saturating_sub divisor 1) / divisor.

(** [((side as f64) * scale).floor().max(1.0) as u32] *)
Definition scaled_side (side : Z) (scale : f64) : Z :=
  f64_as_u32 (f64_max (f64_floor (f64_mul (f64_of_Z side) scale)) (f64_of_Z 1)).

Definition scale_to_fit_within (width height max_dimension : Z) : Z * Z :=
  if (width <=? max_dimension) && (height <=? max_dimension) then (width, height)
  else
    let scale := f64_min (f64_div (f64_of_Z max_dimension) (f64_of_Z width))
                   (f64_div (f64_of_Z max_dimension) (f64_of_Z height)) in
    (scaled_side width scale, scaled_side height scale).

Definition scale_shortest_side_to (width height target_shortest_side : Z) : Z * Z :=
  let shortest := Z.min width height in
  if (shortest =? 0) || (shortest =? target_shortest_side)
  then (Z.max width 1, Z.max height 1)
  else
    let scale := f64_div (f64_of_Z target_shortest_side) (f64_of_Z shortest) in
    (scaled_side width scale, scaled_side height scale).

Definition estimate_tile_based_tokens (width height base_tokens tile_tokens : Z) : Z :=
  let '(width, height) := scale_to_fit_within width height 2048 in
  let '(width, height) := scale_shortest_side_to width height 768 in
  let tiles := u32_saturating_mul (div_ceil_u32 width 512) (div_ceil_u32 height 512) in
  usize_saturating_add base_tokens (usize_saturating_mul tiles tile_tokens).

(** [(scaled / 32.0).floor() / (scaled / 32.0)] *)
Definition patch_adjust (scaled : f64) : f64 :=
  let q := f64_div scaled (f64_of_Z 32) in f64_div (f64_floor q) q.

Definition resized_patch_count (width height patch_budget : Z) : Z :=
  let width_f := f64_of_Z width in
  let height_f := f64_of_Z height in
  let patch_budget_f := f64_of_Z patch_budget in
  let patch_size_sq := f64_mul (f64_of_Z 32) (f64_of_Z 32) in
  let original_patch_count := u32_saturating_mul (div_ceil_u32 width 32) (div_ceil_u32 height 32) in
  if original_patch_count <=? patch_budget then original_patch_count
  else
    let shrink_factor := f64_sqrt (f64_div (f64_mul patch_size_sq patch_budget_f)
                                     (f64_mul width_f height_f)) in
    let width_adjust := patch_adjust (f64_mul width_f shrink_factor) in
    let height_adjust := patch_adjust (f64_mul height_f shrink_factor) in
    let adjusted_shrink_factor := f64_mul shrink_factor (f64_min width_adjust height_adjust) in
    u32_saturating_mul (div_ceil_u32 (scaled_side width adjusted_shrink_factor) 32)
      (div_ceil_u32 (scaled_side height adjusted_shrink_factor) 32).

Definition estimate_patch_based_tokens
    (width height patch_budget multiplier_num multiplier_den : Z) : Z :=
  div_ceil
    (usize_saturating_mul (Z.min (resized_patch_count width height patch_budget) patch_budget)
       multiplier_num)
    multiplier_den.

Definition estimate_openai_image_tokens (model : string) (width height : Z) : option Z :=
  cost_model ← openai_image_cost_model model;
  Some match cost_model with
       | Tile base_tokens tile_tokens =>
           estimate_tile_based_tokens width height base_tokens tile_tokens
       | Patch patch_budget multiplier_num multiplier_den =>
           estimate_patch_based_tokens width height patch_budget multiplier_num multiplier_den
       end.

Example tile_1024 : estimate_openai_image_tokens "gpt-4o" 1024 1024 = Some 765.
Proof. vm_compute. reflexivity. Qed.

(** ** Estimators *)

(** [str::len] as a [usize]. *)
Definition len_z (s : string) : Z := Z.of_nat (slen s).

Section estimator.
Context `{J : Json}.

(** [trait ContentCostEstimator], with its default methods. *)
Class ContentCostEstimator := {
  estimate_text : string -> Z;
  estimate_image : string -> string -> Z;
}.

Definition estimate_pdf (data : string) : Z := len_z data / 4.
Definition estimate_audio (data : string) : Z := len_z data / 4.

Definition opt_cost (f : string -> Z) (o : option string) : Z :=
  match o with Some s => f s | None => 0 end.

(** [estimate_block] and [estimate_content]; the sums are [usize] sums. *)
Fixpoint estimate_block `{ContentCostEstimator} (block : Content) : Z :=
  match block with
  | CText text => estimate_text text
  | CImage mime_type data => estimate_image mime_type data
  | CPdf data => estimate_pdf data
  | CAudio _ data => estimate_audio data
  | CImageUrl url => estimate_text url
  | CThinking text _ => estimate_text text
  | CToolUse _ name arguments =>
      usize_add (estimate_text name) (estimate_text (value_to_string arguments))
  | CToolResult _ _ _ content =>
      (fix sum (l : list Content) : Z :=
         match l with [] => 0 | b :: l' => usize_add (estimate_block b) (sum l') end) content
  | CResourceLink uri name description mime_type =>
      usize_add (usize_add (usize_add (estimate_text uri) (opt_cost estimate_text name))
                   (opt_cost estimate_text description)) (opt_cost estimate_text mime_type)
  end.

Fixpoint estimate_content `{ContentCostEstimator} (content : list Content) : Z :=
  match content with
  | [] => 0
  | b :: l => usize_add (estimate_block b) (estimate_content l)
  end.

Lemma estimate_tool_result `{ContentCostEstimator} i n e l :
  estimate_block (CToolResult i n e l) = estimate_content l.
Proof. simpl. induction l as [|b l IH]; simpl; congruence. Qed.

Definition estimate_simple (text : string) : Z := len_z text / 4.

(** [GenericContentCostEstimator] *)
Definition generic_estimator : ContentCostEstimator :=
  {| estimate_text := estimate_simple; estimate_image := fun _ data => len_z data / 4 |}.

(** [OpenAIContentCostEstimator] *)
Definition openai_estimator (blob_size : string -> option (Z * Z)) (model : string)
    : ContentCostEstimator :=
  {| estimate_text := estimate_simple;
     estimate_image := fun _ data =>
       let fallback := Z.max (len_z data / 8) 256 in
       match image_dimensions blob_size data with
       | Some (width, height) => default fallback (estimate_openai_image_tokens model width height)
       | None => fallback
       end |}.

(** [content_cost_estimator_for_llm_config], on the provider and model of the config. *)
Definition content_cost_estimator_for_llm_config (blob_size : string -> option (Z * Z))
    (llm_config : option (string * string)) : ContentCostEstimator :=
  match llm_config with
  | Some (provider, model) =>
      if String.eqb provider "openai" || String.eqb provider "codex"
      then openai_estimator blob_size model
      else generic_estimator
  | None => generic_estimator
  end.

(** ** Selection *)

Record PruneConfig := {
  pc_protect_tokens : Z;
  pc_minimum_tokens : Z;
  pc_protected_tools : list string;
}.

Record PrunableToolResult := {
  pt_message_id : string;
  pt_call_id : string;
  pt_tokens : Z;
}.

Record PruneAnalysis := {
  pa_protected_tokens : Z;
  pa_prunable_tokens : Z;
  pa_candidates : list PrunableToolResult;
  pa_should_prune : bool;
}.

Definition is_compaction_part (p : MessagePart) : bool :=
  match p with MpCompaction _ _ | MpCompactionRequest _ => true | _ => false end.

Definition message_has_compaction (m : AgentMessage) : bool :=
  existsb is_compaction_part (am_parts m).

(** The tool result a part offers for pruning: not compacted yet, and not
    of a protected tool. *)
Definition eligible_part `{ContentCostEstimator} (config : PruneConfig) (message_id : string)
    (p : MessagePart) : option PrunableToolResult :=
  match p with
  | MpToolResult call_id content _ tool_name _ compacted_at =>
      match compacted_at with
      | Some _ => None
      | None =>
          let protected := match tool_name with
                           | Some name => bool_decide (name ∈ pc_protected_tools config)
                           | None => false
                           end in
          if protected then None
          else Some {| pt_message_id := message_id; pt_call_id := call_id;
                       pt_tokens := estimate_content content |}
      end
  | _ => None
  end.

(** The loop's variables: protected and prunable tokens, candidates. *)
Definition prune_acc : Type := Z * Z * list PrunableToolResult.

Definition prune_part `{ContentCostEstimator} (config : PruneConfig) (message_id : string)
    (acc : prune_acc) (p : MessagePart) : prune_acc :=
  let '(protected_tokens, prunable_tokens, candidates) := acc in
  match eligible_part config message_id p with
  | None => acc
  | Some c =>
      if protected_tokens <? pc_protect_tokens config
      then (usize_add protected_tokens (pt_tokens c), prunable_tokens, candidates)
      else (protected_tokens, usize_add prunable_tokens (pt_tokens c), candidates ++ [c])
  end.

(** The walk over the messages, newest first. *)
Fixpoint prune_walk `{ContentCostEstimator} (config : PruneConfig) (user_turn_count : nat)
    (acc : prune_acc) (messages : list AgentMessage) : prune_acc :=
  match messages with
  | [] => acc
  | message :: rest =>
      if (user_turn_count <? 2)%nat
      then prune_walk config
             (if bool_decide (am_role message = User) then S user_turn_count else user_turn_count)
             acc rest
      else if message_has_compaction message then acc
      else prune_walk config user_turn_count
             (fold_left (prune_part config (am_id message)) (am_parts message) acc) rest
  end.

Definition compute_prune_candidates `{ContentCostEstimator} (messages : list AgentMessage)
    (config : PruneConfig) : PruneAnalysis :=
  let '(protected_tokens, prunable_tokens, candidates) :=
    prune_walk config 0 (0, 0, []) (rev messages) in
  let should_prune := pc_minimum_tokens config <=? prunable_tokens in
  {| pa_protected_tokens := protected_tokens;
     pa_prunable_tokens := prunable_tokens;
     pa_candidates := if should_prune then candidates else [];
     pa_should_prune := should_prune |}.

Definition extract_call_ids (candidates : list PrunableToolResult) : list string :=
  map pt_call_id candidates.

(** ** Specification: what the walk selects *)

(** The messages older than the two newest user messages, newest first. *)
Fixpoint skip_user_turns (n : nat) (messages : list AgentMessage) : list AgentMessage :=
  match n, messages with
  | O, _ => messages
  | _, [] => []
  | S n', m :: rest =>
      skip_user_turns (if bool_decide (am_role m = User) then n' else n) rest
  end.

(** [take_while] up to the first compaction boundary. *)
Fixpoint until_compaction (messages : list AgentMessage) : list AgentMessage :=
  match messages with
  | [] => []
  | m :: rest => if message_has_compaction m then [] else m :: until_compaction rest
  end.

Definition eligible_of_message `{ContentCostEstimator} (config : PruneConfig) (m : AgentMessage)
    : list PrunableToolResult :=
  omap (eligible_part config (am_id m)) (am_parts m).

(** The tool results in reach of pruning, in the order of the walk. *)
Definition eligible_results `{ContentCostEstimator} (messages : list AgentMessage)
    (config : PruneConfig) : list PrunableToolResult :=
  concat (map (eligible_of_message config)
            (until_compaction (skip_user_turns 2 (rev messages)))).

(** The protected prefix (the fewest newest results whose tokens reach the
    protection window), and the rest. *)
Fixpoint split_protected (window seen : Z) (l : list PrunableToolResult)
    : list PrunableToolResult * list PrunableToolResult :=
  match l with
  | [] => ([], [])
  | c :: l' =>
      if seen <? window
      then let '(p, r) := split_protected window (usize_add seen (pt_tokens c)) l' in (c :: p, r)
      else ([], c :: l')
  end.

Definition sum_tokens (seed : Z) (l : list PrunableToolResult) : Z :=
  fold_left (fun acc c => usize_add acc (pt_tokens c)) l seed.

Lemma split_protected_app window seen l :
  let '(p, r) := split_protected window seen l in p ++ r = l.
Proof.
  revert seen. induction l as [|c l IH]; intros seen; simpl; [done|].
  destruct (seen <? window); [|done].
  specialize (IH (usize_add seen (pt_tokens c))).
  destruct (split_protected _ _ l) as [p r]. simpl. by f_equal.
Qed.

(** One step of the walk over an eligible result. *)
Definition prune_step (config : PruneConfig) (acc : prune_acc) (c : PrunableToolResult)
    : prune_acc :=
  let '(protected_tokens, prunable_tokens, candidates) := acc in
  if protected_tokens <? pc_protect_tokens config
  then (usize_add protected_tokens (pt_tokens c), prunable_tokens, candidates)
  else (protected_tokens, usize_add prunable_tokens (pt_tokens c), candidates ++ [c]).

Lemma fold_prune_part `{ContentCostEstimator} config mid parts acc :
  fold_left (prune_part config mid) parts acc =
  fold_left (prune_step config) (omap (eligible_part config mid) parts) acc.
Proof.
  revert acc. induction parts as [|p parts IH]; intros acc; simpl; [done|].
  destruct (eligible_part config mid p) as [c|] eqn:E; simpl; rewrite IH; unfold prune_part;
    rewrite E; by destruct acc as [[? ?] ?].
Qed.

Lemma prune_walk_past `{ContentCostEstimator} config acc messages :
  prune_walk config 2 acc messages =
  fold_left (prune_step config)
    (concat (map (eligible_of_message config) (until_compaction messages))) acc.
Proof.
  revert acc. induction messages as [|m rest IH]; intros acc; simpl; [done|].
  destruct (message_has_compaction m); [done|]. simpl.
  by rewrite fold_left_app, IH, fold_prune_part.
Qed.

Lemma prune_walk_skip `{ContentCostEstimator} config k acc messages :
  (k <= 2)%nat ->
  prune_walk config k acc messages = prune_walk config 2 acc (skip_user_turns (2 - k) messages).
Proof.
  revert k. induction messages as [|m rest IH]; intros k Hk.
  - by destruct k as [|[|k]].
  - destruct (decide (k = 2%nat)) as [->|]; [done|].
    assert ((k <? 2)%nat = true) as Hlt by (apply Nat.ltb_lt; lia).
    destruct (2 - k)%nat as [|j] eqn:En; [lia|].
    cbn [prune_walk skip_user_turns]. rewrite Hlt.
    destruct (bool_decide (am_role m = User)); rewrite IH by lia; f_equal; f_equal; lia.
Qed.

Lemma fold_prune_step config l P Q cs :
  fold_left (prune_step config) l (P, Q, cs) =
  let '(p, r) := split_protected (pc_protect_tokens config) P l in
  (sum_tokens P p, sum_tokens Q r, cs ++ r).
Proof.
  revert P Q cs. induction l as [|c l IH]; intros P Q cs; simpl.
  - by rewrite app_nil_r.
  - destruct (P <? pc_protect_tokens config) eqn:E.
    + rewrite IH. by destruct (split_protected _ _ l) as [p r].
    + rewrite IH.
      assert (split_protected (pc_protect_tokens config) P l = ([], l)) as ->
        by (destruct l; simpl; by rewrite ?E).
      simpl. by rewrite <- app_assoc.
Qed.

Lemma prune_walk_spec `{ContentCostEstimator} config messages :
  prune_walk config 0 (0, 0, []) (rev messages) =
  let '(p, r) := split_protected (pc_protect_tokens config) 0 (eligible_results messages config) in
  (sum_tokens 0 p, sum_tokens 0 r, r).
Proof.
  rewrite prune_walk_skip by lia. rewrite prune_walk_past.
  change (2 - 0)%nat with 2%nat. rewrite fold_prune_step. by unfold eligible_results.
Qed.

Lemma until_compaction_prefix l : exists r, l = until_compaction l ++ r.
Proof.
  induction l as [|m l [r IH]]; simpl; [by exists []|].
  destruct (message_has_compaction m); [by eexists|]. exists r. simpl. by rewrite <- IH.
Qed.

Lemma until_compaction_elem l m : m ∈ until_compaction l -> message_has_compaction m = false.
Proof.
  induction l as [|x l IH]; simpl; [by intros ?%not_elem_of_nil|].
  destruct (message_has_compaction x) eqn:E; [by intros ?%not_elem_of_nil|].
  rewrite elem_of_cons. intros [->|]; auto.
Qed.

Lemma skip_user_turns_suffix n l : exists p, l = p ++ skip_user_turns n l.
Proof.
  revert n. induction l as [|m l IH]; intros [|n]; simpl; try (by exists []).
  destruct (IH (if bool_decide (am_role m = User) then n else S n)) as [p Hp].
  exists (m :: p). simpl. by rewrite <- Hp.
Qed.

(** Marking the selected call ids, as the store does after the analysis. *)
Definition mark_part_compacted (now : Z) (call_ids : list string) (p : MessagePart) : MessagePart :=
  match p with
  | MpToolResult id content e n a None =>
      if bool_decide (id ∈ call_ids) then MpToolResult id content e n a (Some now) else p
  | _ => p
  end.
End estimator.
