(* ===== verification/Hooks.v ===== *)
(** The interface of the hook runtime (hooks/engine.rs): requests and results
    of the hooks the execution loop runs. The engine itself answers through
    the environment. *)
From S2P Require Import Prelude Numbers Json Chat Domain.

Record HookNotice := {
  hn_event_name : string;
  hn_message : string;
  hn_is_error : bool;
}.

Inductive PermissionRequestDecision := PrdAllow | PrdDeny (message : string).

Record UpdatedDelegation := {
  ud_target_agent_id : option string;
  ud_objective : option string;
  ud_context : option string;
  ud_constraints : option string;
  ud_expected_output : option string;
}.

Definition updated_delegation_default : UpdatedDelegation :=
  {| ud_target_agent_id := None; ud_objective := None; ud_context := None;
     ud_constraints := None; ud_expected_output := None |}.

(** What every request carries of the turn: session and turn ids, working
    directory, model and permission mode. *)
Record HookContext := {
  hc_session_id : string;
  hc_turn_id : string;
  hc_cwd : option string;
  hc_model : string;
  hc_permission_mode : string;
}.

(** [permission_mode_label] (hooks/mod.rs) *)
Definition permission_mode_label (m : AgentMode) : string :=
  match m with Build => "default" | Plan => "plan" | Review => "accept_edits" end.

Section hooks.
Context `{J : Json}.

Record PreToolUseRequest := {
  ptr_context : HookContext;
  ptr_tool_name : string;
  ptr_tool_input : Value;
  ptr_tool_use_id : string;
}.
Record PreToolUseResult := {
  ptu_should_block : bool;
  ptu_block_reason : option string;
  ptu_updated_input : option Value;
  ptu_additional_contexts : list string;
  ptu_notices : list HookNotice;
}.

Record PermissionRequestRequest := {
  prr_context : HookContext;
  prr_tool_name : string;
  prr_tool_input : Value;
}.
Record PermissionRequestResult := {
  prs_decision : option PermissionRequestDecision;
  prs_notices : list HookNotice;
}.

Record PostToolUseRequest := {
  por_context : HookContext;
  por_tool_name : string;
  por_tool_input : Value;
  por_tool_response : Value;
  por_tool_use_id : string;
}.
Record PostToolUseResult := {
  pou_should_block : bool;
  pou_block_reason : option string;
  pou_stop_reason : option string;
  pou_additional_contexts : list string;
  pou_notices : list HookNotice;
}.

Record StopRequest := { srq_context : HookContext; srq_stop_reason : string }.
Record StopResult := {
  srs_should_continue : bool;
  srs_block_reason : option string;
  srs_stop_reason : option string;
  srs_additional_contexts : list string;
  srs_notices : list HookNotice;
}.

Record PreCompactionRequest := {
  pcq_context : HookContext;
  pcq_trigger : string;
  pcq_token_estimate : Z;
  pcq_message_count : Z;
}.
Record PreCompactionResult := {
  pcr_should_block : bool;
  pcr_block_reason : option string;
  pcr_additional_contexts : list string;
  pcr_notices : list HookNotice;
}.

Record PostCompactionRequest := {
  pcq'_context : HookContext;
  pcq'_trigger : string;
  pcq'_summary : string;
  pcq'_original_token_count : Z;
  pcq'_summary_token_count : Z;
  pcq'_message_count : Z;
}.
Record PostCompactionResult := {
  pcr'_additional_contexts : list string;
  pcr'_notices : list HookNotice;
}.

Record PreDelegationRequest := {
  pdq_context : HookContext;
  pdq_tool_use_id : string;
  pdq_target_agent_id : string;
  pdq_objective : string;
  pdq_delegation_context : option string;
  pdq_constraints : option string;
  pdq_expected_output : option string;
}.
Record PreDelegationResult := {
  pdr_should_block : bool;
  pdr_block_reason : option string;
  pdr_updated_delegation : option UpdatedDelegation;
  pdr_additional_contexts : list string;
  pdr_notices : list HookNotice;
}.

(** The [Default] results: nothing blocked, nothing changed. *)
Definition pre_tool_use_default : PreToolUseResult :=
  {| ptu_should_block := false; ptu_block_reason := None; ptu_updated_input := None;
     ptu_additional_contexts := []; ptu_notices := [] |}.
Definition permission_request_default : PermissionRequestResult :=
  {| prs_decision := None; prs_notices := [] |}.
Definition post_tool_use_default : PostToolUseResult :=
  {| pou_should_block := false; pou_block_reason := None; pou_stop_reason := None;
     pou_additional_contexts := []; pou_notices := [] |}.
Definition stop_default : StopResult :=
  {| srs_should_continue := false; srs_block_reason := None; srs_stop_reason := None;
     srs_additional_contexts := []; srs_notices := [] |}.
Definition pre_compaction_default : PreCompactionResult :=
  {| pcr_should_block := false; pcr_block_reason := None; pcr_additional_contexts := [];
     pcr_notices := [] |}.
Definition post_compaction_default : PostCompactionResult :=
  {| pcr'_additional_contexts := []; pcr'_notices := [] |}.
Definition pre_delegation_default : PreDelegationResult :=
  {| pdr_should_block := false; pdr_block_reason := None; pdr_updated_delegation := None;
     pdr_additional_contexts := []; pdr_notices := [] |}.
End hooks.
