(* ===== verification/World.v ===== *)
(** The world of an execution cycle: the store the session keeps, the answers
    of everything outside the modelled code, and the primitive operations the
    execution code is written in.

    Everything the code asks of the outside (the provider, the tools, the
    hooks, the file system, the database's failures, the clock, fresh ids) is
    a function of the logical clock [w_now], which every such interaction and
    every look at the cancellation token advances: an answer may change from
    one call to the next in any way.  The cancellation token is the time from
    which it is cancelled, if ever; it never goes back. *)
From S2P Require Import Prelude Numbers Text Json Chat LlmErrors Domain Events Model ExecState.
From S2P Require Import Driver Pruning Hooks.

Local Open Scope Z_scope.

(** How a computation ends without a value: the display of an
    [anyhow::Error]; dropped at an await, as a future is that loses a
    [select!]; or at the end of the fuel of a loop (never a result of the
    program). *)
Inductive ExecError := Anyhow (message : string) | Dropped | OutOfFuel.

(** The interior state of one middleware driver. *)
Record MwCell := {
  cell_last_model : option (string * string);
  cell_warned_sessions : gset string;
  cell_last_check : gmap string nat;
}.

Definition cell_empty : MwCell :=
  {| cell_last_model := None; cell_warned_sessions := ∅; cell_last_check := ∅ |}.

Section world.
Context `{J : Json}.

(** What a wait on the event stream can receive: an event, a lag notice, the
    firing of the inactivity timer. *)
Inductive WaitInput :=
| WiEvent (e : EventEnvelope)
| WiLagged
| WiTimer.

(** A permission request to the client, with its options by id and label. *)
Record RequestPermissionRequest := {
  rpr_session_id : string;
  rpr_tool_call_id : string;
  rpr_title : string;
  rpr_kind : ToolKind;
  rpr_locations : option (list string);
  rpr_raw_input : Value;
  rpr_options : list (string * string);
}.

(** The outcome of a permission request to the client. *)
Inductive RequestPermissionOutcome :=
| RpSelected (option_id : string)
| RpOther.

Record McpToolSnapshot := {
  (** tool name to server name *)
  mcp_tools : gmap string string;
  mcp_tool_defs : list Tool;
}.

Record World := {
  w_now : nat;
  (** the stored messages of the session, oldest first *)
  w_history : list AgentMessage;
  (** the events emitted, in program order *)
  w_events : list AgentEventKind;
  (** [exec_ctx.state.active_task], and the tasks of the store *)
  w_active_task : option Task;
  w_tasks : list Task;
  w_delegations : list Delegation;
  w_progress : list ProgressEntry;
  w_artifacts : list Artifact;
  w_permission_cache : gmap string bool;
  w_turn_diffs : DiffPaths;
  w_tools_hash : option RapidHash;
  (** [runtime.pre_turn_snapshot_task]: the pending task, with its outcome *)
  w_pre_turn_task : option (option (string * result string string));
  w_turn_snapshot : option (string * string);
  (** what is still to be received on the event stream; closed when empty *)
  w_rx : list WaitInput;
  w_mw : gmap nat MwCell;
}.

Definition set_now (f : nat -> nat) (w : World) : World :=
  {| w_now := f (w_now w); w_history := w_history w; w_events := w_events w;
     w_active_task := w_active_task w; w_tasks := w_tasks w;
     w_delegations := w_delegations w; w_progress := w_progress w; w_artifacts := w_artifacts w;
     w_permission_cache := w_permission_cache w; w_turn_diffs := w_turn_diffs w;
     w_tools_hash := w_tools_hash w; w_pre_turn_task := w_pre_turn_task w;
     w_turn_snapshot := w_turn_snapshot w; w_rx := w_rx w; w_mw := w_mw w |}.
Definition set_history (f : list AgentMessage -> list AgentMessage) (w : World) : World :=
  {| w_now := w_now w; w_history := f (w_history w); w_events := w_events w;
     w_active_task := w_active_task w; w_tasks := w_tasks w;
     w_delegations := w_delegations w; w_progress := w_progress w; w_artifacts := w_artifacts w;
     w_permission_cache := w_permission_cache w; w_turn_diffs := w_turn_diffs w;
     w_tools_hash := w_tools_hash w; w_pre_turn_task := w_pre_turn_task w;
     w_turn_snapshot := w_turn_snapshot w; w_rx := w_rx w; w_mw := w_mw w |}.
Definition set_events (f : list AgentEventKind -> list AgentEventKind) (w : World) : World :=
  {| w_now := w_now w; w_history := w_history w; w_events := f (w_events w);
     w_active_task := w_active_task w; w_tasks := w_tasks w;
     w_delegations := w_delegations w; w_progress := w_progress w; w_artifacts := w_artifacts w;
     w_permission_cache := w_permission_cache w; w_turn_diffs := w_turn_diffs w;
     w_tools_hash := w_tools_hash w; w_pre_turn_task := w_pre_turn_task w;
     w_turn_snapshot := w_turn_snapshot w; w_rx := w_rx w; w_mw := w_mw w |}.
Definition set_active_task (t : option Task) (w : World) : World :=
  {| w_now := w_now w; w_history := w_history w; w_events := w_events w;
     w_active_task := t; w_tasks := w_tasks w;
     w_delegations := w_delegations w; w_progress := w_progress w; w_artifacts := w_artifacts w;
     w_permission_cache := w_permission_cache w; w_turn_diffs := w_turn_diffs w;
     w_tools_hash := w_tools_hash w; w_pre_turn_task := w_pre_turn_task w;
     w_turn_snapshot := w_turn_snapshot w; w_rx := w_rx w; w_mw := w_mw w |}.
Definition set_tasks (f : list Task -> list Task) (w : World) : World :=
  {| w_now := w_now w; w_history := w_history w; w_events := w_events w;
     w_active_task := w_active_task w; w_tasks := f (w_tasks w);
     w_delegations := w_delegations w; w_progress := w_progress w; w_artifacts := w_artifacts w;
     w_permission_cache := w_permission_cache w; w_turn_diffs := w_turn_diffs w;
     w_tools_hash := w_tools_hash w; w_pre_turn_task := w_pre_turn_task w;
     w_turn_snapshot := w_turn_snapshot w; w_rx := w_rx w; w_mw := w_mw w |}.
Definition set_delegations (f : list Delegation -> list Delegation) (w : World) : World :=
  {| w_now := w_now w; w_history := w_history w; w_events := w_events w;
     w_active_task := w_active_task w; w_tasks := w_tasks w;
     w_delegations := f (w_delegations w); w_progress := w_progress w;
     w_artifacts := w_artifacts w;
     w_permission_cache := w_permission_cache w; w_turn_diffs := w_turn_diffs w;
     w_tools_hash := w_tools_hash w; w_pre_turn_task := w_pre_turn_task w;
     w_turn_snapshot := w_turn_snapshot w; w_rx := w_rx w; w_mw := w_mw w |}.
Definition set_progress (f : list ProgressEntry -> list ProgressEntry) (w : World) : World :=
  {| w_now := w_now w; w_history := w_history w; w_events := w_events w;
     w_active_task := w_active_task w; w_tasks := w_tasks w;
     w_delegations := w_delegations w; w_progress := f (w_progress w);
     w_artifacts := w_artifacts w;
     w_permission_cache := w_permission_cache w; w_turn_diffs := w_turn_diffs w;
     w_tools_hash := w_tools_hash w; w_pre_turn_task := w_pre_turn_task w;
     w_turn_snapshot := w_turn_snapshot w; w_rx := w_rx w; w_mw := w_mw w |}.
Definition set_artifacts (f : list Artifact -> list Artifact) (w : World) : World :=
  {| w_now := w_now w; w_history := w_history w; w_events := w_events w;
     w_active_task := w_active_task w; w_tasks := w_tasks w;
     w_delegations := w_delegations w; w_progress := w_progress w;
     w_artifacts := f (w_artifacts w);
     w_permission_cache := w_permission_cache w; w_turn_diffs := w_turn_diffs w;
     w_tools_hash := w_tools_hash w; w_pre_turn_task := w_pre_turn_task w;
     w_turn_snapshot := w_turn_snapshot w; w_rx := w_rx w; w_mw := w_mw w |}.
Definition set_permission_cache (f : gmap string bool -> gmap string bool) (w : World) : World :=
  {| w_now := w_now w; w_history := w_history w; w_events := w_events w;
     w_active_task := w_active_task w; w_tasks := w_tasks w;
     w_delegations := w_delegations w; w_progress := w_progress w; w_artifacts := w_artifacts w;
     w_permission_cache := f (w_permission_cache w); w_turn_diffs := w_turn_diffs w;
     w_tools_hash := w_tools_hash w; w_pre_turn_task := w_pre_turn_task w;
     w_turn_snapshot := w_turn_snapshot w; w_rx := w_rx w; w_mw := w_mw w |}.
Definition set_turn_diffs (f : DiffPaths -> DiffPaths) (w : World) : World :=
  {| w_now := w_now w; w_history := w_history w; w_events := w_events w;
     w_active_task := w_active_task w; w_tasks := w_tasks w;
     w_delegations := w_delegations w; w_progress := w_progress w; w_artifacts := w_artifacts w;
     w_permission_cache := w_permission_cache w; w_turn_diffs := f (w_turn_diffs w);
     w_tools_hash := w_tools_hash w; w_pre_turn_task := w_pre_turn_task w;
     w_turn_snapshot := w_turn_snapshot w; w_rx := w_rx w; w_mw := w_mw w |}.
Definition set_tools_hash (h : option RapidHash) (w : World) : World :=
  {| w_now := w_now w; w_history := w_history w; w_events := w_events w;
     w_active_task := w_active_task w; w_tasks := w_tasks w;
     w_delegations := w_delegations w; w_progress := w_progress w; w_artifacts := w_artifacts w;
     w_permission_cache := w_permission_cache w; w_turn_diffs := w_turn_diffs w;
     w_tools_hash := h; w_pre_turn_task := w_pre_turn_task w;
     w_turn_snapshot := w_turn_snapshot w; w_rx := w_rx w; w_mw := w_mw w |}.
Definition set_snapshot_state (task : option (option (string * result string string)))
    (snap : option (string * string)) (w : World) : World :=
  {| w_now := w_now w; w_history := w_history w; w_events := w_events w;
     w_active_task := w_active_task w; w_tasks := w_tasks w;
     w_delegations := w_delegations w; w_progress := w_progress w; w_artifacts := w_artifacts w;
     w_permission_cache := w_permission_cache w; w_turn_diffs := w_turn_diffs w;
     w_tools_hash := w_tools_hash w; w_pre_turn_task := task;
     w_turn_snapshot := snap; w_rx := w_rx w; w_mw := w_mw w |}.
Definition set_rx (rx : list WaitInput) (w : World) : World :=
  {| w_now := w_now w; w_history := w_history w; w_events := w_events w;
     w_active_task := w_active_task w; w_tasks := w_tasks w;
     w_delegations := w_delegations w; w_progress := w_progress w; w_artifacts := w_artifacts w;
     w_permission_cache := w_permission_cache w; w_turn_diffs := w_turn_diffs w;
     w_tools_hash := w_tools_hash w; w_pre_turn_task := w_pre_turn_task w;
     w_turn_snapshot := w_turn_snapshot w; w_rx := rx; w_mw := w_mw w |}.
Definition set_mw (f : gmap nat MwCell -> gmap nat MwCell) (w : World) : World :=
  {| w_now := w_now w; w_history := w_history w; w_events := w_events w;
     w_active_task := w_active_task w; w_tasks := w_tasks w;
     w_delegations := w_delegations w; w_progress := w_progress w; w_artifacts := w_artifacts w;
     w_permission_cache := w_permission_cache w; w_turn_diffs := w_turn_diffs w;
     w_tools_hash := w_tools_hash w; w_pre_turn_task := w_pre_turn_task w;
     w_turn_snapshot := w_turn_snapshot w; w_rx := w_rx w; w_mw := f (w_mw w) |}.

(** A stream as it is received: chunks and errors, in order; then its end. *)
Definition Stream : Type := list (result LLMError StreamChunk).

(** Everything outside the modelled code. *)
Class Env := {
  (** the cancellation token, and which branch of a [select!] is taken when
      the token is cancelled and the other branch is ready too *)
  env_cancel_at : option nat;
  env_race : nat -> bool;
  (** clock, fresh ids, floating-point power, hash and image size functions *)
  env_unix_time : nat -> Z;
  env_uuid : nat -> string;
  env_powi : f64 -> Z -> f64;
  env_rapidhash : string -> RapidHash;
  env_blob_size : string -> option (Z * Z);
  (** [last_flush.elapsed() >= 50ms] *)
  env_flush_due : nat -> bool;
  (** the session store: an error, if the call at this time fails *)
  env_store_error : nat -> option string;
  env_session_internal_id : Z;
  (** [conn.last_insert_rowid()] *)
  env_row_id : nat -> Z;
  (** the session's record at this time, by its [active_task_id] *)
  env_session_active_task : nat -> option (option Z);
  (** the provider registry, the provider and the model *)
  env_models : ModelRegistry;
  env_provider_error : nat -> option LLMError;
  env_provider_tools : option (list Tool);
  env_supports_streaming : bool;
  env_has_key_resolver : nat -> bool;
  env_chat : nat -> list ChatMessage -> result LLMError ChatResponse;
  env_chat_with_tools : nat -> list ChatMessage -> list Tool -> result LLMError ChatResponse;
  env_chat_stream : nat -> list ChatMessage -> result LLMError Stream;
  env_chat_stream_with_tools : nat -> list ChatMessage -> list Tool -> result LLMError Stream;
  (** tools: the registry's, the MCP servers', the provider's; errors by their text *)
  env_builtin_call : nat -> string -> Value -> result string (list Content);
  env_mcp : nat -> McpToolSnapshot;
  env_mcp_call : nat -> string -> Value -> result string (list Content);
  env_provider_call : nat -> string -> Value -> result string (list Content);
  (** [serde_json::to_vec(&tools)] *)
  env_tools_json : list Tool -> result string string;
  env_is_object : Value -> bool;
  (** [{:?}] of an [LLMError] *)
  env_debug_error : LLMError -> string;
  (** the hook runtime *)
  env_pre_tool_use : nat -> PreToolUseRequest -> result string PreToolUseResult;
  env_permission_request : nat -> PermissionRequestRequest -> result string PermissionRequestResult;
  env_post_tool_use : nat -> PostToolUseRequest -> result string PostToolUseResult;
  env_stop : nat -> StopRequest -> result string StopResult;
  env_pre_compaction : nat -> PreCompactionRequest -> result string PreCompactionResult;
  env_post_compaction : nat -> PostCompactionRequest -> result string PostCompactionResult;
  env_pre_delegation : nat -> PreDelegationRequest -> result string PreDelegationResult;
  (** the client bridge *)
  env_request_permission :
    nat -> RequestPermissionRequest -> result string RequestPermissionOutcome;
  (** file trees: root hash and changes between two scan times; metadata *)
  env_snapshot_diff : nat -> nat -> string -> RapidHash * DiffPaths;
  (** files, bytes and latest modification time under a root *)
  env_metadata : nat -> string -> Z * Z * Z;
  (** file system for the overflow files *)
  env_temp_dir : string;
  env_create_dir : nat -> string -> option string;
  env_write : nat -> string -> string -> option string;
}.

(** ** Primitive operations *)

Definition X (A : Type) : Type := M World ExecError A.

Definition tick : X unit := modify (set_now S).

(** An answer of the outside at the current time. *)
Definition ask {A} (f : nat -> A) : X A := fun w => (Ok (f (w_now w)), set_now S w).

Definition throw {A} (message : string) : X A := fail (Anyhow message).

Context {Ev : Env}.

Definition cancelled_at (t : nat) : bool :=
  match env_cancel_at with Some c => (c <=? t)%nat | None => false end.

(** [cancellation_token.is_cancelled()] *)
Definition is_cancelled : X bool := ask cancelled_at.

(** [select! { r = work => .., _ = token.cancelled() => .. }]: the answer of
    the work, or [None] when the cancellation is taken. *)
Definition select_cancel {A} (work : nat -> A) : X (option A) := fun w =>
  let t := w_now w in
  (Ok (if cancelled_at t && env_race t then None else Some (work t)), set_now S w).

(** [m.await] inside a future that is raced with the cancellation: the future
    can be dropped there, before or after the awaited operation's effect. *)
Definition drop_point : X unit := fun w =>
  let t := w_now w in
  if cancelled_at t && env_race t then (Err Dropped, set_now S w) else (Ok tt, set_now S w).
Definition awaiting {A} (m : X A) : X A :=
  drop_point ≫= fun _ => r ← m; drop_point ≫= fun _ => mret r.

Definition unix_time : X Z := ask env_unix_time.
Definition fresh_uuid : X string := ask env_uuid.

(** [config.emit_event] *)
Definition emit_event (k : AgentEventKind) : X unit := modify (set_events (fun l => l ++ [k])).

Definition emit_notices (l : list HookNotice) : X unit :=
  mapM_ (fun n => emit_event (EvHookNotice (hn_event_name n) (hn_message n) (hn_is_error n))) l.

(** A call of the session store: it fails with the environment's error, or
    has its effect. *)
Definition store_call {A} (f : World -> A * World) : X (result string A) := fun w =>
  let w' := set_now S w in
  match env_store_error (w_now w) with
  | Some e => (Ok (Err e), w')
  | None => let '(a, w'') := f w' in (Ok (Ok a), w'')
  end.

Definition store_add_message (m : AgentMessage) : X (result string unit) :=
  store_call (fun w => (tt, set_history (fun h => h ++ [m]) w)).
Definition store_get_history : X (result string (list AgentMessage)) :=
  store_call (fun w => (w_history w, w)).

(** [r.map_err(|e| anyhow!("{prefix}{e}"))?] *)
Definition or_throw {A} (prefix : string) (r : result string A) : X A :=
  match r with Ok a => mret a | Err e => throw (prefix +:+ e) end.
Definition or_throw_llm {A} (prefix : string) (r : result LLMError A) : X A :=
  match r with Ok a => mret a | Err e => throw (prefix +:+ llm_error_display e) end.

(** ** Laws: what each primitive keeps *)

Lemma keeps_ask {A} (I : World -> Prop) (f : nat -> A) :
  (forall w, I w -> I (set_now S w)) -> keeps I (ask f).
Proof. intros H w Hw. apply H, Hw. Qed.

Lemma keeps_select {A} (I : World -> Prop) (f : nat -> A) :
  (forall w, I w -> I (set_now S w)) -> keeps I (select_cancel f).
Proof. intros H w Hw. apply H, Hw. Qed.

Lemma keeps_store {A} (I : World -> Prop) (f : World -> A * World) :
  (forall w, I w -> I (set_now S w)) -> (forall w, I w -> I (f w).2) -> keeps I (store_call f).
Proof.
  intros H Hf w Hw. unfold store_call, wp. destruct (env_store_error (w_now w)); [by apply H|].
  specialize (Hf _ (H _ Hw)). by destruct (f (set_now S w)).
Qed.

Lemma keeps_emit (I : World -> Prop) k :
  (forall w, I w -> I (set_events (fun l => l ++ [k]) w)) -> keeps I (emit_event k).
Proof. intros H. by apply keeps_modify. Qed.

Lemma keeps_or_throw {A} (I : World -> Prop) p (r : result string A) : keeps I (or_throw p r).
Proof. destruct r; [apply keeps_ret|apply keeps_fail]. Qed.

Lemma keeps_or_throw_llm {A} (I : World -> Prop) p (r : result LLMError A) :
  keeps I (or_throw_llm p r).
Proof. destruct r; [apply keeps_ret|apply keeps_fail]. Qed.

Lemma keeps_throw {A} (I : World -> Prop) s : keeps I (throw (A:=A) s).
Proof. apply keeps_fail. Qed.

Lemma keeps_drop_point (I : World -> Prop) :
  (forall w, I w -> I (set_now S w)) -> keeps I drop_point.
Proof. intros H w Hw. unfold wp, drop_point. destruct (_ && _); by apply H. Qed.

Lemma keeps_awaiting {A} (I : World -> Prop) (m : X A) :
  (forall w, I w -> I (set_now S w)) -> keeps I m -> keeps I (awaiting m).
Proof.
  intros H Hm. unfold awaiting. apply keeps_bind; [by apply keeps_drop_point|intros _].
  apply keeps_bind; [done|intros r]. apply keeps_bind; [by apply keeps_drop_point|intros _].
  apply keeps_ret.
Qed.

(** An assertion about the history alone: nothing but a message write can
    change it. *)
Definition on_history (P : list AgentMessage -> Prop) (w : World) : Prop := P (w_history w).

Lemma keeps_ask_history {A} P (f : nat -> A) : keeps (on_history P) (ask f).
Proof. by apply keeps_ask. Qed.
Lemma keeps_select_history {A} P (f : nat -> A) : keeps (on_history P) (select_cancel f).
Proof. by apply keeps_select. Qed.
Lemma keeps_emit_history P k : keeps (on_history P) (emit_event k).
Proof. by apply keeps_emit. Qed.
Lemma keeps_notices_history P l : keeps (on_history P) (emit_notices l).
Proof. apply keeps_mapM_. intros n. apply keeps_emit_history. Qed.
Lemma keeps_awaiting_history {A} P (m : X A) :
  keeps (on_history P) m -> keeps (on_history P) (awaiting m).
Proof. by apply keeps_awaiting. Qed.
Lemma keeps_get_history P : keeps (on_history P) store_get_history.
Proof. by apply keeps_store. Qed.

(** Nothing un-cancels the token: the clock only moves forward. *)
Lemma cancelled_at_mono t t' : (t <= t')%nat -> cancelled_at t = true -> cancelled_at t' = true.
Proof.
  unfold cancelled_at. destruct env_cancel_at as [c|]; [|done].
  rewrite !Nat.leb_le. lia.
Qed.

(** Without a cancellation an awaited answer of the outside is what it is. *)
Lemma awaiting_ask_run {A} (f : nat -> A) w :
  env_cancel_at = None ->
  awaiting (ask f) w = (Ok (f (S (w_now w))), set_now (Nat.add 3) w).
Proof.
  intros Hc. unfold awaiting, drop_point, ask, mbind, M_bind, mret, M_ret, cancelled_at.
  by rewrite Hc.
Qed.
End world.

Arguments World {J}.
Arguments Env {J}.
Arguments X {J} A.

#[export] Hint Resolve keeps_ask_history keeps_select_history keeps_emit_history
  keeps_notices_history keeps_awaiting_history keeps_get_history keeps_or_throw keeps_or_throw_llm keeps_throw : qmt.
