(* ===== verification/Limits.v ===== *)
(** The limits middleware (middleware/limits.rs): the combined step, turn and
    price limits, and the three single-limit drivers. Also the access to a
    driver's interior state that all middleware components share. *)
From S2P Require Import Prelude Numbers Text Json Chat Domain Events Model ExecState Driver.
From S2P Require Import World.

Local Open Scope Z_scope.

Section cells.
Context `{J : Json}.

(** A driver's interior state, by the index of the driver. *)
Definition get_cell (idx : nat) (w : World) : MwCell := default cell_empty (w_mw w !! idx).
Definition put_cell (idx : nat) (c : MwCell) (w : World) : World := set_mw (insert idx c) w.

Definition set_last_model (m : option (string * string)) (c : MwCell) : MwCell :=
  {| cell_last_model := m; cell_warned_sessions := cell_warned_sessions c;
     cell_last_check := cell_last_check c |}.
Definition set_warned (s : gset string) (c : MwCell) : MwCell :=
  {| cell_last_model := cell_last_model c; cell_warned_sessions := s;
     cell_last_check := cell_last_check c |}.
Definition set_last_check (m : gmap string nat) (c : MwCell) : MwCell :=
  {| cell_last_model := cell_last_model c; cell_warned_sessions := cell_warned_sessions c;
     cell_last_check := m |}.

Lemma get_put_cell idx c w : get_cell idx (put_cell idx c w) = c.
Proof. unfold get_cell, put_cell. simpl. by rewrite lookup_insert_eq. Qed.

Lemma get_put_cell_ne i j c w : i <> j -> get_cell i (put_cell j c w) = get_cell i w.
Proof. intros H. unfold get_cell, put_cell. simpl. by rewrite lookup_insert_ne. Qed.
End cells.

Section limits.
Context {J : Json} {Ev : Env}.

Record LimitsConfig := {
  lc_max_steps : option Z;
  lc_max_turns : option Z;
  lc_max_price_usd : option f64;
  lc_model_info_source : ModelInfoSource;
}.

Definition limits_default : LimitsConfig :=
  {| lc_max_steps := None; lc_max_turns := None; lc_max_price_usd := None;
     lc_model_info_source := FromSession |}.

Definition with_manual_pricing (input output : f64) : LimitsConfig :=
  {| lc_max_steps := None; lc_max_turns := None; lc_max_price_usd := None;
     lc_model_info_source := source_pricing manual input output |}.
Definition with_max_steps (c : LimitsConfig) (steps : Z) : LimitsConfig :=
  {| lc_max_steps := Some steps; lc_max_turns := lc_max_turns c;
     lc_max_price_usd := lc_max_price_usd c; lc_model_info_source := lc_model_info_source c |}.
Definition with_max_turns (c : LimitsConfig) (turns : Z) : LimitsConfig :=
  {| lc_max_steps := lc_max_steps c; lc_max_turns := Some turns;
     lc_max_price_usd := lc_max_price_usd c; lc_model_info_source := lc_model_info_source c |}.
Definition with_max_price_usd (c : LimitsConfig) (price : f64) : LimitsConfig :=
  {| lc_max_steps := lc_max_steps c; lc_max_turns := lc_max_turns c;
     lc_max_price_usd := Some price; lc_model_info_source := lc_model_info_source c |}.

(** [get_model_info] *)
Definition get_model_info (provider model : string) : option ModelInfo := env_models provider model.

(** [LimitsMiddleware::total_cost] *)
Definition limits_total_cost (config : LimitsConfig) (stats : AgentStats)
    (context : ConversationContext) : option f64 :=
  let billable_output := u64_add (st_total_output_tokens stats) (st_reasoning_tokens stats) in
  match lc_model_info_source config with
  | FromSession =>
      info ← get_model_info (cc_provider context) (cc_model context);
      calculate_cost (mi_pricing info) (st_total_input_tokens stats) billable_output
  | Manual _ _ _ _ _ input output =>
      input ← input;
      output ← output;
      calculate_cost {| mp_input := Some input; mp_output := Some output;
                        mp_cache_read := None; mp_cache_write := None |}
        (st_total_input_tokens stats) billable_output
  end.

(** [LimitsMiddleware::check_provider_changed] *)
Definition limits_check_provider_changed (idx : nat) (context : ConversationContext)
    : M World string unit :=
  modify (fun w =>
    let c := get_cell idx w in
    let current := (cc_provider context, cc_model context) in
    if bool_decide (cell_last_model c = Some current) then w
    else put_cell idx (set_last_model (Some current) c) w).

Definition step_limit_state (max_steps : Z) (context : ConversationContext) : ExecutionState :=
  Stopped ("Max steps (" +:+ dec_of_Z max_steps +:+ ") reached") StepLimit (Some context).
Definition turn_limit_state (max_turns : Z) (context : ConversationContext) : ExecutionState :=
  Stopped ("Turn limit (" +:+ dec_of_Z max_turns +:+ ") reached") TurnLimit (Some context).
Definition price_limit_state (total_cost max_price : f64) (context : ConversationContext)
    : ExecutionState :=
  Stopped ("Price limit exceeded: $" +:+ fmt_fixed 4 total_cost +:+ " > $"
           +:+ fmt_fixed 2 max_price) PriceLimit (Some context).

(** The decision of [LimitsMiddleware::on_step_start] on a [BeforeLlmCall]. *)
Definition limits_decide (config : LimitsConfig) (context : ConversationContext)
    : option ExecutionState :=
  let stats := cc_stats context in
  let over (o : option Z) (n : Z) : option Z :=
    match o with Some m => if m <=? n then Some m else None | None => None end in
  match over (lc_max_steps config) (st_steps stats) with
  | Some max_steps => Some (step_limit_state max_steps context)
  | None =>
      match over (lc_max_turns config) (st_turns stats) with
      | Some max_turns => Some (turn_limit_state max_turns context)
      | None =>
          max_price ← lc_max_price_usd config;
          total_cost ← limits_total_cost config stats context;
          if f64_gt total_cost max_price
          then Some (price_limit_state total_cost max_price context) else None
      end
  end.

Definition limits_on_step_start (idx : nat) (config : LimitsConfig) : handler (S:=World) :=
  fun state =>
    match state with
    | BeforeLlmCall context =>
        limits_check_provider_changed idx context ≫= fun _ =>
        mret (default state (limits_decide config context))
    | _ => mret state
    end.

Definition limits_reset (idx : nat) (w : World) : World :=
  put_cell idx (set_last_model None (get_cell idx w)) w.

Definition limits_get_limits (config : LimitsConfig) : SessionLimits :=
  {| sl_max_steps := u32_from_usize <$> lc_max_steps config;
     sl_max_turns := u32_from_usize <$> lc_max_turns config;
     sl_max_cost_usd := lc_max_price_usd config |}.

(** [impl MiddlewareDriver for LimitsMiddleware] *)
Definition LimitsMiddleware (idx : nat) (config : LimitsConfig) : MiddlewareDriver World :=
  {| on_turn_start := pass; on_step_start := limits_on_step_start idx config;
     on_after_llm := pass; on_processing_tool_calls := pass; on_turn_end := pass;
     md_reset := limits_reset idx; md_name := "LimitsMiddleware";
     md_get_limits := Some (limits_get_limits config) |}.

(** [MaxStepsMiddleware] *)
Definition max_steps_on_step_start (max_steps : Z) : handler (S:=World) := fun state =>
  mret match state with
       | BeforeLlmCall context =>
           if max_steps <=? st_steps (cc_stats context) then step_limit_state max_steps context
           else state
       | _ => state
       end.

Definition MaxStepsMiddleware (max_steps : Z) : MiddlewareDriver World :=
  {| on_turn_start := pass; on_step_start := max_steps_on_step_start max_steps;
     on_after_llm := pass; on_processing_tool_calls := pass; on_turn_end := pass;
     md_reset := fun w => w; md_name := "MaxStepsMiddleware";
     md_get_limits := Some {| sl_max_steps := Some (u32_from_usize max_steps);
                              sl_max_turns := None; sl_max_cost_usd := None |} |}.

(** [TurnLimitMiddleware] *)
Definition turn_limit_on_step_start (max_turns : Z) : handler (S:=World) := fun state =>
  mret match state with
       | BeforeLlmCall context =>
           if max_turns <=? st_turns (cc_stats context) then turn_limit_state max_turns context
           else state
       | _ => state
       end.

Definition TurnLimitMiddleware (max_turns : Z) : MiddlewareDriver World :=
  {| on_turn_start := pass; on_step_start := turn_limit_on_step_start max_turns;
     on_after_llm := pass; on_processing_tool_calls := pass; on_turn_end := pass;
     md_reset := fun w => w; md_name := "TurnLimitMiddleware";
     md_get_limits := Some {| sl_max_steps := None;
                              sl_max_turns := Some (u32_from_usize max_turns);
                              sl_max_cost_usd := None |} |}.

(** [PriceLimitMiddleware] *)
Record PriceLimitConfig := {
  pl_max_cost : f64;
  pl_input_cost_per_million : f64;
  pl_output_cost_per_million : f64;
}.

Definition price_total_cost (self : PriceLimitConfig) (stats : AgentStats) : f64 :=
  let billable_output := u64_add (st_total_output_tokens stats) (st_reasoning_tokens stats) in
  let input_cost := token_cost (st_total_input_tokens stats) (pl_input_cost_per_million self) in
  let output_cost := token_cost billable_output (pl_output_cost_per_million self) in
  f64_add input_cost output_cost.

Definition price_limit_on_step_start (self : PriceLimitConfig) : handler (S:=World) := fun state =>
  mret match state with
       | BeforeLlmCall context =>
           let total_cost := price_total_cost self (cc_stats context) in
           if f64_gt total_cost (pl_max_cost self)
           then price_limit_state total_cost (pl_max_cost self) context else state
       | _ => state
       end.

Definition PriceLimitMiddleware (self : PriceLimitConfig) : MiddlewareDriver World :=
  {| on_turn_start := pass; on_step_start := price_limit_on_step_start self;
     on_after_llm := pass; on_processing_tool_calls := pass; on_turn_end := pass;
     md_reset := fun w => w; md_name := "PriceLimitMiddleware";
     md_get_limits := Some {| sl_max_steps := None; sl_max_turns := None;
                              sl_max_cost_usd := Some (pl_max_cost self) |} |}.

(** ** Laws *)

(** The handler's result does not depend on the driver's interior state. *)
Lemma limits_on_step_start_result idx config state w :
  (limits_on_step_start idx config state w).1 =
  Ok match state with
     | BeforeLlmCall context => default state (limits_decide config context)
     | _ => state
     end.
Proof. by destruct state. Qed.

(** Nothing but the interior state of the driver itself changes. *)
Lemma limits_on_step_start_world idx config state w :
  w_history (limits_on_step_start idx config state w).2 = w_history w /\
  w_events (limits_on_step_start idx config state w).2 = w_events w.
Proof.
  destruct state; simpl; try done. unfold limits_check_provider_changed, modify, mbind, M_bind.
  destruct (bool_decide _); done.
Qed.

(** The reference reading of the limits: the reached limits, in the order
    steps, turns, price. *)
Definition reached_limits (config : LimitsConfig) (context : ConversationContext)
    : list ExecutionState :=
  let stats := cc_stats context in
  (match lc_max_steps config with
   | Some m => if m <=? st_steps stats then [step_limit_state m context] else []
   | None => []
   end)
  ++ (match lc_max_turns config with
      | Some m => if m <=? st_turns stats then [turn_limit_state m context] else []
      | None => []
      end)
  ++ (match lc_max_price_usd config, limits_total_cost config stats context with
      | Some m, Some c => if f64_gt c m then [price_limit_state c m context] else []
      | _, _ => []
      end).

Lemma limits_decide_reached config context :
  limits_decide config context = head (reached_limits config context).
Proof.
  unfold limits_decide, reached_limits.
  destruct (lc_max_steps config) as [ms|]; simpl;
    [destruct (ms <=? st_steps (cc_stats context)); simpl; [done|]|];
    (destruct (lc_max_turns config) as [mt|]; simpl;
      [destruct (mt <=? st_turns (cc_stats context)); simpl; [done|]|]);
    (destruct (lc_max_price_usd config) as [mp|]; simpl; [|done]);
    (destruct (limits_total_cost config (cc_stats context) context) as [c|]; simpl; [|done]);
    by destruct (f64_gt c mp).
Qed.
End limits.
