(* ===== verification/ContextMw.v ===== *)
(** The context middleware (middleware/context.rs), which asks for compaction
    and warns about context usage, and the mode reminders
    (middleware/modes.rs). *)
From S2P Require Import Prelude Numbers Text Json Chat Domain Events Model ExecState Driver.
From S2P Require Import World Limits.

Local Open Scope Z_scope.

Section context.
Context {J : Json} {Ev : Env}.

Record ContextConfig := {
  cx_warn_at_percent : Z;
  cx_compact_at_percent : Z;
  cx_auto_compact : bool;
  cx_context_source : ModelInfoSource;
  cx_fallback_max_tokens : Z;
}.

Definition context_config_default : ContextConfig :=
  {| cx_warn_at_percent := 80; cx_compact_at_percent := 85; cx_auto_compact := true;
     cx_context_source := FromSession; cx_fallback_max_tokens := 32000 |}.

Definition with_manual_limit (max_tokens : Z) : ContextConfig :=
  {| cx_warn_at_percent := 80; cx_compact_at_percent := 85; cx_auto_compact := true;
     cx_context_source := source_context_limit manual max_tokens;
     cx_fallback_max_tokens := 32000 |}.

Definition set_warn_at_percent (c : ContextConfig) (percent : Z) : ContextConfig :=
  {| cx_warn_at_percent := percent; cx_compact_at_percent := cx_compact_at_percent c;
     cx_auto_compact := cx_auto_compact c; cx_context_source := cx_context_source c;
     cx_fallback_max_tokens := cx_fallback_max_tokens c |}.

(** [compact_at_percent]: panics ([None]) unless above the warning percentage. *)
Definition set_compact_at_percent (c : ContextConfig) (percent : Z) : option ContextConfig :=
  if cx_warn_at_percent c <? percent
  then Some {| cx_warn_at_percent := cx_warn_at_percent c; cx_compact_at_percent := percent;
               cx_auto_compact := cx_auto_compact c; cx_context_source := cx_context_source c;
               cx_fallback_max_tokens := cx_fallback_max_tokens c |}
  else None.

(** [ContextMiddleware::get_max_tokens] *)
Definition get_max_tokens (config : ContextConfig) (context : ConversationContext) : Z :=
  match cx_context_source config with
  | FromSession =>
      default (cx_fallback_max_tokens config)
        (info ← get_model_info (cc_provider context) (cc_model context); context_limit info)
  | Manual limit _ _ _ _ _ _ => default (cx_fallback_max_tokens config) limit
  end.

(** [ContextMiddleware::check_provider_changed] *)
Definition context_check_provider_changed (idx : nat) (context : ConversationContext) (w : World)
    : World :=
  let c := get_cell idx w in
  let current := (cc_provider context, cc_model context) in
  if bool_decide (cell_last_model c = Some current) then w
  else put_cell idx (set_last_model (Some current) (set_warned ∅ c)) w.

(** [(max_tokens as f64 * (percent.min(100) as f64 / 100.0)) as usize] *)
Definition percent_threshold (max_tokens percent : Z) : Z :=
  f64_as_usize (f64_mul (f64_of_Z max_tokens)
                  (f64_div (f64_of_Z (Z.min percent 100)) (f64_of_Z 100))).

(** [ContextMiddleware::should_warn]: the warning, and the session recorded as warned. *)
Definition should_warn (idx : nat) (config : ContextConfig) (session_id : string)
    (current_tokens max_tokens : Z) (w : World) : option string * World :=
  if (max_tokens =? 0) || (cx_warn_at_percent config =? 0) then (None, w)
  else
    let c := get_cell idx w in
    if bool_decide (session_id ∈ cell_warned_sessions c) then (None, w)
    else if current_tokens <? percent_threshold max_tokens (cx_warn_at_percent config)
    then (None, w)
    else
      let percent := f64_mul (f64_div (f64_of_Z current_tokens) (f64_of_Z max_tokens))
                       (f64_of_Z 100) in
      (Some ("Warning: context usage is at " +:+ fmt_fixed 0 percent +:+ "% ("
             +:+ dec_of_Z current_tokens +:+ " / " +:+ dec_of_Z max_tokens +:+ " tokens)"),
       put_cell idx (set_warned ({[session_id]} ∪ cell_warned_sessions c) c) w).

Definition compaction_state (config : ContextConfig) (current_tokens max_tokens : Z)
    (context : ConversationContext) : ExecutionState :=
  Stopped ("Context token threshold (" +:+ dec_of_Z current_tokens +:+ " / "
           +:+ dec_of_Z max_tokens +:+ " tokens, " +:+ dec_of_Z (cx_compact_at_percent config)
           +:+ "%) reached, requesting compaction") ContextThreshold (Some context).

(** [on_step_start] as a function of the store. *)
Definition context_step (idx : nat) (config : ContextConfig) (state : ExecutionState) (w : World)
    : ExecutionState * World :=
  match state with
  | BeforeLlmCall context =>
      let w := context_check_provider_changed idx context w in
      let max_tokens := get_max_tokens config context in
      if max_tokens =? 0 then (state, w)
      else
        let current_tokens := st_context_tokens (cc_stats context) in
        let compact_threshold := percent_threshold max_tokens (cx_compact_at_percent config) in
        if cx_auto_compact config && (compact_threshold <=? current_tokens)
        then (compaction_state config current_tokens max_tokens context, w)
        else match should_warn idx config (cc_session_id context) current_tokens max_tokens w with
             | (Some warning, w) => (BeforeLlmCall (inject_message context warning), w)
             | (None, w) => (state, w)
             end
  | _ => (state, w)
  end.

Definition context_on_step_start (idx : nat) (config : ContextConfig) : handler (S:=World) :=
  fun state w => let '(state', w') := context_step idx config state w in (Ok state', w').

Definition context_reset (idx : nat) (w : World) : World :=
  put_cell idx (set_last_model None (set_warned ∅ (get_cell idx w))) w.

(** [impl MiddlewareDriver for ContextMiddleware] *)
Definition ContextMiddleware (idx : nat) (config : ContextConfig) : MiddlewareDriver World :=
  {| on_turn_start := pass; on_step_start := context_on_step_start idx config;
     on_after_llm := pass; on_processing_tool_calls := pass; on_turn_end := pass;
     md_reset := context_reset idx; md_name := "ContextMiddleware"; md_get_limits := None |}.

(** [ContextFactory::create], on the deserialized configuration. *)
Record ContextFactoryConfig := {
  cf_enabled : bool;
  cf_warn_at_percent : Z;
  cf_compact_at_percent : Z;
  cf_fallback_max_tokens : Z;
}.

Definition context_factory_default : ContextFactoryConfig :=
  {| cf_enabled := true; cf_warn_at_percent := 80; cf_compact_at_percent := 85;
     cf_fallback_max_tokens := 32000 |}.

Definition context_factory_create (idx : nat) (cfg : ContextFactoryConfig) (auto_compact : bool)
    : result string (MiddlewareDriver World) :=
  if negb (cf_enabled cfg) then Err "Middleware disabled"
  else if cf_compact_at_percent cfg <=? cf_warn_at_percent cfg
  then Err ("context middleware: warn_at_percent (" +:+ dec_of_Z (cf_warn_at_percent cfg)
            +:+ ") must be less than compact_at_percent ("
            +:+ dec_of_Z (cf_compact_at_percent cfg) +:+ ")")
  else Ok (ContextMiddleware idx
             {| cx_warn_at_percent := cf_warn_at_percent cfg;
                cx_compact_at_percent := cf_compact_at_percent cfg;
                cx_auto_compact := auto_compact; cx_context_source := FromSession;
                cx_fallback_max_tokens := cf_fallback_max_tokens cfg |}).

(** ** [AgentModeMiddleware] (modes.rs) *)

(** [HashMap<AgentMode, String>], as its lookup function. *)
Definition Reminders : Type := AgentMode -> option string.

Definition mode_on_turn_start (reminders : Reminders) : handler (S:=World) := fun state =>
  mret match state with
       | BeforeLlmCall context =>
           match reminders (cc_session_mode context) with
           | Some reminder => BeforeLlmCall (inject_message context reminder)
           | None => state
           end
       | other => other
       end.

Definition AgentModeMiddleware (reminders : Reminders) : MiddlewareDriver World :=
  {| on_turn_start := mode_on_turn_start reminders; on_step_start := pass;
     on_after_llm := pass; on_processing_tool_calls := pass; on_turn_end := pass;
     md_reset := fun w => w; md_name := "AgentModeMiddleware"; md_get_limits := None |}.

Definition plan_only (plan_reminder : string) : Reminders :=
  fun m => match m with Plan => Some plan_reminder | _ => None end.

Definition default_plan_reminder : string :=
  "You are in plan mode. Only observe, analyze, and plan. Do not make changes.".
Definition default_review_reminder : string :=
  "You are in review mode. Review the code carefully and provide constructive feedback. "
  +:+ "Focus on code quality, potential bugs, performance issues, and adherence to best practices. "
  +:+ "Do not make changes yourself.".

Record AgentModeFactoryConfig := {
  mf_reminder : option string;
  mf_review_reminder : option string;
  mf_reminders : option (list (string * string));
}.

(** The loop over the explicit reminders: every key must parse as a mode. *)
Fixpoint reminders_of_map (acc : Reminders) (l : list (string * string)) : result string Reminders :=
  match l with
  | [] => Ok acc
  | (mode_str, reminder) :: rest =>
      match mode_from_str mode_str with
      | Err e => Err e
      | Ok mode =>
          reminders_of_map
            (fun m => if bool_decide (m = mode) then Some reminder else acc m) rest
      end
  end.

(** [AgentModeFactory::create], on the deserialized configuration. *)
Definition mode_factory_create (cfg : AgentModeFactoryConfig)
    : result string (MiddlewareDriver World) :=
  match mf_reminders cfg with
  | Some l =>
      match reminders_of_map (fun _ => None) l with
      | Ok r => Ok (AgentModeMiddleware r)
      | Err e => Err e
      end
  | None =>
      Ok (AgentModeMiddleware (fun m =>
            match m with
            | Plan => Some (default default_plan_reminder (mf_reminder cfg))
            | Review => Some (default default_review_reminder (mf_review_reminder cfg))
            | Build => None
            end))
  end.

(** [PlanModeCompatFactory::create]: the legacy configuration. *)
Definition plan_mode_factory_create (reminder review_reminder : option string)
    : MiddlewareDriver World :=
  AgentModeMiddleware (fun m =>
    match m with
    | Plan => Some (default default_plan_reminder reminder)
    | Review => Some (default default_review_reminder review_reminder)
    | Build => None
    end).

(** ** Laws *)

Lemma context_check_warned idx context w :
  cell_last_model (get_cell idx w) = Some (cc_provider context, cc_model context) ->
  context_check_provider_changed idx context w = w.
Proof. intros H. unfold context_check_provider_changed. by rewrite bool_decide_eq_true_2. Qed.

Lemma context_check_last idx context w :
  cell_last_model (get_cell idx (context_check_provider_changed idx context w)) =
  Some (cc_provider context, cc_model context).
Proof.
  unfold context_check_provider_changed. destruct (bool_decide _) eqn:E.
  - by apply bool_decide_eq_true in E.
  - by rewrite get_put_cell.
Qed.

Lemma should_warn_marks idx config session cur mx w msg w' :
  should_warn idx config session cur mx w = (Some msg, w') ->
  (session ∉ cell_warned_sessions (get_cell idx w)) /\
  cell_warned_sessions (get_cell idx w') = {[session]} ∪ cell_warned_sessions (get_cell idx w) /\
  cell_last_model (get_cell idx w') = cell_last_model (get_cell idx w).
Proof.
  unfold should_warn. destruct (_ || _); [done|].
  destruct (bool_decide (session ∈ _)) eqn:E; [done|].
  destruct (cur <? _); [done|]. intros [= <- <-].
  rewrite get_put_cell. apply bool_decide_eq_false in E. done.
Qed.

Lemma should_warn_silent idx config session cur mx w :
  session ∈ cell_warned_sessions (get_cell idx w) ->
  should_warn idx config session cur mx w = (None, w).
Proof.
  intros H. unfold should_warn. destruct (_ || _); [done|].
  by rewrite bool_decide_eq_true_2.
Qed.

Lemma percent_threshold_range mx p : 0 <= percent_threshold mx p <= 2 ^ 64 - 1.
Proof. apply f64_as_unsigned_range. lia. Qed.
End context.
