(* ===== verification/DelegationMw.v ===== *)
(** The delegation middleware: the guard against duplicate and failing
    delegations (middleware/delegation_guard.rs) and the two drivers that tell
    the model which agents it can delegate to (middleware/delegation.rs); and
    the task middleware (middleware/tasks.rs). *)
From S2P Require Import Prelude Numbers Text Json Chat Domain Events Model ExecState Driver.
From S2P Require Import Pruning World Limits.

Local Open Scope Z_scope.

Definition lines_of (l : list string) : string := join nl l.

Definition status_debug (s : DelegationStatus) : string :=
  match s with
  | DsRequested => "Requested" | DsRunning => "Running" | DsComplete => "Complete"
  | DsFailed => "Failed" | DsCancelled => "Cancelled"
  end.

(** [delegation::AgentInfo], the fields the drivers read. *)
Record AgentInfo := {
  ai_id : string;
  ai_name : string;
  ai_description : string;
  ai_capabilities : list string;
}.

Section delegation.
Context {J : Json} {Ev : Env}.

(** A store call of a middleware. *)
Definition mw_store {A} (f : World -> A * World) : M World string (result string A) := fun w =>
  let w' := set_now S w in
  match env_store_error (w_now w) with
  | Some e => (Ok (Err e), w')
  | None => let '(a, w'') := f w' in (Ok (Ok a), w'')
  end.

Definition mw_list_delegations : M World string (result string (list Delegation)) :=
  mw_store (fun w => (w_delegations w, w)).
Definition mw_get_history : M World string (result string (list AgentMessage)) :=
  mw_store (fun w => (w_history w, w)).
Definition mw_now : M World string Z := fun w => (Ok (env_unix_time (w_now w)), set_now S w).

Record DelegationGuard := {
  dg_max_retries : Z;
  dg_duplicate_window_secs : Z;
}.

(** [DelegationGuardMiddleware::new] *)
Definition guard_new : DelegationGuard :=
  {| dg_max_retries := 3; dg_duplicate_window_secs := 5 |}.
Definition with_max_retries (g : DelegationGuard) (max_retries : Z) : DelegationGuard :=
  {| dg_max_retries := max_retries; dg_duplicate_window_secs := dg_duplicate_window_secs g |}.
Definition with_duplicate_window_secs (g : DelegationGuard) (secs : Z) : DelegationGuard :=
  {| dg_max_retries := dg_max_retries g; dg_duplicate_window_secs := secs |}.

Definition duplicate_message (target id : string) (status : DelegationStatus) : string :=
  lines_of ["⚠️ DUPLICATE DELEGATION BLOCKED"; "";
    "A delegation with the same objective to '" +:+ target +:+ "' is already in progress.";
    "Delegation ID: " +:+ id; "Status: " +:+ status_debug status; "";
    "Please wait for the current delegation to complete before retrying."].

Definition max_retries_message (retry_count max_retries : Z) (id : string) : string :=
  lines_of ["⚠️ MAX RETRIES EXCEEDED"; "";
    "This delegation has failed " +:+ dec_of_Z retry_count +:+ " times (limit: "
      +:+ dec_of_Z max_retries +:+ ").";
    "Previous delegation ID: " +:+ id; "";
    "The task appears to be stuck. Please:";
    "1. Review why previous attempts failed (check error messages)";
    "2. Modify your approach or break down the task differently";
    "3. Consider delegating to a different agent";
    "4. Try a different strategy entirely"].

Definition too_soon_message (elapsed window : Z) : string :=
  lines_of ["⚠️ RETRY TOO SOON"; "";
    "Previous delegation failed " +:+ dec_of_Z elapsed +:+ " seconds ago.";
    "Please wait at least " +:+ dec_of_Z window +:+ " seconds before retrying."; "";
    "Suggestion: Analyze the failure before immediately retrying."].

(** The delegations the check is about. *)
Definition same_delegation (hash : RapidHash) (target : string) (d : Delegation) : bool :=
  (del_objective_hash d =? hash) && String.eqb (del_target_agent_id d) target.

(** The loop of [check_delegation_allowed]; [show_id] is the id in the
    message, the public id in the guard and the row id in [DelegationMiddleware]. *)
Fixpoint check_delegations (g : DelegationGuard) (show_id : Delegation -> string)
    (hash : RapidHash) (target : string) (l : list Delegation) : M World string (option string) :=
  match l with
  | [] => mret None
  | del :: rest =>
      if same_delegation hash target del then
        match del_status del with
        | DsRunning | DsRequested =>
            mret (Some (duplicate_message target (show_id del) (del_status del)))
        | DsFailed =>
            if dg_max_retries g <=? del_retry_count del
            then mret (Some (max_retries_message (del_retry_count del) (dg_max_retries g)
                               (show_id del)))
            else match del_completed_at del with
                 | Some completed =>
                     mw_now ≫= fun now =>
                     let elapsed := now - completed in
                     if elapsed <? dg_duplicate_window_secs g
                     then mret (Some (too_soon_message elapsed (dg_duplicate_window_secs g)))
                     else check_delegations g show_id hash target rest
                 | None => check_delegations g show_id hash target rest
                 end
        | DsComplete | DsCancelled => check_delegations g show_id hash target rest
        end
      else check_delegations g show_id hash target rest
  end.

Definition check_delegation_allowed (g : DelegationGuard) (show_id : Delegation -> string)
    (hash : RapidHash) (target : string) : M World string (option string) :=
  r ← mw_list_delegations;
  match r with
  | Ok delegations => check_delegations g show_id hash target delegations
  | Err _ => mret None
  end.

(** The target and objective of a delegate call, when both are given. *)
Definition delegate_args (part : MessagePart) : option (string * string) :=
  match part with
  | MpToolUse tool_call =>
      if String.eqb (tc_name tool_call) "delegate" then
        match from_str (tc_arguments tool_call) with
        | Ok args =>
            let target := default "" (value_get_str args "target_agent_id") in
            let objective := default "" (value_get_str args "objective") in
            if is_empty_str target || is_empty_str objective then None
            else Some (target, objective)
        | Err _ => None
        end
      else None
  | _ => None
  end.

(** The loop over the parts: the first delegate call that is not allowed. *)
Fixpoint check_parts (g : DelegationGuard) (show_id : Delegation -> string)
    (parts : list MessagePart) : M World string (option string) :=
  match parts with
  | [] => mret None
  | part :: rest =>
      match delegate_args part with
      | Some (target, objective) =>
          warning ← check_delegation_allowed g show_id (env_rapidhash objective) target;
          match warning with
          | Some w => mret (Some w)
          | None => check_parts g show_id rest
          end
      | None => check_parts g show_id rest
      end
  end.

(** The body of both [on_after_llm]: the delegate calls of the last stored
    message, when that is an assistant message. *)
Definition check_last_message (g : DelegationGuard) (show_id : Delegation -> string)
    : M World string (option string) :=
  r ← mw_get_history;
  match r with
  | Err _ => mret None
  | Ok history =>
      match last history with
      | None => mret None
      | Some last_msg =>
          if bool_decide (am_role last_msg = Assistant)
          then check_parts g show_id (am_parts last_msg)
          else mret None
      end
  end.

(** [DelegationGuardMiddleware::on_after_llm]: the warning is made, put in a
    context that is dropped, and the state stops with the old context. *)
Definition guard_on_after_llm (g : DelegationGuard) : handler (S:=World) := fun state =>
  match state with
  | AfterLlm _ context =>
      warning ← check_last_message g del_public_id;
      mret match warning with
           | Some _ => Stopped "Delegation blocked by guard" DelegationBlocked (Some context)
           | None => state
           end
  | _ => mret state
  end.

Definition DelegationGuardMiddleware (g : DelegationGuard) : MiddlewareDriver World :=
  {| on_turn_start := pass; on_step_start := pass; on_after_llm := guard_on_after_llm g;
     on_processing_tool_calls := pass; on_turn_end := pass;
     md_reset := fun w => w; md_name := "DelegationGuardMiddleware"; md_get_limits := None |}.

(** ** [DelegationMiddleware] and [DelegationContextMiddleware] *)

Record DelegationConfig := {
  dc_context_timing : DelegationContextTiming;
  dc_prevent_duplicates : bool;
  dc_auto_inject : bool;
}.

Definition delegation_config_default : DelegationConfig :=
  {| dc_context_timing := FirstTurnOnly; dc_prevent_duplicates := false; dc_auto_inject := true |}.

Definition agent_entry (agent : AgentInfo) : string :=
  "### " +:+ ai_name agent +:+ " (`" +:+ ai_id agent +:+ "`)" +:+ nl
  +:+ "**Description:** " +:+ ai_description agent +:+ nl
  +:+ (if is_nil (ai_capabilities agent) then ""
       else "**Capabilities:** " +:+ join ", " (ai_capabilities agent) +:+ nl)
  +:+ nl.

(** [format_agent_context] *)
Definition format_agent_context (agents : list AgentInfo) : string :=
  if is_nil agents then ""
  else "## Available Agents for Delegation" +:+ nl +:+ nl
       +:+ "You have access to the following specialized agents via the `delegate` tool:"
       +:+ nl +:+ nl
       +:+ sconcat (map agent_entry agents)
       +:+ "Use the `delegate` tool to assign tasks to these agents when their expertise is needed."
       +:+ nl.

Definition timing_injects (timing : DelegationContextTiming) (context : ConversationContext)
    : bool :=
  match timing with
  | FirstTurnOnly => st_turns (cc_stats context) =? 1
  | EveryTurn => true
  | DctDisabled => false
  end.

(** [DelegationMiddleware::should_inject] *)
Definition should_inject (config : DelegationConfig) (context : ConversationContext) : bool :=
  dc_auto_inject config && timing_injects (dc_context_timing config) context.

Definition inject_agents (inject : bool) (agents : list AgentInfo) (state : ExecutionState)
    (context : ConversationContext) : ExecutionState :=
  if inject then
    let message := format_agent_context agents in
    if is_empty_str message then state else BeforeLlmCall (inject_message context message)
  else state.

Definition delegation_on_turn_start (config : DelegationConfig) (agents : list AgentInfo)
    : handler (S:=World) := fun state =>
  mret match state with
       | BeforeLlmCall context => inject_agents (should_inject config context) agents state context
       | _ => state
       end.

Definition delegation_on_after_llm (config : DelegationConfig) : handler (S:=World) := fun state =>
  match state with
  | AfterLlm _ context =>
      if negb (dc_prevent_duplicates config) then mret state
      else
        warning ← check_last_message guard_new (fun d => dec_of_Z (del_id d));
        mret match warning with
             | Some w => Stopped w DelegationBlocked (Some context)
             | None => state
             end
  | _ => mret state
  end.

Definition DelegationMiddleware (config : DelegationConfig) (agents : list AgentInfo)
    : MiddlewareDriver World :=
  {| on_turn_start := delegation_on_turn_start config agents; on_step_start := pass;
     on_after_llm := delegation_on_after_llm config;
     on_processing_tool_calls := pass; on_turn_end := pass;
     md_reset := fun w => w; md_name := "DelegationMiddleware"; md_get_limits := None |}.

Definition delegation_context_on_turn_start (timing : DelegationContextTiming)
    (agents : list AgentInfo) : handler (S:=World) := fun state =>
  mret match state with
       | BeforeLlmCall context => inject_agents (timing_injects timing context) agents state context
       | _ => state
       end.

Definition DelegationContextMiddleware (timing : DelegationContextTiming) (agents : list AgentInfo)
    : MiddlewareDriver World :=
  {| on_turn_start := delegation_context_on_turn_start timing agents; on_step_start := pass;
     on_after_llm := pass; on_processing_tool_calls := pass; on_turn_end := pass;
     md_reset := fun w => w; md_name := "DelegationContextMiddleware"; md_get_limits := None |}.

(** ** Laws *)

(** The reference reading of the guard: the reason a single earlier delegation
    blocks a new one, with the time as it is at the check. *)
Inductive BlockReason := BrInProgress | BrMaxRetries | BrTooSoon.

Definition blocks_now (g : DelegationGuard) (now : Z) (d : Delegation) : option BlockReason :=
  match del_status d with
  | DsRunning | DsRequested => Some BrInProgress
  | DsFailed =>
      if dg_max_retries g <=? del_retry_count d then Some BrMaxRetries
      else completed ← del_completed_at d;
           if now - completed <? dg_duplicate_window_secs g then Some BrTooSoon else None
  | DsComplete | DsCancelled => None
  end.

Definition is_some {A} (o : option A) : bool := match o with Some _ => true | None => false end.

(** With the clock stopped at [now], the check blocks exactly when one of the
    same delegations does. *)
Lemma check_delegations_blocked g show hash target l now w :
  (forall t, env_unix_time t = now) ->
  exists o w', check_delegations g show hash target l w = (Ok o, w') /\
    is_some o = existsb (fun d => same_delegation hash target d && is_some (blocks_now g now d)) l.
Proof.
  intros Hnow. revert w. induction l as [|d l IH]; intros w; simpl; [by eexists _, _|].
  destruct (same_delegation hash target d); simpl; [|apply IH].
  unfold blocks_now. destruct (del_status d); simpl; try (by eexists _, _); try apply IH.
  destruct (dg_max_retries g <=? del_retry_count d); simpl; [by eexists _, _|].
  destruct (del_completed_at d) as [c|]; simpl; [|apply IH].
  unfold mbind, M_bind, mw_now. simpl. rewrite Hnow.
  destruct (now - c <? dg_duplicate_window_secs g); simpl; [by eexists _, _|apply IH].
Qed.

(** The check never blocks on an empty list, and never errs. *)
Lemma check_delegations_ok g show hash target l w :
  exists o, (check_delegations g show hash target l w).1 = Ok o.
Proof.
  revert w. induction l as [|d l IH]; intros w; simpl; [by eexists|].
  destruct (same_delegation hash target d); simpl; [|apply IH].
  destruct (del_status d); simpl; try (by eexists); try apply IH.
  destruct (dg_max_retries g <=? del_retry_count d); simpl; [by eexists|].
  destruct (del_completed_at d) as [c|]; simpl; [|apply IH].
  unfold mbind, M_bind, mw_now. destruct (_ <? _); simpl; [by eexists|apply IH].
Qed.

(** When the newest stored message is not an assistant message with a delegate
    call, the check passes. *)
Lemma check_last_message_passes g show w :
  (forall m, last (w_history w) = Some m -> am_role m = Assistant ->
     omap delegate_args (am_parts m) = []) ->
  exists w', check_last_message g show w = (Ok None, w').
Proof.
  intros H. unfold check_last_message, mw_get_history, mw_store, mbind, M_bind.
  destruct (env_store_error (w_now w)); simpl; [by eexists|].
  destruct (last (w_history w)) as [m|] eqn:El; [|by eexists].
  destruct (bool_decide (am_role m = Assistant)) eqn:Er; [|by eexists].
  apply bool_decide_eq_true in Er. specialize (H m eq_refl Er).
  induction (am_parts m) as [|p ps IH]; simpl in *; [by eexists|].
  destruct (delegate_args p) as [[]|] eqn:Ed; simpl in *; [done|]. apply IH, H.
Qed.
End delegation.

(** ** The task middleware (middleware/tasks.rs)

    Completion of the active task, and the warning about repeated tool calls. *)


Section tasks.
Context {J : Json} {Ev : Env}.

(** [store.update_task_status(public_id, status)]; the update time is the clock's. *)
Definition set_status (status : TaskStatus) (now : Z) (t : Task) : Task :=
  {| task_id := task_id t; task_public_id := task_public_id t;
     task_session_id := task_session_id t; task_kind := task_kind t; task_status := status;
     task_expected_deliverable := task_expected_deliverable t;
     task_acceptance_criteria := task_acceptance_criteria t;
     task_created_at := task_created_at t; task_updated_at := now |}.

Definition update_stored_status (public_id : string) (status : TaskStatus) (now : Z)
    (l : list Task) : list Task :=
  map (fun t => if String.eqb (task_public_id t) public_id then set_status status now t else t) l.

(** [tasks.into_iter().find(|task| task.id == id)] *)
Definition find_task (id : Z) (l : list Task) : option Task :=
  List.find (fun t => task_id t =? id) l.

Definition delegation_settled (d : Delegation) : bool :=
  match del_status d with DsComplete | DsFailed => true | _ => false end.

Definition of_task (id : Z) (d : Delegation) : bool := bool_decide (del_task_id d = Some id).

(** [is_empty() || all(..)] *)
Definition all_delegations_done (id : Z) (delegations : list Delegation) : bool :=
  let task_delegations := List.filter (of_task id) delegations in
  is_nil task_delegations || forallb delegation_settled task_delegations.

(** The effect of [TaskAutoCompletionMiddleware::on_after_llm]; every error or
    missing record ends it early and silently. *)
Definition auto_complete : M World string unit :=
  session ← mw_store (fun w => (env_session_active_task (w_now w), w));
  match session with
  | Ok (Some (Some task_internal_id)) =>
      tasks ← mw_store (fun w => (w_tasks w, w));
      match tasks with
      | Ok tasks =>
          match find_task task_internal_id tasks with
          | Some task =>
              if negb (bool_decide (task_status task = TsActive)) then mret tt
              else if bool_decide (task_kind task = Recurring) then mret tt
              else
                delegations ← mw_list_delegations;
                match delegations with
                | Ok delegations =>
                    if all_delegations_done task_internal_id delegations
                    then
                      mw_store (fun w =>
                        (tt, set_tasks (update_stored_status (task_public_id task) TsDone
                                          (env_unix_time (w_now w))) w)) ≫= fun _ => mret tt
                    else mret tt
                | Err _ => mret tt
                end
          | None => mret tt
          end
      | Err _ => mret tt
      end
  | _ => mret tt
  end.

Definition auto_on_after_llm : handler (S:=World) := fun state =>
  match state with
  | AfterLlm response _ =>
      if has_tool_calls response then mret state
      else auto_complete ≫= fun _ => mret state
  | _ => mret state
  end.

Definition TaskAutoCompletionMiddleware : MiddlewareDriver World :=
  {| on_turn_start := pass; on_step_start := pass; on_after_llm := auto_on_after_llm;
     on_processing_tool_calls := pass; on_turn_end := pass;
     md_reset := fun w => w; md_name := "TaskAutoCompletionMiddleware"; md_get_limits := None |}.

(** ** [DuplicateToolCallMiddleware] *)

Definition tool_use_of (part : MessagePart) : option (string * string) :=
  match part with
  | MpToolUse tool_call => Some (tc_name tool_call, tc_arguments tool_call)
  | _ => None
  end.

(** The tool uses of the five newest messages, newest message first. *)
Definition recent_tools (history : list AgentMessage) : list (string * string) :=
  concat (map (fun msg => omap tool_use_of (am_parts msg)) (take 5 (rev history))).

Definition duplicate_warning (tool : string) : string :=
  lines_of ["⚠️ DUPLICATE TOOL CALL DETECTED: You just called '" +:+ tool
              +:+ "' twice with identical arguments.";
    "This often indicates a loop or that you forgot to check the result of your previous action.";
    "Please verify the previous tool call succeeded before calling it again, or use a different approach."].

Definition first_two_equal (l : list (string * string)) : option string :=
  match l with
  | (tool1, args1) :: (tool2, args2) :: _ =>
      if String.eqb tool1 tool2 && String.eqb args1 args2 then Some tool1 else None
  | _ => None
  end.

(** [check_for_duplicates] *)
Definition check_for_duplicates (idx : nat) (session_id : string)
    : M World string (option string) :=
  r ← mw_get_history;
  match r with
  | Err _ => mret None
  | Ok history => updating (fun w =>
      let c := get_cell idx w in
      let last_checked_len := default 0%nat (cell_last_check c !! session_id) in
      if (length history <=? last_checked_len)%nat then (None, w)
      else
        (duplicate_warning <$> first_two_equal (recent_tools history),
         put_cell idx (set_last_check (<[session_id := length history]> (cell_last_check c)) c) w))
  end.

Definition duplicate_on_step_start (idx : nat) : handler (S:=World) := fun state =>
  match state with
  | BeforeLlmCall context =>
      warning ← check_for_duplicates idx (cc_session_id context);
      mret match warning with
           | Some w => BeforeLlmCall (inject_message context w)
           | None => state
           end
  | _ => mret state
  end.

Definition duplicate_reset (idx : nat) (w : World) : World :=
  put_cell idx (set_last_check ∅ (get_cell idx w)) w.

Definition DuplicateToolCallMiddleware (idx : nat) : MiddlewareDriver World :=
  {| on_turn_start := pass; on_step_start := duplicate_on_step_start idx; on_after_llm := pass;
     on_processing_tool_calls := pass; on_turn_end := pass;
     md_reset := duplicate_reset idx; md_name := "DuplicateToolCallMiddleware";
     md_get_limits := None |}.

(** ** Laws *)

Lemma update_stored_status_other public_id status now l t :
  t ∈ l -> task_public_id t <> public_id -> t ∈ update_stored_status public_id status now l.
Proof.
  intros Ht Hne. unfold update_stored_status. apply list_elem_of_In, in_map_iff. exists t. split; [|by apply list_elem_of_In].
  by destruct (String.eqb_spec (task_public_id t) public_id).
Qed.
End tasks.
