(* ===== verification/AgentConfig.v ===== *)
(** The configuration of the agent and of one execution: tool access
    (agent/tools.rs, tools/registry.rs), execution policy
    (config/execution.rs), [AgentConfig] (agent/agent_config.rs) and the
    execution context (agent/execution_context.rs). *)
From S2P Require Import Prelude Numbers Text Json Chat LlmErrors Domain Events Model ExecState.
From S2P Require Import Driver Pruning Hooks World Limits.

Local Open Scope Z_scope.

(** ** Tool access (agent/tools.rs) *)

Definition is_mcp_tool_allowed_with (config : ToolConfig) (name : string)
    (server_name : option string) : bool :=
  if bool_decide (name ∈ tcfg_denylist config) then false
  else match tcfg_allowlist config with
       | None => true
       | Some allowlist =>
           if bool_decide (name ∈ allowlist) then true
           else match server_name with
                | Some sname => bool_decide ((sname +:+ ".*") ∈ allowlist)
                | None => false
                end
       end.

Definition is_tool_allowed_with (config : ToolConfig) (name : string) : bool :=
  is_mcp_tool_allowed_with config name None.

(** A name-only permission is a permission whatever the server is. *)
Lemma allowed_any_server config name server :
  is_tool_allowed_with config name = true -> is_mcp_tool_allowed_with config name server = true.
Proof.
  unfold is_tool_allowed_with, is_mcp_tool_allowed_with.
  destruct (bool_decide (name ∈ tcfg_denylist config)); [done|].
  destruct (tcfg_allowlist config) as [al|]; [|done].
  by destruct (bool_decide (name ∈ al)).
Qed.

(** ** Execution policy (config/execution.rs) *)

Record ToolOutputConfig := {
  to_max_lines : nat;
  to_max_bytes : nat;
  to_overflow_storage : OverflowStorage;
}.
Definition tool_output_default : ToolOutputConfig :=
  {| to_max_lines := 2000; to_max_bytes := N.to_nat 51200; to_overflow_storage := TempDir |}.

Record PruningConfig := {
  pr_enabled : bool;
  pr_protect_tokens : Z;
  pr_minimum_tokens : Z;
  pr_protected_tools : list string;
}.
Definition pruning_default : PruningConfig :=
  {| pr_enabled := true; pr_protect_tokens := 40000; pr_minimum_tokens := 20000;
     pr_protected_tools := ["skill"] |}.

Record RetryConfig := {
  rt_max_retries : nat;
  rt_initial_backoff_ms : Z;
  rt_backoff_multiplier : f64;
}.
Definition retry_default : RetryConfig :=
  {| rt_max_retries := 3; rt_initial_backoff_ms := 1000; rt_backoff_multiplier := f64_of_Z 2 |}.

Record CompactionConfig := {
  co_auto : bool;
  co_provider : option string;
  co_model : option string;
  co_retry : RetryConfig;
}.
Definition compaction_default : CompactionConfig :=
  {| co_auto := true; co_provider := None; co_model := None; co_retry := retry_default |}.

Record RateLimitConfig := {
  rl_max_retries : nat;
  rl_default_wait_secs : Z;
  rl_backoff_multiplier : f64;
  rl_max_stream_retries : nat;
}.
Definition rate_limit_default : RateLimitConfig :=
  {| rl_max_retries := 3; rl_default_wait_secs := 60; rl_backoff_multiplier := f64_of_Z 2;
     rl_max_stream_retries := 1 |}.

Record RuntimeExecutionPolicy := {
  ep_tool_output : ToolOutputConfig;
  ep_pruning : PruningConfig;
  ep_compaction : CompactionConfig;
  ep_rate_limit : RateLimitConfig;
}.
Definition policy_default : RuntimeExecutionPolicy :=
  {| ep_tool_output := tool_output_default; ep_pruning := pruning_default;
     ep_compaction := compaction_default; ep_rate_limit := rate_limit_default |}.

(** [DelegationWaitPolicy] (config/quorum.rs) *)
Inductive DelegationWaitPolicy := DwAll | DwAny.

#[export] Instance DelegationWaitPolicy_eq_dec : EqDecision DelegationWaitPolicy.
Proof. solve_decision. Defined.

Section config.
Context {J : Json} {Ev : Env}.

(** ** The tool registry *)

(** A registered tool; its [call] is the environment's. *)
Record BuiltinTool := {
  bt_definition : Tool;
  bt_truncation_hint : option string;
}.

(** [ToolRegistry]: a [HashMap<String, Arc<dyn Tool>>]. *)
Definition ToolRegistry : Type := gmap string BuiltinTool.

Definition registry_add (r : ToolRegistry) (name : string) (tool : BuiltinTool) : ToolRegistry :=
  <[name := tool]> r.
Definition registry_find (r : ToolRegistry) (name : string) : option BuiltinTool := r !! name.
Definition registry_remove (r : ToolRegistry) (name : string) : ToolRegistry := delete name r.
Definition registry_definitions (r : ToolRegistry) : list Tool :=
  map (fun kv => bt_definition kv.2) (map_to_list r).
Definition registry_names (r : ToolRegistry) : list string := map fst (map_to_list r).

(** ** [AgentConfig], the fields the execution reads *)

Record AgentConfig := {
  ac_tool_config : ToolConfig;
  ac_tool_registry : ToolRegistry;
  (** the configured middleware; a driver's index in the list of
      [create_driver] keys its interior state *)
  ac_middleware_drivers : list (MiddlewareDriver World);
  ac_max_steps : option Z;
  ac_snapshot_policy : SnapshotPolicy;
  ac_assume_mutating : bool;
  ac_mutating_tools : gset string;
  ac_delegation_wait_policy : DelegationWaitPolicy;
  ac_delegation_wait_timeout_secs : Z;
  ac_execution_policy : RuntimeExecutionPolicy;
}.

(** The driver index of the built-in step limit, kept apart from the
    configured drivers' indices. *)
Definition limits_driver_index : nat := 0.

Definition create_driver (self : AgentConfig) : CompositeDriver World :=
  match ac_max_steps self with
  | Some max_steps =>
      [LimitsMiddleware limits_driver_index (with_max_steps limits_default max_steps)]
  | None => []
  end ++ ac_middleware_drivers self.

Definition get_session_limits (self : AgentConfig) : option SessionLimits :=
  composite_get_limits (create_driver self).

Definition requires_permission_for_tool (self : AgentConfig) (tool_name : string) : bool :=
  bool_decide (tool_name ∈ ac_mutating_tools self)
  || match tool_kind_for_tool tool_name with
     | TkEdit | TkDelete | TkExecute => true
     | _ => false
     end.

Definition should_snapshot_tool (self : AgentConfig) (tool_name : string) : bool :=
  bool_decide (tool_name ∈ ac_mutating_tools self) || ac_assume_mutating self.

Definition prepare_snapshot (self : AgentConfig) (cwd : option string)
    : option (string * SnapshotPolicy) :=
  if bool_decide (ac_snapshot_policy self = SpNone) then None
  else root ← cwd; Some (root, ac_snapshot_policy self).

Definition tool_name_of (t : Tool) : string := ft_name (tool_function t).

(** [collect_tools]: [mcp] is the snapshot of the runtime's MCP state, when
    there is a runtime. *)
Definition collect_tools (self : AgentConfig) (provider_tools : option (list Tool))
    (mcp : option McpToolSnapshot) (tool_config_override : option ToolConfig) : list Tool :=
  let config := default (ac_tool_config self) tool_config_override in
  let provider_list := default [] provider_tools in
  let tools :=
    match tcfg_policy config with
    | BuiltInOnly => registry_definitions (ac_tool_registry self)
    | ProviderOnly => provider_list
    | BuiltInAndProvider => registry_definitions (ac_tool_registry self) ++ provider_list
    end in
  let mcp_snapshot :=
    match mcp, tcfg_policy config with
    | Some snap, (ProviderOnly | BuiltInAndProvider) => Some snap
    | _, _ => None
    end in
  let filtered := List.filter (fun t => is_tool_allowed_with config (tool_name_of t)) tools in
  filtered ++
  match mcp_snapshot with
  | Some snap =>
      List.filter (fun t => is_mcp_tool_allowed_with config (tool_name_of t)
                              (mcp_tools snap !! tool_name_of t)) (mcp_tool_defs snap)
  | None => []
  end.

(** ** The execution context *)

(** [session::store::LLMConfig], the fields the execution reads. *)
Record LLMConfig := { llm_provider : string; llm_model : string }.

(** [ExecutionContext]: what does not change during a turn; what does is in
    the [World]. *)
Record ExecutionContext := {
  ex_session_id : string;
  ex_cwd : option string;
  ex_tool_config : ToolConfig;
  ex_llm_config : option LLMConfig;
  ex_max_prompt_bytes : option nat;
  ex_turn_id : option string;
  ex_turn_mode : AgentMode;
  (** a client bridge is attached *)
  ex_has_bridge : bool;
}.

Definition ex_model (ctx : ExecutionContext) : string :=
  match ex_llm_config ctx with Some c => llm_model c | None => "" end.

(** The common part of every hook request. *)
Definition hook_context (ctx : ExecutionContext) : HookContext :=
  {| hc_session_id := ex_session_id ctx; hc_turn_id := default "" (ex_turn_id ctx);
     hc_cwd := ex_cwd ctx; hc_model := ex_model ctx;
     hc_permission_mode := permission_mode_label (ex_turn_mode ctx) |}.

(** ** The session handle (session/provider.rs) *)

Definition is_non_billable_oauth_provider (provider : string) : bool :=
  bool_decide (provider ∈ ["codex"; "kimi-code"]).

(** [SessionHandle::get_pricing]; [has_key_resolver]: the cached provider has
    a key resolver attached. *)
Definition get_pricing (llm_config : option LLMConfig) (has_key_resolver : bool)
    : option ModelPricing :=
  if match llm_config with
     | Some config => is_non_billable_oauth_provider (llm_provider config)
     | None => false
     end then None
  else if has_key_resolver then None
  else config ← llm_config;
       info ← env_models (llm_provider config) (llm_model config);
       Some (mi_pricing info).

(** [SessionHandle::add_message], [provider] and [submit_request] *)
Definition add_message (m : AgentMessage) : X (result string unit) := store_add_message m.

Definition build_provider : X (result LLMError unit) :=
  e ← ask env_provider_error; mret match e with Some e => Err e | None => Ok tt end.

(** ** Laws *)

Lemma collect_tools_elem self pt mcp ov t :
  t ∈ collect_tools self pt mcp ov ->
  let config := default (ac_tool_config self) ov in
  exists server, is_mcp_tool_allowed_with config (tool_name_of t) server = true /\
    (server = None \/ exists snap, mcp = Some snap /\ server = mcp_tools snap !! tool_name_of t).
Proof.
  unfold collect_tools. cbv zeta. rewrite elem_of_app. intros [H|H].
  - apply list_elem_of_In, filter_In in H as [_ H]. exists None. split; [exact H|by left].
  - destruct mcp as [snap|]; [|by apply not_elem_of_nil in H].
    destruct (tcfg_policy _); try by apply not_elem_of_nil in H.
    all: apply list_elem_of_In, filter_In in H as [_ H]; eexists; split; [exact H|];
      right; by exists snap.
Qed.
End config.
