(* ===== verification/Compaction.v ===== *)
(** Conversation compaction (session/compaction.rs): the summary request with
    its retries, the compaction message pair, the effective history that the
    model sees, and the pruning of tool results in the store. *)
From S2P Require Import Prelude Numbers Text Json Chat LlmErrors Domain Events Model ExecState.
From S2P Require Import Driver Pruning Hooks World Limits AgentConfig.

Local Open Scope Z_scope.

(** ** The effective history *)

Section history.
Context {J : Json}.

Definition is_compaction_request (p : MessagePart) : bool :=
  match p with MpCompactionRequest _ => true | _ => false end.
Definition is_turn_snapshot (p : MessagePart) : bool :=
  match p with MpTurnSnapshotStart _ _ | MpTurnSnapshotPatch _ _ _ => true | _ => false end.
Definition is_tool_result_part (p : MessagePart) : bool :=
  match p with MpToolResult _ _ _ _ _ _ => true | _ => false end.

Definition has_compaction_request (m : AgentMessage) : bool :=
  existsb is_compaction_request (am_parts m).

(** [messages.iter().rposition(f)] and [skip(idx)]: the messages from the last
    one with [f] on, or all of them. *)
Fixpoint from_last (f : AgentMessage -> bool) (l : list AgentMessage) : option (list AgentMessage) :=
  match l with
  | [] => None
  | m :: rest =>
      match from_last f rest with
      | Some r => Some r
      | None => if f m then Some (m :: rest) else None
      end
  end.

Definition is_user_tool_result (m : AgentMessage) : bool :=
  bool_decide (am_role m = User) && existsb is_tool_result_part (am_parts m).

Definition extend_parts (m : AgentMessage) (parts : list MessagePart) : AgentMessage :=
  {| am_id := am_id m; am_session_id := am_session_id m; am_role := am_role m;
     am_parts := am_parts m ++ parts; am_created_at := am_created_at m;
     am_parent_message_id := am_parent_message_id m;
     am_source_provider := am_source_provider m; am_source_model := am_source_model m |}.

(** The loop of [merge_consecutive_tool_result_messages]; [result] is the
    accumulated list, newest first. *)
Fixpoint merge_messages (result : list AgentMessage) (l : list AgentMessage) : list AgentMessage :=
  match l with
  | [] => rev result
  | msg :: rest =>
      match result with
      | prev :: older =>
          if is_user_tool_result msg && is_user_tool_result prev
          then merge_messages (extend_parts prev (am_parts msg) :: older) rest
          else merge_messages (msg :: result) rest
      | [] => merge_messages [msg] rest
      end
  end.

Definition merge_consecutive_tool_result_messages (messages : list AgentMessage)
    : list AgentMessage :=
  if (length messages <? 2)%nat then messages else merge_messages [] messages.

Definition not_snapshot_only (m : AgentMessage) : bool :=
  existsb (fun p => negb (is_turn_snapshot p)) (am_parts m).

Definition filter_to_effective_history (messages : list AgentMessage) : list AgentMessage :=
  let filtered := default messages (from_last has_compaction_request messages) in
  merge_consecutive_tool_result_messages (List.filter not_snapshot_only filtered).

Definition has_compaction (messages : list AgentMessage) : bool :=
  existsb message_has_compaction messages.

(** [get_last_compaction]: newest message first, first part of it. *)
Definition get_last_compaction (messages : list AgentMessage) : option MessagePart :=
  head (omap (fun m =>
    List.find (fun p => match p with MpCompaction _ _ => true | _ => false end) (am_parts m))
    (rev messages)).

(** [SimpleTokenEstimator] on the parts that count, summed over the messages. *)
Definition estimate_part_tokens (max_prompt_bytes : option nat) (p : MessagePart) : Z :=
  match p with
  | MpText content => estimate_simple content
  | MpPrompt blocks => estimate_simple (render_prompt_for_llm blocks max_prompt_bytes)
  | MpToolResult _ content _ _ _ _ => estimate_simple (join nl (omap as_text content))
  | MpReasoning content _ _ => estimate_simple content
  | MpCompaction summary _ => estimate_simple summary
  | _ => 0
  end.

Definition usize_sum (l : list Z) : Z := fold_left usize_add l 0.

Definition estimate_messages_tokens (messages : list AgentMessage) (max_prompt_bytes : option nat)
    : Z :=
  usize_sum (map (fun m => usize_sum (map (estimate_part_tokens max_prompt_bytes) (am_parts m)))
               messages).

Definition COMPACTION_PROMPT : string :=
  join nl ["Provide a detailed prompt for continuing our conversation above. Focus on:";
    "- What was done"; "- What is currently being worked on"; "- Which files are being modified";
    "- What needs to be done next";
    "- Key user requests, constraints, or preferences that should persist"; "";
    "Be comprehensive but concise. This summary will replace the conversation history."].

Definition build_compaction_messages (messages : list AgentMessage) (max_prompt_bytes : option nat)
    : list ChatMessage :=
  map (fun m => to_chat_message_with_max_prompt_bytes m max_prompt_bytes) messages
  ++ [{| cm_role := User; cm_content := [CText COMPACTION_PROMPT]; cm_cache := None |}].

(** [create_compaction_messages], with the two ids and the time it reads. *)
Definition create_compaction_messages (request_id summary_id : string) (now : Z)
    (session_id summary : string) (original_token_count : Z) : AgentMessage * AgentMessage :=
  ({| am_id := request_id; am_session_id := session_id; am_role := User;
      am_parts := [MpCompactionRequest original_token_count]; am_created_at := now;
      am_parent_message_id := None; am_source_provider := None; am_source_model := None |},
   {| am_id := summary_id; am_session_id := session_id; am_role := Assistant;
      am_parts := [MpCompaction summary original_token_count]; am_created_at := now;
      am_parent_message_id := Some request_id; am_source_provider := None;
      am_source_model := None |}).

Definition is_mesh_timeout_error (e : LLMError) : bool :=
  match e with Transport Timeout _ => true | _ => false end.

Record CompactionResult := {
  cres_summary : string;
  cres_original_token_count : Z;
  cres_summary_token_count : Z;
}.

(** ** Laws of the effective history *)

Lemma from_last_suffix f l r : from_last f l = Some r -> exists p, l = p ++ r.
Proof.
  revert r. induction l as [|m l IH]; intros r; simpl; [done|].
  destruct (from_last f l) as [r'|].
  - intros [= ->]. destruct (IH r eq_refl) as [p ->]. by exists (m :: p).
  - destruct (f m); [|done]. intros [= <-]. by exists [].
Qed.

Lemma from_last_none f l : from_last f l = None -> Forall (fun m => f m = false) l.
Proof.
  induction l as [|m l IH]; simpl; [done|].
  destruct (from_last f l); [done|]. destruct (f m) eqn:E; [done|]. intros _. constructor; auto.
Qed.

Lemma from_last_head f l r :
  from_last f l = Some r -> exists m rest, r = m :: rest /\ f m = true /\ Forall (fun m => f m = false) rest.
Proof.
  revert r. induction l as [|m l IH]; intros r; simpl; [done|].
  destruct (from_last f l) as [r'|] eqn:E.
  - intros [= <-]. by apply IH.
  - destruct (f m) eqn:Ef; [|done]. intros [= <-]. exists m, l. split_and!; [done|done|].
    by apply from_last_none.
Qed.

(** Merging keeps every part, in order. *)
Definition all_parts (l : list AgentMessage) : list MessagePart := concat (map am_parts l).

Lemma all_parts_app l1 l2 : all_parts (l1 ++ l2) = all_parts l1 ++ all_parts l2.
Proof. unfold all_parts. by rewrite map_app, concat_app. Qed.

Lemma merge_messages_parts result l :
  all_parts (merge_messages result l) = all_parts (rev result) ++ all_parts l.
Proof.
  revert result. induction l as [|msg rest IH]; intros result; simpl.
  - by rewrite app_nil_r.
  - destruct result as [|prev older]; simpl;
      [by rewrite IH; unfold all_parts; simpl; rewrite app_nil_r|].
    destruct (is_user_tool_result msg && is_user_tool_result prev); rewrite IH; simpl;
      rewrite !all_parts_app; unfold all_parts; simpl; rewrite ?app_nil_r, <- ?app_assoc; done.
Qed.

Lemma merge_consecutive_parts l :
  all_parts (merge_consecutive_tool_result_messages l) = all_parts l.
Proof.
  unfold merge_consecutive_tool_result_messages. destruct (_ <? _)%nat; [done|].
  by rewrite merge_messages_parts.
Qed.

(** No two neighbours that are both user tool-result messages. *)
Fixpoint no_adjacent (f : AgentMessage -> bool) (l : list AgentMessage) : Prop :=
  match l with
  | a :: ((b :: _) as rest) => (f a && f b = false) /\ no_adjacent f rest
  | _ => True
  end.

Lemma no_adjacent_cons f a l :
  no_adjacent f (a :: l) <->
  match l with b :: _ => f a && f b = false | [] => True end /\ no_adjacent f l.
Proof. destruct l; simpl; tauto. Qed.

Lemma no_adjacent_snoc f l a :
  no_adjacent f (l ++ [a]) <->
  match last l with Some b => f b && f a = false | None => True end /\ no_adjacent f l.
Proof.
  induction l as [|x l IH]; [simpl; tauto|].
  destruct l as [|y l].
  - simpl. tauto.
  - change ((x :: y :: l) ++ [a]) with (x :: (y :: l) ++ [a]).
    rewrite (no_adjacent_cons f x ((y :: l) ++ [a])), IH, (no_adjacent_cons f x (y :: l)).
    simpl. tauto.
Qed.

Lemma is_user_tool_result_extend m parts :
  is_user_tool_result m = true -> is_user_tool_result (extend_parts m parts) = true.
Proof.
  unfold is_user_tool_result. simpl. rewrite existsb_app.
  intros [H1 H2]%andb_true_iff. by rewrite H1, H2.
Qed.

Lemma merge_messages_no_adjacent result l :
  no_adjacent is_user_tool_result (rev result) ->
  no_adjacent is_user_tool_result (merge_messages result l).
Proof.
  revert result. induction l as [|msg rest IH]; intros result Hr; simpl; [done|].
  destruct result as [|prev older]; [apply IH; done|].
  destruct (is_user_tool_result msg && is_user_tool_result prev) eqn:E; apply IH; simpl in *.
  - apply andb_true_iff in E as [_ Ep].
    rewrite no_adjacent_snoc in Hr |- *. destruct Hr as [H1 H2]. split; [|done].
    destruct (last (rev older)) as [b|]; [|done].
    rewrite Ep in H1. rewrite is_user_tool_result_extend by done. done.
  - rewrite no_adjacent_snoc. split; [|done].
    rewrite last_snoc. by rewrite andb_comm.
Qed.

Lemma merge_consecutive_no_adjacent l :
  no_adjacent is_user_tool_result (merge_consecutive_tool_result_messages l).
Proof.
  unfold merge_consecutive_tool_result_messages. destruct (_ <? _)%nat eqn:E.
  - apply Nat.ltb_lt in E. destruct l as [|a [|b l]]; simpl in *; try done; lia.
  - by apply merge_messages_no_adjacent.
Qed.

(** [mark_tool_results_compacted] in the store (sqlite_storage): every tool
    result of the session with one of the call ids, not compacted yet. *)
Definition mark_message (now : Z) (call_ids : list string) (m : AgentMessage) : AgentMessage :=
  {| am_id := am_id m; am_session_id := am_session_id m; am_role := am_role m;
     am_parts := map (mark_part_compacted now call_ids) (am_parts m);
     am_created_at := am_created_at m;
     am_parent_message_id := am_parent_message_id m;
     am_source_provider := am_source_provider m; am_source_model := am_source_model m |}.
End history.

(** ** The summary request *)

Section request.
Context {J : Json} {Ev : Env}.

Definition tokio_sleep : X unit := tick.

(** The consumption of a summary stream: text until the end or a [Done]. *)
Fixpoint stream_text (acc : string) (items : Stream) : result LLMError string :=
  match items with
  | [] => Ok acc
  | Err e :: _ => Err e
  | Ok (ScText delta) :: rest => stream_text (acc +:+ delta) rest
  | Ok (ScDone _) :: _ => Ok acc
  | Ok _ :: rest => stream_text acc rest
  end.

(** [call_streaming], or the plain chat call. *)
Definition compaction_call (messages : list ChatMessage) : X (result LLMError string) :=
  if env_supports_streaming then
    r ← ask (fun t => env_chat_stream t messages);
    mret match r with
         | Ok items => stream_text "" items
         | Err e => Err e
         end
  else
    r ← ask (fun t => env_chat t messages);
    mret match r with
         | Ok resp => Ok (default "" (cr_text resp))
         | Err e => Err e
         end.

Definition nat_disp (n : nat) : string := dec_of_Z (Z.of_nat n).

(** [for attempt in 0..=max_retries]: [left] is the number of attempts left
    after this one; [debug_error] stands for the [{:?}] of the last error. *)
Fixpoint compaction_attempts (debug_error : LLMError -> string) (messages : list ChatMessage)
    (retry : RetryConfig) (first : bool) (backoff_ms : Z) (left : nat) : X string :=
  (if first then mret tt else tokio_sleep) ≫= fun _ =>
  let backoff_ms :=
    if first then backoff_ms
    else f64_as_usize (f64_mul (f64_of_Z backoff_ms) (rt_backoff_multiplier retry)) in
  r ← compaction_call messages;
  match r with
  | Ok text => mret text
  | Err e =>
      if is_mesh_timeout_error e
      then throw ("Compaction failed: mesh timeout (remote still processing): "
                  +:+ llm_error_display e)
      else match left with
           | O => throw ("Compaction failed after " +:+ nat_disp (rt_max_retries retry)
                         +:+ " retries: Some(" +:+ debug_error e +:+ ")")
           | S left' => compaction_attempts debug_error messages retry false backoff_ms left'
           end
  end.

(** [call_with_retry] *)
Definition compaction_call_with_retry (debug_error : LLMError -> string)
    (messages : list ChatMessage) (retry : RetryConfig) : X string :=
  compaction_attempts debug_error messages retry true (rt_initial_backoff_ms retry)
    (rt_max_retries retry).

(** [SessionCompaction::process] *)
Definition compaction_process (debug_error : LLMError -> string) (messages : list AgentMessage)
    (retry : RetryConfig) (max_prompt_bytes : option nat) : X CompactionResult :=
  let original_token_count := estimate_messages_tokens messages max_prompt_bytes in
  let chat_messages := build_compaction_messages messages max_prompt_bytes in
  summary ← compaction_call_with_retry debug_error chat_messages retry;
  mret {| cres_summary := summary; cres_original_token_count := original_token_count;
          cres_summary_token_count := estimate_simple summary |}.

(** [get_effective_agent_history] and [get_agent_history] *)
Definition get_effective_agent_history : X (result string (list AgentMessage)) :=
  r ← store_get_history;
  mret match r with Ok h => Ok (filter_to_effective_history h) | Err e => Err e end.

(** [SessionHandle::history]: a failed load is an empty history. *)
Definition session_history (ctx : ExecutionContext) : X (list ChatMessage) :=
  r ← get_effective_agent_history;
  mret match r with
       | Ok msgs =>
           map (fun m => to_chat_message_with_target m (llm_provider <$> ex_llm_config ctx)
                           (llm_model <$> ex_llm_config ctx) (ex_max_prompt_bytes ctx)) msgs
       | Err _ => []
       end.

Lemma keeps_compaction_attempts I debug messages retry first backoff left :
  (forall w, I w -> I (set_now S w)) ->
  keeps I (compaction_attempts debug messages retry first backoff left).
Proof.
  intros HI. revert first backoff. induction left as [|left IH]; intros first backoff; simpl.
  all: apply keeps_bind; [destruct first; [apply keeps_ret|by apply keeps_modify]|intros _].
  all: apply keeps_bind.
  all: try (unfold compaction_call; destruct env_supports_streaming;
    (apply keeps_bind; [by apply keeps_ask|intros; apply keeps_ret])).
  all: intros [text|e]; [apply keeps_ret|]; destruct (is_mesh_timeout_error e);
    try apply keeps_throw. apply IH.
Qed.

Lemma keeps_session_history I ctx :
  (forall w, I w -> I (set_now S w)) -> keeps I (session_history ctx).
Proof.
  intros HI. apply keeps_bind; [|intros; apply keeps_ret].
  apply keeps_bind; [|intros; apply keeps_ret]. by apply keeps_store.
Qed.
End request.
