(* ===== verification/Retry.v ===== *)
(** The retry loops around the provider (agent/execution/llm_retry.rs). *)
From S2P Require Import Prelude Numbers Text Json Chat LlmErrors Domain Events Model ExecState.
From S2P Require Import Driver Pruning Hooks World Limits AgentConfig.

Local Open Scope Z_scope.

(** [extract_rate_limit_info] *)
Definition extract_rate_limit_info (error : LLMError) : option (string * option Z) :=
  match error with
  | RateLimited message retry_after => Some (message, retry_after)
  | HttpStatus status_code message retry_after =>
      if status_code =? 429 then Some (message, retry_after) else None
  | _ => None
  end.

(** [is_transient_error] *)
Definition is_transient_error (e : LLMError) : bool := is_retryable e.

(** A usize counter, clamped for the wire. *)
Definition u32_of_nat (n : nat) : Z := u32_from_usize (Z.of_nat n).

Section retry.
Context {J : Json} {Ev : Env} (config : AgentConfig).

Definition rate_limit : RateLimitConfig := ep_rate_limit (ac_execution_policy config).

(** [calculate_rate_limit_wait]; attempts count from 1. *)
Definition calculate_rate_limit_wait (retry_after : option Z) (attempt : nat) : Z :=
  match retry_after with
  | Some secs => secs
  | None =>
      let base := f64_of_Z (rl_default_wait_secs rate_limit) in
      let multiplier := rl_backoff_multiplier rate_limit in
      f64_as_usize (f64_mul base (env_powi multiplier (Z.of_nat attempt - 1)))
  end.

(** [wait_with_cancellation]: [true] when the cancellation ends the wait. *)
Definition wait_with_cancellation (wait_secs : Z) : X bool :=
  r ← select_cancel (fun _ => tt);
  mret match r with Some _ => false | None => true end.

(** The loop of [call_llm_with_retry], which [create_stream_with_retry] repeats
    word for word around the creation of a stream.  [call k] is the [k]-th
    call of the closure, from 0; [attempt] is the attempts already made. *)
Fixpoint retry_loop {A} (fuel : nat) (call : nat -> X (result LLMError A)) (attempt : nat) : X A :=
  match fuel with
  | O => fail OutOfFuel
  | S fuel =>
      let max_retries := rl_max_retries rate_limit in
      let attempt' := S attempt in
      c ← is_cancelled;
      if (c : bool) then throw "Cancelled"
      else
        r ← call attempt;
        match r with
        | Ok response => mret response
        | Err e =>
            match extract_rate_limit_info e with
            | Some (message, retry_after) =>
                if (max_retries <=? attempt')%nat
                then throw ("Rate limit exceeded after " +:+ dec_of_Z (Z.of_nat max_retries)
                            +:+ " attempts: " +:+ message)
                else
                  let wait_secs := calculate_rate_limit_wait retry_after attempt' in
                  started_at ← unix_time;
                  emit_event (EvRateLimited message wait_secs started_at (u32_of_nat attempt')
                                (u32_of_nat max_retries)) ≫= fun _ =>
                  cancelled ← wait_with_cancellation wait_secs;
                  if (cancelled : bool) then throw "Cancelled during rate limit wait"
                  else
                    emit_event (RateLimitResume
                      (u32_from_usize (usize_saturating_add (Z.of_nat attempt') 1))) ≫= fun _ =>
                    retry_loop fuel call attempt'
            | None =>
                if is_transient_error e && (attempt' <? max_retries)%nat
                then
                  let wait_secs := calculate_rate_limit_wait (retry_after_secs e) attempt' in
                  cancelled ← wait_with_cancellation wait_secs;
                  if (cancelled : bool) then throw "Cancelled during retry wait"
                  else retry_loop fuel call attempt'
                else throw (llm_error_display e)
            end
        end
  end.

(** Fuel: every attempt but the last is below [max_retries], so one more than
    [max_retries] attempts are never made. *)
Definition retry_fuel : nat := S (rl_max_retries rate_limit).

Definition call_llm_with_retry (call_fn : nat -> X (result LLMError ChatResponse))
    : X ChatResponse := retry_loop retry_fuel call_fn 0.

Definition create_stream_with_retry (create_stream : nat -> X (result LLMError Stream))
    : X Stream := retry_loop retry_fuel create_stream 0.

(** ** Laws *)

(** An error the loop goes on after, when attempts are left. *)
Definition goes_on (e : LLMError) : bool := is_retryable e.

Lemma rate_limit_info_retryable e : extract_rate_limit_info e <> None -> is_retryable e = true.
Proof.
  destruct e; simpl; try done. by destruct (status_code =? 429).
Qed.

(** A call that errs only in its result, as every closure the loops are given. *)
Definition total_call {A} (call : nat -> X (result LLMError A)) : Prop :=
  forall k w, exists r w', call k w = (Ok r, w').

Lemma retry_loop_fuel {A} (call : nat -> X (result LLMError A)) fuel attempt w :
  total_call call ->
  (Nat.max 1 (rl_max_retries rate_limit) <= attempt + fuel)%nat -> (0 < fuel)%nat ->
  (retry_loop fuel call attempt w).1 <> Err OutOfFuel.
Proof.
  intros Hcall. revert attempt w. induction fuel as [|fuel IH]; intros attempt w Hf Hpos; [lia|].
  cbn [retry_loop]. unfold mbind, M_bind, is_cancelled, ask.
  destruct (cancelled_at (w_now w)); [done|].
  destruct (Hcall attempt (set_now S w)) as (r & w' & ->).
  destruct r as [a|e]; [done|].
  destruct (extract_rate_limit_info e) as [[m ra]|].
  - destruct (rl_max_retries rate_limit <=? S attempt)%nat eqn:Em; [done|].
    apply Nat.leb_gt in Em. unfold unix_time, ask, emit_event, modify, wait_with_cancellation.
    unfold select_cancel, mbind, M_bind. cbn. destruct (_ && _); cbn; [done|]. apply IH; lia.
  - destruct (is_transient_error e); cbn [andb]; [|done].
    destruct (S attempt <? rl_max_retries rate_limit)%nat eqn:Em; [|done].
    apply Nat.ltb_lt in Em. unfold wait_with_cancellation, select_cancel, mbind, M_bind. cbn.
    destruct (_ && _); cbn; [done|]. apply IH; lia.
Qed.

(** What the loop returns is an answer of the call. *)
Lemma retry_loop_answer {A} (call : nat -> X (result LLMError A)) fuel attempt w a w' :
  retry_loop fuel call attempt w = (Ok a, w') ->
  exists k w0 w1, call k w0 = (Ok (Ok a), w1).
Proof.
  revert attempt w. induction fuel as [|fuel IH]; intros attempt w; [done|].
  cbn [retry_loop]. unfold mbind, M_bind, is_cancelled, ask.
  destruct (cancelled_at (w_now w)); [done|].
  destruct (call attempt (set_now S w)) as [[[b|e]|e] w1] eqn:Ec; [| |done].
  - intros [= <- _]. by eexists _, _, _.
  - destruct (extract_rate_limit_info e) as [[m ra]|].
    + destruct (rl_max_retries rate_limit <=? S attempt)%nat; [done|].
      unfold unix_time, ask, emit_event, modify, wait_with_cancellation.
      unfold select_cancel, mbind, M_bind. cbn. destruct (_ && _); cbn; [done|]. apply IH.
    + destruct (is_transient_error e && _); [|done].
      unfold wait_with_cancellation, select_cancel, mbind, M_bind. cbn.
      destruct (_ && _); cbn; [done|]. apply IH.
Qed.

(** The answers a test double gives, one per call. *)
Definition scripted {A} (answers : nat -> result LLMError A) (k : nat) : X (result LLMError A) :=
  mret (answers k).

Lemma scripted_total {A} (answers : nat -> result LLMError A) : total_call (scripted answers).
Proof. intros k w. by eexists _, _. Qed.

(** One more failed attempt: without a cancellation the loop goes on. *)
Lemma retry_loop_goes_on {A} (answers : nat -> result LLMError A) fuel attempt w e :
  env_cancel_at = None -> answers attempt = Err e -> is_retryable e = true ->
  (S attempt < rl_max_retries rate_limit)%nat ->
  exists w', w_history w' = w_history w /\
    retry_loop (S fuel) (scripted answers) attempt w
    = retry_loop fuel (scripted answers) (S attempt) w'.
Proof.
  intros Hc Ha He Hlt. cbn [retry_loop].
  unfold mbind, M_bind, is_cancelled, ask, cancelled_at, scripted, mret, M_ret. rewrite Hc, Ha.
  destruct (extract_rate_limit_info e) as [[m ra]|].
  - replace (rl_max_retries rate_limit <=? S attempt)%nat with false
      by (symmetry; apply Nat.leb_gt; lia).
    unfold unix_time, ask, emit_event, modify, wait_with_cancellation, select_cancel, cancelled_at.
    rewrite Hc. unfold mbind, M_bind. cbn. eexists. split; [|reflexivity]. done.
  - unfold is_transient_error. rewrite He. cbn [andb].
    replace (S attempt <? rl_max_retries rate_limit)%nat with true
      by (symmetry; apply Nat.ltb_lt; lia).
    unfold wait_with_cancellation, select_cancel, cancelled_at. rewrite Hc.
    unfold mbind, M_bind. cbn. eexists. split; [|reflexivity]. done.
Qed.

(** The attempts before the [k]-th all fail with errors worth a retry. *)
Lemma retry_loop_reaches {A} (answers : nat -> result LLMError A) k fuel attempt w :
  env_cancel_at = None ->
  (forall j, (attempt <= j < attempt + k)%nat -> exists e, answers j = Err e /\ is_retryable e = true) ->
  (k = 0 \/ attempt + k < rl_max_retries rate_limit)%nat ->
  exists w', w_history w' = w_history w /\
    retry_loop (k + fuel) (scripted answers) attempt w
    = retry_loop fuel (scripted answers) (attempt + k) w'.
Proof.
  intros Hc. revert attempt w. induction k as [|k IH]; intros attempt w Hj Hlt.
  - exists w. by rewrite Nat.add_0_r.
  - destruct (Hj attempt ltac:(lia)) as (e & He & Hr).
    destruct (retry_loop_goes_on answers (k + fuel) attempt w e) as (w' & Hh & Heq); try done; [lia|].
    destruct (IH (S attempt) w') as (w'' & Hh' & Heq'); [intros j Hj'; apply Hj; lia|lia|].
    exists w''. split; [congruence|]. change (S k + fuel)%nat with (S (k + fuel)).
    rewrite Heq, Heq'. f_equal; lia.
Qed.

Lemma keeps_retry_loop {A} (P : list AgentMessage -> Prop) fuel
    (call : nat -> X (result LLMError A)) attempt :
  (forall k, keeps (on_history P) (call k)) -> keeps (on_history P) (retry_loop fuel call attempt).
Proof.
  intros Hcall. revert attempt. induction fuel as [|fuel IH]; intros attempt; simpl; [apply keeps_fail|].
  unfold is_cancelled, unix_time, wait_with_cancellation.
  repeat first [apply IH | apply Hcall | keeps_step].
Qed.
End retry.

#[export] Hint Resolve keeps_retry_loop : qmt.
