(* ===== verification/CallLlm.v ===== *)
(** The model call (agent/execution/transitions.rs, [transition_call_llm]):
    cache breakpoints, the streaming path with its accumulators, batched
    deltas and mid-stream recovery, the plain calls, and the costs. *)
From S2P Require Import Prelude Numbers Text Json Chat LlmErrors Domain Events Model ExecState.
From S2P Require Import Driver Pruning Hooks World Limits AgentConfig Retry.

Local Open Scope Z_scope.

(** ** Stream accumulators (pure part) *)

Section accumulators.
Context {J : Json}.

(** [apply_cache_breakpoints] *)
Definition with_cache (m : ChatMessage) : ChatMessage :=
  {| cm_role := cm_role m; cm_content := cm_content m; cm_cache := Some (Ephemeral None) |}.

Definition apply_cache_breakpoints (messages : list ChatMessage) : list ChatMessage :=
  let len := length messages in
  imap (fun i msg => if (2 <=? len)%nat && (len - 2 <=? i)%nat then with_cache msg else msg) messages.

(** The accumulators of one stream attempt. *)
Record StreamAcc := {
  sa_text : string;
  sa_thinking : string;
  sa_signature : option string;
  sa_tool_calls : list ToolCall;
  sa_tool_call_ids : gset string;
  sa_usage : option Usage;
  sa_finish : option FinishReason;
  sa_text_buffer : string;
  sa_thinking_buffer : string;
}.

(** The reset at the start of each attempt. *)
Definition acc_empty : StreamAcc :=
  {| sa_text := ""; sa_thinking := ""; sa_signature := None; sa_tool_calls := [];
     sa_tool_call_ids := ∅; sa_usage := None; sa_finish := None;
     sa_text_buffer := ""; sa_thinking_buffer := "" |}.

Definition acc_push_text (a : StreamAcc) (delta : string) : StreamAcc :=
  {| sa_text := sa_text a +:+ delta; sa_thinking := sa_thinking a;
     sa_signature := sa_signature a; sa_tool_calls := sa_tool_calls a;
     sa_tool_call_ids := sa_tool_call_ids a; sa_usage := sa_usage a; sa_finish := sa_finish a;
     sa_text_buffer := sa_text_buffer a +:+ delta; sa_thinking_buffer := sa_thinking_buffer a |}.
Definition acc_push_thinking (a : StreamAcc) (delta : string) : StreamAcc :=
  {| sa_text := sa_text a; sa_thinking := sa_thinking a +:+ delta;
     sa_signature := sa_signature a; sa_tool_calls := sa_tool_calls a;
     sa_tool_call_ids := sa_tool_call_ids a; sa_usage := sa_usage a; sa_finish := sa_finish a;
     sa_text_buffer := sa_text_buffer a;
     sa_thinking_buffer := sa_thinking_buffer a +:+ delta |}.
Definition acc_set_signature (a : StreamAcc) (signature : string) : StreamAcc :=
  {| sa_text := sa_text a; sa_thinking := sa_thinking a; sa_signature := Some signature;
     sa_tool_calls := sa_tool_calls a; sa_tool_call_ids := sa_tool_call_ids a;
     sa_usage := sa_usage a; sa_finish := sa_finish a;
     sa_text_buffer := sa_text_buffer a; sa_thinking_buffer := sa_thinking_buffer a |}.
(** [if tool_call_ids.insert(id) { stream_tool_calls.push(tool_call) }] *)
Definition acc_add_call (a : StreamAcc) (tc : ToolCall) : StreamAcc :=
  if bool_decide (tc_id tc ∈ sa_tool_call_ids a) then a
  else
    {| sa_text := sa_text a; sa_thinking := sa_thinking a; sa_signature := sa_signature a;
       sa_tool_calls := sa_tool_calls a ++ [tc];
       sa_tool_call_ids := {[tc_id tc]} ∪ sa_tool_call_ids a;
       sa_usage := sa_usage a; sa_finish := sa_finish a;
       sa_text_buffer := sa_text_buffer a; sa_thinking_buffer := sa_thinking_buffer a |}.
(** [usage = Some(match usage { Some(prev) => prev.merge_max(u), None => u })] *)
Definition acc_merge_usage (a : StreamAcc) (u : Usage) : StreamAcc :=
  {| sa_text := sa_text a; sa_thinking := sa_thinking a; sa_signature := sa_signature a;
     sa_tool_calls := sa_tool_calls a; sa_tool_call_ids := sa_tool_call_ids a;
     sa_usage := Some match sa_usage a with Some prev => merge_max prev u | None => u end;
     sa_finish := sa_finish a;
     sa_text_buffer := sa_text_buffer a; sa_thinking_buffer := sa_thinking_buffer a |}.
Definition acc_set_finish (a : StreamAcc) (r : FinishReason) : StreamAcc :=
  {| sa_text := sa_text a; sa_thinking := sa_thinking a; sa_signature := sa_signature a;
     sa_tool_calls := sa_tool_calls a; sa_tool_call_ids := sa_tool_call_ids a;
     sa_usage := sa_usage a; sa_finish := Some r;
     sa_text_buffer := sa_text_buffer a; sa_thinking_buffer := sa_thinking_buffer a |}.
Definition acc_clear_buffers (a : StreamAcc) : StreamAcc :=
  {| sa_text := sa_text a; sa_thinking := sa_thinking a; sa_signature := sa_signature a;
     sa_tool_calls := sa_tool_calls a; sa_tool_call_ids := sa_tool_call_ids a;
     sa_usage := sa_usage a; sa_finish := sa_finish a;
     sa_text_buffer := ""; sa_thinking_buffer := "" |}.

(** What a stream attempt ends with. *)
Inductive StreamOutcome :=
| SoDone (a : StreamAcc)
| SoRetry
| SoCancelled.
End accumulators.

Section call.
Context {J : Json} {Ev : Env} (config : AgentConfig) (ctx : ExecutionContext).

(** [flush_buffers!]: the deltas for the interface, text first. *)
Definition flush_buffers (message_id : string) (a : StreamAcc) : X StreamAcc :=
  (if is_empty_str (sa_text_buffer a) then mret tt
   else emit_event (AssistantContentDelta (sa_text_buffer a) message_id)) ≫= fun _ =>
  (if is_empty_str (sa_thinking_buffer a) then mret tt
   else emit_event (AssistantThinkingDelta (sa_thinking_buffer a) message_id)) ≫= fun _ =>
  mret (acc_clear_buffers a).

Definition BATCH_CHARS : nat := 256.

(** The flush after a chunk, by time or by size. *)
Definition maybe_flush (message_id : string) (a : StreamAcc) : X StreamAcc :=
  due ← ask env_flush_due;
  if (due : bool) || (BATCH_CHARS <=? slen (sa_text_buffer a))%nat
     || (BATCH_CHARS <=? slen (sa_thinking_buffer a))%nat
  then flush_buffers message_id a else mret a.

(** [select! { item = stream.next() => .., _ = token.cancelled() => .. }] *)
Definition next_or_cancel : X bool :=
  r ← select_cancel (fun _ => tt); mret match r with Some _ => true | None => false end.

(** The drain after [Done]: trailing usage, up to the first other item. *)
Fixpoint drain (a : StreamAcc) (items : Stream) : X StreamOutcome :=
  go ← next_or_cancel;
  if negb go then mret SoCancelled
  else match items with
       | Ok (ScUsage u) :: rest => drain (acc_merge_usage a u) rest
       | _ => mret (SoDone a)
       end.

(** The inner consume loop. *)
Fixpoint consume (message_id : string) (stream_attempt : nat) (a : StreamAcc) (items : Stream)
    : X StreamOutcome :=
  go ← next_or_cancel;
  if negb go then mret SoCancelled
  else
    match items with
    | [] => mret (SoDone a)
    | Err (RemoteStreamDisconnected message) :: rest =>
        a ← flush_buffers message_id a;
        emit_event (EvRemoteStreamDisconnected message (Some message_id)) ≫= fun _ =>
        consume message_id stream_attempt a rest
    | Err (RemoteStreamReconnected message) :: rest =>
        emit_event (EvRemoteStreamReconnected message (Some message_id)) ≫= fun _ =>
        consume message_id stream_attempt a rest
    | Err e :: _ =>
        let max_stream_retries := rl_max_stream_retries (rate_limit config) in
        if is_retryable e && (stream_attempt <=? max_stream_retries)%nat
        then
          flush_buffers message_id a ≫= fun _ =>
          emit_event (StreamRecovering (llm_error_display e) (u32_of_nat stream_attempt)
                        (u32_of_nat max_stream_retries) (Some message_id)) ≫= fun _ =>
          mret SoRetry
        else throw "LLM streaming error"
    | Ok chunk :: rest =>
        match chunk with
        | ScText delta =>
            a ← maybe_flush message_id (acc_push_text a delta);
            consume message_id stream_attempt a rest
        | ScThinking delta =>
            a ← maybe_flush message_id (acc_push_thinking a delta);
            consume message_id stream_attempt a rest
        | ScThinkingSignature signature =>
            a ← maybe_flush message_id (acc_set_signature a signature);
            consume message_id stream_attempt a rest
        | ScToolUseComplete _ tool_call =>
            a ← flush_buffers message_id a;
            a ← maybe_flush message_id (acc_add_call a tool_call);
            consume message_id stream_attempt a rest
        | ScUsage u =>
            a ← maybe_flush message_id (acc_merge_usage a u);
            consume message_id stream_attempt a rest
        | ScDone finish_reason => drain (acc_set_finish a finish_reason) rest
        | ScToolUseStart _ _ _ | ScToolUseInputDelta _ _ =>
            a ← maybe_flush message_id a;
            consume message_id stream_attempt a rest
        end
    end.

(** The outer retry loop; [None] when the call was cancelled. *)
Fixpoint stream_loop (fuel : nat) (message_id : string)
    (create : nat -> nat -> X (result LLMError Stream)) (stream_attempt : nat)
    : X (option StreamAcc) :=
  match fuel with
  | O => fail OutOfFuel
  | S fuel =>
      let attempt := S stream_attempt in
      stream ← create_stream_with_retry config (create attempt);
      o ← consume message_id attempt acc_empty stream;
      match o with
      | SoDone a => mret (Some a)
      | SoRetry => stream_loop fuel message_id create attempt
      | SoCancelled => mret None
      end
  end.

(** Fuel: a retry is only taken at an attempt up to [max_stream_retries]. *)
Definition stream_fuel : nat := S (S (rl_max_stream_retries (rate_limit config))).

(** The tuple every path produces. *)
Record CallResult := {
  cl_content : string;
  cl_thinking : option string;
  cl_signature : option string;
  cl_tool_calls : list ToolCall;
  cl_usage : option Usage;
  cl_finish_reason : option FinishReason;
  cl_message_id : option string;
}.

Definition result_of_response (resp : ChatResponse) : CallResult :=
  {| cl_content := default "" (cr_text resp); cl_thinking := cr_thinking resp;
     cl_signature := None; cl_tool_calls := default [] (cr_tool_calls resp);
     cl_usage := cr_usage resp; cl_finish_reason := cr_finish_reason resp;
     cl_message_id := None |}.

Definition result_of_stream (message_id : string) (a : StreamAcc) : CallResult :=
  {| cl_content := sa_text a;
     cl_thinking := if is_empty_str (sa_thinking a) then None else Some (sa_thinking a);
     cl_signature := sa_signature a;
     cl_tool_calls := sa_tool_calls a;
     cl_usage := sa_usage a;
     cl_finish_reason :=
       match sa_finish a with
       | Some r => Some r
       | None => Some (if is_nil (sa_tool_calls a) then FrStop else FrToolCalls)
       end;
     cl_message_id := Some message_id |}.

(** A closure of [call_llm_with_retry]: the call raced with the cancellation. *)
Definition raced_call (f : nat -> result LLMError ChatResponse) (_ : nat)
    : X (result LLMError ChatResponse) :=
  r ← select_cancel f;
  mret match r with Some r => r | None => Err ErrCancelled end.

(** [session_handle.submit_request]: the provider is built first. *)
Definition submit_request (messages : list ChatMessage) (t : nat) : result LLMError ChatResponse :=
  match env_provider_error t with
  | Some e => Err e
  | None => env_chat t messages
  end.

(** The streaming path: [None] when cancelled. *)
Definition call_streaming (messages : list ChatMessage) (tools : list Tool)
    : X (option CallResult) :=
  message_id ← fresh_uuid;
  r ← stream_loop stream_fuel message_id
        (fun _ _ => ask (fun t => env_chat_stream_with_tools t messages tools)) 0;
  match r with
  | None => mret None
  | Some a =>
      a ← flush_buffers message_id a;
      c ← is_cancelled;
      mret (if (c : bool) then None else Some (result_of_stream message_id a))
  end.

(** The response by one of the three paths. *)
Definition call_model (messages : list ChatMessage) (tools : list Tool) : X (option CallResult) :=
  if is_nil tools then
    resp ← call_llm_with_retry config (raced_call (submit_request messages));
    mret (Some (result_of_response resp))
  else
    p ← build_provider;
    match p with
    | Err _ => throw "Failed to build provider"
    | Ok _ =>
        if env_supports_streaming then call_streaming messages tools
        else
          resp ← call_llm_with_retry config
                   (raced_call (fun t => env_chat_with_tools t messages tools));
          mret (Some (result_of_response resp))
    end.

(** The request and cumulative costs of the [LlmRequestEnd] event. *)
Definition request_costs (stats : AgentStats) (pricing : option ModelPricing)
    (usage : option Usage) : option f64 * option f64 :=
  match usage with
  | None => (None, None)
  | Some u =>
      let billable_output := u64_add (u_output u) (u_reasoning u) in
      (pricing ≫= fun p => calculate_cost p (u_input u) billable_output,
       pricing ≫= fun p =>
         calculate_cost p (u64_add (st_total_input_tokens stats) (u_input u))
           (u64_add (u64_add (st_total_output_tokens stats) (u_reasoning u)) billable_output))
  end.

Definition mw_call_of (tc : ToolCall) : MwToolCall :=
  {| mtc_id := tc_id tc;
     mtc_function := {| tf_name := tc_name tc; tf_arguments := tc_arguments tc |} |}.

Definition response_of (r : CallResult) : LlmResponse :=
  let resp := llm_response_new (cl_content r) (map mw_call_of (cl_tool_calls r)) (cl_usage r)
                (cl_finish_reason r) in
  let resp := with_thinking_signature (with_thinking resp (cl_thinking r)) (cl_signature r) in
  match cl_message_id r with Some id => with_message_id resp id | None => resp end.

Definition metrics_of (steps turns : Z) : ExecutionMetrics :=
  {| em_steps := u32_from_usize steps; em_turns := u32_from_usize turns |}.

(** [transition_call_llm] *)
Definition transition_call_llm (context : ConversationContext) (tools : list Tool)
    : X ExecutionState :=
  c ← is_cancelled;
  if (c : bool) then mret Cancelled
  else
    emit_event (LlmRequestStart (u32_of_nat (length (cc_messages context)))) ≫= fun _ =>
    let messages := apply_cache_breakpoints (cc_messages context) in
    r ← call_model messages tools;
    match r with
    | None => mret Cancelled
    | Some r =>
        resolver ← ask env_has_key_resolver;
        let '(request_cost, cumulative_cost) :=
          request_costs (cc_stats context) (get_pricing (ex_llm_config ctx) resolver) (cl_usage r) in
        emit_event (LlmRequestEnd (cl_usage r) (u32_of_nat (length (cl_tool_calls r)))
                      (cl_finish_reason r) request_cost cumulative_cost
                      (calculate_context_tokens (cl_usage r))
                      (metrics_of (usize_saturating_add (st_steps (cc_stats context)) 1)
                         (st_turns (cc_stats context)))) ≫= fun _ =>
        mret (AfterLlm (response_of r) context)
    end.
End call.
