(* ===== verification/ModelCall.v ===== *)
(** What the model call promises.  Its streaming path: the accumulated response
    as a function of the stream's chunks, and the deltas emitted on the way.
    [transition_call_llm]: the response is an answer of the model, whole, by
    whichever path it came; the history is left alone; and the retries end. *)
From S2P Require Import Prelude Numbers Text Json Chat LlmErrors Domain Events Model ExecState.
From S2P Require Import Driver Pruning Hooks World Limits AgentConfig Retry CallLlm.

Local Open Scope Z_scope.

Section spec.
Context {J : Json}.

(** ** The reference reading of a stream *)

Fixpoint trailing_usage (items : Stream) : list Usage :=
  match items with
  | Ok (ScUsage u) :: rest => u :: trailing_usage rest
  | _ => []
  end.

(** The chunks an attempt takes in, with the finish reason; [None] when an
    error other than a remote connection notice comes first. *)
Fixpoint stream_chunks (items : Stream) : option (list StreamChunk * option FinishReason) :=
  match items with
  | [] => Some ([], None)
  | Err (RemoteStreamDisconnected _) :: rest => stream_chunks rest
  | Err (RemoteStreamReconnected _) :: rest => stream_chunks rest
  | Err _ :: _ => None
  | Ok (ScDone fr) :: rest => Some (map ScUsage (trailing_usage rest), Some fr)
  | Ok c :: rest => '(cs, fr) ← stream_chunks rest; Some (c :: cs, fr)
  end.

Definition text_delta (c : StreamChunk) : option string :=
  match c with ScText d => Some d | _ => None end.
Definition thinking_delta (c : StreamChunk) : option string :=
  match c with ScThinking d => Some d | _ => None end.
Definition signature_of (c : StreamChunk) : option string :=
  match c with ScThinkingSignature d => Some d | _ => None end.
Definition call_of (c : StreamChunk) : option ToolCall :=
  match c with ScToolUseComplete _ tc => Some tc | _ => None end.
Definition usage_of (c : StreamChunk) : option Usage :=
  match c with ScUsage u => Some u | _ => None end.

Definition chunks_text (cs : list StreamChunk) : string := sconcat (omap text_delta cs).
Definition chunks_thinking (cs : list StreamChunk) : string := sconcat (omap thinking_delta cs).

(** The first call of each id. *)
Fixpoint first_calls (seen : gset string) (l : list ToolCall) : list ToolCall :=
  match l with
  | [] => []
  | tc :: l' =>
      if bool_decide (tc_id tc ∈ seen) then first_calls seen l'
      else tc :: first_calls ({[tc_id tc]} ∪ seen) l'
  end.
Fixpoint seen_after (seen : gset string) (l : list ToolCall) : gset string :=
  match l with
  | [] => seen
  | tc :: l' =>
      if bool_decide (tc_id tc ∈ seen) then seen_after seen l'
      else seen_after ({[tc_id tc]} ∪ seen) l'
  end.

Definition merge_usage (o : option Usage) (u : Usage) : option Usage :=
  Some match o with Some prev => merge_max prev u | None => u end.

(** The deltas among the emitted events. *)
Definition content_delta (k : AgentEventKind) : option string :=
  match k with AssistantContentDelta d _ => Some d | _ => None end.
Definition thinking_delta_event (k : AgentEventKind) : option string :=
  match k with AssistantThinkingDelta d _ => Some d | _ => None end.
Definition content_deltas (evs : list AgentEventKind) : string := sconcat (omap content_delta evs).
Definition thinking_deltas (evs : list AgentEventKind) : string :=
  sconcat (omap thinking_delta_event evs).

(** An attempt of the stream given up, of which no more deltas come. *)
Definition is_recovery (k : AgentEventKind) : bool :=
  match k with StreamRecovering _ _ _ _ => true | _ => false end.
Definition no_recovery (evs : list AgentEventKind) : Prop :=
  Forall (fun k => is_recovery k = false) evs.

(** Events that neither carry a delta nor give up an attempt. *)
Definition silent_events (evs : list AgentEventKind) : Prop :=
  no_recovery evs /\ content_deltas evs = "" /\ thinking_deltas evs = "".

(** Nothing, or events up to an attempt given up. *)
Definition up_to_recovery (evs : list AgentEventKind) : Prop :=
  match last evs with Some k => is_recovery k = true | None => True end.

(** From [a] at [w], the chunks [cs] were taken in, giving [a'] at [w']. *)
Record progress (a : StreamAcc) (w : World) (a' : StreamAcc) (w' : World) (cs : list StreamChunk)
    : Prop := {
  pg_text : sa_text a' = sa_text a +:+ chunks_text cs;
  pg_thinking : sa_thinking a' = sa_thinking a +:+ chunks_thinking cs;
  pg_signature : sa_signature a' = or_else (last (omap signature_of cs)) (sa_signature a);
  pg_calls : sa_tool_calls a' =
    sa_tool_calls a ++ first_calls (sa_tool_call_ids a) (omap call_of cs);
  pg_ids : sa_tool_call_ids a' = seen_after (sa_tool_call_ids a) (omap call_of cs);
  pg_usage : sa_usage a' = fold_left merge_usage (omap usage_of cs) (sa_usage a);
  pg_history : w_history w' = w_history w;
  pg_events : exists evs, w_events w' = w_events w ++ evs /\ no_recovery evs /\
    content_deltas evs +:+ sa_text_buffer a' = sa_text_buffer a +:+ chunks_text cs /\
    thinking_deltas evs +:+ sa_thinking_buffer a' = sa_thinking_buffer a +:+ chunks_thinking cs;
}.

Lemma first_calls_app seen l1 l2 :
  first_calls seen (l1 ++ l2) = first_calls seen l1 ++ first_calls (seen_after seen l1) l2.
Proof.
  revert seen. induction l1 as [|tc l IH]; intros seen; simpl; [done|].
  destruct (bool_decide _); rewrite IH; done.
Qed.

Lemma seen_after_app seen l1 l2 :
  seen_after seen (l1 ++ l2) = seen_after (seen_after seen l1) l2.
Proof.
  revert seen. induction l1 as [|tc l IH]; intros seen; simpl; [done|].
  by destruct (bool_decide _).
Qed.

Lemma last_app_or {A} (l1 l2 : list A) (d : option A) :
  or_else (last (l1 ++ l2)) d = or_else (last l2) (or_else (last l1) d).
Proof.
  rewrite last_app. by destruct (last l2).
Qed.

Lemma content_deltas_app e1 e2 : content_deltas (e1 ++ e2) = content_deltas e1 +:+ content_deltas e2.
Proof. unfold content_deltas. by rewrite omap_app, sconcat_app. Qed.
Lemma thinking_deltas_app e1 e2 :
  thinking_deltas (e1 ++ e2) = thinking_deltas e1 +:+ thinking_deltas e2.
Proof. unfold thinking_deltas. by rewrite omap_app, sconcat_app. Qed.

Lemma chunks_text_app c1 c2 : chunks_text (c1 ++ c2) = chunks_text c1 +:+ chunks_text c2.
Proof. unfold chunks_text. by rewrite omap_app, sconcat_app. Qed.
Lemma chunks_thinking_app c1 c2 :
  chunks_thinking (c1 ++ c2) = chunks_thinking c1 +:+ chunks_thinking c2.
Proof. unfold chunks_thinking. by rewrite omap_app, sconcat_app. Qed.

Lemma progress_trans a w a1 w1 a2 w2 cs1 cs2 :
  progress a w a1 w1 cs1 -> progress a1 w1 a2 w2 cs2 -> progress a w a2 w2 (cs1 ++ cs2).
Proof.
  intros [] []. destruct pg_events0 as (e1 & He1 & Hn1 & Ht1 & Hh1).
  destruct pg_events1 as (e2 & He2 & Hn2 & Ht2 & Hh2).
  constructor.
  - by rewrite pg_text1, pg_text0, chunks_text_app, sapp_assoc.
  - by rewrite pg_thinking1, pg_thinking0, chunks_thinking_app, sapp_assoc.
  - by rewrite pg_signature1, pg_signature0, omap_app, last_app_or.
  - by rewrite pg_calls1, pg_calls0, pg_ids0, omap_app, first_calls_app, app_assoc.
  - by rewrite pg_ids1, pg_ids0, omap_app, seen_after_app.
  - by rewrite pg_usage1, pg_usage0, omap_app, fold_left_app.
  - congruence.
  - exists (e1 ++ e2). rewrite He2, He1, app_assoc. split; [done|].
    split; [by apply Forall_app|].
    rewrite content_deltas_app, thinking_deltas_app, chunks_text_app, chunks_thinking_app.
    rewrite <- !sapp_assoc, Ht2, Hh2, !sapp_assoc, Ht1, Hh1. done.
Qed.

Lemma progress_refl a w : progress a w a w [].
Proof.
  constructor; unfold chunks_text, chunks_thinking; simpl; rewrite ?sapp_nil_r, ?app_nil_r; try done.
  exists []. rewrite app_nil_r, ?sapp_nil_r. split_and!; try done. by constructor.
Qed.

(** Steps that touch no accumulator field but the finish reason. *)
Lemma progress_world a w w' :
  w_history w' = w_history w ->
  (exists evs, w_events w' = w_events w ++ evs /\ silent_events evs) ->
  progress a w a w' [].
Proof.
  intros Hh (evs & He & Hn & Hc & Ht). constructor; unfold chunks_text, chunks_thinking; simpl;
    rewrite ?sapp_nil_r, ?app_nil_r; try done.
  exists evs. by rewrite Hc, Ht, ?sapp_nil_r.
Qed.

Lemma progress_finish a w fr : progress a w (acc_set_finish a fr) w [].
Proof. destruct (progress_refl a w). by constructor. Qed.

Ltac one_chunk :=
  constructor; unfold chunks_text, chunks_thinking; simpl; rewrite ?sapp_nil_r, ?app_nil_r;
  try done; exists []; rewrite app_nil_r; unfold content_deltas, thinking_deltas; simpl;
  rewrite ?sapp_nil_r, ?sapp_nil_l; (split; [done|]); (split; [by constructor|done]).

Lemma progress_text a w d : progress a w (acc_push_text a d) w [ScText d].
Proof. one_chunk. Qed.
Lemma progress_thinking a w d : progress a w (acc_push_thinking a d) w [ScThinking d].
Proof. one_chunk. Qed.
Lemma progress_signature a w d : progress a w (acc_set_signature a d) w [ScThinkingSignature d].
Proof. one_chunk. Qed.
Lemma progress_usage a w u : progress a w (acc_merge_usage a u) w [ScUsage u].
Proof. one_chunk. Qed.
Lemma progress_call a w i tc : progress a w (acc_add_call a tc) w [ScToolUseComplete i tc].
Proof.
  unfold acc_add_call. destruct (bool_decide (tc_id tc ∈ sa_tool_call_ids a)) eqn:E.
  all: constructor; unfold chunks_text, chunks_thinking; simpl; rewrite ?E; simpl;
    rewrite ?sapp_nil_r, ?app_nil_r; try done.
  all: exists []; rewrite app_nil_r; unfold content_deltas, thinking_deltas; simpl;
    rewrite ?sapp_nil_r, ?sapp_nil_l; (split; [done|]); (split; [by constructor|done]).
Qed.
Lemma progress_start a w i id n : progress a w a w [ScToolUseStart i id n].
Proof. one_chunk. Qed.
Lemma progress_input a w i d : progress a w a w [ScToolUseInputDelta i d].
Proof. one_chunk. Qed.

(** ** The loops take in exactly the reference chunks *)

Context {Ev : Env} (config : AgentConfig).

Lemma silent_nil : silent_events [].
Proof. by split; [constructor|]. Qed.

Lemma flush_progress mid a :
  forall w, exists w', flush_buffers mid a w = (Ok (acc_clear_buffers a), w') /\
    progress a w (acc_clear_buffers a) w' [].
Proof.
  intros w. unfold flush_buffers, emit_event, modify, mbind, M_bind, mret, M_ret.
  destruct (is_empty_str (sa_text_buffer a)) eqn:E1;
    destruct (is_empty_str (sa_thinking_buffer a)) eqn:E2; simpl;
    (eexists; split; [reflexivity|]);
    repeat match goal with
           | H : is_empty_str _ = true |- _ => apply is_empty_str_spec in H
           end;
    constructor; unfold chunks_text, chunks_thinking; simpl; rewrite ?sapp_nil_r, ?app_nil_r;
    try done.
  - exists []. rewrite app_nil_r, E1, E2. split_and!; try done. by constructor.
  - exists [AssistantThinkingDelta (sa_thinking_buffer a) mid]. rewrite E1.
    unfold content_deltas, thinking_deltas. simpl. rewrite !sapp_nil_r.
    split_and!; try done. by repeat constructor.
  - exists [AssistantContentDelta (sa_text_buffer a) mid]. rewrite E2.
    unfold content_deltas, thinking_deltas. simpl. rewrite !sapp_nil_r.
    split_and!; try done. by repeat constructor.
  - exists [AssistantContentDelta (sa_text_buffer a) mid;
            AssistantThinkingDelta (sa_thinking_buffer a) mid].
    rewrite <- app_assoc. unfold content_deltas, thinking_deltas. simpl. rewrite !sapp_nil_r.
    split_and!; try done. by repeat constructor.
Qed.

Lemma maybe_flush_progress mid a w :
  exists a' w', maybe_flush mid a w = (Ok a', w') /\ progress a w a' w' [] /\
    sa_finish a' = sa_finish a.
Proof.
  unfold maybe_flush, ask, mbind, M_bind.
  assert (progress a w a (set_now S w) []) as H0.
  { apply progress_world; [done|]. exists []. rewrite app_nil_r. split; [done|apply silent_nil]. }
  destruct (_ || _).
  - destruct (flush_progress mid a (set_now S w)) as (w' & Hf & Hp).
    exists (acc_clear_buffers a), w'. split_and!; [exact Hf| |done].
    exact (progress_trans _ _ _ _ _ _ [] [] H0 Hp).
  - by eexists _, _.
Qed.

(** The outcomes of the consume loop, each with what it says of the stream. *)
Definition consume_post (a : StreamAcc) (items : Stream) (stream_attempt : nat) (w : World)
    (r : result ExecError StreamOutcome) (w' : World) : Prop :=
  match r with
  | Ok (SoDone a') =>
      exists cs fr, stream_chunks items = Some (cs, fr) /\ progress a w a' w' cs /\
        sa_finish a' = or_else fr (sa_finish a)
  | Ok SoRetry =>
      stream_chunks items = None /\
      (stream_attempt <= rl_max_stream_retries (rate_limit config))%nat /\
      w_history w' = w_history w /\
      exists given_up, w_events w' = w_events w ++ given_up /\ given_up <> [] /\
        up_to_recovery given_up
  | Ok SoCancelled => env_cancel_at <> None /\ w_history w' = w_history w
  | Err e => e = Anyhow "LLM streaming error" /\ stream_chunks items = None /\
      w_history w' = w_history w
  end.

Lemma next_or_cancel_run w :
  exists b, next_or_cancel w = (Ok b, set_now S w) /\ (b = false -> env_cancel_at <> None).
Proof.
  unfold next_or_cancel, select_cancel, mbind, M_bind, mret, M_ret, cancelled_at.
  destruct env_cancel_at; simpl; [|by eexists]. destruct (_ && _); by eexists.
Qed.

Lemma progress_tick a w : progress a w a (set_now S w) [].
Proof.
  apply progress_world; [done|]. exists []. rewrite app_nil_r. split; [done|apply silent_nil].
Qed.

Lemma drain_spec a items w :
  match drain a items w with
  | (Ok (SoDone a'), w') =>
      progress a w a' w' (map ScUsage (trailing_usage items)) /\ sa_finish a' = sa_finish a
  | (Ok SoCancelled, w') => env_cancel_at <> None /\ w_history w' = w_history w
  | _ => False
  end.
Proof.
  revert a w. induction items as [|i items IH]; intros a w; cbn [drain];
    unfold mbind, M_bind; destruct (next_or_cancel_run w) as ([] & -> & Hc); simpl;
    try (split; [by apply Hc|done]).
  - split; [apply progress_tick|done].
  - destruct i as [c|e]; [destruct c|]; simpl; try (split; [apply progress_tick|done]).
    specialize (IH (acc_merge_usage a usage) (set_now S w)).
    destruct (drain _ items _) as [[[a'| |]|] w']; try done. destruct IH as [Hp Hf].
    split; [|done].
    apply (progress_trans a w a (set_now S w) a' w' [] (ScUsage usage :: _)); [apply progress_tick|].
    apply (progress_trans a _ _ _ a' w' [ScUsage usage] _ (progress_usage _ _ _) Hp).
Qed.

Lemma up_to_recovery_app e1 e2 : e2 <> [] -> up_to_recovery e2 -> up_to_recovery (e1 ++ e2).
Proof. unfold up_to_recovery. rewrite last_app. by destruct e2 as [|k e2 _] using rev_ind;
  [|rewrite last_snoc]. Qed.

(** One step of the loop, in front of the rest. *)
Lemma consume_post_cons a a1 w w1 items item cs1 att r w' :
  progress a w a1 w1 cs1 -> sa_finish a1 = sa_finish a ->
  stream_chunks (item :: items) = ('(cs, fr) ← stream_chunks items; Some (cs1 ++ cs, fr)) ->
  consume_post a1 items att w1 r w' ->
  consume_post a (item :: items) att w r w'.
Proof.
  intros Hp Hf Hs. pose proof (pg_history _ _ _ _ _ Hp) as Hh. destruct r as [[a'| |]|e]; simpl in *.
  - intros (cs & fr & Hcs & Hp2 & Hf2). exists (cs1 ++ cs), fr.
    split_and!; [by rewrite Hs, Hcs|by eapply progress_trans|congruence].
  - intros (Hcs & Ha & Hw & evs & He & Hne & Hu). split_and!; [by rewrite Hs, Hcs|done|congruence|].
    destruct (pg_events _ _ _ _ _ Hp) as (e1 & He1 & _). exists (e1 ++ evs).
    rewrite He, He1, app_assoc. split; [done|]. split; [by destruct e1|].
    by apply up_to_recovery_app.
  - intros [Hc Hw]. split; [done|congruence].
  - intros (He & Hcs & Hw). split_and!; [done|by rewrite Hs, Hcs|congruence].
Qed.

Lemma chunk_step mid att a a1 item c items w :
  (forall w, progress a w a1 w [c]) -> sa_finish a1 = sa_finish a ->
  stream_chunks (item :: items) = ('(cs, fr) ← stream_chunks items; Some ([c] ++ cs, fr)) ->
  (forall a w, let '(r, w') := consume config mid att a items w in consume_post a items att w r w') ->
  let '(r, w') := (a' ← maybe_flush mid a1; consume config mid att a' items) (set_now S w) in
  consume_post a (item :: items) att w r w'.
Proof.
  intros Hp Hf Hs IH. unfold mbind, M_bind.
  destruct (maybe_flush_progress mid a1 (set_now S w)) as (a2 & w2 & -> & Hp2 & Hf2).
  specialize (IH a2 w2). destruct (consume config mid att a2 items w2) as [r w'].
  eapply consume_post_cons; [|by rewrite Hf2|exact Hs|exact IH].
  apply (progress_trans a w a (set_now S w) a2 w2 [] [c]); [apply progress_tick|].
  exact (progress_trans a _ a1 _ a2 w2 [c] [] (Hp _) Hp2).
Qed.

Lemma error_step mid att a e items w :
  stream_chunks (Err e :: items) = None ->
  let '(r, w') :=
    (if is_retryable e && (att <=? rl_max_stream_retries (rate_limit config))%nat
     then
       flush_buffers mid a ≫= fun _ =>
       emit_event (StreamRecovering (llm_error_display e) (u32_of_nat att)
                     (u32_of_nat (rl_max_stream_retries (rate_limit config))) (Some mid)) ≫= fun _ =>
       mret SoRetry
     else throw "LLM streaming error") (set_now S w) in
  consume_post a (Err e :: items) att w r w'.
Proof.
  intros Hs. destruct (is_retryable e && _) eqn:E.
  - apply andb_true_iff in E as [_ E]. apply Nat.leb_le in E.
    unfold mbind, M_bind. destruct (flush_progress mid a (set_now S w)) as (w1 & -> & Hp).
    simpl. split_and!; [exact Hs|done|by rewrite (pg_history _ _ _ _ _ Hp)|].
    destruct (pg_events _ _ _ _ _ Hp) as (evs & He & _). cbn [set_now w_events] in He. rewrite He.
    eexists (evs ++ [_]). rewrite app_assoc. split; [reflexivity|]. split; [by destruct evs|].
    unfold up_to_recovery. by rewrite last_snoc.
  - split_and!; [done|exact Hs|done].
Qed.

Abbreviation consume_ok mid att a items w :=
  (let '(r, w') := consume config mid att a items w in consume_post a items att w r w').

(** A finished tool call: the buffers are flushed before it is added. *)
Lemma call_step mid att a index tc items w :
  (forall a w, consume_ok mid att a items w) ->
  let '(r, w') :=
    (a ← flush_buffers mid a; a ← maybe_flush mid (acc_add_call a tc);
     consume config mid att a items) (set_now S w) in
  consume_post a (Ok (ScToolUseComplete index tc) :: items) att w r w'.
Proof.
  intros IH. unfold mbind at 1, M_bind at 1.
  destruct (flush_progress mid a (set_now S w)) as (w1 & -> & Hp).
  set (a1 := acc_clear_buffers a) in *. unfold mbind, M_bind.
  destruct (maybe_flush_progress mid (acc_add_call a1 tc) w1) as (a2 & w2 & -> & Hp2 & Hf2).
  specialize (IH a2 w2). destruct (consume config mid att a2 items w2) as [r w'].
  apply (consume_post_cons a a2 w w2 items (Ok (ScToolUseComplete index tc))
           [ScToolUseComplete index tc] att r w'); [| |reflexivity|exact IH].
  - eapply (progress_trans a w a1 w1 a2 w2 [] [_]);
      [exact (progress_trans _ _ _ _ _ _ [] [] (progress_tick _ _) Hp)|].
    exact (progress_trans _ _ _ _ _ _ [_] [] (progress_call _ _ index _) Hp2).
  - rewrite Hf2. unfold acc_add_call. by destruct (bool_decide _).
Qed.

(** A notice of the connection adds an event and nothing to the response. *)
Lemma notice_step mid att a a1 e items ev w w1 :
  (forall a w, consume_ok mid att a items w) ->
  progress a w a1 w1 [] -> sa_finish a1 = sa_finish a ->
  stream_chunks (Err e :: items) = stream_chunks items ->
  content_delta ev = None -> thinking_delta_event ev = None -> is_recovery ev = false ->
  let '(r, w') := (emit_event ev ≫= fun _ => consume config mid att a1 items) w1 in
  consume_post a (Err e :: items) att w r w'.
Proof.
  intros IH Hp Hf Hs Hc Ht Hr. unfold mbind, M_bind, emit_event, modify.
  specialize (IH a1 (set_events (fun l => l ++ [ev]) w1)).
  destruct (consume config mid att a1 items _) as [r w'].
  eapply (consume_post_cons a a1 w _ items _ [] att r w'); [|exact Hf| |exact IH].
  - apply (progress_trans a w a1 w1 _ _ [] [] Hp). apply progress_world; [done|].
    exists [ev]. split; [done|]. unfold silent_events, content_deltas, thinking_deltas. simpl.
    rewrite Hc, Ht. split; [by repeat constructor|done].
  - rewrite Hs. by destruct (stream_chunks items) as [[]|].
Qed.

Lemma consume_spec mid att a items w :
  consume_ok mid att a items w.
Proof.
  revert a w. induction items as [|i items IH]; intros a w; cbn [consume];
    unfold mbind at 1, M_bind at 1; destruct (next_or_cancel_run w) as ([] & -> & Hc);
    cbn [negb]; try (split; [by apply Hc|done]).
  - exists [], None. split_and!; [done|apply progress_tick|done].
  - destruct i as [c|e].
    + destruct c; try (eapply chunk_step; [|reflexivity|reflexivity|exact IH]; intros;
        first [apply progress_text|apply progress_thinking|apply progress_signature
              |apply progress_usage|apply progress_start|apply progress_input]).
      * by apply call_step.
      * pose proof (drain_spec (acc_set_finish a finish_reason) items (set_now S w)) as Hd.
        destruct (drain _ items _) as [[[a'| |]|] w']; try done.
        destruct Hd as [Hp Hf]. eexists _, _. split_and!; [reflexivity| |by rewrite Hf].
        apply (progress_trans a w a (set_now S w) a' w' [] _ (progress_tick _ _)).
        exact (progress_trans _ _ _ _ _ _ [] _ (progress_finish _ _ _) Hp).
    + destruct e; try (apply error_step; reflexivity).
      * unfold mbind at 1, M_bind at 1. destruct (flush_progress mid a (set_now S w)) as (w1 & -> & Hp).
        apply notice_step; try done.
        exact (progress_trans _ _ _ _ _ _ [] [] (progress_tick _ _) Hp).
      * apply notice_step; try done. apply progress_tick.
Qed.

(** ** The outer loop *)

(** The retries of the creation, between two attempts: events without deltas. *)
Definition silently (evs0 : list AgentEventKind) (w : World) : Prop :=
  exists evs, w_events w = evs0 ++ evs /\ silent_events evs.

Lemma silently_emit evs0 k : content_delta k = None -> thinking_delta_event k = None ->
  is_recovery k = false -> keeps (silently evs0) (emit_event k).
Proof.
  intros Hc Ht Hr. apply keeps_emit. intros w (evs & He & Hn & H1 & H2). exists (evs ++ [k]).
  cbn. rewrite He, app_assoc. split; [done|]. split; [by apply Forall_app; split; [|constructor]|].
  rewrite content_deltas_app, thinking_deltas_app, H1, H2.
  unfold content_deltas, thinking_deltas. cbn. by rewrite Hc, Ht.
Qed.

Lemma retry_silently {A} fuel (call : nat -> X (result LLMError A)) n evs0 :
  (forall k, keeps (silently evs0) (call k)) -> keeps (silently evs0) (retry_loop config fuel call n).
Proof.
  assert (Ha : forall B (f : nat -> B), keeps (silently evs0) (ask f))
    by (intros; apply keeps_ask; intros w H; exact H).
  assert (Hs : forall B (f : nat -> B), keeps (silently evs0) (select_cancel f))
    by (intros; apply keeps_select; intros w H; exact H).
  intros Hcall. revert n. induction fuel as [|fuel IH]; intros n; simpl; [apply keeps_fail|].
  unfold is_cancelled, unix_time, wait_with_cancellation.
  repeat first [apply IH | apply Hcall | apply Ha | apply Hs | by apply silently_emit | keeps_step].
Qed.

(** A creation that errs only in its result and leaves the history alone. *)
Definition benign_create (create : nat -> nat -> X (result LLMError Stream)) : Prop :=
  forall k, total_call (create k) /\
    (forall h j, keeps (on_history (fun l => l = h)) (create k j)) /\
    (forall evs0 j, keeps (silently evs0) (create k j)).

Lemma retry_history {A} fuel (call : nat -> X (result LLMError A)) n w :
  (forall h j, keeps (on_history (fun l => l = h)) (call j)) ->
  w_history (retry_loop config fuel call n w).2 = w_history w.
Proof.
  intros Hk. pose proof (keeps_retry_loop config (fun l => l = w_history w) fuel call n
    (Hk (w_history w)) w eq_refl) as H.
  unfold wp in H. by destruct (retry_loop config fuel call n w).
Qed.

(** The loop's result is what some created stream says, whole: the deltas of
    abandoned attempts leave no trace in it. *)
Lemma stream_loop_spec fuel mid create n w :
  benign_create create ->
  match stream_loop config fuel mid create n w with
  | (Ok (Some a), w') =>
      exists items cs fr w1, stream_chunks items = Some (cs, fr) /\
        progress acc_empty w1 a w' cs /\ sa_finish a = fr /\ w_history w1 = w_history w /\
        (exists given_up evs, w_events w1 = w_events w ++ given_up ++ evs /\
           up_to_recovery given_up /\ silent_events evs) /\
        exists k j w2 w3, create k j w2 = (Ok (Ok items), w3)
  | (Ok None, w') => env_cancel_at <> None /\ w_history w' = w_history w
  | (Err _, w') => w_history w' = w_history w
  end.
Proof.
  intros Hb. revert n w. induction fuel as [|fuel IH]; intros n w; cbn [stream_loop]; [done|].
  unfold mbind, M_bind, create_stream_with_retry.
  pose proof (retry_history (retry_fuel config) (create (S n)) 0 w (proj1 (proj2 (Hb (S n))))) as Hh.
  pose proof (retry_silently (retry_fuel config) (create (S n)) 0 (w_events w)
    (proj2 (proj2 (Hb (S n))) (w_events w)) w) as He. unfold wp in He.
  destruct (retry_loop _ _ _ _ w) as [[items|e] w1] eqn:Er; [|exact Hh]. simpl in Hh.
  assert (silently (w_events w) w) as He0 by (exists []; rewrite app_nil_r; split; [done|apply silent_nil]).
  destruct (He He0) as (quiet & He1 & Hq). clear He He0.
  apply retry_loop_answer in Er.
  pose proof (consume_spec mid (S n) acc_empty items w1) as Hc.
  destruct (consume config mid (S n) acc_empty items w1) as [[[a| |]|e] w2]; simpl in Hc.
  - destruct Hc as (cs & fr & Hcs & Hp & Hf). exists items, cs, fr, w1.
    split_and!; [done|done| |done|by exists [], quiet|by exists (S n)]. rewrite Hf. by destruct fr.
  - destruct Hc as (_ & _ & Hw & gone & Hev & Hne & Hgu). specialize (IH (S n) w2).
    destruct (stream_loop config fuel mid create (S n) w2) as [[[a|]|e] w3].
    + destruct IH as (it & cs & fr & w1' & ? & ? & ? & ? & (gu & evs & Hgu1 & Hgu2 & Hgu3) & ?).
      exists it, cs, fr, w1'. split_and!; try done; [congruence|].
      exists ((quiet ++ gone) ++ gu), evs. rewrite Hgu1, Hev, He1, !app_assoc. split_and!; try done.
      destruct gu as [|k gu]; [rewrite app_nil_r; by apply up_to_recovery_app|].
      by apply up_to_recovery_app.
    + destruct IH as [? ?]. split; [done|congruence].
    + congruence.
  - destruct Hc as [? ?]. split; [done|congruence].
  - destruct Hc as (_ & _ & ?). congruence.
Qed.

(** The outer loop makes at most [max_stream_retries + 1] attempts. *)
Lemma stream_loop_fuel fuel mid create n w :
  benign_create create ->
  (S (rl_max_stream_retries (rate_limit config)) <= n + fuel)%nat ->
  (n <= rl_max_stream_retries (rate_limit config))%nat -> (0 < fuel)%nat ->
  (stream_loop config fuel mid create n w).1 <> Err OutOfFuel.
Proof.
  intros Hb. revert n w. induction fuel as [|fuel IH]; intros n w Hf Hn Hpos; [lia|].
  cbn [stream_loop]. unfold mbind, M_bind, create_stream_with_retry.
  pose proof (retry_loop_fuel config (create (S n)) (retry_fuel config) 0 w (proj1 (Hb (S n)))
    ltac:(unfold retry_fuel; lia) ltac:(unfold retry_fuel; lia)) as Hr.
  destruct (retry_loop _ _ _ _ w) as [[items|e] w1]; [|intros [=->]; by apply Hr].
  pose proof (consume_spec mid (S n) acc_empty items w1) as Hc.
  destruct (consume config mid (S n) acc_empty items w1) as [[[a| |]|e] w2]; simpl in Hc; try done.
  - destruct Hc as (_ & Ha & _ & _).
    destruct (decide (fuel = 0%nat)) as [->|]; [|apply IH; lia]. lia.
  - destruct Hc as [-> _]. done.
Qed.

Lemma benign_stream_create messages tools :
  benign_create (fun _ _ => ask (fun t => env_chat_stream_with_tools t messages tools)).
Proof.
  intros k. split; [intros j w; by eexists _, _|]. split; [intros h j; apply keeps_ask_history|].
  intros evs0 j. apply keeps_ask. intros w H. exact H.
Qed.
End spec.

(** ** The whole call *)


Section model_call.
Context {J : Json} {Ev : Env} (config : AgentConfig) (ctx : ExecutionContext).

(** ** The streaming path *)

(** The result a stream's chunks and finish reason stand for. *)
Definition streamed (cs : list StreamChunk) (fr : option FinishReason) : CallResult -> Prop :=
  fun r =>
  cl_content r = chunks_text cs /\
  cl_thinking r =
    (if is_empty_str (chunks_thinking cs) then None else Some (chunks_thinking cs)) /\
  cl_signature r = last (omap signature_of cs) /\
  cl_tool_calls r = first_calls ∅ (omap call_of cs) /\
  cl_usage r = fold_left merge_usage (omap usage_of cs) None /\
  cl_finish_reason r =
    Some (default (if is_nil (first_calls ∅ (omap call_of cs)) then FrStop else FrToolCalls) fr).

Lemma call_streaming_spec messages tools w :
  match call_streaming config messages tools w with
  | (Ok (Some r), w') =>
      exists t items cs fr given_up evs,
        env_chat_stream_with_tools t messages tools = Ok items /\
        stream_chunks items = Some (cs, fr) /\ streamed cs fr r /\
        w_history w' = w_history w /\ w_events w' = w_events w ++ given_up ++ evs /\
        up_to_recovery given_up /\ no_recovery evs /\
        content_deltas evs = chunks_text cs /\ thinking_deltas evs = chunks_thinking cs
  | (Ok None, w') => env_cancel_at <> None /\ w_history w' = w_history w
  | (Err e, w') => e <> OutOfFuel /\ w_history w' = w_history w
  end.
Proof.
  unfold call_streaming, fresh_uuid. unfold mbind at 1, M_bind at 1, ask at 1.
  set (create := fun _ _ => ask (fun t => env_chat_stream_with_tools t messages tools)).
  set (mid := env_uuid (w_now w)). set (w0 := set_now S w).
  pose proof (stream_loop_spec config (stream_fuel config) mid create 0 w0
    (benign_stream_create messages tools)) as Hs.
  pose proof (stream_loop_fuel config (stream_fuel config) mid create 0 w0
    (benign_stream_create messages tools)) as Hf.
  unfold mbind at 1, M_bind at 1.
  destruct (stream_loop config (stream_fuel config) mid create 0 w0) as [[[a|]|e] w1].
  - destruct Hs as (items & cs & fr & w1' & Hcs & Hp & Hfin & Hh & Hev & k & j & w2 & w3 & Hcr).
    destruct Hev as (gone & quiet & Hev & Hgone & Hq1 & Hq2 & Hq3).
    unfold create, ask in Hcr. injection Hcr as Hcr _.
    unfold mbind, M_bind. destruct (flush_progress mid a w1) as (w4 & -> & Hp2).
    pose proof (progress_trans _ _ _ _ _ _ _ _ Hp Hp2) as H. rewrite app_nil_r in H.
    unfold is_cancelled, ask. destruct (cancelled_at (w_now w4)) eqn:Ec.
    { split; [|simpl; rewrite (pg_history _ _ _ _ _ H), Hh; done].
      unfold cancelled_at in Ec. by destruct env_cancel_at. }
    pose proof (pg_events _ _ _ _ _ H) as (evs & He & Hn & Ht & Hth).
    exists (w_now w2), items, cs, fr, gone, (quiet ++ evs).
    assert (sa_text (acc_clear_buffers a) = chunks_text cs) as Etext by exact (pg_text _ _ _ _ _ H).
    assert (sa_thinking (acc_clear_buffers a) = chunks_thinking cs) as Eth
      by exact (pg_thinking _ _ _ _ _ H).
    assert (sa_tool_calls (acc_clear_buffers a) = first_calls ∅ (omap call_of cs)) as Ecalls
      by exact (pg_calls _ _ _ _ _ H).
    rewrite content_deltas_app, thinking_deltas_app, Hq2, Hq3.
    split_and!; [exact Hcr|exact Hcs| |by simpl; rewrite (pg_history _ _ _ _ _ H)| |exact Hgone| | |].
    + unfold streamed, result_of_stream. cbn [cl_content cl_thinking cl_signature cl_tool_calls
        cl_usage cl_finish_reason]. rewrite Etext, Eth, Ecalls. split_and!; try done.
      * pose proof (pg_signature _ _ _ _ _ H) as Hsig. cbn [sa_signature acc_empty] in Hsig.
        by rewrite or_else_None_r in Hsig.
      * exact (pg_usage _ _ _ _ _ H).
      * change (sa_finish (acc_clear_buffers a)) with (sa_finish a). rewrite Hfin. by destruct fr.
    + cbn [set_now w_events]. rewrite He, Hev. cbn. by rewrite !app_assoc.
    + by apply Forall_app.
    + cbn in Ht. by rewrite sapp_nil_r in Ht.
    + cbn in Hth. by rewrite sapp_nil_r in Hth.
  - destruct Hs as [? Hs]. by split.
  - split; [|exact Hs]. intros ->. apply Hf; unfold stream_fuel; try lia; done.
Qed.

(** ** The plain paths *)

Lemma raced_total f : total_call (raced_call f).
Proof. intros k w. unfold raced_call, select_cancel, mbind, M_bind. cbn. by eexists _, _. Qed.

Lemma keeps_raced P f k : keeps (on_history P) (raced_call f k).
Proof. unfold raced_call. keeps_auto. Qed.

Lemma call_retry_spec f w :
  match call_llm_with_retry config (raced_call f) w with
  | (Ok resp, w') => (exists t, f t = Ok resp) /\ w_history w' = w_history w
  | (Err e, w') => e <> OutOfFuel /\ w_history w' = w_history w
  end.
Proof.
  pose proof (retry_loop_fuel config (raced_call f) (retry_fuel config) 0 w (raced_total f)) as Hf.
  pose proof (keeps_retry_loop config (fun l => l = w_history w) (retry_fuel config) (raced_call f) 0
    (keeps_raced _ f) w eq_refl) as Hh.
  unfold wp, call_llm_with_retry in *.
  destruct (retry_loop config (retry_fuel config) (raced_call f) 0 w) as [[resp|e] w'] eqn:E.
  - split; [|exact Hh]. apply retry_loop_answer in E as (k & w0 & w1 & E).
    unfold raced_call, select_cancel, mbind, M_bind in E. cbn in E.
    destruct (_ && _); [done|]. injection E as E _. by eexists.
  - split; [|exact Hh]. intros ->. apply Hf; unfold retry_fuel; try lia; done.
Qed.

(** ** The model call *)

Lemma emit_event_run k w : emit_event k w = (Ok tt, set_events (fun l => l ++ [k]) w).
Proof. reflexivity. Qed.

Lemma build_provider_run w :
  build_provider w =
  (Ok match env_provider_error (w_now w) with Some e => Err e | None => Ok tt end, set_now S w).
Proof. reflexivity. Qed.

(** A result that is an answer of the model to these messages and tools. *)
Definition from_model (messages : list ChatMessage) (tools : list Tool) (r : CallResult) : Prop :=
  (exists t resp, r = result_of_response resp /\
     (env_chat t messages = Ok resp \/ env_chat_with_tools t messages tools = Ok resp)) \/
  (env_supports_streaming = true /\
   exists t items cs fr, env_chat_stream_with_tools t messages tools = Ok items /\
     stream_chunks items = Some (cs, fr) /\ streamed cs fr r).

Lemma call_model_spec messages tools w :
  match call_model config messages tools w with
  | (Ok (Some r), w') => from_model messages tools r /\ w_history w' = w_history w
  | (Ok None, w') => env_cancel_at <> None /\ w_history w' = w_history w
  | (Err e, w') => e <> OutOfFuel /\ w_history w' = w_history w
  end.
Proof.
  unfold call_model. destruct (is_nil tools) eqn:En.
  - unfold mbind, M_bind. pose proof (call_retry_spec (submit_request messages) w) as H.
    destruct (call_llm_with_retry config _ w) as [[resp|e] w']; [|exact H].
    destruct H as [[t Ht] Hh]. split; [|exact Hh]. left. exists t, resp. split; [done|].
    unfold submit_request in Ht. destruct (env_provider_error t); [done|by left].
  - unfold mbind at 1, M_bind at 1. rewrite build_provider_run.
    destruct (env_provider_error (w_now w)) as [e|]; [done|]. destruct env_supports_streaming eqn:Est.
    + pose proof (call_streaming_spec messages tools (set_now S w)) as H.
      destruct (call_streaming config messages tools (set_now S w)) as [[[r|]|e] w']; [|exact H..].
      destruct H as (t & items & cs & fr & pre & evs & H1 & H2 & H3 & H4 & _). split; [|exact H4].
      right. split; [done|]. by exists t, items, cs, fr.
    + unfold mbind, M_bind.
      pose proof (call_retry_spec (fun t => env_chat_with_tools t messages tools) (set_now S w)) as H.
      destruct (call_llm_with_retry config _ (set_now S w)) as [[resp|e] w']; [|exact H].
      destruct H as [[t Ht] Hh]. split; [|exact Hh]. left. exists t, resp. by split; [|right].
Qed.

Lemma call_llm_spec context tools w :
  match transition_call_llm config ctx context tools w with
  | (Ok st, w') =>
      w_history w' = w_history w /\
      ((st = Cancelled /\ env_cancel_at <> None) \/
       exists r, st = AfterLlm (response_of r) context /\
         from_model (apply_cache_breakpoints (cc_messages context)) tools r)
  | (Err e, w') => e <> OutOfFuel /\ w_history w' = w_history w
  end.
Proof.
  unfold transition_call_llm, is_cancelled, ask. unfold mbind at 1, M_bind at 1.
  destruct (cancelled_at (w_now w)) eqn:Ec.
  { split; [done|]. left. split; [done|]. unfold cancelled_at in Ec. by destruct env_cancel_at. }
  unfold mbind at 1, M_bind at 1. rewrite emit_event_run.
  match goal with |- context [set_events ?f ?x] => set (w1 := set_events f x) end.
  unfold mbind at 1, M_bind at 1. cbv zeta.
  pose proof (call_model_spec (apply_cache_breakpoints (cc_messages context)) tools w1) as H.
  destruct (call_model config _ tools w1) as [[[r|]|e] w2].
  - destruct H as [Hm Hh]. unfold mbind, M_bind.
    destruct (request_costs _ _ _) as [c1 c2]. cbn. split; [exact Hh|]. right. by exists r.
  - destruct H as [? H]. split; [exact H|by left].
  - exact H.
Qed.
End model_call.
