(* ===== verification/ToolCalls.v ===== *)
(** Tool calls (agent/execution/tool_calls.rs): the execution of one call with
    its hooks, permission, dispatch, truncation and snapshot; the side effects
    of a result; and the storing of a batch of results.  With them, the
    recording operations of the session runtime (session/runtime.rs) and the
    snapshot helper (agent/snapshots.rs). *)
From stdpp Require Import sorting.
From S2P Require Import Prelude Numbers Text Json Chat LlmErrors Domain Events Model ExecState.
From S2P Require Import Driver Pruning Hooks World Limits DelegationMw AgentConfig.

Local Open Scope Z_scope.

(** ** Paths: [PathBuf] lists, [sort] and [dedup] *)

(** The components of a normalised relative path. *)
Fixpoint components (s : string) : list string :=
  match s with
  | EmptyString => [""]
  | String c s' =>
      if Ascii.eqb c (Ascii.ascii_of_nat 47) then "" :: components s'
      else match components s' with
           | [] => [String c ""]
           | h :: t => String c h :: t
           end
  end.

(** Paths compare component by component, components by their bytes. *)
Fixpoint components_leb (a b : list string) : bool :=
  match a, b with
  | [], _ => true
  | _ :: _, [] => false
  | x :: a', y :: b' => if String.eqb x y then components_leb a' b' else String.leb x y
  end.
Definition path_le (a b : string) : Prop :=
  components_leb (components a) (components b) = true.
#[export] Instance path_le_dec a b : Decision (path_le a b).
Proof. unfold path_le. apply _. Defined.

Definition sort_paths (l : list string) : list string := merge_sort path_le l.

(** [dedup]: of equal neighbours the first stays. *)
Fixpoint dedup (l : list string) : list string :=
  match l with
  | [] => []
  | x :: l' =>
      match l' with
      | [] => [x]
      | y :: _ => if String.eqb x y then dedup l' else x :: dedup l'
      end
  end.

Definition extend_paths (a b : list string) : list string := dedup (sort_paths (a ++ b)).

(** The extension of the three lists of a summary by another's, each sorted
    and deduplicated. *)
Definition merge_diffs (a b : DiffPaths) : DiffPaths :=
  {| dp_added := extend_paths (dp_added a) (dp_added b);
     dp_modified := extend_paths (dp_modified a) (dp_modified b);
     dp_removed := extend_paths (dp_removed a) (dp_removed b) |}.

Section tools.
Context {J : Json} {Ev : Env} (config : AgentConfig) (ctx : ExecutionContext).

(** ** Recording (session/runtime.rs) *)

(** [record_progress]; the session's internal id is cached. *)
Definition record_progress (kind : ProgressKind) (content : string) (metadata : option Value)
    : X (result string ProgressEntry) :=
  task ← gets w_active_task;
  created_at ← unix_time;
  let entry :=
    {| pe_id := 0; pe_session_id := env_session_internal_id; pe_task_id := task_id <$> task;
       pe_kind := kind; pe_content := content; pe_metadata := value_to_string <$> metadata;
       pe_created_at := created_at |} in
  store_call (fun w => (entry, set_progress (fun l => l ++ [entry]) w)).

(** [record_artifact] *)
Definition record_artifact (kind : string) (uri path summary : option string)
    : X (result string Artifact) :=
  task ← gets w_active_task;
  created_at ← unix_time;
  let artifact :=
    {| art_id := 0; art_session_id := env_session_internal_id; art_task_id := task_id <$> task;
       art_kind := kind; art_uri := uri; art_path := path; art_summary := summary;
       art_created_at := created_at |} in
  store_call (fun w => (artifact, set_artifacts (fun l => l ++ [artifact]) w)).

(** The retries of a delegation: one more than the most of the failed
    delegations of the same objective to the same agent. *)
Definition max_retry (l : list Z) : option Z :=
  fold_left (fun m x => Some match m with None => x | Some y => Z.max y x end) l None.
Definition delegation_retries (target : string) (hash : RapidHash) (l : list Delegation) : Z :=
  match max_retry (map del_retry_count
          (List.filter (fun d => bool_decide (del_objective_hash d = hash)
                            && bool_decide (del_target_agent_id d = target)
                            && bool_decide (del_status d = DsFailed)) l)) with
  | Some m => u32_add m 1
  | None => 0
  end.

(** [create_delegation] (session/repo_delegation.rs): an empty public id is
    replaced, the row's id is the database's. *)
Definition with_row (id : Z) (public_id : string) (d : Delegation) : Delegation :=
  {| del_id := id; del_public_id := public_id; del_session_id := del_session_id d;
     del_task_id := del_task_id d; del_target_agent_id := del_target_agent_id d;
     del_objective := del_objective d; del_objective_hash := del_objective_hash d;
     del_context := del_context d; del_constraints := del_constraints d;
     del_expected_output := del_expected_output d;
     del_verification_spec := del_verification_spec d;
     del_planning_summary := del_planning_summary d; del_status := del_status d;
     del_retry_count := del_retry_count d; del_created_at := del_created_at d;
     del_completed_at := del_completed_at d |}.

Definition create_delegation (d : Delegation) : X (result string Delegation) :=
  public_id ← (if is_empty_str (trim (del_public_id d)) then fresh_uuid
               else mret (del_public_id d));
  store_call (fun w =>
    let d := with_row (env_row_id (w_now w)) public_id d in
    (d, set_delegations (fun l => l ++ [d]) w)).

(** [record_delegation] *)
Definition record_delegation (target_agent_id objective : string)
    (context constraints expected_output : option string) : X (result string Delegation) :=
  let objective_hash := env_rapidhash objective in
  existing ← store_call (fun w => (w_delegations w, w));
  match existing with
  | Err e => mret (Err e)
  | Ok existing =>
      let retry_count := delegation_retries target_agent_id objective_hash existing in
      public_id ← fresh_uuid;
      created_at ← unix_time;
      task ← gets w_active_task;
      create_delegation
        {| del_id := 0; del_public_id := public_id; del_session_id := env_session_internal_id;
           del_task_id := task_id <$> task; del_target_agent_id := target_agent_id;
           del_objective := objective; del_objective_hash := objective_hash;
           del_context := context; del_constraints := constraints;
           del_expected_output := expected_output; del_verification_spec := None;
           del_planning_summary := None; del_status := DsRequested;
           del_retry_count := retry_count; del_created_at := created_at;
           del_completed_at := None |}
  end.

(** [update_task_status]: the store first, then the copy in the context. *)
Definition update_task_status (status : TaskStatus) : X (result string unit) :=
  task ← gets w_active_task;
  match task with
  | None => mret (Ok tt)
  | Some task =>
      r ← store_call (fun w =>
        (tt, set_tasks (update_stored_status (task_public_id task) status
                          (env_unix_time (w_now w))) w));
      match r with
      | Err e => mret (Err e)
      | Ok _ =>
          now ← unix_time;
          modify (set_active_task (Some (set_status status now task))) ≫= fun _ =>
          mret (Ok tt)
      end
  end.

(** ** Permission *)

Definition permission_request (tool_call_id tool_name : string) (args : Value)
    : RequestPermissionRequest :=
  let locations := extract_locations env_is_object args in
  {| rpr_session_id := ex_session_id ctx; rpr_tool_call_id := tool_call_id;
     rpr_title := "Run " +:+ tool_name; rpr_kind := tool_kind_for_tool tool_name;
     rpr_locations := if is_nil locations then None else Some locations;
     rpr_raw_input := args;
     rpr_options := [("allow_once", "Allow once"); ("allow_always", "Always allow");
                     ("reject_once", "Reject once"); ("reject_always", "Always reject")] |}.

(** [ensure_tool_permission]; the error is the protocol error's text. *)
Definition ensure_tool_permission (tool_call_id tool_name : string) (args : Value)
    : X (result string bool) :=
  if negb (requires_permission_for_tool config tool_name) then mret (Ok true)
  else
    task ← gets w_active_task;
    if match task with Some t => negb (bool_decide (task_status t = TsActive)) | None => false end
    then mret (Ok false)
    else
      cached ← gets (fun w => w_permission_cache w !! tool_name);
      match cached with
      | Some granted => mret (Ok granted)
      | None =>
          hook ← awaiting (ask (fun t => env_permission_request t
                   {| prr_context := hook_context ctx; prr_tool_name := tool_name;
                      prr_tool_input := args |}));
          match hook with
          | Err e => mret (Err e)
          | Ok hook_decision =>
              emit_notices (prs_notices hook_decision) ≫= fun _ =>
              match prs_decision hook_decision with
              | Some PrdAllow => mret (Ok true)
              | Some (PrdDeny _) => mret (Ok false)
              | None =>
                  permission_id ← fresh_uuid;
                  emit_event (PermissionRequested permission_id (task_public_id <$> task) tool_name
                    ("Tool " +:+ tool_name +:+ " requires explicit permission")) ≫= fun _ =>
                  if negb (ex_has_bridge ctx) then
                    emit_event (PermissionGranted permission_id true) ≫= fun _ => mret (Ok true)
                  else
                    response ← awaiting (ask (fun t => env_request_permission t
                      (permission_request tool_call_id tool_name args)));
                    match response with
                    | Err e => mret (Err e)
                    | Ok outcome =>
                        (match outcome with
                         | RpSelected option_id =>
                             if String.eqb option_id "allow_always"
                             then modify (set_permission_cache <[tool_name := true]>)
                             else if String.eqb option_id "reject_always"
                             then modify (set_permission_cache <[tool_name := false]>)
                             else mret tt
                         | RpOther => mret tt
                         end) ≫= fun _ =>
                        let granted :=
                          match outcome with
                          | RpSelected option_id =>
                              String.eqb option_id "allow_once"
                              || String.eqb option_id "allow_always"
                          | RpOther => false
                          end in
                        emit_event (PermissionGranted permission_id granted) ≫= fun _ =>
                        mret (Ok granted)
                    end
              end
          end
      end.

(** ** The execution of one call *)

(** [filter_map(as_text).collect().join("\n")] *)
Definition text_of_blocks (l : list Content) : string := join nl (omap as_text l).

Definition error_text (s : string) : list Content := [CText ("Error: " +:+ s)].

(** [SnapshotState] (agent/snapshots.rs); a file tree is the time of its scan. *)
Inductive SnapshotState :=
| SsNone
| SsMetadata (root : string)
| SsDiff (pre_tree : nat) (root : string).

Definition prepare_tool_snapshot (tool_name : string) : X SnapshotState :=
  if should_snapshot_tool config tool_name then
    match prepare_snapshot config (ex_cwd ctx) with
    | Some (root, policy) =>
        emit_event (SnapshotStart (snapshot_policy_display policy)) ≫= fun _ =>
        match policy with
        | SpDiff => ask (fun pre_tree => SsDiff pre_tree root)
        | SpMetadata => mret (SsMetadata root)
        | SpNone => mret SsNone
        end
    | None => mret SsNone
    end
  else mret SsNone.

(** [snapshot_metadata] *)
Definition snapshot_metadata (meta : Z * Z * Z) : MessagePart * option string :=
  let '(files, bytes, latest_mtime) := meta in
  let meta_string := "files=" +:+ dec_of_Z files +:+ ",bytes=" +:+ dec_of_Z bytes
                     +:+ ",mtime=" +:+ dec_of_Z latest_mtime in
  (MpSnapshot (env_rapidhash meta_string) diff_paths_new,
   Some ("Files: " +:+ dec_of_Z files +:+ ", Bytes: " +:+ dec_of_Z bytes
         +:+ ", Latest mtime: " +:+ dec_of_Z latest_mtime)).

Definition finish_tool_snapshot (snapshot : SnapshotState) : X (option MessagePart) :=
  match snapshot with
  | SsDiff pre_tree root =>
      post ← ask (fun t => env_snapshot_diff pre_tree t root);
      let '(root_hash, changed_paths) := post in
      emit_event (SnapshotEnd (Some (diff_summary_of changed_paths))) ≫= fun _ =>
      mret (Some (MpSnapshot root_hash changed_paths))
  | SsMetadata root =>
      meta ← ask (fun t => env_metadata t root);
      let '(part, summary) := snapshot_metadata meta in
      emit_event (SnapshotEnd summary) ≫= fun _ =>
      mret (Some part)
  | SsNone => mret None
  end.

(** The blocks of a tool's answer and whether they are an error. *)
Definition tool_outcome (r : result string (list Content)) : list Content * bool :=
  match r with
  | Ok res => (res, false)
  | Err e => (error_text e, true)
  end.

(** The dispatch: blocked, built in, of an MCP server, or of the provider;
    only the last asks for permission. *)
Definition dispatch_tool (call : MwToolCall) (args : Value) : X (list Content * bool) :=
  let name := tf_name (mtc_function call) in
  snap ← ask env_mcp;
  let server_name := mcp_tools snap !! name in
  if negb (is_mcp_tool_allowed_with (ex_tool_config ctx) name server_name)
  then mret (error_text ("tool '" +:+ name +:+ "' is not allowed"), true)
  else
    match registry_find (ac_tool_registry config) name, server_name with
    | Some _, _ =>
        r ← awaiting (ask (fun t => env_builtin_call t name args)); mret (tool_outcome r)
    | None, Some _ =>
        r ← awaiting (ask (fun t => env_mcp_call t name args)); mret (tool_outcome r)
    | None, None =>
        granted ← ensure_tool_permission (mtc_id call) name args;
        match granted with
        | Err e => throw ("Permission check failed: " +:+ e)
        | Ok false => mret (error_text "permission denied", true)
        | Ok true =>
            r ← awaiting (ask (fun t => env_provider_call t name args)); mret (tool_outcome r)
        end
    end.

(** The first truncation layer; an error result is left alone. *)
Definition truncate_result (call : MwToolCall) (raw_result_blocks : list Content)
    (is_error : bool) : X (list Content) :=
  if is_error then mret raw_result_blocks
  else
    let tc := ep_tool_output (ac_execution_policy config) in
    let raw_text := text_of_blocks raw_result_blocks in
    let truncation := truncate_output raw_text (to_max_lines tc) (to_max_bytes tc) Head in
    if negb (tr_was_truncated truncation) then mret raw_result_blocks
    else
      overflow ← ask (fun t => save_overflow_output env_temp_dir (env_unix_time t)
                        (env_create_dir t) (env_write t) raw_text (to_overflow_storage tc)
                        (ex_session_id ctx) (mtc_id call) None);
      let tool_hint :=
        registry_find (ac_tool_registry config) (tf_name (mtc_function call))
          ≫= bt_truncation_hint in
      let suffix :=
        format_truncation_message_with_overflow truncation Head (Some overflow) tool_hint in
      mret (CText (tr_content truncation +:+ suffix)
            :: List.filter (fun b => negb (bool_decide (is_Some (as_text b)))) raw_result_blocks).

(** From the snapshot of the state before to the result: everything after the
    pre-tool hook. *)
Definition run_tool_call (call : MwToolCall) (args : Value) : X ToolResult :=
  let name := tf_name (mtc_function call) in
  let arguments_json := value_to_string args in
  emit_event (ToolCallStart (mtc_id call) name arguments_json) ≫= fun _ =>
  snapshot ← prepare_tool_snapshot name;
  progress ← awaiting (record_progress PkToolCall ("Calling tool: " +:+ name) (Some args));
  (match progress with
   | Ok progress_entry => emit_event (ProgressRecorded progress_entry)
   | Err _ => mret tt
   end) ≫= fun _ =>
  raw ← dispatch_tool call args;
  let '(raw_result_blocks, is_error) := raw in
  result_blocks ← truncate_result call raw_result_blocks is_error;
  post ← awaiting (ask (fun t => env_post_tool_use t
    {| por_context := hook_context ctx; por_tool_name := name; por_tool_input := args;
       por_tool_response := value_string (text_of_blocks result_blocks);
       por_tool_use_id := mtc_id call |}));
  post_hook ← or_throw "" post;
  emit_notices (pou_notices post_hook) ≫= fun _ =>
  let '(result_blocks, is_error) :=
    if pou_should_block post_hook
    then (error_text (default "tool result blocked by hook" (pou_block_reason post_hook)), true)
    else (result_blocks, is_error) in
  emit_event (ToolCallEnd (mtc_id call) name is_error (text_of_blocks result_blocks)) ≫= fun _ =>
  snapshot_part ← finish_tool_snapshot snapshot;
  let tool_result :=
    tool_result_new (mtc_id call) result_blocks is_error (Some name) (Some arguments_json) in
  mret match snapshot_part with
       | Some part => with_snapshot tool_result part
       | None => tool_result
       end.

(** [execute_tool_call] *)
Definition execute_tool_call (call : MwToolCall) : X ToolResult :=
  let name := tf_name (mtc_function call) in
  let args := parse_arguments (tf_arguments (mtc_function call)) in
  pre ← awaiting (ask (fun t => env_pre_tool_use t
    {| ptr_context := hook_context ctx; ptr_tool_name := name; ptr_tool_input := args;
       ptr_tool_use_id := mtc_id call |}));
  hook_result ← or_throw "" pre;
  emit_notices (ptu_notices hook_result) ≫= fun _ =>
  let args := default args (ptu_updated_input hook_result) in
  if ptu_should_block hook_result then
    mret (tool_result_new (mtc_id call)
            (error_text (default "tool blocked by hook" (ptu_block_reason hook_result))) true
            (Some name) (Some (value_to_string args)))
  else run_tool_call call args.

(** ** Side effects of a result *)

(** A string argument of the call, with unparsable arguments as [null]. *)
Definition result_argument (r : ToolResult) (key : string) : option string :=
  match from_str (default "{}" (tr_tool_arguments r)) with
  | Ok args => value_get_str args key
  | Err _ => None
  end.

Definition replace_content (r : ToolResult) (content : list Content) (is_error : bool)
    : ToolResult :=
  {| tr_call_id := tr_call_id r; tr_result_content := content; tr_is_error := is_error;
     tr_tool_name := tr_tool_name r; tr_tool_arguments := tr_tool_arguments r;
     tr_snapshot_part := tr_snapshot_part r |}.
Definition replace_arguments (r : ToolResult) (arguments : string) : ToolResult :=
  {| tr_call_id := tr_call_id r; tr_result_content := tr_result_content r;
     tr_is_error := tr_is_error r; tr_tool_name := tr_tool_name r;
     tr_tool_arguments := Some arguments; tr_snapshot_part := tr_snapshot_part r |}.

(** The delegation a [delegate] call asks for, as the hook may change it. *)
Record DelegationArgs := {
  da_target_agent_id : string;
  da_objective : string;
  da_context : option string;
  da_constraints : option string;
  da_expected_output : option string;
}.

Definition delegation_args (r : ToolResult) : DelegationArgs :=
  {| da_target_agent_id := default "" (result_argument r "target_agent_id");
     da_objective := default "" (result_argument r "objective");
     da_context := result_argument r "context";
     da_constraints := result_argument r "constraints";
     da_expected_output := result_argument r "expected_output" |}.

(** The hook's additional contexts, after the context there is. *)
Definition extend_context (context : option string) (extra : list string) : option string :=
  if is_nil extra then context
  else
    let extra_context := join (nl +:+ nl) extra in
    Some match context with
         | Some existing =>
             if is_empty_str existing then extra_context
             else existing +:+ nl +:+ nl +:+ extra_context
         | None => extra_context
         end.

Definition apply_delegation_hook (a : DelegationArgs) (h : PreDelegationResult) : DelegationArgs :=
  let u := default updated_delegation_default (pdr_updated_delegation h) in
  {| da_target_agent_id := default (da_target_agent_id a) (ud_target_agent_id u);
     da_objective := default (da_objective a) (ud_objective u);
     da_context := extend_context (or_else (ud_context u) (da_context a))
                     (pdr_additional_contexts h);
     da_constraints := or_else (ud_constraints u) (da_constraints a);
     da_expected_output := or_else (ud_expected_output u) (da_expected_output a) |}.

(** [json!({..})] of the arguments. *)
Definition delegation_args_json (a : DelegationArgs) : Value :=
  let opt o := match o with Some s => value_string s | None => value_null end in
  value_object
    [("target_agent_id", value_string (da_target_agent_id a));
     ("objective", value_string (da_objective a));
     ("context", opt (da_context a));
     ("constraints", opt (da_constraints a));
     ("expected_output", opt (da_expected_output a))].

Definition record_written_file (r : ToolResult) (tool_name : string) : X unit :=
  artifact ← record_artifact "file" None (result_argument r "path")
               (Some ("Produced by " +:+ tool_name));
  match artifact with
  | Ok artifact => emit_event (ArtifactRecorded artifact)
  | Err _ => mret tt
  end.

Definition request_delegation (r : ToolResult) : X (ToolResult * option WaitCondition) :=
  let a := delegation_args r in
  hook ← ask (fun t => env_pre_delegation t
    {| pdq_context := hook_context ctx; pdq_tool_use_id := tr_call_id r;
       pdq_target_agent_id := da_target_agent_id a; pdq_objective := da_objective a;
       pdq_delegation_context := da_context a; pdq_constraints := da_constraints a;
       pdq_expected_output := da_expected_output a |});
  pre_hook ← or_throw "" hook;
  emit_notices (pdr_notices pre_hook) ≫= fun _ =>
  let a := apply_delegation_hook a pre_hook in
  if pdr_should_block pre_hook then
    mret (replace_content r
            [CText ("Delegation blocked by hook: "
                    +:+ default "delegation blocked by hook" (pdr_block_reason pre_hook))] false,
          None)
  else
    let r := replace_arguments r (value_to_string (delegation_args_json a)) in
    delegation ← record_delegation (da_target_agent_id a) (da_objective a) (da_context a)
                   (da_constraints a) (da_expected_output a);
    match delegation with
    | Ok delegation =>
        emit_event (DelegationRequested delegation (Some (tr_call_id r))) ≫= fun _ =>
        mret (r, Some (wait_delegation (del_public_id delegation)))
    | Err _ => mret (r, None)
    end.

(** [record_tool_side_effects]: the result, which a hook may rewrite, and what
    is to be waited for. *)
Definition record_tool_side_effects (r : ToolResult) : X (ToolResult * option WaitCondition) :=
  if tr_is_error r then mret (r, None)
  else
    match tr_tool_name r with
    | None => mret (r, None)
    | Some tool_name =>
        (if String.eqb tool_name "write_file" || String.eqb tool_name "apply_patch"
         then record_written_file r tool_name else mret tt) ≫= fun _ =>
        if String.eqb tool_name "delegate" then request_delegation r else mret (r, None)
    end.

(** ** Storing a batch of results *)

(** The loop over the results: adjusted results and wait conditions, in order. *)
Fixpoint adjust_results (results : list ToolResult) : X (list ToolResult * list WaitCondition) :=
  match results with
  | [] => mret ([], [])
  | result :: rest =>
      adjusted ← record_tool_side_effects result;
      let '(result, wait_condition) := adjusted in
      more ← adjust_results rest;
      let '(results, waits) := more in
      mret (result :: results, option_list wait_condition ++ waits)
  end.

Definition result_part (r : ToolResult) : MessagePart :=
  MpToolResult (tr_call_id r) (tr_result_content r) (tr_is_error r) (tr_tool_name r)
    (tr_tool_arguments r) None.

(** All the results, then the snapshots. *)
Definition result_parts (results : list ToolResult) : list MessagePart :=
  map result_part results ++ omap tr_snapshot_part results.

Definition result_message (id : string) (now : Z) (results : list ToolResult) : AgentMessage :=
  {| am_id := id; am_session_id := ex_session_id ctx; am_role := User;
     am_parts := result_parts results; am_created_at := now;
     am_parent_message_id := None; am_source_provider := None; am_source_model := None |}.

(** A context with other messages, and with other statistics. *)
Definition rebuild_context (c : ConversationContext) (messages : list ChatMessage)
    (stats : AgentStats) : ConversationContext :=
  with_session_mode
    (context_new (cc_session_id c) messages stats (cc_provider c) (cc_model c))
    (cc_session_mode c).

(** The changed paths of the results, sorted and without duplicates. *)
Definition combined_paths (results : list ToolResult) : DiffPaths :=
  let all := omap (fun r => tr_snapshot_part r ≫= part_changed_paths) results in
  merge_diffs diff_paths_new
    {| dp_added := concat (map dp_added all); dp_modified := concat (map dp_modified all);
       dp_removed := concat (map dp_removed all) |}.

Definition aggregate_changes (results : list ToolResult) : X unit :=
  let combined := combined_paths results in
  if diff_is_empty combined then mret tt
  else modify (set_turn_diffs (fun diffs => merge_diffs diffs combined)).

(** [store_all_tool_results] *)
Definition store_all_tool_results (results : list ToolResult) (context : ConversationContext)
    : X ExecutionState :=
  adjusted ← adjust_results results;
  let '(adjusted_results, wait_conditions) := adjusted in
  id ← fresh_uuid;
  now ← unix_time;
  let result_msg := result_message id now adjusted_results in
  stored ← add_message result_msg;
  or_throw "Failed to store tool results: " stored ≫= fun _ =>
  let new_context :=
    rebuild_context context (cc_messages context ++ [to_chat_message result_msg])
      (cc_stats context) in
  aggregate_changes results ≫= fun _ =>
  mret match wait_merge wait_conditions with
       | Some wait_condition => WaitingForEvent new_context wait_condition
       | None => BeforeLlmCall new_context
       end.
End tools.
