(* ===== verification/Transitions.v ===== *)
(** The transitions of the state machine around a model call
    (agent/execution/transitions.rs): collecting the tools before it, storing
    the response after it, and running the tool calls it asks for, with the
    pre-turn snapshot of agent/session_actor.rs that the storing waits for. *)
From S2P Require Import Prelude Numbers Text Json Chat LlmErrors Domain Events Model ExecState.
From S2P Require Import Driver Pruning Hooks World Limits DelegationMw AgentConfig Retry.
From S2P Require Import CallLlm ToolCalls.

Local Open Scope Z_scope.

Section transitions.
Context {J : Json} {Ev : Env} (config : AgentConfig) (ctx : ExecutionContext).

(** [transition_before_llm_call] *)
Definition transition_before_llm_call (context : ConversationContext) : X ExecutionState :=
  c ← is_cancelled;
  if (c : bool) then mret Cancelled
  else
    p ← build_provider;
    or_throw_llm "Failed to build provider: " p ≫= fun _ =>
    mcp ← ask env_mcp;
    let tools := collect_tools config env_provider_tools (Some mcp) (Some (ex_tool_config ctx)) in
    match env_tools_json tools with
    | Err _ => throw "Failed to serialize tools for hash computation"
    | Ok tools_json =>
        let new_hash := env_rapidhash tools_json in
        current_hash ← gets w_tools_hash;
        let changed :=
          match current_hash with Some h => negb (h =? new_hash) | None => true end in
        (if changed then
           modify (set_tools_hash (Some new_hash)) ≫= fun _ =>
           emit_event (ToolsAvailable tools new_hash)
         else mret tt) ≫= fun _ =>
        mret (CallLlm context tools)
    end.

(** [ensure_pre_turn_snapshot_ready]: the pending task is taken at most once. *)
Definition ensure_pre_turn_snapshot_ready : X (result string unit) :=
  pending_task ← updating (fun w =>
    (w_pre_turn_task w, set_snapshot_state None (w_turn_snapshot w) w));
  match pending_task with
  | Some (Some (turn_id, Ok snapshot_id)) =>
      modify (set_snapshot_state None (Some (turn_id, snapshot_id))) ≫= fun _ =>
      id ← fresh_uuid;
      now ← unix_time;
      r ← add_message
        {| am_id := id; am_session_id := ex_session_id ctx; am_role := Assistant;
           am_parts := [MpTurnSnapshotStart turn_id snapshot_id]; am_created_at := now;
           am_parent_message_id := None; am_source_provider := None; am_source_model := None |};
      mret match r with
           | Ok _ => Ok tt
           | Err e => Err ("Failed to store turn snapshot start: " +:+ e)
           end
  | _ => mret (Ok tt)
  end.

(** The parts of the stored response: reasoning, text, tool uses. *)
Definition tool_use_part (call : MwToolCall) : MessagePart :=
  MpToolUse {| tc_id := mtc_id call; tc_call_type := "function";
               tc_function := {| fc_name := tf_name (mtc_function call);
                                 fc_arguments := tf_arguments (mtc_function call) |} |}.

Definition assistant_parts (response : LlmResponse) : list MessagePart :=
  match lr_thinking response with
  | Some thinking =>
      if is_empty_str thinking then []
      else [MpReasoning thinking (lr_thinking_signature response) None]
  | None => []
  end
  ++ (if is_empty_str (lr_content response) then [] else [MpText (lr_content response)])
  ++ map tool_use_part (lr_tool_calls response).

Definition assistant_message (id : string) (now : Z) (response : LlmResponse)
    (context : ConversationContext) : AgentMessage :=
  {| am_id := id; am_session_id := ex_session_id ctx; am_role := Assistant;
     am_parts := assistant_parts response; am_created_at := now; am_parent_message_id := None;
     am_source_provider := Some (cc_provider context);
     am_source_model := Some (cc_model context) |}.

(** The statistics after a response, before the costs. *)
Definition count_usage (s : AgentStats) (u : Usage) : AgentStats :=
  {| st_steps := usize_add (st_steps s) 1; st_turns := st_turns s;
     st_total_input_tokens := u64_add (st_total_input_tokens s) (u_input u);
     st_total_output_tokens := u64_add (st_total_output_tokens s) (u_output u);
     st_context_tokens := calculate_context_tokens (Some u);
     st_total_cost_usd := st_total_cost_usd s; st_input_cost_usd := st_input_cost_usd s;
     st_output_cost_usd := st_output_cost_usd s;
     st_reasoning_tokens := u64_add (st_reasoning_tokens s) (u_reasoning u);
     st_cache_read_tokens := u64_add (st_cache_read_tokens s) (u_cache_read u);
     st_cache_write_tokens := u64_add (st_cache_write_tokens s) (u_cache_write u);
     st_cache_read_cost_usd := st_cache_read_cost_usd s;
     st_cache_write_cost_usd := st_cache_write_cost_usd s |}.

Definition update_stats (s : AgentStats) (usage : option Usage) : X AgentStats :=
  match usage with
  | None => mret s
  | Some u =>
      resolver ← ask env_has_key_resolver;
      let s := count_usage s u in
      mret match get_pricing (ex_llm_config ctx) resolver with
           | Some pricing => update_costs s pricing
           | None => s
           end
  end.

(** [FinishReason::Stop]: a finite or evolving active task is done. *)
Definition finish_active_task : X unit :=
  task ← gets w_active_task;
  match task with
  | None => mret tt
  | Some task =>
      match task_kind task with
      | Recurring => mret tt
      | Finite | Evolving =>
          r ← update_task_status TsDone;
          match r with
          | Err _ => mret tt
          | Ok _ =>
              task ← gets w_active_task;
              match task with
              | Some task => emit_event (TaskStatusChanged task)
              | None => mret tt
              end
          end
      end
  end.

(** The next state, by the finish reason. *)
Definition after_llm_state (response : LlmResponse) (new_context : ConversationContext)
    : X ExecutionState :=
  let calls_or_complete :=
    if is_nil (lr_tool_calls response) then Complete
    else ProcessingToolCalls (lr_tool_calls response) [] new_context in
  match lr_finish_reason response with
  | Some FrToolCalls => mret calls_or_complete
  | Some FrStop => finish_active_task ≫= fun _ => mret Complete
  | Some FrLength => mret (Stopped "Model hit token limit" ModelTokenLimit (Some new_context))
  | Some FrContentFilter =>
      mret (Stopped "Response blocked by content filter" StContentFilter (Some new_context))
  | Some FrError | Some FrUnknown | Some FrOther | None => mret calls_or_complete
  end.

Definition progress_description (response : LlmResponse) : string :=
  if has_tool_calls response
  then "Received response with " +:+ nat_dec (length (lr_tool_calls response)) +:+ " tool call(s)"
  else "Received response from LLM".

(** Storing the response. *)
Definition store_response (response : LlmResponse) (context : ConversationContext)
    : X AgentMessage :=
  msg_id ← (match lr_message_id response with Some id => mret id | None => fresh_uuid end);
  now ← unix_time;
  let assistant_msg := assistant_message msg_id now response context in
  stored ← add_message assistant_msg;
  or_throw "Failed to store assistant message: " stored ≫= fun _ =>
  emit_event (AssistantMessageStored (lr_content response) (lr_thinking response)
                (Some (am_id assistant_msg))) ≫= fun _ =>
  mret assistant_msg.

(** [transition_after_llm] *)
Definition transition_after_llm (response : LlmResponse) (context : ConversationContext)
    : X ExecutionState :=
  c ← is_cancelled;
  if (c : bool) then mret Cancelled
  else
    ensure_pre_turn_snapshot_ready ≫= fun _ =>
    progress ← record_progress PkNote (progress_description response) None;
    progress_entry ← or_throw "Failed to record progress: " progress;
    emit_event (ProgressRecorded progress_entry) ≫= fun _ =>
    assistant_msg ← store_response response context;
    updated_stats ← update_stats (cc_stats context) (lr_usage response);
    let new_context :=
      rebuild_context context (cc_messages context ++ [to_chat_message assistant_msg])
        updated_stats in
    after_llm_state response new_context.

(** ** Processing tool calls *)

(** A synthetic error result for a call. *)
Definition synthetic_result (call : MwToolCall) (message : string) : ToolResult :=
  tool_result_new (mtc_id call) [CText message] true
    (Some (tf_name (mtc_function call))) (Some (tf_arguments (mtc_function call))).

(** One future of [join_all]: the call raced with the cancellation, and an
    infrastructure error turned into a result. *)
Definition run_raced_call (call : MwToolCall) : X ToolResult := fun w =>
  match execute_tool_call config ctx call w with
  | (Ok tool_result, w') => (Ok tool_result, w')
  | (Err (Anyhow e), w') =>
      (Ok (synthetic_result call ("Error: internal tool execution failed: " +:+ e)), w')
  | (Err Dropped, w') => (Ok (synthetic_result call "Error: Cancelled by user"), w')
  | (Err OutOfFuel, w') => (Err OutOfFuel, w')
  end.

(** [join_all], the futures in the order of the calls. *)
Fixpoint run_calls (calls : list MwToolCall) : X (list ToolResult) :=
  match calls with
  | [] => mret []
  | call :: rest =>
      result ← run_raced_call call;
      results ← run_calls rest;
      mret (result :: results)
  end.

(** [transition_processing_tool_calls] *)
Definition transition_processing_tool_calls (remaining_calls : list MwToolCall)
    (results : list ToolResult) (context : ConversationContext) : X ExecutionState :=
  already_cancelled ← is_cancelled;
  if is_nil remaining_calls then
    next_state ← store_all_tool_results ctx results context;
    mret (if (already_cancelled : bool) then Cancelled else next_state)
  else
    tool_results ← run_calls remaining_calls;
    c ← is_cancelled;
    let was_cancelled := already_cancelled || c in
    next_state ← store_all_tool_results ctx (results ++ tool_results) context;
    mret (if (was_cancelled : bool) then Cancelled else next_state).
End transitions.
