(* ===== verification/Wait.v ===== *)
(** Waiting for delegations (agent/execution/wait.rs), with the messages and
    the error classification of delegation/core.rs it injects. *)
From S2P Require Import Prelude Numbers Text Json Chat LlmErrors Domain Events Model ExecState.
From S2P Require Import Driver Pruning Hooks World Limits AgentConfig.

Local Open Scope Z_scope.

(** ** Messages (delegation/core.rs) *)

(** [classify_delegation_error] *)
Definition classify_delegation_error (error : string) : string * string :=
  let has := contains error in
  if has "Invalid patch" || has "patch: ****" || (has "Line" && has "mismatch") then
    ("Patch Application Failure",
     join nl ["The patch could not be applied to the file.";
       "-> Use read_tool to see the current state of the target file";
       "-> Verify the lines you want to change actually exist as shown in the file";
       "-> Create a new patch with correct context lines matching the actual file"])
  else if has "Verification failed" || has "cargo check" || has "compilation" then
    ("Verification Failure",
     join nl ["The code change was applied but does not compile or pass tests.";
       "-> Read the verification error output carefully";
       "-> Understand what is wrong with the code";
       "-> Fix the compilation/test errors with another delegation"])
  else if has "workdir" || has "does not exist" then
    ("Invalid Working Directory",
     join nl ["The specified path or directory does not exist.";
       "-> Do NOT specify workdir parameter in patches";
       "-> Patches apply relative to current directory by default";
       "-> Verify file paths are correct"])
  else if has "MAX RETRIES" || has "retry" then
    ("Too Many Retries",
     join nl ["This delegation has been attempted multiple times and keeps failing.";
       "-> The current approach is not working";
       "-> Try a completely different strategy";
       "-> Break down the task into smaller, simpler steps";
       "-> Consider delegating to a different agent"])
  else
    ("Unknown Error",
     join nl ["Review the error details above carefully.";
       "-> Look for clues about what went wrong";
       "-> Consider trying a different approach";
       "-> If the error is unclear, break the task into smaller steps"]).

Definition format_delegation_completion_message (delegation_id summary : string) : string :=
  join nl ["Delegation completed."; ""; "Delegation ID: " +:+ delegation_id; ""; summary; "";
    "Please review the changes and determine if:";
    "1. The task is complete and satisfactory";
    "2. Additional fixes or improvements are needed";
    "3. Further delegation is required"].

Definition format_delegation_failure_message (delegation_id error : string) : string :=
  let '(error_type, remediation) := classify_delegation_error error in
  join nl ["Delegation failed."; ""; "Delegation ID: " +:+ delegation_id; "";
    "Error Type: " +:+ error_type; "Error Details:"; error; "";
    "Suggested Next Steps:"; remediation; "";
    "IMPORTANT: Do NOT immediately retry the same approach. "
    +:+ "Analyze the error and adjust your strategy."].

(** ** Outcomes *)

(** [WaitEventOutcome] *)
Inductive WaitEventOutcome :=
| WoCompleted (delegation_id : string) (result : option string)
| WoFailed (delegation_id error : string)
| WoCancelled (delegation_id : string).

Definition outcome_id (o : WaitEventOutcome) : string :=
  match o with WoCompleted id _ | WoFailed id _ | WoCancelled id => id end.

Definition format_wait_outcome (outcome : WaitEventOutcome) : string :=
  match outcome with
  | WoCompleted id result =>
      format_delegation_completion_message id (default "No summary provided." result)
  | WoFailed id error => format_delegation_failure_message id error
  | WoCancelled id =>
      "Delegation cancelled." +:+ nl +:+ nl +:+ "Delegation ID: " +:+ id
  end.

Definition format_wait_all_item (outcome : WaitEventOutcome) : string :=
  match outcome with
  | WoCompleted id result =>
      "- " +:+ id +:+ ": completed (" +:+ default "No summary provided." result +:+ ")"
  | WoFailed id error => "- " +:+ id +:+ ": failed (" +:+ error +:+ ")"
  | WoCancelled id => "- " +:+ id +:+ ": cancelled"
  end.

Definition format_wait_all_summary (items : list string) : string :=
  "Delegation batch completed." +:+ nl +:+ nl +:+ "Results:" +:+ nl
  +:+ sconcat (map (fun item => item +:+ nl) items)
  +:+ nl +:+ "Please review outcomes and decide next actions.".

Definition timed_out_item (timeout_secs : Z) (id : string) : string :=
  "- " +:+ id +:+ ": timed out after " +:+ dec_of_Z timeout_secs
  +:+ "s of inactivity (cancel requested)".

Section wait.
Context {J : Json} {Ev : Env} (config : AgentConfig) (ctx : ExecutionContext).

(** Neither an unwanted id nor, when no ids are given, any restriction. *)
Definition wanted (wait : WaitCondition) (id : string) : bool :=
  is_nil (wc_correlation_ids wait) || bool_decide (id ∈ wc_correlation_ids wait).

(** [match_wait_event] *)
Definition match_wait_event (wait : WaitCondition) (event : EventEnvelope)
    : option WaitEventOutcome :=
  match wc_reason wait with
  | WrDelegation =>
      match env_kind event with
      | DelegationCompleted id result =>
          if wanted wait id then Some (WoCompleted id result) else None
      | DelegationFailed id error => if wanted wait id then Some (WoFailed id error) else None
      | DelegationCancelled id => if wanted wait id then Some (WoCancelled id) else None
      | _ => None
      end
  end.

(** [inject_wait_message] *)
Definition inject_wait_message (context : ConversationContext) (content : string)
    : X ConversationContext :=
  id ← fresh_uuid;
  now ← unix_time;
  r ← add_message
    {| am_id := id; am_session_id := ex_session_id ctx; am_role := User;
       am_parts := [MpText content]; am_created_at := now; am_parent_message_id := None;
       am_source_provider := None; am_source_model := None |};
  or_throw "Failed to store wait message: " r ≫= fun _ =>
  emit_event (UserMessageStored content) ≫= fun _ =>
  mret (inject_message context content).

(** [store.update_delegation_status]: an error when there is no such row. *)
Definition set_delegation_status (status : DelegationStatus) (d : Delegation) : Delegation :=
  {| del_id := del_id d; del_public_id := del_public_id d; del_session_id := del_session_id d;
     del_task_id := del_task_id d; del_target_agent_id := del_target_agent_id d;
     del_objective := del_objective d; del_objective_hash := del_objective_hash d;
     del_context := del_context d; del_constraints := del_constraints d;
     del_expected_output := del_expected_output d;
     del_verification_spec := del_verification_spec d;
     del_planning_summary := del_planning_summary d; del_status := status;
     del_retry_count := del_retry_count d; del_created_at := del_created_at d;
     del_completed_at := del_completed_at d |}.

Definition update_delegation_status (delegation_id : string) (status : DelegationStatus)
    : X (result string unit) :=
  r ← store_call (fun w =>
    (existsb (fun d => String.eqb (del_public_id d) delegation_id) (w_delegations w),
     set_delegations (map (fun d =>
       if String.eqb (del_public_id d) delegation_id then set_delegation_status status d else d)) w));
  mret match r with
       | Ok true => Ok tt
       | _ => Err ("Delegation not found: " +:+ delegation_id)
       end.

(** [cleanup_timed_out_delegations] *)
Definition cleanup_timed_out_delegations (delegation_ids : list string) : X unit :=
  mapM_ (fun delegation_id =>
    emit_event (DelegationCancelRequested delegation_id) ≫= fun _ =>
    update_delegation_status delegation_id DsCancelled ≫= fun _ =>
    emit_event (DelegationCancelled delegation_id)) delegation_ids.

Definition closed_state (context : ConversationContext) : ExecutionState :=
  Stopped "Event stream closed while waiting" StOther (Some context).

(** The outcome a received item carries for this wait, in this session. *)
Definition received_outcome (wait : WaitCondition) (i : WaitInput) : option WaitEventOutcome :=
  match i with
  | WiEvent e =>
      if String.eqb (env_session_id e) (ex_session_id ctx) then match_wait_event wait e else None
  | WiLagged | WiTimer => None
  end.

(** The loop of the [Any] policy; it has no timer. *)
Fixpoint wait_any (wait : WaitCondition) (context : ConversationContext) (rx : list WaitInput)
    : X ExecutionState :=
  go ← select_cancel (fun _ => tt);
  match go with
  | None => mret Cancelled
  | Some _ =>
      match rx with
      | [] => mret (closed_state context)
      | i :: rest =>
          modify (set_rx rest) ≫= fun _ =>
          match received_outcome wait i with
          | Some outcome =>
              new_context ← inject_wait_message context (format_wait_outcome outcome);
              mret (BeforeLlmCall new_context)
          | None => wait_any wait context rest
          end
      end
  end.

(** The loop of the [All] policy.  The timer branch is enabled when
    [timeout_secs > 0]; the order in which a [HashSet] is iterated is that of
    [elements]. *)
Fixpoint wait_all (wait : WaitCondition) (context : ConversationContext)
    (pending : gset string) (outcomes : list string) (rx : list WaitInput) : X ExecutionState :=
  let timeout_secs := ac_delegation_wait_timeout_secs config in
  go ← select_cancel (fun _ => tt);
  match go with
  | None => mret Cancelled
  | Some _ =>
      match rx with
      | [] => mret (closed_state context)
      | i :: rest =>
          modify (set_rx rest) ≫= fun _ =>
          match i with
          | WiTimer =>
              if 0 <? timeout_secs then
                let timed_out_ids := elements pending in
                cleanup_timed_out_delegations timed_out_ids ≫= fun _ =>
                new_context ← inject_wait_message context
                  (format_wait_all_summary
                     (outcomes ++ map (timed_out_item timeout_secs) timed_out_ids));
                mret (BeforeLlmCall new_context)
              else wait_all wait context pending outcomes rest
          | _ =>
              match received_outcome wait i with
              | None => wait_all wait context pending outcomes rest
              | Some outcome =>
                  if bool_decide (outcome_id outcome ∈ pending) then
                    let pending := pending ∖ {[outcome_id outcome]} in
                    let outcomes := outcomes ++ [format_wait_all_item outcome] in
                    if bool_decide (pending = ∅) then
                      new_context ← inject_wait_message context (format_wait_all_summary outcomes);
                      mret (BeforeLlmCall new_context)
                    else wait_all wait context pending outcomes rest
                  else wait_all wait context pending outcomes rest
              end
          end
      end
  end.

(** [transition_waiting_for_event] *)
Definition transition_waiting_for_event (wait : WaitCondition) (context : ConversationContext)
    : X ExecutionState :=
  c ← is_cancelled;
  if (c : bool) then mret Cancelled
  else if negb (bool_decide (wc_reason wait = WrDelegation)) then mret (BeforeLlmCall context)
  else
    rx ← gets w_rx;
    if bool_decide (ac_delegation_wait_policy config = DwAny) then wait_any wait context rx
    else
      let pending := list_to_set (wc_correlation_ids wait) in
      if bool_decide (pending = (∅ : gset string)) then mret (BeforeLlmCall context)
      else wait_all wait context pending [] rx.
End wait.
