(* ===== verification/Maintenance.v ===== *)
(** Maintenance of the history (agent/execution/maintenance.rs): the pruning
    of tool results at the end of a turn, and the AI compaction that a context
    threshold triggers. *)
From S2P Require Import Prelude Numbers Text Json Chat LlmErrors Domain Events Model ExecState.
From S2P Require Import Driver Pruning Hooks World Limits AgentConfig Compaction Retry CallLlm.
From S2P Require Import ToolCalls.

Local Open Scope Z_scope.

Section maintenance.
Context {J : Json} {Ev : Env} (config : AgentConfig) (ctx : ExecutionContext).

(** ** Pruning *)

Definition prune_config : PruneConfig :=
  let p := ep_pruning (ac_execution_policy config) in
  {| pc_protect_tokens := pr_protect_tokens p; pc_minimum_tokens := pr_minimum_tokens p;
     pc_protected_tools := pr_protected_tools p |}.

(** The estimator the session's model selects. *)
Definition session_estimator : ContentCostEstimator :=
  content_cost_estimator_for_llm_config env_blob_size
    ((fun c => (llm_provider c, llm_model c)) <$> ex_llm_config ctx).

(** [run_pruning] *)
Definition run_pruning : X unit :=
  r ← store_get_history;
  messages ← or_throw "Failed to get agent history: " r;
  let analysis := @compute_prune_candidates _ session_estimator messages prune_config in
  if pa_should_prune analysis && negb (is_nil (pa_candidates analysis)) then
    let call_ids := extract_call_ids (pa_candidates analysis) in
    updated ← store_call (fun w =>
      (tt, set_history (map (mark_message (env_unix_time (w_now w)) call_ids)) w));
    or_throw "Failed to mark tool results compacted: " updated
  else mret tt.

(** ** AI compaction *)

(** The rough estimate for the hooks and events: bytes of text over 4. *)
Definition rough_part_tokens (p : MessagePart) : Z :=
  match p with
  | MpText content => len_z content / 4
  | MpToolResult _ content _ _ _ _ =>
      fold_left Z.add (map len_z (omap as_text content)) 0 / 4
  | _ => 0
  end.
Definition rough_tokens (messages : list AgentMessage) : Z :=
  fold_left Z.add (map (fun m => fold_left Z.add (map rough_part_tokens (am_parts m)) 0) messages) 0.

(** [m.map_err(|e| anyhow!("{prefix}{e}"))] *)
Definition prefix_err {A} (prefix : string) (m : X A) : X A :=
  map_err (fun e => match e with Anyhow s => Anyhow (prefix +:+ s) | _ => e end) m.

(** The text of the hook's contexts, after what it is added to. *)
Definition append_contexts (text : string) (contexts : list string) : string :=
  if is_nil contexts then text else text +:+ nl +:+ nl +:+ join (nl +:+ nl) contexts.

Definition with_context_tokens (s : AgentStats) (tokens : Z) : AgentStats :=
  {| st_steps := st_steps s; st_turns := st_turns s;
     st_total_input_tokens := st_total_input_tokens s;
     st_total_output_tokens := st_total_output_tokens s;
     st_context_tokens := tokens;
     st_total_cost_usd := st_total_cost_usd s; st_input_cost_usd := st_input_cost_usd s;
     st_output_cost_usd := st_output_cost_usd s;
     st_reasoning_tokens := st_reasoning_tokens s;
     st_cache_read_tokens := st_cache_read_tokens s;
     st_cache_write_tokens := st_cache_write_tokens s;
     st_cache_read_cost_usd := st_cache_read_cost_usd s;
     st_cache_write_cost_usd := st_cache_write_cost_usd s |}.

(** The summary of the messages, with the contexts of the hook after it. *)
Definition summarize (messages : list AgentMessage) (message_count : Z) : X CompactionResult :=
  p ← build_provider;
  or_throw_llm "Failed to get LLM provider: " p ≫= fun _ =>
  (match ex_llm_config ctx with
   | Some _ => mret tt
   | None => throw "No LLM config for session"
   end) ≫= fun _ =>
  result ← prefix_err "Compaction failed: "
    (compaction_process env_debug_error messages
       (co_retry (ep_compaction (ac_execution_policy config))) (ex_max_prompt_bytes ctx));
  post ← ask (fun t => env_post_compaction t
    {| pcq'_context := hook_context ctx; pcq'_trigger := "context_threshold";
       pcq'_summary := cres_summary result;
       pcq'_original_token_count := u32_from_usize (cres_original_token_count result);
       pcq'_summary_token_count := u32_from_usize (cres_summary_token_count result);
       pcq'_message_count := message_count |});
  post_hook ← or_throw "" post;
  emit_notices (pcr'_notices post_hook) ≫= fun _ =>
  mret {| cres_summary := append_contexts (cres_summary result) (pcr'_additional_contexts post_hook);
          cres_original_token_count := cres_original_token_count result;
          cres_summary_token_count := cres_summary_token_count result |}.

(** The pair of compaction messages, stored. *)
Definition store_compaction (result : CompactionResult) : X unit :=
  request_id ← fresh_uuid;
  summary_id ← fresh_uuid;
  now ← unix_time;
  let '(request_msg, summary_msg) :=
    create_compaction_messages request_id summary_id now (ex_session_id ctx)
      (cres_summary result) (cres_original_token_count result) in
  r ← add_message request_msg;
  or_throw "Failed to store compaction request: " r ≫= fun _ =>
  r ← add_message summary_msg;
  or_throw "Failed to store compaction summary: " r.

(** The context rebuilt on the effective history. *)
Definition compacted_state (current_state : ExecutionState) : X ExecutionState :=
  r ← get_effective_agent_history;
  filtered_messages ← or_throw "Failed to get new history: " r;
  let chat_messages :=
    map (fun m => to_chat_message_with_max_prompt_bytes m (ex_max_prompt_bytes ctx))
      filtered_messages in
  let new_context_tokens :=
    estimate_messages_tokens filtered_messages (ex_max_prompt_bytes ctx) in
  match state_context current_state with
  | Some c =>
      mret (BeforeLlmCall
        (rebuild_context c chat_messages (with_context_tokens (cc_stats c) new_context_tokens)))
  | None => throw "No context available for compaction"
  end.

(** [run_ai_compaction] *)
Definition run_ai_compaction (current_state : ExecutionState) : X ExecutionState :=
  r ← get_effective_agent_history;
  messages ← or_throw "Failed to get agent history: " r;
  let token_estimate := u32_from_usize (rough_tokens messages) in
  let message_count := u32_of_nat (length messages) in
  pre ← ask (fun t => env_pre_compaction t
    {| pcq_context := hook_context ctx; pcq_trigger := "context_threshold";
       pcq_token_estimate := token_estimate; pcq_message_count := message_count |});
  pre_hook ← or_throw "" pre;
  emit_notices (pcr_notices pre_hook) ≫= fun _ =>
  if pcr_should_block pre_hook then
    mret (Stopped
      (append_contexts (default "compaction blocked by hook" (pcr_block_reason pre_hook))
         (pcr_additional_contexts pre_hook))
      ContextThreshold (state_context current_state))
  else
    emit_event (CompactionStart token_estimate) ≫= fun _ =>
    result ← summarize messages message_count;
    store_compaction result ≫= fun _ =>
    emit_event (CompactionEnd (cres_summary result)
                  (u32_from_usize (len_z (cres_summary result)))) ≫= fun _ =>
    compacted_state current_state.
End maintenance.
