(* ===== verification/Machine.v ===== *)
(** The state machine of one execution cycle (agent/execution/mod.rs): the
    loop of [execute_cycle_state_machine], one iteration as [step_machine]. *)
From S2P Require Import Prelude Numbers Text Json Chat LlmErrors Domain Events Model ExecState.
From S2P Require Import Driver Pruning Hooks World Limits DelegationMw AgentConfig Compaction.
From S2P Require Import Retry CallLlm ToolCalls Transitions Wait Maintenance.

Local Open Scope Z_scope.

Definition MAX_STOP_HOOK_CONTINUATIONS_PER_TURN : nat := 1.

(** [format_stop_hook_continuation_message] *)
Definition format_stop_hook_continuation_message (reason : option string)
    (additional_contexts : list string) : string :=
  "<system-reminder>" +:+ nl +:+ "A QueryMT Stop hook requested another agent step." +:+ nl
  +:+ match reason with
      | Some reason =>
          if is_empty_str (trim reason) then ""
          else nl +:+ "Reason:" +:+ nl +:+ reason +:+ nl
      | None => ""
      end
  +:+ (if is_nil additional_contexts then ""
       else nl +:+ "Additional hook context:" +:+ nl
            +:+ sconcat (map (fun context => "- " +:+ context +:+ nl) additional_contexts))
  +:+ nl +:+ "This message was generated by the QueryMT hook runtime, not by the user." +:+ nl
  +:+ "</system-reminder>".

Inductive CycleOutcome :=
| CoCompleted
| CoCancelled
| CoStopped (reason : StopReason).

#[export] Instance CycleOutcome_eq_dec : EqDecision CycleOutcome.
Proof. solve_decision. Defined.

Section machine.
Context {J : Json} {Ev : Env} (config : AgentConfig) (ctx : ExecutionContext).

(** A middleware phase, with its error wrapped. *)
Definition run_middleware (h : handler (S:=World)) (state : ExecutionState) : X ExecutionState :=
  map_err (fun e => Anyhow ("Middleware error: " +:+ e)) (h state).

(** What an iteration of the loop ends with: the next state and the number of
    stop-hook continuations, or the outcome of the cycle. *)
Inductive Next :=
| Continue (state : ExecutionState) (stop_hook_continuations : nat)
| Return (outcome : CycleOutcome).

(** The context a stop hook's continuation goes on from. *)
Definition continuation_state (initial_context : ConversationContext) (state : ExecutionState)
    (h : StopResult) : ExecutionState :=
  let current_context := default initial_context (state_context state) in
  let message :=
    format_stop_hook_continuation_message (or_else (srs_stop_reason h) (srs_block_reason h))
      (srs_additional_contexts h) in
  BeforeLlmCall (inject_message current_context message).

(** The stop hook and the pruning, once the turn-end middleware is through. *)
Definition finish_turn (initial_context : ConversationContext) (state : ExecutionState)
    (stop_hook_continuations : nat) : X Next :=
  r ← ask (fun t => env_stop t
        {| srq_context := hook_context ctx; srq_stop_reason := "EndTurn" |});
  stop_hook ← or_throw "" r;
  emit_notices (srs_notices stop_hook) ≫= fun _ =>
  if srs_should_continue stop_hook
     && negb (MAX_STOP_HOOK_CONTINUATIONS_PER_TURN <=? stop_hook_continuations)%nat
  then mret (Continue (continuation_state initial_context state stop_hook)
               (S stop_hook_continuations))
  else
    (if pr_enabled (ep_pruning (ac_execution_policy config))
     then attempt (run_pruning config ctx) ≫= fun _ => mret tt
     else mret tt) ≫= fun _ =>
    mret (Return CoCompleted).

Definition step_complete (driver : CompositeDriver World) (initial_context : ConversationContext)
    (stop_hook_continuations : nat) : X Next :=
  turn_end_state ← run_middleware (run_turn_end driver) Complete;
  match turn_end_state with
  | Complete => finish_turn initial_context Complete stop_hook_continuations
  | other => mret (Continue other stop_hook_continuations)
  end.

(** The metrics of a state's context, zero without one. *)
Definition state_metrics (state : ExecutionState) : ExecutionMetrics :=
  match state_context state with
  | Some c => metrics_of (st_steps (cc_stats c)) (st_turns (cc_stats c))
  | None => {| em_steps := 0; em_turns := 0 |}
  end.

Definition report_stop (state : ExecutionState) (message : string) (stop_type : StopType)
    : X Next :=
  emit_event (MiddlewareStopped stop_type message (state_metrics state)) ≫= fun _ =>
  mret (Return (CoStopped (stop_reason_of stop_type))).

Definition step_stopped (state : ExecutionState) (message : string) (stop_type : StopType)
    (stop_hook_continuations : nat) : X Next :=
  if bool_decide (stop_type = ContextThreshold) && co_auto (ep_compaction (ac_execution_policy config))
  then
    r ← attempt (run_ai_compaction config ctx state);
    match r with
    | Ok new_state => mret (Continue new_state stop_hook_continuations)
    | Err _ => report_stop state message stop_type
    end
  else report_stop state message stop_type.

(** One iteration, after the look at the cancellation token. *)
Definition step_machine (driver : CompositeDriver World) (initial_context : ConversationContext)
    (state : ExecutionState) (k : nat) : X Next :=
  match state with
  | BeforeLlmCall _ =>
      state ← run_middleware (run_step_start driver) state;
      match state with
      | BeforeLlmCall context =>
          s ← transition_before_llm_call config ctx context; mret (Continue s k)
      | other => mret (Continue other k)
      end
  | CallLlm context tools =>
      s ← transition_call_llm config ctx context tools; mret (Continue s k)
  | AfterLlm _ _ =>
      state ← run_middleware (run_after_llm driver) state;
      match state with
      | AfterLlm response context =>
          s ← transition_after_llm ctx response context; mret (Continue s k)
      | other => mret (Continue other k)
      end
  | ProcessingToolCalls _ _ _ =>
      state ← run_middleware (run_processing_tool_calls driver) state;
      match state with
      | ProcessingToolCalls remaining_calls results context =>
          s ← transition_processing_tool_calls config ctx remaining_calls results context;
          mret (Continue s k)
      | other => mret (Continue other k)
      end
  | WaitingForEvent context wait =>
      s ← transition_waiting_for_event config ctx wait context; mret (Continue s k)
  | Complete => step_complete driver initial_context k
  | Stopped message stop_type _ => step_stopped state message stop_type k
  | Cancelled => mret (Return CoCancelled)
  end.

(** The loop. *)
Fixpoint run_machine (fuel : nat) (driver : CompositeDriver World)
    (initial_context : ConversationContext) (state : ExecutionState) (k : nat) : X CycleOutcome :=
  match fuel with
  | O => fail OutOfFuel
  | S fuel =>
      c ← is_cancelled;
      if (c : bool) then mret CoCancelled
      else
        n ← step_machine driver initial_context state k;
        match n with
        | Continue state k => run_machine fuel driver initial_context state k
        | Return outcome => mret outcome
        end
  end.

(** The turn count of a history: user messages that are not tool results. *)
Definition count_turns (messages : list ChatMessage) : nat :=
  length (List.filter (fun m => negb (has_tool_result m)) (List.filter is_user_message messages)).

Definition stats_with_turns (turns : nat) : AgentStats :=
  {| st_steps := 0; st_turns := Z.of_nat turns; st_total_input_tokens := 0;
     st_total_output_tokens := 0; st_context_tokens := 0; st_total_cost_usd := f64_zero;
     st_input_cost_usd := f64_zero; st_output_cost_usd := f64_zero; st_reasoning_tokens := 0;
     st_cache_read_tokens := 0; st_cache_write_tokens := 0; st_cache_read_cost_usd := f64_zero;
     st_cache_write_cost_usd := f64_zero |}.

Definition initial_context_of (session_mode : AgentMode) (c : LLMConfig)
    (messages : list ChatMessage) : ConversationContext :=
  with_session_mode
    (context_new (ex_session_id ctx) messages (stats_with_turns (count_turns messages))
       (llm_provider c) (llm_model c)) session_mode.

(** [execute_cycle_state_machine] *)
Definition execute_cycle_state_machine (fuel : nat) (session_mode : AgentMode) : X CycleOutcome :=
  let driver := create_driver config in
  messages ← session_history ctx;
  match ex_llm_config ctx with
  | None => throw "No LLM config for session"
  | Some llm_config =>
      let initial_context := initial_context_of session_mode llm_config messages in
      state ← run_middleware (run_turn_start driver) (BeforeLlmCall initial_context);
      run_machine fuel driver initial_context state 0
  end.
End machine.
