(* ===== verification/Fixtures.v ===== *)
(** Concrete environments, configurations and worlds, on which the witnesses
    of the theorems are evaluated. *)
From S2P Require Import Prelude Numbers Text Json Chat LlmErrors Domain Events Model ExecState.
From S2P Require Import Driver Pruning Hooks World Limits AgentConfig.

Local Open Scope Z_scope.

(** The fixtures' values of JSON. *)
#[local] Existing Instance toy_json.

(** What a fixture varies of an environment; the rest answers quietly: no
    hook objects, the store never fails, the clock reads the logical time. *)
Record Scenario := {
  sc_cancel_at : option nat;
  sc_race : nat -> bool;
  sc_store_error : nat -> option string;
  sc_streaming : bool;
  sc_chat : nat -> result LLMError ChatResponse;
  sc_stream : nat -> result LLMError Stream;
  sc_builtin : string -> result string (list Content);
  sc_permission : result string PermissionRequestResult;
  sc_client : result string RequestPermissionOutcome;
  sc_stop : nat -> StopResult;
  sc_session_task : option Z;
  sc_pre_compaction : PreCompactionResult;
  sc_pre_tool_use : PreToolUseRequest -> result string PreToolUseResult;
}.

Definition plain_response (text : string) : ChatResponse :=
  {| cr_text := Some text; cr_tool_calls := None; cr_finish_reason := Some FrStop;
     cr_thinking := None; cr_usage := Some usage_default |}.

Definition quiet : Scenario :=
  {| sc_cancel_at := None; sc_race := fun _ => true; sc_store_error := fun _ => None;
     sc_streaming := false; sc_chat := fun _ => Ok (plain_response "done");
     sc_stream := fun _ => Ok []; sc_builtin := fun _ => Ok [CText "ok"];
     sc_permission := Ok permission_request_default; sc_client := Ok (RpSelected "allow_once");
     sc_stop := fun _ => stop_default; sc_session_task := None;
     sc_pre_compaction := pre_compaction_default;
     sc_pre_tool_use := fun _ => Ok pre_tool_use_default |}.

Definition with_cancel (t : nat) (s : Scenario) : Scenario :=
  {| sc_cancel_at := Some t; sc_race := sc_race s; sc_store_error := sc_store_error s;
     sc_streaming := sc_streaming s; sc_chat := sc_chat s; sc_stream := sc_stream s;
     sc_builtin := sc_builtin s; sc_permission := sc_permission s; sc_client := sc_client s;
     sc_stop := sc_stop s; sc_session_task := sc_session_task s;
     sc_pre_compaction := sc_pre_compaction s; sc_pre_tool_use := sc_pre_tool_use s |}.
Definition with_chat (f : nat -> result LLMError ChatResponse) (s : Scenario) : Scenario :=
  {| sc_cancel_at := sc_cancel_at s; sc_race := sc_race s; sc_store_error := sc_store_error s;
     sc_streaming := sc_streaming s; sc_chat := f; sc_stream := sc_stream s;
     sc_builtin := sc_builtin s; sc_permission := sc_permission s; sc_client := sc_client s;
     sc_stop := sc_stop s; sc_session_task := sc_session_task s;
     sc_pre_compaction := sc_pre_compaction s; sc_pre_tool_use := sc_pre_tool_use s |}.
Definition with_stream (f : nat -> result LLMError Stream) (s : Scenario) : Scenario :=
  {| sc_cancel_at := sc_cancel_at s; sc_race := sc_race s; sc_store_error := sc_store_error s;
     sc_streaming := true; sc_chat := sc_chat s; sc_stream := f;
     sc_builtin := sc_builtin s; sc_permission := sc_permission s; sc_client := sc_client s;
     sc_stop := sc_stop s; sc_session_task := sc_session_task s;
     sc_pre_compaction := sc_pre_compaction s; sc_pre_tool_use := sc_pre_tool_use s |}.
Definition with_client (o : RequestPermissionOutcome) (s : Scenario) : Scenario :=
  {| sc_cancel_at := sc_cancel_at s; sc_race := sc_race s; sc_store_error := sc_store_error s;
     sc_streaming := sc_streaming s; sc_chat := sc_chat s; sc_stream := sc_stream s;
     sc_builtin := sc_builtin s; sc_permission := sc_permission s; sc_client := Ok o;
     sc_stop := sc_stop s; sc_session_task := sc_session_task s;
     sc_pre_compaction := sc_pre_compaction s; sc_pre_tool_use := sc_pre_tool_use s |}.
Definition with_stop (f : nat -> StopResult) (s : Scenario) : Scenario :=
  {| sc_cancel_at := sc_cancel_at s; sc_race := sc_race s; sc_store_error := sc_store_error s;
     sc_streaming := sc_streaming s; sc_chat := sc_chat s; sc_stream := sc_stream s;
     sc_builtin := sc_builtin s; sc_permission := sc_permission s; sc_client := sc_client s;
     sc_stop := f; sc_session_task := sc_session_task s;
     sc_pre_compaction := sc_pre_compaction s; sc_pre_tool_use := sc_pre_tool_use s |}.
Definition with_session_task (id : Z) (s : Scenario) : Scenario :=
  {| sc_cancel_at := sc_cancel_at s; sc_race := sc_race s; sc_store_error := sc_store_error s;
     sc_streaming := sc_streaming s; sc_chat := sc_chat s; sc_stream := sc_stream s;
     sc_builtin := sc_builtin s; sc_permission := sc_permission s; sc_client := sc_client s;
     sc_stop := sc_stop s; sc_session_task := Some id;
     sc_pre_compaction := sc_pre_compaction s; sc_pre_tool_use := sc_pre_tool_use s |}.
Definition with_pre_compaction (h : PreCompactionResult) (s : Scenario) : Scenario :=
  {| sc_cancel_at := sc_cancel_at s; sc_race := sc_race s; sc_store_error := sc_store_error s;
     sc_streaming := sc_streaming s; sc_chat := sc_chat s; sc_stream := sc_stream s;
     sc_builtin := sc_builtin s; sc_permission := sc_permission s; sc_client := sc_client s;
     sc_stop := sc_stop s; sc_session_task := sc_session_task s; sc_pre_compaction := h;
     sc_pre_tool_use := sc_pre_tool_use s |}.
Definition with_pre_tool_use (f : PreToolUseRequest -> result string PreToolUseResult) (s : Scenario)
    : Scenario :=
  {| sc_cancel_at := sc_cancel_at s; sc_race := sc_race s; sc_store_error := sc_store_error s;
     sc_streaming := sc_streaming s; sc_chat := sc_chat s; sc_stream := sc_stream s;
     sc_builtin := sc_builtin s; sc_permission := sc_permission s; sc_client := sc_client s;
     sc_stop := sc_stop s; sc_session_task := sc_session_task s;
     sc_pre_compaction := sc_pre_compaction s; sc_pre_tool_use := f |}.

(** A tool of the provider, so that the model is called with tools. *)
Definition a_tool (name : string) : Tool :=
  {| tool_type := "function";
     tool_function := {| ft_name := name; ft_description := name; ft_parameters := TObj [] |} |}.

Definition no_mcp : McpToolSnapshot := {| mcp_tools := ∅; mcp_tool_defs := [] |}.

Definition env_of (s : Scenario) : Env := {|
  env_cancel_at := sc_cancel_at s;
  env_race := sc_race s;
  env_unix_time t := Z.of_nat t;
  env_uuid t := nat_str t;
  env_powi x _ := x;
  env_rapidhash s := Z.of_nat (slen s);
  env_blob_size _ := None;
  env_flush_due _ := true;
  env_store_error := sc_store_error s;
  env_session_internal_id := 1;
  env_row_id t := Z.of_nat t;
  env_session_active_task _ := Some (sc_session_task s);
  env_models _ _ := None;
  env_provider_error _ := None;
  env_provider_tools := Some [a_tool "lookup"];
  env_supports_streaming := sc_streaming s;
  env_has_key_resolver _ := false;
  env_chat t _ := sc_chat s t;
  env_chat_with_tools t _ _ := sc_chat s t;
  env_chat_stream t _ := sc_stream s t;
  env_chat_stream_with_tools t _ _ := sc_stream s t;
  env_builtin_call _ name _ := sc_builtin s name;
  env_mcp _ := no_mcp;
  env_mcp_call _ name _ := sc_builtin s name;
  env_provider_call _ name _ := sc_builtin s name;
  env_tools_json tools := Ok (join "," (map tool_name_of tools));
  env_is_object v := match v with TObj _ => true | TStr _ => false end;
  env_debug_error e := llm_error_display e;
  env_pre_tool_use _ := sc_pre_tool_use s;
  env_permission_request _ _ := sc_permission s;
  env_post_tool_use _ _ := Ok post_tool_use_default;
  env_stop t _ := Ok (sc_stop s t);
  env_pre_compaction _ _ := Ok (sc_pre_compaction s);
  env_post_compaction _ _ := Ok post_compaction_default;
  env_pre_delegation _ _ := Ok pre_delegation_default;
  env_request_permission _ _ := sc_client s;
  env_snapshot_diff _ _ _ := (0, diff_paths_new);
  env_metadata _ _ := (0, 0, 0);
  env_temp_dir := "/tmp";
  env_create_dir _ _ := None;
  env_write _ _ _ := None;
|}.

Definition world0 : World :=
  {| w_now := 0; w_history := []; w_events := []; w_active_task := None; w_tasks := [];
     w_delegations := []; w_progress := []; w_artifacts := []; w_permission_cache := ∅;
     w_turn_diffs := diff_paths_new; w_tools_hash := None; w_pre_turn_task := None;
     w_turn_snapshot := None; w_rx := []; w_mw := ∅ |}.

Definition all_tools : ToolConfig :=
  {| tcfg_policy := BuiltInAndProvider; tcfg_allowlist := None; tcfg_denylist := ∅ |}.

Definition config0 : AgentConfig :=
  {| ac_tool_config := all_tools; ac_tool_registry := ∅; ac_middleware_drivers := [];
     ac_max_steps := None; ac_snapshot_policy := SpNone; ac_assume_mutating := false;
     ac_mutating_tools := ∅; ac_delegation_wait_policy := DwAll;
     ac_delegation_wait_timeout_secs := 60; ac_execution_policy := policy_default |}.

Definition ctx0 : ExecutionContext :=
  {| ex_session_id := "s"; ex_cwd := None; ex_tool_config := all_tools;
     ex_llm_config := Some {| llm_provider := "p"; llm_model := "m" |};
     ex_max_prompt_bytes := None; ex_turn_id := Some "t"; ex_turn_mode := Build;
     ex_has_bridge := true |}.

Definition context0 : ConversationContext := context_new "s" [] stats_default "p" "m".

Definition a_call (id name args : string) : MwToolCall :=
  {| mtc_id := id; mtc_function := {| tf_name := name; tf_arguments := args |} |}.

Definition an_llm_call (id name args : string) : ToolCall :=
  {| tc_id := id; tc_call_type := "function";
     tc_function := {| fc_name := name; fc_arguments := args |} |}.

Definition user_message (id text : string) : AgentMessage :=
  {| am_id := id; am_session_id := "s"; am_role := User; am_parts := [MpText text];
     am_created_at := 0; am_parent_message_id := None; am_source_provider := None;
     am_source_model := None |}.

(** A response that asks for one call of [lookup]. *)
Definition calling_response (reason : FinishReason) (usage : option Usage) : ChatResponse :=
  {| cr_text := Some "checking"; cr_tool_calls := Some [an_llm_call "c1" "lookup" "{}"];
     cr_finish_reason := Some reason; cr_thinking := None; cr_usage := usage |}.

(** From the value a run returns to what its specification says of it. *)
Lemma run_ok {A} (p : result ExecError A * World) a (Q : A -> World -> Prop)
    (R : ExecError -> World -> Prop) :
  p.1 = Ok a -> match p with (Ok a, w) => Q a w | (Err e, w) => R e w end -> Q a p.2.
Proof. destruct p as [[b|e] w]; [|done]. intros [= ->]. done. Qed.

Lemma run_eq {A} (p : result ExecError A * World) a : p.1 = Ok a -> p = (Ok a, p.2).
Proof. destruct p. simpl. by intros ->. Qed.
