(* ===== verification/Pairing.v ===== *)
(** The pairing of tool uses and tool results in the stored history: what the
    execution of tool calls and the storing of responses write, for every
    environment, and the invariant of the whole cycle. *)
From S2P Require Import Prelude Numbers Text Json Chat LlmErrors Domain Events Model ExecState.
From S2P Require Import Driver Pruning Hooks World Limits DelegationMw AgentConfig Compaction.
From S2P Require Import Retry CallLlm ModelCall ToolCalls Transitions Wait Maintenance Machine.

Local Open Scope Z_scope.

Section pairing.
Context {J : Json} {Ev : Env}.

(** ** What a computation ends with, whatever it starts from *)

Definition ends {A} (P : A -> Prop) (Q : ExecError -> Prop) (m : X A) : Prop :=
  forall w, wp m (fun r _ => match r with Ok a => P a | Err e => Q e end) w.

Lemma ends_ret {A} (P : A -> Prop) Q (a : A) : P a -> ends P Q (mret a).
Proof. intros H w. exact H. Qed.

Lemma ends_throw {A} (P : A -> Prop) (Q : ExecError -> Prop) s : Q (Anyhow s) -> ends P Q (throw s).
Proof. intros H w. exact H. Qed.

Lemma ends_bind {A B} (R : A -> Prop) (P : B -> Prop) Q (m : X A) (f : A -> X B) :
  ends R Q m -> (forall a, R a -> ends P Q (f a)) -> ends P Q (m ≫= f).
Proof.
  intros Hm Hf w. apply wp_bind. eapply wp_mono; [apply Hm|].
  intros [a|e] w' H; [by apply Hf|done].
Qed.

Definition any {A} (_ : A) : Prop := True.

Lemma ends_ask {A} Q (f : nat -> A) : ends any Q (ask f).
Proof. intros w. exact I. Qed.
Lemma ends_gets {A} Q (f : World -> A) : ends any Q (gets f).
Proof. intros w. exact I. Qed.
Lemma ends_modify Q (f : World -> World) : ends any Q (modify f).
Proof. intros w. exact I. Qed.
Lemma ends_emit Q k : ends any Q (emit_event k).
Proof. intros w. exact I. Qed.
Lemma ends_notices Q l : ends any Q (emit_notices l).
Proof.
  induction l as [|n l IH]; [by apply ends_ret|].
  apply (ends_bind any); [apply ends_emit|intros _ _; apply IH].
Qed.
Lemma ends_store {A} Q (f : World -> A * World) : ends any Q (store_call f).
Proof.
  intros w. unfold wp, store_call. destruct (env_store_error (w_now w)); [done|].
  by destruct (f (set_now S w)).
Qed.
Lemma ends_or_throw {A} (Q : ExecError -> Prop) p (r : result string A) :
  (forall s, Q (Anyhow s)) -> ends any Q (or_throw p r).
Proof. intros H w. destruct r; [done|apply H]. Qed.
Lemma ends_awaiting {A} (P : A -> Prop) (Q : ExecError -> Prop) (m : X A) :
  Q Dropped -> ends P Q m -> ends P Q (awaiting m).
Proof.
  intros HQ Hm. assert (ends any Q drop_point) as Hd.
  { intros w. unfold wp, drop_point. by destruct (_ && _). }
  apply (ends_bind any); [exact Hd|]. intros _ _. apply (ends_bind P); [exact Hm|].
  intros a Ha. apply (ends_bind any); [exact Hd|]. intros _ _. by apply ends_ret.
Qed.
End pairing.

#[export] Hint Resolve ends_ask ends_gets ends_modify ends_emit ends_notices ends_store : qmt.

(** Goes through a computation by its syntax, with nothing known of the
    intermediate values. *)
Ltac ends_step :=
  match goal with
  | |- ends _ _ (mbind _ _) => apply (ends_bind any); [|intros ? _]
  | |- ends _ _ (mret _) => apply ends_ret; try exact I
  | |- ends _ _ (throw _) => apply ends_throw; try done
  | |- ends _ _ (or_throw _ _) => apply ends_or_throw; done
  | |- ends _ _ (awaiting _) => apply ends_awaiting; [done|]
  | |- ends _ _ (match ?x with _ => _ end) => destruct x eqn:?
  | |- ends _ _ (let '_ := ?x in _) => destruct x eqn:?
  | |- ends _ _ _ => solve [eauto with qmt]
  end.
Ltac ends_auto := intros; repeat (ends_step; cbn beta iota).

Section tool_calls.
Context {J : Json} {Ev : Env} (config : AgentConfig) (ctx : ExecutionContext).

(** No tool execution runs out of fuel: it has no unbounded loop. *)
Definition finite (e : ExecError) : Prop := e <> OutOfFuel.

Lemma ends_record_progress kind content md : ends any finite (record_progress kind content md).
Proof. unfold record_progress, unix_time. ends_auto. Qed.

Lemma ends_permission id name args : ends any finite (ensure_tool_permission config ctx id name args).
Proof. unfold ensure_tool_permission, fresh_uuid. ends_auto. Qed.

Lemma ends_dispatch call args : ends any finite (dispatch_tool config ctx call args).
Proof.
  unfold dispatch_tool. pose proof ends_permission.
  ends_auto.
Qed.

Lemma ends_truncate call blocks e : ends any finite (truncate_result config ctx call blocks e).
Proof. unfold truncate_result. cbv zeta. ends_auto. Qed.

(** A result whose snapshot, if any, is neither a tool use nor a tool result. *)
Definition plain_result (r : ToolResult) : Prop :=
  match tr_snapshot_part r with
  | Some p => part_tool_result_id p = None /\ part_tool_use_id p = None
  | None => True
  end.

Definition answers (call : MwToolCall) (r : ToolResult) : Prop :=
  tr_call_id r = mtc_id call /\ plain_result r /\
  tr_tool_name r = Some (tf_name (mtc_function call)).

Definition plain_part (o : option MessagePart) : Prop :=
  match o with
  | Some p => part_tool_result_id p = None /\ part_tool_use_id p = None
  | None => True
  end.

Lemma ends_finish_snapshot s : ends plain_part finite (finish_tool_snapshot s).
Proof. unfold finish_tool_snapshot, snapshot_metadata. ends_auto; repeat case_match; simplify_eq; done. Qed.

(** A tool call answers under its own id. *)
Lemma run_tool_call_id call args : ends (answers call) finite (run_tool_call config ctx call args).
Proof.
  pose proof ends_record_progress. pose proof ends_dispatch. pose proof ends_truncate.
  unfold run_tool_call, prepare_tool_snapshot. cbv zeta.
  repeat first [apply (ends_bind plain_part _ _ _ _ (ends_finish_snapshot _)); intros [p|] Hp
               | ends_step; cbn beta iota]; done.
Qed.

Lemma execute_tool_call_id call : ends (answers call) finite (execute_tool_call config ctx call).
Proof.
  pose proof run_tool_call_id. unfold execute_tool_call. cbv zeta. ends_auto; done.
Qed.


(** Neither does it write to the history. *)
Lemma keeps_record_progress P kind content md :
  keeps (on_history P) (record_progress kind content md).
Proof.
  unfold record_progress, unix_time. keeps_auto. by apply keeps_store.
Qed.

Lemma keeps_permission P id name args :
  keeps (on_history P) (ensure_tool_permission config ctx id name args).
Proof.
  unfold ensure_tool_permission, fresh_uuid.
  repeat first [keeps_step; cbn beta iota | by apply keeps_modify].
Qed.

Lemma keeps_dispatch P call args : keeps (on_history P) (dispatch_tool config ctx call args).
Proof. unfold dispatch_tool. pose proof keeps_permission. keeps_auto. Qed.

Lemma keeps_truncate P call blocks e :
  keeps (on_history P) (truncate_result config ctx call blocks e).
Proof. unfold truncate_result. cbv zeta. keeps_auto. Qed.

Lemma keeps_execute_tool_call P call : keeps (on_history P) (execute_tool_call config ctx call).
Proof.
  pose proof keeps_record_progress. pose proof keeps_dispatch. pose proof keeps_truncate.
  unfold execute_tool_call, run_tool_call, prepare_tool_snapshot, finish_tool_snapshot.
  cbv zeta. keeps_auto.
Qed.

(** A raced call always gives a result, under the call's id. *)
Lemma run_raced_call_spec call w :
  exists r w', run_raced_call config ctx call w = (Ok r, w') /\
    answers call r /\ w_history w' = w_history w.
Proof.
  unfold run_raced_call.
  pose proof (execute_tool_call_id call w) as Hid.
  pose proof (keeps_execute_tool_call (fun l => l = w_history w) call w eq_refl) as Hh.
  unfold wp in *.
  destruct (execute_tool_call config ctx call w) as [[r|[s| |]] w'];
    try done; by eexists _, w'.
Qed.

Lemma run_calls_spec calls w :
  exists rs w', run_calls config ctx calls w = (Ok rs, w') /\
    Forall2 answers calls rs /\ w_history w' = w_history w.
Proof.
  revert w. induction calls as [|call calls IH]; intros w; [exists [], w; by repeat constructor|].
  destruct (run_raced_call_spec call w) as (r & w1 & E1 & Hr & H1).
  destruct (IH w1) as (rs & w2 & E2 & Hrs & H2).
  exists (r :: rs), w2. cbn [run_calls]. unfold mbind, M_bind. rewrite E1, E2. simpl.
  split_and!; [done|by constructor|congruence].
Qed.

(** ** Side effects and storing *)

(** The only errors of the side effects are the delegation hook's. *)
Definition hook_failed (e : ExecError) : Prop :=
  e <> OutOfFuel /\ exists t r s, env_pre_delegation t r = Err s.

Lemma ends_record_delegation target objective c co e :
  ends any hook_failed (record_delegation target objective c co e).
Proof. unfold record_delegation, create_delegation, fresh_uuid, unix_time. ends_auto. Qed.

(** The side effects may rewrite the content and the arguments of a result,
    but neither its id nor its snapshot. *)
Definition result_key (r : ToolResult) : string * option MessagePart :=
  (tr_call_id r, tr_snapshot_part r).

Lemma request_delegation_key r :
  ends (fun x => result_key x.1 = result_key r) hook_failed (request_delegation ctx r).
Proof.
  pose proof ends_record_delegation as Hd. unfold request_delegation. cbv zeta.
  apply (ends_bind (fun hook => match hook with
                                | Ok _ => True
                                | Err s => exists t r, env_pre_delegation t r = Err s
                                end)).
  - intros w. unfold wp, ask. destruct (env_pre_delegation (w_now w) _) eqn:E; [done|by eexists _, _].
  - intros [h|s] Hhook; simpl.
    + apply (ends_bind any); [by apply ends_ret|]. intros h' _. ends_auto; done.
    + intros w. split; [done|]. destruct Hhook as (t & q & E). by exists t, q, s.
Qed.

(** Only a [delegate] call is waited for. *)
Definition delegates (r : ToolResult) : Prop := tr_tool_name r = Some "delegate".

Lemma side_effects_key r :
  ends (fun x => result_key x.1 = result_key r /\ (x.2 = None \/ delegates r)) hook_failed
    (record_tool_side_effects ctx r).
Proof.
  pose proof (request_delegation_key r) as Hreq.
  unfold record_tool_side_effects, record_written_file, record_artifact, unix_time.
  destruct (tr_is_error r); [apply ends_ret; split; [done|by left]|].
  destruct (tr_tool_name r) as [name|] eqn:En; [|apply ends_ret; split; [done|by left]].
  apply (ends_bind any); [ends_auto|intros _ _].
  destruct (String.eqb_spec name "delegate") as [->|]; [|apply ends_ret; split; [done|by left]].
  intros w. eapply wp_mono; [apply Hreq|]. intros [x|e] w' Hx; [|exact Hx].
  split; [exact Hx|by right].
Qed.

Lemma adjust_results_keys results :
  ends (fun x => map result_key x.1 = map result_key results /\
                 (x.2 = [] \/ Exists delegates results)) hook_failed
    (adjust_results ctx results).
Proof.
  induction results as [|r results IH]; [apply ends_ret; split; [done|by left]|]. simpl.
  apply (ends_bind _ _ _ _ _ (side_effects_key r)). intros [r' wc] [Hr Hw].
  apply (ends_bind _ _ _ _ _ IH). intros [rs waits] [Hrs Hws]. apply ends_ret. simpl in *.
  split; [congruence|]. destruct Hw as [->|Hd]; [|by right; left].
  destruct Hws as [->|Hd]; [by left|by right; right].
Qed.

Lemma keeps_side_effects P r : keeps (on_history P) (record_tool_side_effects ctx r).
Proof.
  unfold record_tool_side_effects, record_written_file, record_artifact, request_delegation,
    record_delegation, create_delegation, fresh_uuid, unix_time. cbv zeta.
  repeat first [keeps_step; cbn beta iota | by apply keeps_store].
Qed.

Lemma keeps_adjust P results : keeps (on_history P) (adjust_results ctx results).
Proof.
  induction results as [|r results IH]; [apply keeps_ret|]. simpl.
  pose proof (keeps_side_effects P r). keeps_auto.
Qed.

(** The ids a batch of results answers, and the tool uses it holds. *)
Lemma result_parts_ids results results' :
  map result_key results' = map result_key results -> Forall plain_result results ->
  omap part_tool_result_id (result_parts results') = map tr_call_id results /\
  omap part_tool_use_id (result_parts results') = [].
Proof.
  intros Hk Hp. unfold result_parts. rewrite !omap_app.
  enough (omap part_tool_result_id (map result_part results') = map tr_call_id results /\
    omap part_tool_use_id (map result_part results') = [] /\
    omap part_tool_result_id (omap tr_snapshot_part results') = [] /\
    omap part_tool_use_id (omap tr_snapshot_part results') = [])
    as (-> & -> & -> & ->) by (by rewrite app_nil_r).
  revert results' Hk. induction Hp as [|r results Hr _ IH]; intros [|r' results']; try done.
  cbn [map]. rewrite !omap_cons. unfold result_key at 1 2. intros [= Hid Hs Hrest].
  destruct (IH results' Hrest) as (E1 & E2 & E3 & E4). rewrite Hs, E1, E2.
  unfold plain_result in Hr. cbn [result_part part_tool_result_id part_tool_use_id].
  rewrite Hid. destruct (tr_snapshot_part r) as [p|]; [|by rewrite E3, E4].
  rewrite !omap_cons. destruct Hr as [-> ->]. by rewrite E3, E4.
Qed.

(** ** [store_all_tool_results] *)

Lemma aggregate_changes_run results w :
  exists w', aggregate_changes results w = (Ok tt, w') /\ w_history w' = w_history w.
Proof. unfold aggregate_changes. destruct (diff_is_empty _); by eexists. Qed.

(** One message is stored, or none and the error says why. *)
Lemma store_all_spec results context w :
  Forall plain_result results ->
  match store_all_tool_results ctx results context w with
  | (Ok st, w') =>
      exists m, w_history w' = w_history w ++ [m] /\ am_role m = User /\
        answered_ids m = map tr_call_id results /\ used_ids m = [] /\
        exists c, cc_messages c = cc_messages context ++ [to_chat_message m] /\
          cc_stats c = cc_stats context /\
          (st = BeforeLlmCall c \/
           exists wait, st = WaitingForEvent c wait /\ Exists delegates results)
  | (Err e, w') =>
      w_history w' = w_history w /\ e <> OutOfFuel /\
      ((exists t s, env_store_error t = Some s) \/ exists t r s, env_pre_delegation t r = Err s)
  end.
Proof.
  intros Hp. unfold store_all_tool_results. unfold mbind at 1, M_bind at 1.
  pose proof (adjust_results_keys results w) as Hk.
  pose proof (keeps_adjust (fun l => l = w_history w) results w eq_refl) as Hh.
  unfold wp in *. destruct (adjust_results ctx results w) as [[[rs waits]|e] w1];
    [|destruct Hk as [? ?]; split_and!; [exact Hh|done|by right]].
  unfold fresh_uuid, unix_time, add_message, store_add_message, store_call, mbind, M_bind, ask.
  simpl. destruct (env_store_error (S (S (w_now w1)))) as [s|] eqn:Es.
  { simpl. split_and!; [exact Hh|done|left; by eexists _, _]. }
  simpl. match goal with |- context [result_message ctx ?i ?n rs] =>
    set (m := result_message ctx i n rs) end.
  match goal with |- context [aggregate_changes results ?w2] =>
    destruct (aggregate_changes_run results w2) as (w3 & -> & H3) end.
  simpl in H3. destruct Hk as [Hk Hw]. destruct (result_parts_ids results rs Hk Hp) as [Ha Hu].
  exists m. split_and!; [rewrite H3, Hh; done|done|exact Ha|exact Hu|].
  exists (rebuild_context context (cc_messages context ++ [to_chat_message m]) (cc_stats context)).
  split; [done|split; [done|]]. simpl in Hw.
  destruct (wait_merge waits) as [wait|] eqn:Em; [right|by left].
  exists wait. split; [done|]. destruct Hw as [->|]; done.
Qed.

(** ** The transitions *)

Lemma is_cancelled_run w : is_cancelled w = (Ok (cancelled_at (w_now w)), set_now S w).
Proof. reflexivity. Qed.

Lemma cancelled_some t : cancelled_at t = true -> env_cancel_at <> None.
Proof. unfold cancelled_at. by destruct env_cancel_at. Qed.

(** The causes of a failed storing of results. *)
Definition storing_failed : Prop :=
  (exists t s, env_store_error t = Some s) \/ exists t r s, env_pre_delegation t r = Err s.

Lemma processing_spec calls results context w :
  Forall plain_result results ->
  match transition_processing_tool_calls config ctx calls results context w with
  | (Ok st, w') =>
      exists m, w_history w' = w_history w ++ [m] /\ am_role m = User /\
        answered_ids m = map tr_call_id results ++ map mtc_id calls /\ used_ids m = [] /\
        ((st = Cancelled /\ env_cancel_at <> None) \/
         exists c, cc_messages c = cc_messages context ++ [to_chat_message m] /\
           cc_stats c = cc_stats context /\
           (st = BeforeLlmCall c \/
            exists wait, st = WaitingForEvent c wait /\
              (Exists delegates results \/
               Exists (fun call => tf_name (mtc_function call) = "delegate") calls)))
  | (Err e, w') => w_history w' = w_history w /\ e <> OutOfFuel /\ storing_failed
  end.
Proof.
  intros Hp. unfold transition_processing_tool_calls. unfold mbind at 1, M_bind at 1.
  rewrite is_cancelled_run. destruct calls as [|call calls]; cbn [is_nil].
  - unfold mbind, M_bind. pose proof (store_all_spec results context (set_now S w) Hp) as Hs.
    destruct (store_all_tool_results ctx results context (set_now S w)) as [[st|e] w1]; [|exact Hs].
    destruct Hs as (m & Hh & Hr & Ha & Hu & c & Hm & Hst & Hc). exists m.
    split_and!; try done; [by rewrite app_nil_r|].
    destruct (cancelled_at (w_now w)) eqn:E; [left|right; exists c; split_and!; try done].
    2: { destruct Hc as [Hc|(wait & Hc & Hd)]; [by left|right]. exists wait. by split; [|left]. }
    split; [done|by eapply cancelled_some].
  - unfold mbind, M_bind.
    destruct (run_calls_spec (call :: calls) (set_now S w)) as (rs & w1 & -> & Hrs & Hh1).
    rewrite is_cancelled_run.
    assert (Forall plain_result (results ++ rs)) as Hp'.
    { apply Forall_app_2; [done|]. eapply Forall2_Forall_r; [exact Hrs|].
      apply Forall_true. by intros ? ? (_ & ? & _). }
    assert (Exists delegates (results ++ rs) -> Exists delegates results \/
      Exists (fun call => tf_name (mtc_function call) = "delegate") (call :: calls)) as Hdel.
    { rewrite Exists_app. intros [H|H]; [by left|right]. clear -Hrs H.
      induction Hrs as [|c r cs rs (_ & _ & Hn) _ IH]; [by apply Exists_nil in H|].
      apply Exists_cons in H as [H|H]; [left|right; by apply IH].
      unfold delegates in H. rewrite Hn in H. by injection H. }
    assert (map tr_call_id rs = map mtc_id (call :: calls)) as Hids.
    { clear -Hrs. induction Hrs as [|? ? ? ? [H _]]; [done|]. simpl. congruence. }
    pose proof (store_all_spec (results ++ rs) context (set_now S w1) Hp') as Hs.
    destruct (store_all_tool_results ctx (results ++ rs) context (set_now S w1)) as [[st|e] w2];
      [|destruct Hs as (Hs & ? & ?); split_and!; [by rewrite Hs|done..]].
    destruct Hs as (m & Hh & Hr & Ha & Hu & c & Hm & Hst & Hc). exists m.
    split_and!; [by rewrite Hh; simpl; rewrite Hh1|done|by rewrite Ha, map_app, Hids|done|].
    destruct (cancelled_at (w_now w) || cancelled_at (w_now w1)) eqn:E;
      [left|right; exists c; split_and!; try done].
    2: { destruct Hc as [Hc|(wait & Hc & Hd)]; [by left|right]. exists wait. split; [done|by apply Hdel]. }
    split; [done|]. apply orb_true_iff in E as [E|E]; by eapply cancelled_some.
Qed.

(** A message that neither uses nor answers a tool. *)
Definition silent (m : AgentMessage) : Prop := used_ids m = [] /\ answered_ids m = [].

(** At most the message with the snapshot the turn started from, when the task
    that takes it has one to give. *)
Definition turn_start (w : World) (l : list AgentMessage) : Prop :=
  l = [] \/ exists m turn snapshot, l = [m] /\ w_pre_turn_task w = Some (Some (turn, Ok snapshot)) /\
    am_session_id m = ex_session_id ctx /\ am_role m = Assistant /\
    am_parts m = [MpTurnSnapshotStart turn snapshot].

Lemma turn_start_silent w l : turn_start w l -> Forall silent l.
Proof.
  intros [->|(m & turn & snapshot & -> & _ & _ & _ & Hp)]; [done|]. constructor; [|done].
  unfold silent, used_ids, answered_ids. by rewrite Hp.
Qed.

Lemma pre_turn_spec w :
  exists r w' snap, ensure_pre_turn_snapshot_ready ctx w = (Ok r, w') /\
    w_history w' = w_history w ++ snap /\ turn_start w snap.
Proof.
  unfold ensure_pre_turn_snapshot_ready, updating. unfold mbind at 1, M_bind at 1.
  destruct (w_pre_turn_task w) as [[[turn_id [snapshot_id|e]]|]|] eqn:Et; simpl;
    try (eexists _, _, []; split_and!; [reflexivity|by rewrite app_nil_r|by left]).
  unfold modify, fresh_uuid, unix_time, add_message, store_add_message, store_call, mbind, M_bind,
    ask. simpl.
  destruct (env_store_error _); simpl.
  - eexists _, _, []. split_and!; [reflexivity|by rewrite app_nil_r|by left].
  - eexists _, _, [_]. split_and!; [reflexivity|done|]. right. eexists _, _, _. by split_and!.
Qed.

Lemma assistant_parts_ids id now response context :
  let m := assistant_message ctx id now response context in
  used_ids m = map mtc_id (lr_tool_calls response) /\ answered_ids m = [].
Proof.
  cbv zeta. unfold used_ids, answered_ids, assistant_message, assistant_parts. cbn [am_parts].
  rewrite !omap_app.
  assert (omap part_tool_use_id (map tool_use_part (lr_tool_calls response))
          = map mtc_id (lr_tool_calls response) /\
          omap part_tool_result_id (map tool_use_part (lr_tool_calls response)) = []) as [-> ->].
  { induction (lr_tool_calls response) as [|c l [IH1 IH2]]; [done|]. cbn [map].
    rewrite !omap_cons. simpl. by rewrite IH1, IH2. }
  destruct (lr_thinking response) as [t|]; [destruct (is_empty_str t)|];
    (destruct (is_empty_str (lr_content response)); done).
Qed.

(** The next state, as a function of the response and the new context. *)
Definition next_state (response : LlmResponse) (c : ConversationContext) : ExecutionState :=
  match lr_finish_reason response with
  | Some FrStop => Complete
  | Some FrLength => Stopped "Model hit token limit" ModelTokenLimit (Some c)
  | Some FrContentFilter =>
      Stopped "Response blocked by content filter" StContentFilter (Some c)
  | _ =>
      match lr_tool_calls response with
      | [] => Complete
      | calls => ProcessingToolCalls calls [] c
      end
  end.

Lemma keeps_finish_active_task P : keeps (on_history P) finish_active_task.
Proof.
  unfold finish_active_task, update_task_status, unix_time.
  repeat first [keeps_step; cbn beta iota | by apply keeps_store | by apply keeps_modify].
Qed.

Lemma finish_active_task_ok w : exists w', finish_active_task w = (Ok tt, w').
Proof.
  assert (ends any (fun _ => False) finish_active_task) as H.
  { unfold finish_active_task, update_task_status, unix_time. ends_auto. }
  specialize (H w). unfold wp in H. destruct (finish_active_task w) as [[[]|e] w']; [by eexists|done].
Qed.

Lemma after_llm_state_spec response c w :
  exists w', after_llm_state response c w = (Ok (next_state response c), w') /\
    w_history w' = w_history w.
Proof.
  unfold after_llm_state, next_state.
  destruct (lr_finish_reason response) as [[]|]; try (by eexists);
    try (destruct (lr_tool_calls response); by eexists).
  unfold mbind, M_bind. destruct (finish_active_task_ok w) as [w' E]. rewrite E.
  exists w'. split; [done|].
  pose proof (keeps_finish_active_task (fun l => l = w_history w) w eq_refl) as H.
  unfold wp in H. by rewrite E in H.
Qed.

(** The step counter after a response: it moves only when usage is reported. *)
Definition steps_after (response : LlmResponse) (s : AgentStats) : Z :=
  match lr_usage response with Some _ => usize_add (st_steps s) 1 | None => st_steps s end.

Lemma update_costs_counters s p :
  st_steps (update_costs s p) = st_steps s /\ st_turns (update_costs s p) = st_turns s.
Proof. unfold update_costs. repeat case_match; done. Qed.

Lemma update_stats_run s response w :
  exists s' w', update_stats ctx s (lr_usage response) w = (Ok s', w') /\
    w_history w' = w_history w /\ st_steps s' = steps_after response s /\ st_turns s' = st_turns s.
Proof.
  unfold update_stats, steps_after. destruct (lr_usage response) as [u|]; [|by eexists _, _].
  unfold mbind, M_bind, ask. eexists _, _. split; [reflexivity|]. split; [done|].
  destruct (get_pricing _ _); [|done].
  destruct (update_costs_counters (count_usage s u) m) as [-> ->]. done.
Qed.

(** What the storing of a response leaves. *)
Definition stored_response (response : LlmResponse) (context : ConversationContext)
    (h : list AgentMessage) (st : ExecutionState) (h' : list AgentMessage) : Prop :=
  exists snap m c, h' = h ++ snap ++ [m] /\ Forall silent snap /\ am_role m = Assistant /\
    used_ids m = map mtc_id (lr_tool_calls response) /\ answered_ids m = [] /\
    cc_messages c = cc_messages context ++ [to_chat_message m] /\
    st_steps (cc_stats c) = steps_after response (cc_stats context) /\
    st_turns (cc_stats c) = st_turns (cc_stats context) /\
    st = next_state response c.

(** The calls a message makes, and its text. *)
Definition calls_of (m : AgentMessage) : list (string * string * string) :=
  omap (fun p => match p with MpToolUse c => Some (tc_id c, tc_name c, tc_arguments c) | _ => None end)
    (am_parts m).
Definition stored_texts (m : AgentMessage) : list string :=
  omap (fun p => match p with MpText t => Some t | _ => None end) (am_parts m).

Lemma assistant_calls id now response context :
  let m := assistant_message ctx id now response context in
  calls_of m = map (fun c => (mtc_id c, tf_name (mtc_function c), tf_arguments (mtc_function c)))
                 (lr_tool_calls response) /\
  stored_texts m = if is_empty_str (lr_content response) then [] else [lr_content response].
Proof.
  cbv zeta. unfold calls_of, stored_texts, assistant_message, assistant_parts. cbn [am_parts].
  rewrite !omap_app.
  induction (lr_tool_calls response) as [|c l IH].
  - cbn. destruct (lr_thinking response) as [t|]; [destruct (is_empty_str t)|];
      by destruct (is_empty_str (lr_content response)).
  - cbn [map]. rewrite !omap_cons. destruct IH as [<- <-]. cbn.
    destruct (lr_thinking response) as [t|]; [destruct (is_empty_str t)|];
      by destruct (is_empty_str (lr_content response)).
Qed.

(** What is stored, and left in the context and the state, by a response. *)
Definition stored_exactly (response : LlmResponse) (context : ConversationContext) (w : World)
    (st : ExecutionState) (w' : World) : Prop :=
  exists snap m c, w_history w' = w_history w ++ snap ++ [m] /\ turn_start w snap /\
    am_role m = Assistant /\ am_session_id m = ex_session_id ctx /\
    (forall id, lr_message_id response = Some id -> am_id m = id) /\
    calls_of m = map (fun c => (mtc_id c, tf_name (mtc_function c), tf_arguments (mtc_function c)))
                   (lr_tool_calls response) /\
    stored_texts m = (if is_empty_str (lr_content response) then [] else [lr_content response]) /\
    used_ids m = map mtc_id (lr_tool_calls response) /\ answered_ids m = [] /\
    cc_messages c = cc_messages context ++ [to_chat_message m] /\
    st_steps (cc_stats c) = steps_after response (cc_stats context) /\
    st_turns (cc_stats c) = st_turns (cc_stats context) /\
    st = next_state response c.

Lemma stored_exactly_response response context w st w' :
  stored_exactly response context w st w' -> stored_response response context (w_history w) st (w_history w').
Proof.
  intros (snap & m & c & Hh & Hs & Hr & _ & _ & _ & _ & H). exists snap, m, c.
  by split; [|split; [eapply turn_start_silent|]].
Qed.

Lemma after_llm_exact response context w :
  match transition_after_llm ctx response context w with
  | (Ok st, w') =>
      (cancelled_at (w_now w) = true /\ st = Cancelled /\ w_history w' = w_history w) \/
      (cancelled_at (w_now w) = false /\
       stored_exactly response context w st w')
  | (Err e, w') =>
      e <> OutOfFuel /\ (exists t s, env_store_error t = Some s) /\
      exists snap, w_history w' = w_history w ++ snap /\ turn_start w snap
  end.
Proof.
  unfold transition_after_llm. unfold mbind at 1, M_bind at 1. rewrite is_cancelled_run.
  destruct (cancelled_at (w_now w)) eqn:Ec; [by left|].
  unfold mbind at 1, M_bind at 1.
  destruct (pre_turn_spec (set_now S w)) as (r & w1 & snap & -> & H1 & Hs). simpl in H1.
  unfold record_progress, unix_time, gets, store_call, mbind, M_bind, ask. cbv beta iota zeta.
  destruct (env_store_error (w_now (set_now S w1))) as [s|] eqn:Es.
  { simpl. split_and!; [done|by eexists _, _|by exists snap]. }
  simpl. unfold store_response, mbind, M_bind.
  match goal with |- context [(match lr_message_id response with Some id => mret id | None => fresh_uuid end) ?w2] =>
    assert (exists id w3, (match lr_message_id response with Some id => mret id | None => fresh_uuid end) w2
      = (Ok id, w3) /\ w_history w3 = w_history w1 /\ forall i, lr_message_id response = Some i -> id = i)
        as (id & w3 & -> & H3 & Hid)
      by (destruct (lr_message_id response); eexists _, _;
          (split; [reflexivity|]; split; [reflexivity|]); by intros ? [=]) end.
  unfold unix_time, ask, add_message, store_add_message, store_call. cbv beta iota zeta.
  destruct (env_store_error (w_now (set_now S w3))) as [s|] eqn:Es2.
  { simpl. split_and!; [done|by eexists _, _|]. exists snap. by rewrite H3. }
  simpl. match goal with |- context [update_stats ctx ?s ?u ?w2] =>
    destruct (update_stats_run s response w2) as (s' & w4 & -> & H4 & Hst & Htu) end.
  simpl in H4.
  match goal with |- context [after_llm_state response ?c ?w2] =>
    destruct (after_llm_state_spec response c w2) as (w5 & -> & H5) end.
  right. split; [done|].
  destruct (assistant_parts_ids id (env_unix_time (w_now w3)) response context) as [Hu Ha].
  exists snap, (assistant_message ctx id (env_unix_time (w_now w3)) response context).
  destruct (assistant_calls id (env_unix_time (w_now w3)) response context) as [Hcl Htx].
  eexists. split_and!; [|exact Hs|done|done|exact Hid|exact Hcl|exact Htx|exact Hu|exact Ha| | | |reflexivity];
    [|done|exact Hst|exact Htu].
  rewrite H5, H4, H3, H1, <- app_assoc. done.
Qed.

Lemma after_llm_spec response context w :
  match transition_after_llm ctx response context w with
  | (Ok st, w') =>
      (cancelled_at (w_now w) = true /\ st = Cancelled /\ w_history w' = w_history w) \/
      (cancelled_at (w_now w) = false /\
       stored_response response context (w_history w) st (w_history w'))
  | (Err e, w') =>
      e <> OutOfFuel /\ (exists t s, env_store_error t = Some s) /\
      exists snap, w_history w' = w_history w ++ snap /\ Forall silent snap
  end.
Proof.
  pose proof (after_llm_exact response context w) as H.
  destruct (transition_after_llm ctx response context w) as [[st|e] w'].
  - destruct H as [H|[Hc H]]; [by left|right]. split; [done|]. by apply stored_exactly_response.
  - destruct H as (He & Hs & snap & Hh & Ht). split_and!; [done|done|]. exists snap.
    split; [done|]. by eapply turn_start_silent.
Qed.
End tool_calls.
