(* ===== verification/WaitSpec.v ===== *)
(** What waiting for delegations promises: when the wait ends, with which
    message, and what it leaves on the event stream. *)
From S2P Require Import Prelude Numbers Text Json Chat LlmErrors Domain Events Model ExecState.
From S2P Require Import Driver Pruning Hooks World Limits AgentConfig Wait Fixtures Pairing.

Local Open Scope Z_scope.

Section wait.
Context {J : Json} {Ev : Env} (config : AgentConfig) (ctx : ExecutionContext).

(** ** The reference reading of what was received *)

(** The first outcome of each pending id. *)
Fixpoint firsts (pending : gset string) (l : list WaitEventOutcome) : list WaitEventOutcome :=
  match l with
  | [] => []
  | o :: l' =>
      if bool_decide (outcome_id o ∈ pending) then o :: firsts (pending ∖ {[outcome_id o]}) l'
      else firsts pending l'
  end.

Definition outcome_ids (l : list WaitEventOutcome) : gset string := list_to_set (map outcome_id l).

(** The first outcomes of a received sequence, and the ids still pending. *)
Definition settled (wait : WaitCondition) (pending : gset string) (rx : list WaitInput)
    : list WaitEventOutcome := firsts pending (omap (received_outcome ctx wait) rx).
Definition unsettled (wait : WaitCondition) (pending : gset string) (rx : list WaitInput)
    : gset string := pending ∖ outcome_ids (settled wait pending rx).

Lemma settled_cons wait pending i rx :
  settled wait pending (i :: rx) =
  match received_outcome ctx wait i with
  | Some o =>
      if bool_decide (outcome_id o ∈ pending)
      then o :: settled wait (pending ∖ {[outcome_id o]}) rx else settled wait pending rx
  | None => settled wait pending rx
  end.
Proof. unfold settled. rewrite omap_cons. by destruct (received_outcome ctx wait i). Qed.

Lemma unsettled_cons wait pending i rx :
  unsettled wait pending (i :: rx) =
  match received_outcome ctx wait i with
  | Some o =>
      if bool_decide (outcome_id o ∈ pending)
      then unsettled wait (pending ∖ {[outcome_id o]}) rx else unsettled wait pending rx
  | None => unsettled wait pending rx
  end.
Proof.
  unfold unsettled. rewrite settled_cons. destruct (received_outcome ctx wait i) as [o|]; [|done].
  destruct (bool_decide (outcome_id o ∈ pending)); [|done].
  unfold outcome_ids. simpl. set_solver.
Qed.

(** Each pending id settles at most once. *)
Lemma firsts_nodup pending l :
  NoDup (map outcome_id (firsts pending l)) /\ outcome_ids (firsts pending l) ⊆ pending.
Proof.
  revert pending. induction l as [|o l IH]; intros pending; simpl.
  - split; [constructor|set_solver].
  - destruct (bool_decide (outcome_id o ∈ pending)) eqn:E; [|apply IH].
    apply bool_decide_eq_true in E. destruct (IH (pending ∖ {[outcome_id o]})) as [H1 H2].
    unfold outcome_ids in *. simpl. split; [|set_solver].
    constructor; [|exact H1]. intros Hin.
    assert (outcome_id o ∈ pending ∖ {[outcome_id o]}); [apply H2|set_solver].
    by apply elem_of_list_to_set.
Qed.

(** ** Runs of the parts *)

Definition keeps_rx (rx : list WaitInput) (w : World) : Prop := w_rx w = rx.

(** The state with the message, or the failure to store it. *)
Definition resumed (context : ConversationContext) (message : string)
    (r : result ExecError ExecutionState) : Prop :=
  r = Ok (BeforeLlmCall (inject_message context message)) \/
  exists s t, env_store_error t = Some s /\ r = Err (Anyhow ("Failed to store wait message: " +:+ s)).

Lemma inject_run context message w :
  exists r w', (c ← inject_wait_message ctx context message; mret (BeforeLlmCall c)) w = (r, w') /\
    resumed context message r /\ w_rx w' = w_rx w /\
    exists l, w_history w' = w_history w ++ l /\ Forall silent l.
Proof.
  unfold inject_wait_message, fresh_uuid, unix_time, add_message, store_add_message, store_call,
    mbind, M_bind, ask. simpl.
  destruct (env_store_error (S (S (w_now w)))) as [s|] eqn:E; simpl.
  - eexists _, _. split_and!; [reflexivity| |done|exists []; by rewrite app_nil_r].
    right. by eexists _, _.
  - eexists _, _. split_and!; [reflexivity|by left|done|].
    eexists [_]. split; [reflexivity|by repeat constructor].
Qed.

Lemma cleanup_run ids w :
  exists w', cleanup_timed_out_delegations ids w = (Ok tt, w') /\ w_rx w' = w_rx w /\
    w_history w' = w_history w.
Proof.
  revert w. induction ids as [|id ids IH]; intros w; [by exists w|].
  unfold cleanup_timed_out_delegations in *. cbn [mapM_].
  unfold mbind at 1, M_bind at 1.
  match goal with |- context [let '(_, _) := ?m w in _] =>
    assert (exists w1, m w = (Ok tt, w1) /\ w_rx w1 = w_rx w /\ w_history w1 = w_history w)
      as (w1 & -> & H1 & H2) end.
  { unfold update_delegation_status, emit_event, modify, store_call, mbind, M_bind. simpl.
    destruct (env_store_error (w_now w)); simpl; (eexists; split; [reflexivity|done]). }
  destruct (IH w1) as (w2 & -> & H3 & H4). exists w2. split_and!; [done|congruence..].
Qed.

Lemma select_uncancelled {A} (f : nat -> A) w :
  env_cancel_at = None -> select_cancel f w = (Ok (Some (f (w_now w))), set_now S w).
Proof. intros H. unfold select_cancel, cancelled_at. by rewrite H. Qed.

(** ** The two loops *)

(** How a wait for all ends, after [seen] of what was to be received. *)
Definition wait_all_ended (wait : WaitCondition) (context : ConversationContext)
    (pending : gset string) (items : list string) (seen rest : list WaitInput)
    (r : result ExecError ExecutionState) : Prop :=
  let outcomes := items ++ map format_wait_all_item (settled wait pending seen) in
  let left := unsettled wait pending seen in
  let timeout := ac_delegation_wait_timeout_secs config in
  (left <> ∅ /\ rest = [] /\ r = Ok (closed_state context)) \/
  (left = ∅ /\ (exists s i, seen = s ++ [i] /\ unsettled wait pending s <> ∅) /\
   resumed context (format_wait_all_summary outcomes) r) \/
  (left <> ∅ /\ 0 < timeout /\ (exists s, seen = s ++ [WiTimer]) /\
   resumed context
     (format_wait_all_summary (outcomes ++ map (timed_out_item timeout) (elements left))) r).

Lemma wait_all_ended_cons wait context pending pending' items items' i seen rest r :
  pending' <> ∅ ->
  unsettled wait pending (i :: seen) = unsettled wait pending' seen ->
  (forall s, unsettled wait pending (i :: s) = unsettled wait pending' s) ->
  items ++ map format_wait_all_item (settled wait pending (i :: seen)) =
    items' ++ map format_wait_all_item (settled wait pending' seen) ->
  wait_all_ended wait context pending' items' seen rest r ->
  wait_all_ended wait context pending items (i :: seen) rest r.
Proof.
  intros Hp Hu Hus Hi. unfold wait_all_ended. rewrite Hu, Hi.
  intros [H|[(H1 & (s & j & -> & Hs) & H2)|(H1 & H2 & (s & ->) & H3)]].
  - by left.
  - right; left. split_and!; [done| |done]. exists (i :: s), j. by rewrite Hus.
  - right; right. split_and!; [done|done| |done]. by exists (i :: s).
Qed.

Definition wait_all_ends (wait : WaitCondition) (context : ConversationContext)
    (pending : gset string) (items : list string) (rx : list WaitInput)
    (o : result ExecError ExecutionState * World) : Prop :=
  exists seen, rx = seen ++ w_rx o.2 /\
    wait_all_ended wait context pending items seen (w_rx o.2) o.1.

Lemma unsettled_nil wait pending : unsettled wait pending [] = pending.
Proof. unfold unsettled, settled, outcome_ids. simpl. set_solver. Qed.

(** An input that settles nothing is passed over. *)
Lemma wait_all_skip wait context pending items i rx o :
  pending <> ∅ ->
  match received_outcome ctx wait i with
  | Some out => bool_decide (outcome_id out ∈ pending) = false
  | None => True
  end ->
  wait_all_ends wait context pending items rx o ->
  wait_all_ends wait context pending items (i :: rx) o.
Proof.
  intros Hp Hi (seen & Hs & He). exists (i :: seen). split; [by rewrite Hs at 1|].
  eapply wait_all_ended_cons; [exact Hp| | | |exact He]; intros;
    rewrite ?settled_cons, ?unsettled_cons;
    (destruct (received_outcome ctx wait i); [by rewrite Hi|done]).
Qed.

(** An outcome that leaves others pending is noted. *)
Lemma wait_all_note wait context pending items i out rx o :
  received_outcome ctx wait i = Some out -> bool_decide (outcome_id out ∈ pending) = true ->
  pending ∖ {[outcome_id out]} <> ∅ ->
  wait_all_ends wait context (pending ∖ {[outcome_id out]}) (items ++ [format_wait_all_item out]) rx o ->
  wait_all_ends wait context pending items (i :: rx) o.
Proof.
  intros Ho Hid Hp (seen & Hs & He). exists (i :: seen). split; [by rewrite Hs at 1|].
  eapply wait_all_ended_cons; [exact Hp| | | |exact He]; intros;
    rewrite ?settled_cons, ?unsettled_cons, Ho, Hid; try done.
  simpl. by rewrite <- app_assoc.
Qed.

(** The outcome that settles the last of them resumes the turn. *)
Lemma wait_all_last wait context pending items i out rx w :
  pending <> ∅ -> w_rx w = rx ->
  received_outcome ctx wait i = Some out -> bool_decide (outcome_id out ∈ pending) = true ->
  pending ∖ {[outcome_id out]} = ∅ ->
  wait_all_ends wait context pending items (i :: rx)
    ((c ← inject_wait_message ctx context
            (format_wait_all_summary (items ++ [format_wait_all_item out]));
      mret (BeforeLlmCall c)) w).
Proof.
  intros Hp Hrx Ho Hid He.
  destruct (inject_run context (format_wait_all_summary (items ++ [format_wait_all_item out])) w)
    as (r & w2 & -> & Hr & Hrx2 & _).
  exists [i]. simpl. rewrite Hrx2, Hrx. split; [done|]. right; left.
  rewrite settled_cons, unsettled_cons, Ho, Hid, He.
  split_and!; [by rewrite unsettled_nil|exists [], i; by rewrite unsettled_nil|exact Hr].
Qed.

(** The timer, when there is one, gives up on what is pending. *)
Lemma wait_all_timer wait context pending items rx w :
  pending <> ∅ -> w_rx w = rx -> 0 < ac_delegation_wait_timeout_secs config ->
  wait_all_ends wait context pending items (WiTimer :: rx)
    ((cleanup_timed_out_delegations (elements pending) ≫= fun _ =>
      c ← inject_wait_message ctx context (format_wait_all_summary
            (items ++ map (timed_out_item (ac_delegation_wait_timeout_secs config)) (elements pending)));
      mret (BeforeLlmCall c)) w).
Proof.
  intros Hp Hrx Ht. unfold mbind at 1, M_bind at 1.
  destruct (cleanup_run (elements pending) w) as (w2 & -> & H2 & _).
  match goal with |- context [inject_wait_message ctx context ?m] =>
    destruct (inject_run context m w2) as (r & w3 & -> & Hr & H3 & _) end.
  exists [WiTimer]. simpl. rewrite H3, H2, Hrx. split; [done|]. right; right.
  assert (unsettled wait pending [WiTimer] = pending) as -> by exact (unsettled_nil wait pending).
  assert (settled wait pending [WiTimer] = []) as -> by done.
  rewrite app_nil_r. split_and!; [done|done|by exists []|exact Hr].
Qed.

Lemma wait_all_loop wait context pending items rx w :
  env_cancel_at = None -> pending <> ∅ -> w_rx w = rx ->
  wait_all_ends wait context pending items rx (wait_all config ctx wait context pending items rx w).
Proof.
  intros Hc. revert pending items w. induction rx as [|i rx IH]; intros pending items w Hp Hrx;
    cbn [wait_all]; unfold mbind at 1, M_bind at 1; rewrite select_uncancelled by done.
  - exists []. split; [done|]. left. by rewrite unsettled_nil.
  - unfold mbind at 1, M_bind at 1, modify at 1. set (w1 := set_rx rx (set_now S w)).
    assert (received_outcome ctx wait i = None ->
      wait_all_ends wait context pending items (i :: rx)
        (wait_all config ctx wait context pending items rx w1)) as Hskip.
    { intros Ho. apply wait_all_skip; [done|by rewrite Ho|by apply IH]. }
    destruct i as [e| |]; [|by apply Hskip|].
    + destruct (received_outcome ctx wait (WiEvent e)) as [o|] eqn:Eo; [|by apply Hskip].
      destruct (bool_decide (outcome_id o ∈ pending)) eqn:Eid.
      * cbv zeta. destruct (bool_decide (pending ∖ {[outcome_id o]} = ∅)) eqn:Ee.
        -- apply bool_decide_eq_true in Ee. by apply wait_all_last.
        -- apply bool_decide_eq_false in Ee.
           by apply wait_all_note with o; [..|apply IH].
      * apply wait_all_skip; [done|by rewrite Eo|by apply IH].
    + destruct (0 <? ac_delegation_wait_timeout_secs config) eqn:Et; [|by apply Hskip].
      apply Z.ltb_lt in Et. by apply wait_all_timer.
Qed.

Lemma wait_any_loop wait context rx w :
  env_cancel_at = None -> w_rx w = rx ->
  let '(r, w') := wait_any ctx wait context rx w in
  match omap (received_outcome ctx wait) rx with
  | [] => r = Ok (closed_state context) /\ w_rx w' = []
  | o :: later =>
      resumed context (format_wait_outcome o) r /\
      omap (received_outcome ctx wait) (w_rx w') = later
  end.
Proof.
  intros Hc. revert w. induction rx as [|i rx IH]; intros w Hrx; cbn [wait_any];
    unfold mbind at 1, M_bind at 1; rewrite select_uncancelled by done; [done|].
  unfold mbind at 1, M_bind at 1, modify at 1. rewrite omap_cons.
  destruct (received_outcome ctx wait i) as [o|]; [|by apply IH].
  destruct (inject_run context (format_wait_outcome o) (set_rx rx (set_now S w)))
    as (r & w1 & -> & Hr & H1 & _). by rewrite H1.
Qed.

(** Whatever the cancellation does, a wait ends in one of three ways and
    writes at most its message. *)
Definition waited (context : ConversationContext) (st : ExecutionState) : Prop :=
  (st = Cancelled /\ env_cancel_at <> None) \/ st = closed_state context \/
  exists c, st = BeforeLlmCall c /\ cc_stats c = cc_stats context.

Definition wait_result (context : ConversationContext) (w : World)
    (r : result ExecError ExecutionState) (w' : World) : Prop :=
  (exists l, w_history w' = w_history w ++ l /\ Forall silent l) /\
  match r with Ok st => waited context st | Err e => e <> OutOfFuel end.

Lemma resumed_result context message r w w' :
  resumed context message r ->
  (exists l, w_history w' = w_history w ++ l /\ Forall silent l) -> wait_result context w r w'.
Proof.
  intros Hr Hl. split; [exact Hl|]. destruct Hr as [->|(s & t & _ & ->)]; [|done].
  right; right. by eexists.
Qed.

Lemma wait_result_same context w st : waited context st -> wait_result context w (Ok st) (set_now S w).
Proof. intros H. split; [|exact H]. exists []. by rewrite app_nil_r. Qed.

Lemma select_run {A} (f : nat -> A) w :
  exists o, select_cancel f w = (Ok o, set_now S w) /\ (o = None -> env_cancel_at <> None).
Proof.
  unfold select_cancel, cancelled_at. destruct env_cancel_at; simpl; [|by eexists].
  destruct (_ && _); by eexists.
Qed.

Lemma wait_all_result wait context pending items rx w :
  let '(r, w') := wait_all config ctx wait context pending items rx w in wait_result context w r w'.
Proof.
  revert pending items w. induction rx as [|i rx IH]; intros pending items w; cbn [wait_all];
    unfold mbind at 1, M_bind at 1; destruct (select_run (fun _ => tt) w) as ([[]|] & -> & Hc);
    try (apply wait_result_same; left; split; [done|by apply Hc]).
  - apply wait_result_same. by right; left.
  - unfold mbind at 1, M_bind at 1, modify at 1. set (w1 := set_rx rx (set_now S w)).
    assert (forall p its, let '(r, w') := wait_all config ctx wait context p its rx w1 in
      wait_result context w r w') as Hgo by (intros p its; exact (IH p its w1)).
    assert (forall m, let '(r, w') := (c ← inject_wait_message ctx context m; mret (BeforeLlmCall c)) w1 in
      wait_result context w r w') as Hin.
    { intros m. destruct (inject_run context m w1) as (r & w2 & -> & Hr & _ & Hl).
      by eapply resumed_result. }
    assert (let '(r, w') := match received_outcome ctx wait i with
        | None => wait_all config ctx wait context pending items rx
        | Some outcome =>
            if bool_decide (outcome_id outcome ∈ pending) then
              let pending := pending ∖ {[outcome_id outcome]} in
              let outcomes := items ++ [format_wait_all_item outcome] in
              if bool_decide (pending = ∅) then
                new_context ← inject_wait_message ctx context (format_wait_all_summary outcomes);
                mret (BeforeLlmCall new_context)
              else wait_all config ctx wait context pending outcomes rx
            else wait_all config ctx wait context pending items rx
        end w1 in wait_result context w r w') as Hev.
    { destruct (received_outcome ctx wait i) as [o|]; [|apply Hgo]. cbv zeta.
      destruct (bool_decide (outcome_id o ∈ pending)); [|apply Hgo].
      destruct (bool_decide (pending ∖ {[outcome_id o]} = ∅)); [apply Hin|apply Hgo]. }
    destruct i as [e| |]; try exact Hev.
    destruct (0 <? ac_delegation_wait_timeout_secs config); [|apply Hgo].
    cbv zeta. unfold mbind at 1, M_bind at 1.
    destruct (cleanup_run (elements pending) w1) as (w2 & -> & _ & H2).
    match goal with |- context [inject_wait_message ctx context ?m] =>
      destruct (inject_run context m w2) as (r & w3 & -> & Hr & _ & l & Hl & Hs) end.
    eapply resumed_result; [exact Hr|]. exists l. by rewrite Hl, H2.
Qed.

Lemma wait_any_result wait context rx w :
  let '(r, w') := wait_any ctx wait context rx w in wait_result context w r w'.
Proof.
  revert w. induction rx as [|i rx IH]; intros w; cbn [wait_any];
    unfold mbind at 1, M_bind at 1; destruct (select_run (fun _ => tt) w) as ([[]|] & -> & Hc);
    try (apply wait_result_same; left; split; [done|by apply Hc]).
  - apply wait_result_same. by right; left.
  - unfold mbind at 1, M_bind at 1, modify at 1. set (w1 := set_rx rx (set_now S w)).
    destruct (received_outcome ctx wait i) as [o|]; [|exact (IH w1)].
    destruct (inject_run context (format_wait_outcome o) w1) as (r & w2 & -> & Hr & _ & Hl).
    by eapply resumed_result.
Qed.

Lemma waiting_result wait context w :
  let '(r, w') := transition_waiting_for_event config ctx wait context w in
  wait_result context w r w'.
Proof.
  unfold transition_waiting_for_event. unfold mbind at 1, M_bind at 1. rewrite is_cancelled_run.
  destruct (cancelled_at (w_now w)) eqn:Ec.
  { apply wait_result_same. left. split; [done|by eapply cancelled_some]. }
  destruct (negb _); [apply wait_result_same; right; right; by eexists|].
  unfold mbind, M_bind, gets.
  destruct (bool_decide (ac_delegation_wait_policy config = DwAny)).
  - apply (wait_any_result wait context _ (set_now S w)).
  - cbv zeta. destruct (bool_decide (_ = ∅)).
    + apply wait_result_same. right; right. by eexists.
    + apply (wait_all_result wait context _ _ _ (set_now S w)).
Qed.
End wait.
