(* ===== verification/HistoryProps.v ===== *)
(** Properties of the stored history: what pruning and compaction do to it
    (which messages they add, which parts they change), and the effective
    history the model sees. *)
From S2P Require Import Prelude Numbers Text Json Chat LlmErrors Domain Events Model ExecState.
From S2P Require Import Driver Pruning Hooks World Limits AgentConfig Compaction Retry CallLlm.
From S2P Require Import ModelCall ToolCalls Transitions Maintenance Fixtures Pairing.

Local Open Scope Z_scope.

Section history.
Context {J : Json} {Ev : Env} (config : AgentConfig) (ctx : ExecutionContext).

(** ** Pruning *)

Lemma store_call_run {A} (f : World -> A * World) w :
  (exists e, env_store_error (w_now w) = Some e /\ store_call f w = (Ok (Err e), set_now S w)) \/
  store_call f w = (Ok (Ok (f (set_now S w)).1), (f (set_now S w)).2).
Proof.
  unfold store_call. destruct (env_store_error (w_now w)) as [e|]; [left; by exists e|right].
  by destruct (f (set_now S w)).
Qed.

(** The call ids the pruning of a history selects. *)
Definition pruned_ids (h : list AgentMessage) : list string :=
  let analysis := @compute_prune_candidates _ (session_estimator ctx) h (prune_config config) in
  if pa_should_prune analysis then extract_call_ids (pa_candidates analysis) else [].

Lemma mark_part_nil now p : mark_part_compacted now [] p = p.
Proof. by destruct p as [| | | | | |? ? ? ? ? []| | | | | |]. Qed.

Lemma mark_nil now (h : list AgentMessage) : map (mark_message now []) h = h.
Proof.
  induction h as [|m h IH]; [done|]. simpl. rewrite IH. f_equal. destruct m. unfold mark_message.
  simpl. f_equal. induction am_parts as [|p l IHl]; [done|]. simpl. by rewrite mark_part_nil, IHl.
Qed.

(** The pruning marks the results it selects, all of them, or nothing. *)
Lemma run_pruning_spec w :
  let '(r, w') := run_pruning config ctx w in
  w_events w' = w_events w /\
  match r with
  | Ok _ => exists now, w_history w' = map (mark_message now (pruned_ids (w_history w))) (w_history w)
  | Err e => w_history w' = w_history w /\ e <> OutOfFuel /\
             exists t s, env_store_error t = Some s
  end.
Proof.
  unfold run_pruning, store_get_history. unfold mbind at 1, M_bind at 1.
  destruct (store_call_run (fun w => (w_history w, w)) w) as [(e & He & ->)| ->]; simpl.
  { split_and!; [done|done|done|by eexists _, _]. }
  run_ret. cbv zeta. unfold pruned_ids. set (analysis := compute_prune_candidates _ _).
  destruct (pa_should_prune analysis) eqn:Es; cbn [andb];
    [|split; [done|exists 0; by rewrite mark_nil]].
  destruct (is_nil (pa_candidates analysis)) eqn:En; cbn [negb].
  { split; [done|]. exists 0. destruct (pa_candidates analysis); [|done]. by rewrite mark_nil. }
  unfold mbind, M_bind.
  match goal with |- context [store_call ?f ?w1] =>
    destruct (store_call_run f w1) as [(e & He & ->)| ->] end; simpl.
  - split_and!; [done|done|done|by eexists _, _].
  - split; [done|]. by eexists.
Qed.

(** Marking changes neither the ids a message uses nor those it answers. *)
Lemma mark_message_ids now ids m :
  used_ids (mark_message now ids m) = used_ids m /\
  answered_ids (mark_message now ids m) = answered_ids m.
Proof.
  unfold used_ids, answered_ids, mark_message. cbn [am_parts].
  induction (am_parts m) as [|p l [IH1 IH2]]; [done|]. cbn [map]. rewrite !omap_cons, IH1, IH2.
  destruct p as [| | | | | |id c e n a [|]| | | | | |]; try done.
  unfold mark_part_compacted. by destruct (bool_decide _).
Qed.

(** ** Compaction *)

(** What a compaction leaves: nothing stored, the request alone, or the
    request and the summary. *)
Definition compaction_pair (request_id summary_id : string) (now : Z) (res : CompactionResult)
    : list AgentMessage :=
  let '(q, s) := create_compaction_messages request_id summary_id now (ex_session_id ctx)
                   (cres_summary res) (cres_original_token_count res) in [q; s].

Lemma compaction_pair_silent r s now res : Forall silent (compaction_pair r s now res).
Proof. by repeat constructor. Qed.

Lemma ends_compaction_attempts debug messages retry first backoff left :
  ends any finite (compaction_attempts debug messages retry first backoff left).
Proof.
  revert first backoff. induction left as [|left IH]; intros first backoff; cbn [compaction_attempts].
  all: apply (ends_bind any); [destruct first; [by apply ends_ret|apply ends_modify]|intros _ _].
  all: apply (ends_bind any).
  all: try (unfold compaction_call; destruct env_supports_streaming; ends_auto).
  all: intros [text|e] _; [by apply ends_ret|]; destruct (is_mesh_timeout_error e);
    try by apply ends_throw.
Qed.

Lemma ends_summarize messages n : ends any finite (summarize config ctx messages n).
Proof.
  unfold summarize, prefix_err, compaction_process, compaction_call_with_retry, build_provider.
  apply (ends_bind any); [ends_auto|intros p _].
  apply (ends_bind any); [intros w; by destruct p|intros _ _].
  apply (ends_bind any); [destruct (ex_llm_config ctx); ends_auto|intros _ _].
  apply (ends_bind any); [|ends_auto].
  intros w. apply wp_map_err. apply wp_bind.
  eapply wp_mono; [apply ends_compaction_attempts|]. intros [a|[]] w' H; done.
Qed.

Lemma keeps_summarize P messages n : keeps (on_history P) (summarize config ctx messages n).
Proof.
  unfold summarize, prefix_err, compaction_process, compaction_call_with_retry, build_provider.
  repeat first [apply keeps_map_err | by apply keeps_compaction_attempts | keeps_step; cbn beta iota].
Qed.

Lemma store_compaction_spec res w :
  let '(r, w') := store_compaction ctx res w in
  exists q s now,
  match r with
  | Ok _ => w_history w' = w_history w ++ compaction_pair q s now res
  | Err e => e <> OutOfFuel /\
      exists l, l `prefix_of` compaction_pair q s now res /\ w_history w' = w_history w ++ l
  end.
Proof.
  unfold store_compaction, fresh_uuid, unix_time, add_message, store_add_message.
  unfold mbind at 1 2 3, M_bind at 1 2 3, ask. cbn beta iota zeta.
  set (q := env_uuid (w_now w)). set (w1 := set_now S w).
  set (s := env_uuid (w_now w1)). set (w2 := set_now S w1).
  set (now := env_unix_time (w_now w2)). set (w3 := set_now S w2).
  unfold create_compaction_messages. unfold mbind at 1, M_bind at 1.
  match goal with |- context [store_call ?f w3] =>
    destruct (store_call_run f w3) as [(e & He & ->)| ->] end; cbn beta iota.
  { exists q, s, now. split; [done|]. exists []. split; [apply prefix_nil|by rewrite app_nil_r]. }
  unfold mbind at 1 2, M_bind at 1 2. cbn [or_throw mret M_ret].
  match goal with |- context [store_call ?f ?w4] =>
    destruct (store_call_run f w4) as [(e & He & ->)| ->] end; cbn.
  - exists q, s, now. split; [done|]. eexists [_]. split; [|reflexivity].
    unfold compaction_pair, create_compaction_messages. by eexists [_].
  - exists q, s, now. rewrite <- app_assoc. done.
Qed.

Lemma effective_history_run w :
  (exists e, env_store_error (w_now w) = Some e /\
     get_effective_agent_history w = (Ok (Err e), set_now S w)) \/
  get_effective_agent_history w =
    (Ok (Ok (filter_to_effective_history (w_history w))), set_now S w).
Proof.
  unfold get_effective_agent_history, store_get_history, mbind, M_bind, store_call.
  destruct (env_store_error (w_now w)) as [e|]; [left; by exists e|by right].
Qed.

(** The state after a compaction: on the effective history, statistics kept
    but for the context tokens. *)
Definition compacted (current : ExecutionState) (h : list AgentMessage) (st : ExecutionState)
    : Prop :=
  exists c0 c, state_context current = Some c0 /\ st = BeforeLlmCall c /\
    cc_messages c = map (fun m => to_chat_message_with_max_prompt_bytes m (ex_max_prompt_bytes ctx))
                      (filter_to_effective_history h) /\
    cc_stats c = with_context_tokens (cc_stats c0)
      (estimate_messages_tokens (filter_to_effective_history h) (ex_max_prompt_bytes ctx)).

Lemma compacted_state_spec current w :
  let '(r, w') := compacted_state ctx current w in
  w_history w' = w_history w /\
  match r with Ok st => compacted current (w_history w) st | Err e => e <> OutOfFuel end.
Proof.
  unfold compacted_state. unfold mbind at 1, M_bind at 1.
  destruct (effective_history_run w) as [(e & He & ->)| ->]; [done|].
  cbn [or_throw]. run_ret. cbv zeta. destruct (state_context current) as [c0|] eqn:E; cbn; [|done].
  split; [done|]. by eexists _, _.
Qed.

Definition compaction_result (current : ExecutionState) (w : World)
    (r : result ExecError ExecutionState) (w' : World) : Prop :=
  match r with
  | Ok st =>
      (w_history w' = w_history w /\
       exists msg, st = Stopped msg ContextThreshold (state_context current)) \/
      (exists q s now res, w_history w' = w_history w ++ compaction_pair q s now res /\
       compacted current (w_history w') st)
  | Err e => e <> OutOfFuel /\
      exists l, Forall silent l /\ w_history w' = w_history w ++ l
  end.

Lemma emit_notices_run l w :
  exists w', emit_notices l w = (Ok tt, w') /\ w_history w' = w_history w /\ w_now w' = w_now w.
Proof.
  revert w. induction l as [|n l IH]; intros w; [by exists w|].
  cbn [emit_notices mapM_]. unfold mbind, M_bind. rewrite emit_event_run.
  match goal with |- context [mapM_ _ l ?w1] => destruct (IH w1) as (w2 & E & H1 & H2) end.
  unfold emit_notices in E. rewrite E. by exists w2.
Qed.

Lemma run_ai_compaction_spec current w :
  let '(r, w') := run_ai_compaction config ctx current w in compaction_result current w r w'.
Proof.
  unfold run_ai_compaction. unfold mbind at 1, M_bind at 1.
  destruct (effective_history_run w) as [(e & He & ->)| ->].
  { split; [done|]. exists []. by rewrite app_nil_r. }
  cbn [or_throw]. run_ret. cbv zeta. unfold mbind at 1, M_bind at 1, ask. set (w1 := set_now S w).
  set (h := filter_to_effective_history (w_history w)).
  destruct (env_pre_compaction (w_now w1) _) as [h1|s].
  2:{ split; [done|]. exists []. by rewrite app_nil_r. }
  cbn [or_throw]. run_ret. unfold mbind at 1, M_bind at 1.
  destruct (emit_notices_run (pcr_notices h1) (set_now S w1)) as (w2 & -> & H2 & _). cbn in H2.
  destruct (pcr_should_block h1); [left; split; [exact H2|by eexists]|].
  unfold mbind at 1, M_bind at 1. rewrite emit_event_run.
  match goal with |- context [set_events ?f ?x] => set (w3 := set_events f x) end.
  assert (w_history w3 = w_history w) as H3 by exact H2. unfold mbind at 1, M_bind at 1.
  pose proof (ends_summarize h (u32_of_nat (length h)) w3) as Hs.
  pose proof (keeps_summarize (fun l => l = w_history w) h (u32_of_nat (length h)) w3 H3) as Hk.
  unfold wp in *. destruct (summarize config ctx h _ w3) as [[res|e] w4].
  2:{ split; [exact Hs|]. exists []. by rewrite app_nil_r. }
  unfold on_history in Hk. unfold mbind at 1, M_bind at 1.
  pose proof (store_compaction_spec res w4) as Hc.
  destruct (store_compaction ctx res w4) as [[[]|e] w5]; destruct Hc as (q & s & now & Hc).
  2:{ destruct Hc as (He & l & Hl & H5). split; [done|]. exists l. split; [|by rewrite H5, Hk].
      destruct Hl as [l' Hl]. pose proof (compaction_pair_silent q s now res) as Hf.
      rewrite Hl in Hf. by apply Forall_app in Hf as [? _]. }
  unfold mbind at 1, M_bind at 1. rewrite emit_event_run.
  match goal with |- context [set_events ?f w5] => set (w6 := set_events f w5) end.
  pose proof (compacted_state_spec current w6) as Hst.
  destruct (compacted_state ctx current w6) as [[st|e] w7]; destruct Hst as [H7 Hst].
  - right. exists q, s, now, res. rewrite H7. split; [cbn; by rewrite Hc, Hk|exact Hst].
  - split; [done|]. exists (compaction_pair q s now res).
    split; [apply compaction_pair_silent|]. rewrite H7. cbn. by rewrite Hc, Hk.
Qed.
End history.

(** ** Properties *)


(** ** The effective history *)

(** the effective history is made of a suffix of the stored one, which
    starts at the newest compaction request when there is one and is
    everything otherwise; the messages that only hold snapshots are left out
    and neighbouring tool-result messages merged, so that no part of the
    others is lost, reordered or repeated and no two tool-result messages
    follow each other. *)
Theorem effective_history_is_suffix {J : Json} h :
  exists dropped kept, h = dropped ++ kept /\
    (dropped <> [] ->
     exists m rest, kept = m :: rest /\ has_compaction_request m = true) /\
    Forall (fun m => has_compaction_request m = false) (tail kept) /\
    all_parts (filter_to_effective_history h) = all_parts (List.filter not_snapshot_only kept) /\
    no_adjacent is_user_tool_result (filter_to_effective_history h).
Proof.
  unfold filter_to_effective_history. rewrite merge_consecutive_parts.
  destruct (from_last has_compaction_request h) as [kept|] eqn:E; simpl.
  - destruct (from_last_suffix _ _ _ E) as [dropped Hd].
    destruct (from_last_head _ _ _ E) as (m & rest & -> & Hm & Hr).
    exists dropped, (m :: rest). split_and!; try done; [by eexists _, _|].
    apply merge_consecutive_no_adjacent.
  - exists [], h. split_and!; try done; [|apply merge_consecutive_no_adjacent].
    apply from_last_none in E. destruct h; [done|]. by inversion E.
Qed.

(** ** Compaction *)

Lemma effective_after_pair {J : Json} ctx h q s now res :
  filter_to_effective_history (h ++ compaction_pair ctx q s now res) = compaction_pair ctx q s now res.
Proof.
  assert (from_last has_compaction_request (h ++ compaction_pair ctx q s now res) =
    Some (compaction_pair ctx q s now res)) as E.
  { induction h as [|m h IH]; [done|]. simpl. by rewrite IH. }
  unfold filter_to_effective_history. by rewrite E.
Qed.

(** a compaction that succeeds appends one request and one summary to the
    stored history and goes on in a context whose only messages are those two,
    with the statistics unchanged but for the context tokens; one that a hook
    blocks stops and stores nothing; one that fails stores at most the
    beginning of the pair, and never runs on for ever. *)
Theorem compaction_replaces_context {J : Json} {Ev : Env} config ctx current w :
  match run_ai_compaction config ctx current w with
  | (Ok (BeforeLlmCall c), w') =>
      exists q s now res c0, state_context current = Some c0 /\
        w_history w' = w_history w ++ compaction_pair ctx q s now res /\
        cc_messages c = map (fun m => to_chat_message_with_max_prompt_bytes m (ex_max_prompt_bytes ctx))
                          (compaction_pair ctx q s now res) /\
        cc_stats c = with_context_tokens (cc_stats c0)
          (estimate_messages_tokens (compaction_pair ctx q s now res) (ex_max_prompt_bytes ctx))
  | (Ok (Stopped _ ContextThreshold o), w') =>
      o = state_context current /\ w_history w' = w_history w
  | (Ok _, _) => False
  | (Err e, w') =>
      e <> OutOfFuel /\ exists l, Forall silent l /\ w_history w' = w_history w ++ l
  end.
Proof.
  pose proof (run_ai_compaction_spec config ctx current w) as H.
  destruct (run_ai_compaction config ctx current w) as [[st|e] w']; simpl in H; [|done].
  destruct H as [[Hw (msg & ->)]|(q & s & now & res & Hw & c0 & c & Hc & -> & Hm & Hst)]; [done|].
  exists q, s, now, res, c0. rewrite Hw, effective_after_pair in Hm, Hst. done.
Qed.

(** ** Pruning *)

(** the pruning analysis: of the eligible tool results (older than the two
    newest user messages, newer than the last compaction, not compacted, not of
    a protected tool), taken message by message from the newest, the first ones
    are protected until their tokens reach the window; all the others are
    candidates, when together they reach the minimum; otherwise none is. *)
Theorem prune_analysis_spec {J : Json} (estimator : ContentCostEstimator) messages config :
  let '(protected, rest) :=
    split_protected (pc_protect_tokens config) 0 (eligible_results messages config) in
  protected ++ rest = eligible_results messages config /\
  compute_prune_candidates messages config =
  {| pa_protected_tokens := sum_tokens 0 protected;
     pa_prunable_tokens := sum_tokens 0 rest;
     pa_candidates := if pc_minimum_tokens config <=? sum_tokens 0 rest then rest else [];
     pa_should_prune := pc_minimum_tokens config <=? sum_tokens 0 rest |}.
Proof.
  pose proof (split_protected_app (pc_protect_tokens config) 0 (eligible_results messages config)) as Ha.
  unfold compute_prune_candidates. rewrite prune_walk_spec.
  destruct (split_protected _ 0 _) as [protected rest]. by split.
Qed.

Lemma mark_part_content {J : Json} now ids p :
  mark_part_compacted now ids p = p \/
  exists id content e n a, p = MpToolResult id content e n a None /\ id ∈ ids /\
    mark_part_compacted now ids p = MpToolResult id content e n a (Some now).
Proof.
  destruct p as [| | | | | |id content e n a [|]| | | | | |]; try by left.
  simpl. destruct (bool_decide (id ∈ ids)) eqn:E; [right|by left].
  apply bool_decide_eq_true in E. by exists id, content, e, n, a.
Qed.

(** pruning is all or nothing and touches nothing but the compaction mark:
    it either fails with the history as it was, or leaves every message in its
    place and every part what it was, except that tool results which were not
    marked and whose call id is selected are marked with the time. *)
Theorem pruning_only_marks_results {J : Json} {Ev : Env} config ctx w :
  match run_pruning config ctx w with
  | (Ok _, w') => exists now,
      w_history w' = map (mark_message now (pruned_ids config ctx (w_history w))) (w_history w) /\
      forall m p, m ∈ w_history w -> p ∈ am_parts m ->
        let p' := mark_part_compacted now (pruned_ids config ctx (w_history w)) p in
        p' = p \/
        exists id content e n a, p = MpToolResult id content e n a None /\
          id ∈ pruned_ids config ctx (w_history w) /\
          p' = MpToolResult id content e n a (Some now)
  | (Err e, w') => w_history w' = w_history w /\ exists t s, env_store_error t = Some s
  end.
Proof.
  pose proof (run_pruning_spec config ctx w) as H.
  destruct (run_pruning config ctx w) as [[?|e] w']; destruct H as [_ H].
  - destruct H as [now H]. exists now. split; [done|]. intros m p _ _. apply mark_part_content.
  - by destruct H as (? & ? & ?).
Qed.

Section prune_example.
#[local] Existing Instance toy_json.

Definition use_message (id call : string) : AgentMessage :=
  {| am_id := id; am_session_id := "s"; am_role := Assistant;
     am_parts := [MpToolUse (an_llm_call call "read" "{}")];
     am_created_at := 0; am_parent_message_id := None; am_source_provider := None;
     am_source_model := None |}.
Definition answer_message (id call text : string) : AgentMessage :=
  {| am_id := id; am_session_id := "s"; am_role := User;
     am_parts := [MpToolResult call [CText text] false (Some "read") None None];
     am_created_at := 0; am_parent_message_id := None; am_source_provider := None;
     am_source_model := None |}.

(** One user turn with three rounds of tool calls. *)
Definition one_long_turn : list AgentMessage :=
  [user_message "u1" "fix the bug";
   use_message "a1" "c1"; answer_message "r1" "c1" "the file that is being worked on";
   use_message "a2" "c2"; answer_message "r2" "c2" "test output";
   use_message "a3" "c3"; answer_message "r3" "c3" "more test output"].

(** messages with tool results have the user role too, so they count as
    the turns that pruning means to skip: a result of the only, still running
    turn of a session is selected. *)
Theorem pruning_reaches_current_turn :
  extract_call_ids (pa_candidates
    (@compute_prune_candidates _ generic_estimator one_long_turn
       {| pc_protect_tokens := 0; pc_minimum_tokens := 1; pc_protected_tools := [] |})) = ["c1"].
Proof. vm_compute. reflexivity. Qed.
End prune_example.
