(* ===== verification/CycleInv.v ===== *)
(** The invariant of the execution cycle: every tool use in the stored history
    is answered by the very next message, but for those the cycle is still
    working on. *)
From S2P Require Import Prelude Numbers Text Json Chat LlmErrors Domain Events Model ExecState.
From S2P Require Import Driver Pruning Hooks World Limits ContextMw DelegationMw AgentConfig.
From S2P Require Import Compaction Retry CallLlm ModelCall ToolCalls Transitions Wait.
From S2P Require Import Maintenance Machine Pairing WaitSpec HistoryProps.

Local Open Scope Z_scope.

(** ** Well-behaved middleware

    What the cycle relies on of a driver: it does not write messages, it does
    not touch the calls that are being processed, and it does not make up
    responses or calls. *)
Section interface.
Context {J : Json} {Ev : Env}.

Definition respects (st st' : ExecutionState) : Prop :=
  match st, st' with
  | ProcessingToolCalls calls rs _, ProcessingToolCalls calls' rs' _ => calls' = calls /\ rs' = rs
  | ProcessingToolCalls _ _ _, _ => False
  | _, ProcessingToolCalls _ _ _ => False
  | AfterLlm r _, AfterLlm r' _ => r' = r
  | _, AfterLlm _ _ => False
  | _, _ => True
  end.

Class WellBehaved (d : MiddlewareDriver World) : Prop := {
  wb_history : forall P p st, keeps (on_history P) (phase_handler d p st);
  wb_respects : forall p st w st' w', phase_handler d p st w = (Ok st', w') -> respects st st';
}.

Lemma respects_refl st : respects st st.
Proof. by destruct st. Qed.

Lemma respects_trans s1 s2 s3 : respects s1 s2 -> respects s2 s3 -> respects s1 s3.
Proof. destruct s1, s2, s3; simpl; try done; try congruence. intros [-> ->] [-> ->]. done. Qed.

Lemma run_phase_respects d p st w st' w' :
  Forall WellBehaved d -> run_phase d p st w = (Ok st', w') -> respects st st'.
Proof.
  intros H. revert st w. induction H as [|dr d Hdr _ IH]; intros st w; cbn [run_phase].
  - intros [= <- _]. apply respects_refl.
  - unfold mbind, M_bind. destruct (phase_handler dr p st w) as [[s1|e] w1] eqn:E; [|done].
    pose proof (wb_respects _ _ _ _ _ E) as Hr. destruct (is_terminal p s1).
    + by intros [= <- _].
    + intros Hrun. eapply respects_trans; [exact Hr|by eapply IH].
Qed.

Lemma run_phase_history P d p st :
  Forall WellBehaved d -> keeps (on_history P) (run_phase d p st).
Proof.
  intros H. apply keeps_run_phase. eapply Forall_impl; [exact H|].
  intros dr Hdr s. apply wb_history.
Qed.

(** ** The built-in drivers are well behaved *)

(** A driver whose handlers give nothing but the state, a rebuilt
    [BeforeLlmCall] or a stop. *)
Definition gentle (st st' : ExecutionState) : Prop :=
  st' = st \/
  match st with
  | BeforeLlmCall _ => match st' with BeforeLlmCall _ | Stopped _ _ _ => True | _ => False end
  | AfterLlm _ _ => match st' with Stopped _ _ _ => True | _ => False end
  | _ => False
  end.

Lemma gentle_respects st st' : gentle st st' -> respects st st'.
Proof.
  intros [->|H]; [apply respects_refl|]. destruct st, st'; done.
Qed.

Definition gentle_handler (h : handler (S:=World)) : Prop :=
  (forall P st, keeps (on_history P) (h st)) /\
  forall st w st' w', h st w = (Ok st', w') -> gentle st st'.

Lemma gentle_pass : gentle_handler pass.
Proof. split; [intros; apply keeps_ret|]. intros st w st' w' [= <- _]. by left. Qed.

Lemma well_behaved_of (d : MiddlewareDriver World) :
  gentle_handler (on_turn_start d) -> gentle_handler (on_step_start d) ->
  gentle_handler (on_after_llm d) -> gentle_handler (on_processing_tool_calls d) ->
  gentle_handler (on_turn_end d) -> WellBehaved d.
Proof.
  intros H1 H2 H3 H4 H5. split.
  - intros P p st. destruct p; [apply H1|apply H2|apply H3|apply H4|apply H5].
  - intros p st w st' w' E. apply gentle_respects.
    destruct p; [eapply H1|eapply H2|eapply H3|eapply H4|eapply H5]; exact E.
Qed.

(** A handler that computes its state without effects. *)
Lemma gentle_pure (f : ExecutionState -> ExecutionState) :
  (forall st, gentle st (f st)) -> gentle_handler (fun st => mret (f st)).
Proof.
  intros H. split; [intros; apply keeps_ret|]. intros st w st' w' [= <- _]. apply H.
Qed.
End interface.

#[export] Hint Resolve gentle_pass : qmt.

Section drivers.
Context {J : Json} {Ev : Env}.

#[export] Instance LimitsMiddleware_wb idx config : WellBehaved (LimitsMiddleware idx config).
Proof.
  apply well_behaved_of; try apply gentle_pass. split.
  - intros P [c| | | | | | |] w Hw; try exact Hw. unfold wp. simpl.
    unfold limits_check_provider_changed, modify, mbind, M_bind. by destruct (bool_decide _).
  - intros st w st' w' E. pose proof (limits_on_step_start_result idx config st w) as H.
    simpl in E. rewrite E in H. simpl in H. injection H as ->. destruct st as [c| | | | | | |];
      try by left. rewrite limits_decide_reached. unfold reached_limits.
    right. repeat (case_match; simpl; try done).
Qed.

#[export] Instance MaxSteps_wb n : WellBehaved (MaxStepsMiddleware n).
Proof.
  apply well_behaved_of; try apply gentle_pass. apply gentle_pure.
  intros [c| | | | | | |]; try by left. destruct (_ <=? _); [by right|by left].
Qed.
#[export] Instance TurnLimit_wb n : WellBehaved (TurnLimitMiddleware n).
Proof.
  apply well_behaved_of; try apply gentle_pass. apply gentle_pure.
  intros [c| | | | | | |]; try by left. destruct (_ <=? _); [by right|by left].
Qed.
#[export] Instance PriceLimit_wb c : WellBehaved (PriceLimitMiddleware c).
Proof.
  apply well_behaved_of; try apply gentle_pass. apply gentle_pure.
  intros [x| | | | | | |]; try by left. cbv zeta. destruct (f64_gt _ _); [by right|by left].
Qed.
#[export] Instance ContextMiddleware_wb idx config : WellBehaved (ContextMiddleware idx config).
Proof.
  apply well_behaved_of; try apply gentle_pass.
  assert (forall c w, w_history (context_check_provider_changed idx c w) = w_history w) as Hc.
  { intros c w. unfold context_check_provider_changed. by destruct (bool_decide _). }
  assert (forall s a b w, w_history (should_warn idx config s a b w).2 = w_history w) as Hs.
  { intros s a b w. unfold should_warn. repeat case_match; done. }
  assert (forall st w, gentle st (context_step idx config st w).1 /\
    w_history (context_step idx config st w).2 = w_history w) as H.
  { intros st w. destruct st as [c| | | | | | |]; try (split; [by left|done]). unfold context_step.
    set (w1 := context_check_provider_changed idx c w). specialize (Hc c w). fold w1 in Hc.
    destruct (_ =? 0); [split; [by left|exact Hc]|].
    destruct (_ && _); [split; [by right|exact Hc]|].
    match goal with |- context [should_warn idx config ?s ?a ?b w1] =>
      specialize (Hs s a b w1); destruct (should_warn idx config s a b w1) as [[msg|] w2] end;
      simpl in *; (split; [by (right + left)|congruence]). }
  split.
  - intros P st w Hw. unfold wp. simpl. unfold context_on_step_start, on_history in *.
    destruct (H st w) as [_ Hh]. destruct (context_step idx config st w). simpl in Hh. by rewrite Hh.
  - intros st w st' w'. simpl. unfold context_on_step_start. destruct (H st w) as [Hg _].
    destruct (context_step idx config st w). simpl in Hg. by intros [= <- _].
Qed.
#[export] Instance AgentMode_wb r : WellBehaved (AgentModeMiddleware r).
Proof.
  apply well_behaved_of; try apply gentle_pass. apply gentle_pure.
  intros [c| | | | | | |]; try by left. destruct (r _); [by right|by left].
Qed.

Lemma inject_agents_gentle inject agents c :
  gentle (BeforeLlmCall c) (inject_agents inject agents (BeforeLlmCall c) c).
Proof. unfold inject_agents. destruct inject; [|by left]. destruct (is_empty_str _); [by left|by right]. Qed.

#[export] Instance DelegationContext_wb timing agents :
  WellBehaved (DelegationContextMiddleware timing agents).
Proof.
  apply well_behaved_of; try apply gentle_pass. apply gentle_pure.
  intros [c| | | | | | |]; try by left. apply inject_agents_gentle.
Qed.

Lemma mw_store_keeps {A} P (f : World -> A * World) :
  (forall w, w_history (f w).2 = w_history w) -> keeps (on_history P) (mw_store f).
Proof.
  intros Hf w Hw. unfold wp, mw_store. destruct (env_store_error (w_now w)); [done|].
  specialize (Hf (set_now S w)). destruct (f (set_now S w)). simpl in Hf.
  unfold on_history in *. by rewrite Hf.
Qed.

Lemma check_last_message_keeps P g show : keeps (on_history P) (check_last_message g show).
Proof.
  assert (forall hash target l, keeps (on_history P) (check_delegations g show hash target l)) as Hd.
  { intros hash target l. induction l as [|d l IH]; cbn [check_delegations]; [apply keeps_ret|].
    destruct (same_delegation hash target d); [|exact IH].
    destruct (del_status d); try exact IH; try apply keeps_ret.
    destruct (_ <=? _); [apply keeps_ret|]. destruct (del_completed_at d); [|exact IH].
    apply keeps_bind; [intros w Hw; exact Hw|]. intros now. cbv zeta.
    destruct (_ <? _); [apply keeps_ret|exact IH]. }
  assert (forall parts, keeps (on_history P) (check_parts g show parts)) as Hp.
  { intros parts. induction parts as [|part parts IH]; cbn [check_parts]; [apply keeps_ret|].
    destruct (delegate_args part) as [[target objective]|]; [|exact IH].
    apply keeps_bind; [|intros [x|]; [apply keeps_ret|exact IH]].
    unfold check_delegation_allowed, mw_list_delegations.
    apply keeps_bind; [by apply mw_store_keeps|]. intros [l|]; [apply Hd|apply keeps_ret]. }
  unfold check_last_message, mw_get_history. apply keeps_bind; [by apply mw_store_keeps|].
  intros [h|]; [|apply keeps_ret]. destruct (last h); [|apply keeps_ret].
  destruct (bool_decide _); [apply Hp|apply keeps_ret].
Qed.

(** Stopping after a check, or not. *)
Lemma gentle_check (m : M World string (option string)) (stop : string -> ExecutionState) resp c :
  (forall x, match stop x with Stopped _ _ _ => True | _ => False end) ->
  forall w st' w', (warning ← m; mret match warning with Some x => stop x | None => AfterLlm resp c end) w
                   = (Ok st', w') -> gentle (AfterLlm resp c) st'.
Proof.
  intros Hs w st' w'. unfold mbind, M_bind. destruct (m w) as [[[x|]|e] w1]; [| |done].
  - intros [= <- _]. right. apply Hs.
  - intros [= <- _]. by left.
Qed.

#[export] Instance DelegationGuard_wb g : WellBehaved (DelegationGuardMiddleware g).
Proof.
  apply well_behaved_of; try apply gentle_pass. split.
  - intros P [| |r c| | | | |]; try apply keeps_ret. simpl.
    apply keeps_bind; [apply check_last_message_keeps|intros; apply keeps_ret].
  - intros [| |r c| | | | |] w st' w'; try (intros [= <- _]; by left). simpl.
    apply (gentle_check _ (fun _ => Stopped "Delegation blocked by guard" DelegationBlocked (Some c))).
    done.
Qed.
#[export] Instance Delegation_wb config agents : WellBehaved (DelegationMiddleware config agents).
Proof.
  apply well_behaved_of; try apply gentle_pass.
  - apply gentle_pure. intros [c| | | | | | |]; try by left. apply inject_agents_gentle.
  - split.
    + intros P [| |r c| | | | |]; try apply keeps_ret. simpl. destruct (negb _); [apply keeps_ret|].
      apply keeps_bind; [apply check_last_message_keeps|intros; apply keeps_ret].
    + intros [| |r c| | | | |] w st' w'; try (intros [= <- _]; by left). simpl.
      destruct (negb _); [intros [= <- _]; by left|].
      by apply (gentle_check _ (fun x => Stopped x DelegationBlocked (Some c))).
Qed.
#[export] Instance DuplicateToolCall_wb idx : WellBehaved (DuplicateToolCallMiddleware idx).
Proof.
  apply well_behaved_of; try apply gentle_pass. split.
  - intros P [c| | | | | | |]; try apply keeps_ret. simpl.
    apply keeps_bind; [|intros; apply keeps_ret].
    unfold check_for_duplicates, mw_get_history. apply keeps_bind; [by apply mw_store_keeps|].
    intros [h|]; [|apply keeps_ret]. apply keeps_updating. intros w Hw. cbv zeta.
    destruct (_ <=? _)%nat; exact Hw.
  - intros [c| | | | | | |] w st' w'; try (intros [= <- _]; by left). simpl.
    unfold mbind, M_bind. destruct (check_for_duplicates idx (cc_session_id c) w) as [[[x|]|e] w1];
      [| |done]; intros [= <- _]; [by right|by left].
Qed.
#[export] Instance TaskAutoCompletion_wb : WellBehaved TaskAutoCompletionMiddleware.
Proof.
  apply well_behaved_of; try apply gentle_pass. split.
  - intros P [| |r c| | | | |]; try apply keeps_ret. simpl.
    destruct (has_tool_calls r); [apply keeps_ret|].
    unfold auto_complete, mw_list_delegations.
    repeat first [by apply mw_store_keeps | keeps_step; cbn beta iota].
  - intros [| |r c| | | | |] w st' w'; try (intros [= <- _]; by left). simpl.
    destruct (has_tool_calls r); [intros [= <- _]; by left|]. unfold mbind, M_bind.
    destruct (auto_complete w) as [[u|e] w1]; [|done]. intros [= <- _]. by left.
Qed.
End drivers.

(** ** Open calls of a history *)

Section invariant.
Context {J : Json} {Ev : Env} (config : AgentConfig) (ctx : ExecutionContext).

(** The tool uses the newest message leaves open, when every message answers
    exactly the uses of the one before it. *)
Fixpoint open_calls (pending : list string) (h : list AgentMessage) : option (list string) :=
  match h with
  | [] => Some pending
  | m :: rest =>
      if bool_decide (answered_ids m = pending) then open_calls (used_ids m) rest else None
  end.

Definition paired (h : list AgentMessage) : Prop := open_calls [] h = Some [].

Lemma open_calls_app p h1 h2 :
  open_calls p (h1 ++ h2) = q ← open_calls p h1; open_calls q h2.
Proof.
  revert p. induction h1 as [|m h IH]; intros p; [done|]. simpl.
  destruct (bool_decide _); [apply IH|done].
Qed.

Lemma open_calls_silent l : Forall silent l -> open_calls [] l = Some [].
Proof.
  induction 1 as [|m l [Hu Ha] _ IH]; [done|]. simpl. rewrite Ha, Hu.
  by rewrite bool_decide_eq_true_2.
Qed.

Lemma paired_silent h l : paired h -> Forall silent l -> paired (h ++ l).
Proof. intros Hh Hl. unfold paired. rewrite open_calls_app, Hh. simpl. by apply open_calls_silent. Qed.

Lemma open_calls_marked now ids p h : open_calls p (map (mark_message now ids) h) = open_calls p h.
Proof.
  revert p. induction h as [|m h IH]; intros p; [done|]. cbn [map open_calls].
  destruct (mark_message_ids now ids m) as [-> ->]. by rewrite IH.
Qed.

(** ** The invariant *)

(** Responses with tool calls do not claim to have stopped otherwise. *)
Definition announced (calls : list string) (reason : option FinishReason) : Prop :=
  calls <> [] ->
  (reason <> Some FrStop) /\ (reason <> Some FrLength) /\ (reason <> Some FrContentFilter).

Definition announces_calls : Prop := forall messages tools r,
  from_model messages tools r -> announced (map tc_id (cl_tool_calls r)) (cl_finish_reason r).

Definition invariant (st : ExecutionState) (h : list AgentMessage) : Prop :=
  match st with
  | ProcessingToolCalls calls rs _ =>
      open_calls [] h = Some (map tr_call_id rs ++ map mtc_id calls) /\ Forall plain_result rs
  | AfterLlm r _ => paired h /\ announced (map mtc_id (lr_tool_calls r)) (lr_finish_reason r)
  | _ => paired h
  end.

Definition open_history (h : list AgentMessage) : Prop := exists ids, open_calls [] h = Some ids.

Lemma paired_open h : paired h -> open_history h.
Proof. intros H. by exists []. Qed.

Lemma invariant_open st h : invariant st h -> open_history h.
Proof. destruct st; simpl; try apply paired_open; intros [H _]; by eexists. Qed.

Lemma invariant_respects st st' h : respects st st' -> invariant st h -> invariant st' h.
Proof.
  destruct st, st'; simpl; try done; try (intros _ [? ?]; done); try (by intros []).
  all: try (intros ->; done). all: try (intros [-> ->]; done).
Qed.

(** What an iteration may end with. *)
Definition next_ok (n : Next) (h : list AgentMessage) : Prop :=
  match n with
  | Continue st _ => invariant st h
  | Return _ => paired h
  end.

Definition step_result (r : result ExecError Next) (w' : World) : Prop :=
  match r with
  | Ok n => next_ok n (w_history w')
  | Err _ => open_history (w_history w')
  end.

Lemma middleware_spec d p st w :
  Forall WellBehaved d -> invariant st (w_history w) ->
  let '(r, w') := run_middleware (run_phase d p) st w in
  w_history w' = w_history w /\
  match r with
  | Ok st' => invariant st' (w_history w') /\ respects st st'
  | Err e => e <> OutOfFuel
  end.
Proof.
  intros Hd Hi. unfold run_middleware, map_err.
  pose proof (run_phase_history (fun l => l = w_history w) d p st Hd w eq_refl) as Hh.
  pose proof (run_phase_respects d p st w) as Hr. unfold wp in Hh.
  destruct (run_phase d p st w) as [[st'|e] w']; (split; [exact Hh|]); [|done].
  specialize (Hr st' w' Hd eq_refl). split; [|exact Hr].
  unfold on_history in Hh. rewrite Hh. by eapply invariant_respects.
Qed.

(** The stored response leaves its calls open, when it announced them. *)
Lemma stored_response_invariant response context h st h' :
  paired h -> announced (map mtc_id (lr_tool_calls response)) (lr_finish_reason response) ->
  stored_response response context h st h' -> invariant st h'.
Proof.
  intros Hp Ha (snap & m & c & -> & Hs & _ & Hu & Hans & _ & _ & _ & ->).
  assert (open_calls [] (h ++ snap ++ [m]) = Some (map mtc_id (lr_tool_calls response))) as Ho.
  { rewrite open_calls_app, Hp. simpl. rewrite open_calls_app, open_calls_silent by done. simpl.
    rewrite Hans, Hu. by rewrite bool_decide_eq_true_2. }
  unfold next_state, announced in *.
  destruct (lr_tool_calls response) as [|call calls] eqn:El.
  - destruct (lr_finish_reason response) as [[]|]; exact Ho.
  - destruct Ha as (H1 & H2 & H3); [done|].
    destruct (lr_finish_reason response) as [[]|]; try done; (split; [exact Ho|constructor]).
Qed.

Hypothesis Hdrivers : Forall WellBehaved (create_driver config).
Hypothesis Hannounces : announces_calls.

Lemma announced_response r : announced (map tc_id (cl_tool_calls r)) (cl_finish_reason r) ->
  announced (map mtc_id (lr_tool_calls (response_of r))) (lr_finish_reason (response_of r)).
Proof.
  assert (map mtc_id (lr_tool_calls (response_of r)) = map tc_id (cl_tool_calls r)) as ->.
  { unfold response_of. destruct (cl_message_id r); simpl; by rewrite map_map. }
  assert (lr_finish_reason (response_of r) = cl_finish_reason r) as ->; [|done].
  unfold response_of. by destruct (cl_message_id r).
Qed.

Lemma finish_turn_spec initial st k w :
  paired (w_history w) ->
  let '(r, w') := finish_turn config ctx initial st k w in step_result r w'.
Proof.
  intros Hp. unfold finish_turn, ask. unfold mbind at 1, M_bind at 1.
  destruct (env_stop (w_now w) _) as [h|s]; [|by apply paired_open].
  cbn [or_throw]. run_ret. unfold mbind at 1, M_bind at 1.
  destruct (emit_notices_run (srs_notices h) (set_now S w)) as (w1 & -> & H1 & _).
  destruct (srs_should_continue h && _); [by unfold step_result, mret, M_ret; simpl; rewrite H1|].
  destruct (pr_enabled (ep_pruning (ac_execution_policy config))).
  - unfold mbind, M_bind, attempt. pose proof (run_pruning_spec config ctx w1) as Hr.
    destruct (run_pruning config ctx w1) as [[u|e] w2]; destruct Hr as [_ Hr]; simpl.
    + destruct Hr as [now Hr]. unfold paired. rewrite Hr, open_calls_marked, H1. exact Hp.
    + destruct Hr as [Hr _]. by rewrite Hr, H1.
  - run_ret. unfold step_result, mret, M_ret. simpl. by rewrite H1.
Qed.

Lemma step_complete_spec initial k w :
  paired (w_history w) ->
  let '(r, w') := step_complete config ctx (create_driver config) initial k w in step_result r w'.
Proof.
  intros Hp. unfold step_complete. unfold mbind at 1, M_bind at 1.
  pose proof (middleware_spec (create_driver config) PhTurnEnd Complete w Hdrivers Hp) as H.
  unfold run_turn_end. destruct (run_middleware _ Complete w) as [[st|e] w1]; destruct H as [Hh H].
  - destruct H as [Hi _]. destruct st; try exact Hi. by apply finish_turn_spec.
  - simpl. rewrite Hh. by apply paired_open.
Qed.

Lemma report_stop_spec st msg t w :
  paired (w_history w) -> let '(r, w') := report_stop st msg t w in step_result r w'.
Proof. intros Hp. exact Hp. Qed.

Lemma step_stopped_spec st msg t k w :
  paired (w_history w) -> let '(r, w') := step_stopped config ctx st msg t k w in step_result r w'.
Proof.
  intros Hp. unfold step_stopped. destruct (_ && _); [|by apply report_stop_spec].
  unfold mbind, M_bind, attempt. pose proof (run_ai_compaction_spec config ctx st w) as H.
  destruct (run_ai_compaction config ctx st w) as [[st'|e] w1]; simpl in H.
  - unfold mret, M_ret. simpl.
    destruct H as [[Hh [m ->]]|(q & s & now & res & Hh & c0 & c & _ & -> & _)]; simpl; rewrite Hh;
      [done|]. apply paired_silent; [done|apply compaction_pair_silent].
  - destruct H as (_ & l & Hl & Hh). apply report_stop_spec. rewrite Hh. by apply paired_silent.
Qed.

Lemma waiting_spec wait c k w :
  paired (w_history w) ->
  let '(r, w') := (s ← transition_waiting_for_event config ctx wait c; mret (Continue s k)) w in
  step_result r w'.
Proof.
  intros Hp. unfold mbind, M_bind. pose proof (waiting_result config ctx wait c w) as H.
  destruct (transition_waiting_for_event config ctx wait c w) as [[st|e] w1];
    destruct H as [(l & Hh & Hl) H]; pose proof (paired_silent _ _ Hp Hl) as Hp1; rewrite <- Hh in Hp1.
  - destruct H as [[-> _]|[->|(c' & -> & _)]]; exact Hp1.
  - by apply paired_open.
Qed.

(** Every iteration of the loop keeps the invariant. *)
(** What an iteration leaves behind, state by state. *)
Abbreviation step_ok initial st k w :=
  (let '(r, w') := step_machine config ctx (create_driver config) initial st k w in
   step_result r w').

Lemma before_llm_call_run c w st w' :
  transition_before_llm_call config ctx c w = (Ok st, w') ->
  st = Cancelled \/ exists tools, st = CallLlm c tools.
Proof.
  unfold transition_before_llm_call. intros E.
  apply bind_inv_ok in E as (b & w3 & _ & E). destruct b; [injection E as <- _; by left|].
  apply bind_inv_ok in E as (p & w4 & _ & E). apply bind_inv_ok in E as (u & w5 & _ & E).
  apply bind_inv_ok in E as (mcp & w6 & _ & E). cbv zeta in E.
  destruct (env_tools_json _); [|done].
  apply bind_inv_ok in E as (h & w7 & _ & E). apply bind_inv_ok in E as (v & w8 & _ & E).
  injection E as <- _. right. by eexists.
Qed.

Lemma step_before_llm initial c k w :
  paired (w_history w) -> step_ok initial (BeforeLlmCall c) k w.
Proof.
  intros Hi. cbn [step_machine]. unfold mbind at 1, M_bind at 1, run_step_start.
  pose proof (middleware_spec (create_driver config) PhStepStart (BeforeLlmCall c) w Hdrivers Hi) as H.
  destruct (run_middleware _ (BeforeLlmCall c) w) as [[st|e] w1]; destruct H as [Hh H];
    [|simpl; rewrite Hh; by apply paired_open].
  destruct H as [Hi1 _]. destruct st as [c1| | | | | | |]; try exact Hi1.
  unfold mbind at 1, M_bind at 1.
  assert (keeps (on_history paired) (transition_before_llm_call config ctx c1)) as Hk.
  { unfold transition_before_llm_call, is_cancelled, build_provider. cbv zeta.
    repeat first [keeps_step; cbn beta iota | by apply keeps_modify]. }
  specialize (Hk w1 Hi1). unfold wp in Hk.
  pose proof (before_llm_call_run c1 w1) as Hst.
  destruct (transition_before_llm_call config ctx c1 w1) as [[st|e] w2]; [|by apply paired_open].
  destruct (Hst st w2 eq_refl) as [->|[tools ->]]; exact Hk.
Qed.

Lemma step_call_llm initial c tools k w :
  paired (w_history w) -> step_ok initial (CallLlm c tools) k w.
Proof.
  intros Hi. cbn [step_machine]. unfold mbind, M_bind.
  pose proof (call_llm_spec config ctx c tools w) as H.
  destruct (transition_call_llm config ctx c tools w) as [[st|e] w1].
  - destruct H as [Hh [[-> _]|(r & -> & Hm)]]; simpl; rewrite Hh; [done|].
    split; [done|]. apply announced_response. by eapply Hannounces.
  - destruct H as [_ Hh]. simpl. rewrite Hh. by apply paired_open.
Qed.

Lemma step_after_llm initial resp c k w :
  invariant (AfterLlm resp c) (w_history w) -> step_ok initial (AfterLlm resp c) k w.
Proof.
  intros Hi. cbn [step_machine]. unfold mbind at 1, M_bind at 1, run_after_llm.
  pose proof (middleware_spec (create_driver config) PhAfterLlm (AfterLlm resp c) w Hdrivers Hi) as H.
  destruct (run_middleware _ (AfterLlm resp c) w) as [[st|e] w1]; destruct H as [Hh H];
    [|simpl; rewrite Hh; by eapply invariant_open].
  destruct H as [Hi1 _]. destruct st as [| |resp1 c1| | | | |]; try exact Hi1.
  unfold mbind, M_bind. destruct Hi1 as [Hp1 Ha1].
  pose proof (after_llm_spec ctx resp1 c1 w1) as H.
  destruct (transition_after_llm ctx resp1 c1 w1) as [[st|e] w2].
  - destruct H as [(_ & -> & H2)|[_ H2]]; simpl; [by rewrite H2|].
    by eapply stored_response_invariant.
  - destruct H as (_ & _ & snap & H2 & Hs). simpl. rewrite H2.
    apply paired_open. by apply paired_silent.
Qed.

Lemma step_processing initial calls rs c k w :
  invariant (ProcessingToolCalls calls rs c) (w_history w) ->
  step_ok initial (ProcessingToolCalls calls rs c) k w.
Proof.
  intros Hi. cbn [step_machine]. unfold mbind at 1, M_bind at 1, run_processing_tool_calls.
  pose proof (middleware_spec (create_driver config) PhProcessingToolCalls
    (ProcessingToolCalls calls rs c) w Hdrivers Hi) as H.
  destruct (run_middleware _ (ProcessingToolCalls calls rs c) w) as [[st|e] w1]; destruct H as [Hh H];
    [|simpl; rewrite Hh; by eapply invariant_open].
  destruct H as [Hi1 Hr]. destruct st as [| | |calls1 rs1 c1| | | |]; try done.
  unfold mbind, M_bind. destruct Hi1 as [Ho Hplain].
  pose proof (processing_spec config ctx calls1 rs1 c1 w1 Hplain) as H.
  destruct (transition_processing_tool_calls config ctx calls1 rs1 c1 w1) as [[st|e] w2].
  - destruct H as (m & H2 & _ & Ha & Hu & Hst).
    assert (paired (w_history w2)) as Hp2.
    { unfold paired. rewrite H2, open_calls_app, Ho. simpl. rewrite Ha, Hu.
      by rewrite bool_decide_eq_true_2. }
    destruct Hst as [[-> _]|(c2 & _ & _ & [->|(wt & -> & _)])]; exact Hp2.
  - destruct H as [H2 _]. simpl. rewrite H2. by eexists.
Qed.

Lemma step_machine_spec initial st k w :
  invariant st (w_history w) -> step_ok initial st k w.
Proof.
  intros Hi. destruct st.
  - by apply step_before_llm.
  - by apply step_call_llm.
  - by apply step_after_llm.
  - by apply step_processing.
  - by apply waiting_spec.
  - by apply step_complete_spec.
  - by apply step_stopped_spec.
  - exact Hi.
Qed.

(** The loop: open calls only when it was cancelled or failed. *)
Definition cycle_result (r : result ExecError CycleOutcome) (w' : World) : Prop :=
  open_history (w_history w') /\
  (env_cancel_at = None -> is_ok r = true -> paired (w_history w')).

Lemma run_machine_spec fuel initial st k w :
  invariant st (w_history w) ->
  let '(r, w') := run_machine config ctx fuel (create_driver config) initial st k w in
  cycle_result r w'.
Proof.
  revert st k w. induction fuel as [|fuel IH]; intros st k w Hi; cbn [run_machine].
  { split; [by eapply invariant_open|done]. }
  unfold mbind at 1, M_bind at 1. rewrite is_cancelled_run.
  destruct (cancelled_at (w_now w)) eqn:Ec.
  { split; [by eapply invariant_open|]. intros Hc. unfold cancelled_at in Ec. by rewrite Hc in Ec. }
  unfold mbind, M_bind. pose proof (step_machine_spec initial st k (set_now S w) Hi) as H.
  destruct (step_machine config ctx (create_driver config) initial st k (set_now S w)) as [[n|e] w1].
  - destruct n as [st' k'|o]; simpl in H; [by apply IH|].
    split; [by apply paired_open|done].
  - by split.
Qed.

Lemma cycle_spec fuel mode w :
  paired (w_history w) ->
  let '(r, w') := execute_cycle_state_machine config ctx fuel mode w in cycle_result r w'.
Proof.
  intros Hp. unfold execute_cycle_state_machine. unfold mbind at 1, M_bind at 1.
  pose proof (keeps_session_history (on_history paired) ctx (fun w H => H) w Hp) as Hk. unfold wp in Hk.
  destruct (session_history ctx w) as [[messages|e] w1]; [|split; [by apply paired_open|done]].
  destruct (ex_llm_config ctx) as [c|]; [|split; [by apply paired_open|done]].
  cbv zeta. unfold mbind, M_bind, run_turn_start.
  pose proof (middleware_spec (create_driver config) PhTurnStart
    (BeforeLlmCall (initial_context_of ctx mode c messages)) w1 Hdrivers Hk) as H.
  destruct (run_middleware _ _ w1) as [[st|e] w2]; destruct H as [Hh H].
  - destruct H as [Hi _]. by apply run_machine_spec.
  - split; [|done]. rewrite Hh. by apply paired_open.
Qed.
End invariant.
