(* ===== verification/Termination.v ===== *)
(** Termination of the execution cycle under a step limit: with a provider
    that reports its usage, the loop of [execute_cycle_state_machine] ends,
    within a number of iterations that the limit gives. *)
From S2P Require Import Prelude Numbers Text Json Chat LlmErrors Domain Events Model ExecState.
From S2P Require Import Driver Pruning Hooks World Limits ContextMw DelegationMw AgentConfig.
From S2P Require Import Compaction Retry CallLlm ModelCall ToolCalls Transitions Wait.
From S2P Require Import Maintenance Machine Pairing WaitSpec HistoryProps.

Local Open Scope Z_scope.

Section calm.
Context {J : Json} {Ev : Env}.

(** A driver that keeps the counters and never asks for a compaction. *)
Definition calm_step (st st' : ExecutionState) : Prop :=
  match st' with
  | Stopped _ t _ => t <> ContextThreshold
  | Cancelled | Complete => True
  | BeforeLlmCall c' =>
      match st with BeforeLlmCall c => cc_stats c' = cc_stats c | _ => False end
  | AfterLlm r' c' =>
      match st with AfterLlm r c => r' = r /\ cc_stats c' = cc_stats c | _ => False end
  | ProcessingToolCalls calls' rs' c' =>
      match st with
      | ProcessingToolCalls calls rs c => calls' = calls /\ rs' = rs /\ cc_stats c' = cc_stats c
      | _ => False
      end
  | CallLlm _ _ | WaitingForEvent _ _ => False
  end.

(** The states the phases are run on, none of them a compaction stop. *)
Definition phase_state (st : ExecutionState) : Prop :=
  match st with
  | BeforeLlmCall _ | AfterLlm _ _ | ProcessingToolCalls _ _ _ | Complete => True
  | Stopped _ t _ => t <> ContextThreshold
  | _ => False
  end.

Class Calm (d : MiddlewareDriver World) : Prop :=
  calm : forall p st w st' w', phase_state st ->
    phase_handler d p st w = (Ok st', w') -> calm_step st st'.

Lemma calm_refl st : phase_state st -> calm_step st st.
Proof. by destruct st. Qed.

Lemma calm_trans s1 s2 s3 : calm_step s1 s2 -> calm_step s2 s3 -> calm_step s1 s3.
Proof.
  destruct s3; simpl; try done; destruct s2; simpl; try done; destruct s1; simpl; try done;
    intuition congruence.
Qed.

Lemma calm_phase_state p st st' :
  calm_step st st' -> is_terminal p st' = false -> phase_state st'.
Proof. destruct p, st'; simpl; try done; by destruct st. Qed.

Lemma run_phase_calm d p st w st' w' :
  Forall Calm d -> phase_state st -> run_phase d p st w = (Ok st', w') -> calm_step st st'.
Proof.
  intros H. revert st w. induction H as [|dr d Hdr _ IH]; intros st w Hst; cbn [run_phase].
  { intros [= <- _]. by apply calm_refl. }
  unfold mbind, M_bind. destruct (phase_handler dr p st w) as [[s1|e] w1] eqn:E; [|done].
  apply calm in E; [|done]. destruct (is_terminal p s1) eqn:Et; [by intros [= <- _]|].
  intros Hrun. eapply calm_trans; [exact E|].
  eapply IH; [|exact Hrun]. by eapply calm_phase_state.
Qed.

(** The limits stop with their own stop types. *)
Lemma limits_decide_stop config c st :
  limits_decide config c = Some st -> exists msg t, st = Stopped msg t (Some c) /\ t <> ContextThreshold.
Proof.
  rewrite limits_decide_reached. unfold reached_limits.
  repeat (case_match; simpl; try done); intros [= <-]; eexists _, _; done.
Qed.

#[export] Instance LimitsMiddleware_calm idx config : Calm (LimitsMiddleware idx config).
Proof.
  intros p st w st' w' Hst E.
  assert (st' = st \/ exists c, st = BeforeLlmCall c /\ limits_decide config c = Some st') as [->|H].
  { destruct p; try (injection E as <- _; by left).
    pose proof (limits_on_step_start_result idx config st w) as H. simpl in E. rewrite E in H.
    injection H as ->. destruct st; try by left.
    destruct (limits_decide config context) eqn:Ed; [right|by left]. by exists context. }
  - by apply calm_refl.
  - destruct H as (c & -> & H). apply limits_decide_stop in H as (msg & t & -> & Ht). exact Ht.
Qed.

(** A handler that only rewrites the messages of a [BeforeLlmCall]. *)
#[export] Instance AgentMode_calm r : Calm (AgentModeMiddleware r).
Proof.
  intros p st w st' w' Hst E. destruct p; try (injection E as <- _; by apply calm_refl).
  injection E as <- _. destruct st; try by apply calm_refl. simpl. by destruct (r _).
Qed.

#[export] Instance TaskAutoCompletion_calm : Calm TaskAutoCompletionMiddleware.
Proof.
  intros p st w st' w' Hst E. assert (st' = st) as ->; [|by apply calm_refl].
  destruct p; try (by injection E). simpl in E. unfold auto_on_after_llm in E.
  destruct st; try (by injection E). destruct (has_tool_calls response); [by injection E|].
  unfold mbind, M_bind in E. destruct (auto_complete w) as [[u|e] w1]; [by injection E|done].
Qed.
End calm.

(** ** The measure *)

Section termination.
Context {J : Json} {Ev : Env} (config : AgentConfig) (ctx : ExecutionContext) (n : Z).

Hypothesis Hn : 0 <= n < 2 ^ 63.
Hypothesis Hmax : ac_max_steps config = Some n.
Hypothesis Hcalm : Forall Calm (ac_middleware_drivers config).

Definition reports_usage : Prop := forall messages tools r,
  from_model messages tools r -> cl_usage r <> None.
Hypothesis Husage : reports_usage.

Definition steps_of (c : ConversationContext) : Z := st_steps (cc_stats c).

(** The states the cycle goes through under the limit. *)
Definition legit (st : ExecutionState) : Prop :=
  match st with
  | BeforeLlmCall c | WaitingForEvent c _ => 0 <= steps_of c <= n
  | CallLlm c _ => 0 <= steps_of c < n
  | AfterLlm r c => 0 <= steps_of c < n /\ lr_usage r <> None
  | ProcessingToolCalls _ rs c => 0 <= steps_of c <= n /\ Forall plain_result rs
  | Stopped _ t _ => t <> ContextThreshold
  | Complete | Cancelled => True
  end.

(** Iterations left in the turn, at most. *)
Definition phase_measure (st : ExecutionState) : Z :=
  match st with
  | BeforeLlmCall c => 5 * (n - steps_of c) + 3
  | CallLlm c _ => 5 * (n - steps_of c) + 2
  | AfterLlm _ c => 5 * (n - steps_of c) + 1
  | ProcessingToolCalls _ _ c => 5 * (n - steps_of c) + 5
  | WaitingForEvent c _ => 5 * (n - steps_of c) + 4
  | Complete => 2
  | Stopped _ _ _ | Cancelled => 1
  end.

(** One stop-hook continuation starts the turn over. *)
Definition measure (st : ExecutionState) (k : nat) : Z :=
  phase_measure st + (1 - Z.min 1 (Z.of_nat k)) * (5 * n + 4).

Lemma phase_measure_pos st : legit st -> 1 <= phase_measure st.
Proof. destruct st; simpl; lia. Qed.

Lemma measure_pos st k : legit st -> 1 <= measure st k.
Proof. intros H. pose proof (phase_measure_pos st H). unfold measure. nia. Qed.

Definition iteration_ok (initial : ConversationContext) (st : ExecutionState) (k : nat)
    (r : result ExecError Next) : Prop :=
  match r with
  | Ok (Continue st' k') => legit st' /\ measure st' k' < measure st k
  | Ok (Return _) => True
  | Err e => e <> OutOfFuel
  end.

Lemma iteration_next initial st k st' :
  legit st' -> phase_measure st' < phase_measure st -> iteration_ok initial st k (Ok (Continue st' k)).
Proof. intros H1 H2. split; [done|]. unfold measure. lia. Qed.

Lemma middleware_error d p st w e w' :
  run_middleware (run_phase d p) st w = (Err e, w') -> e <> OutOfFuel.
Proof.
  unfold run_middleware, map_err. destruct (run_phase d p st w) as [[?|?] ?]; [done|].
  by intros [= <- _].
Qed.

Lemma middleware_calm d p st w st' w' :
  Forall Calm d -> phase_state st -> run_middleware (run_phase d p) st w = (Ok st', w') ->
  calm_step st st'.
Proof.
  intros Hd Hst. unfold run_middleware, map_err.
  destruct (run_phase d p st w) as [[s|?] ?] eqn:E; [|done].
  intros [= <- _]. by eapply run_phase_calm.
Qed.

Lemma driver_calm : Forall Calm (create_driver config).
Proof.
  unfold create_driver. rewrite Hmax. apply Forall_app_2; [|done].
  constructor; [apply _|constructor].
Qed.

(** The built-in limit lets no step past the limit. *)
Lemma step_start_below c w c' w' :
  run_middleware (run_step_start (create_driver config)) (BeforeLlmCall c) w =
    (Ok (BeforeLlmCall c'), w') -> steps_of c < n /\ steps_of c' = steps_of c.
Proof.
  unfold run_middleware, map_err, run_step_start, create_driver. rewrite Hmax.
  cbn [app run_phase]. unfold mbind, M_bind.
  set (cfg := with_max_steps limits_default n).
  pose proof (limits_on_step_start_result limits_driver_index cfg (BeforeLlmCall c) w) as H.
  change (phase_handler (LimitsMiddleware limits_driver_index cfg) PhStepStart)
    with (limits_on_step_start limits_driver_index cfg).
  destruct (limits_on_step_start limits_driver_index cfg (BeforeLlmCall c) w) as [[s1|e] w1]; [|done].
  simpl in H. injection H as ->.
  unfold limits_decide. cbn [cfg with_max_steps lc_max_steps lc_max_turns lc_max_price_usd limits_default].
  fold (steps_of c). destruct (n <=? steps_of c) eqn:E; simpl; [done|]. apply Z.leb_gt in E.
  destruct (run_phase (ac_middleware_drivers config) PhStepStart (BeforeLlmCall c) w1)
    as [[s2|?] ?] eqn:Er; [|done].
  intros [= -> _]. apply run_phase_calm in Er; [|done|done]. simpl in Er.
  unfold steps_of in *. by rewrite Er.
Qed.

Lemma before_ok initial c k w :
  legit (BeforeLlmCall c) ->
  iteration_ok initial (BeforeLlmCall c) k
    (step_machine config ctx (create_driver config) initial (BeforeLlmCall c) k w).1.
Proof.
  intros Hl. cbn [step_machine]. unfold mbind at 1, M_bind at 1.
  destruct (run_middleware (run_step_start (create_driver config)) (BeforeLlmCall c) w)
    as [[st|e] w1] eqn:E; [|by eapply middleware_error].
  destruct st as [c1| | | | | |msg t o|]; try (apply middleware_calm in E; [|apply driver_calm|done]; done).
  - apply step_start_below in E as [Hlt Heq].
    assert (ends (fun st => st = Cancelled \/ exists tools, st = CallLlm c1 tools) finite
      (transition_before_llm_call config ctx c1)) as He.
    { unfold transition_before_llm_call, is_cancelled, build_provider.
      apply (ends_bind any); [apply ends_ask|intros b _].
      destruct b; [apply ends_ret; by left|].
      apply (ends_bind any); [ends_auto|intros p _].
      apply (ends_bind any); [intros w2; by destruct p|intros _ _].
      apply (ends_bind any); [apply ends_ask|intros mcp _]. cbv zeta.
      destruct (env_tools_json _); [|by apply ends_throw].
      apply (ends_bind any); [apply ends_gets|intros h _].
      apply (ends_bind any); [ends_auto|intros _ _].
      apply ends_ret. right. by eexists. }
    specialize (He w1). unfold wp in He. unfold mbind, M_bind.
    destruct (transition_before_llm_call config ctx c1 w1) as [[st|e] w2]; [|exact He].
    simpl in Hl. destruct He as [->|[tools ->]]; apply iteration_next; simpl; rewrite ?Heq; lia.
  - apply middleware_calm in E; [|apply driver_calm|done].
    apply iteration_next; [exact E|]. simpl in *. lia.
  - apply middleware_calm in E; [|apply driver_calm|done].
    apply iteration_next; [exact E|]. simpl in *. lia.
  - apply middleware_calm in E; [|apply driver_calm|done].
    apply iteration_next; [exact E|]. simpl in *. lia.
Qed.

Lemma response_usage r : lr_usage (response_of r) = cl_usage r.
Proof. unfold response_of. by destruct (cl_message_id r). Qed.

Lemma call_ok initial c tools k w :
  legit (CallLlm c tools) ->
  iteration_ok initial (CallLlm c tools) k
    (step_machine config ctx (create_driver config) initial (CallLlm c tools) k w).1.
Proof.
  intros Hl. cbn [step_machine]. unfold mbind, M_bind.
  pose proof (call_llm_spec config ctx c tools w) as H.
  destruct (transition_call_llm config ctx c tools w) as [[st|e] w1]; [|by destruct H].
  simpl in Hl. destruct H as [_ [[-> _]|(r & -> & Hr)]]; apply iteration_next; simpl; try lia; try done.
  rewrite response_usage. split; [done|by eapply Husage].
Qed.

Lemma stored_ok response context h st h' :
  0 <= steps_of context < n -> lr_usage response <> None ->
  stored_response response context h st h' ->
  legit st /\ phase_measure st <= 5 * (n - steps_of context).
Proof.
  intros Hs Hu (snap & m & c & _ & _ & _ & _ & _ & _ & Hst & _ & ->).
  assert (steps_of c = steps_of context + 1) as Hc.
  { unfold steps_of in *. rewrite Hst. unfold steps_after. destruct (lr_usage response); [|done].
    apply usize_add_small; lia. }
  unfold next_state. destruct (lr_finish_reason response) as [[]|];
    try destruct (lr_tool_calls response); simpl; rewrite ?Hc; split_and?; try done; lia.
Qed.

Lemma after_ok initial r c k w :
  legit (AfterLlm r c) ->
  iteration_ok initial (AfterLlm r c) k
    (step_machine config ctx (create_driver config) initial (AfterLlm r c) k w).1.
Proof.
  intros [Hs Hu]. cbn [step_machine]. unfold mbind at 1, M_bind at 1, run_after_llm.
  destruct (run_middleware _ (AfterLlm r c) w) as [[st|e] w1] eqn:E; [|by eapply middleware_error].
  apply middleware_calm in E; [|apply driver_calm|done].
  destruct st as [| |r1 c1| | | |msg t o|]; try done; try (apply iteration_next; [done|simpl; lia]).
  destruct E as [-> Hc]. unfold mbind, M_bind.
  pose proof (after_llm_spec ctx r c1 w1) as H.
  assert (steps_of c1 = steps_of c) as Heq by (unfold steps_of; by rewrite Hc).
  destruct (transition_after_llm ctx r c1 w1) as [[st|e] w2]; [|by destruct H].
  destruct H as [(_ & -> & _)|[_ H]]; [apply iteration_next; [done|simpl; lia]|].
  apply stored_ok in H as [H1 H2]; [|by rewrite Heq|done].
  apply iteration_next; [done|]. rewrite Heq in H2. simpl. lia.
Qed.

Lemma processing_ok initial calls rs c k w :
  legit (ProcessingToolCalls calls rs c) ->
  iteration_ok initial (ProcessingToolCalls calls rs c) k
    (step_machine config ctx (create_driver config) initial (ProcessingToolCalls calls rs c) k w).1.
Proof.
  intros [Hs Hp]. cbn [step_machine]. unfold mbind at 1, M_bind at 1, run_processing_tool_calls.
  destruct (run_middleware _ (ProcessingToolCalls calls rs c) w) as [[st|e] w1] eqn:E;
    [|by eapply middleware_error].
  apply middleware_calm in E; [|apply driver_calm|done].
  destruct st as [| | |calls1 rs1 c1| | |msg t o|]; try done; try (apply iteration_next; [done|simpl; lia]).
  destruct E as (-> & -> & Hc). unfold mbind, M_bind.
  assert (steps_of c1 = steps_of c) as Heq by (unfold steps_of; by rewrite Hc).
  pose proof (processing_spec config ctx calls rs c1 w1 Hp) as H.
  destruct (transition_processing_tool_calls config ctx calls rs c1 w1) as [[st|e] w2]; [|by destruct H as (_ & ? & _)].
  destruct H as (m & _ & _ & _ & _ & [[-> _]|(c2 & _ & Hc2 & Hst)]);
    [apply iteration_next; [done|simpl; lia]|].
  assert (steps_of c2 = steps_of c) as Heq2 by (unfold steps_of in *; by rewrite Hc2).
  destruct Hst as [->|(wt & -> & _)]; (apply iteration_next; simpl; rewrite Heq2; lia).
Qed.

Lemma waiting_ok initial c wait k w :
  legit (WaitingForEvent c wait) ->
  iteration_ok initial (WaitingForEvent c wait) k
    (step_machine config ctx (create_driver config) initial (WaitingForEvent c wait) k w).1.
Proof.
  intros Hs. cbn [step_machine]. unfold mbind, M_bind. simpl in Hs.
  pose proof (waiting_result config ctx wait c w) as H.
  destruct (transition_waiting_for_event config ctx wait c w) as [[st|e] w1]; destruct H as [_ H];
    [|exact H].
  destruct H as [[-> _]|[->|(c1 & -> & Hc)]]; [apply iteration_next; [done|simpl; lia]..|].
  assert (steps_of c1 = steps_of c) as Heq by (unfold steps_of; by rewrite Hc).
  apply iteration_next; simpl; rewrite Heq; lia.
Qed.

Lemma finish_turn_ok initial k w :
  steps_of initial = 0 ->
  iteration_ok initial Complete k (finish_turn config ctx initial Complete k w).1.
Proof.
  intros Hi. unfold finish_turn, ask. unfold mbind at 1, M_bind at 1.
  destruct (env_stop (w_now w) _) as [h|s]; [|done].
  cbn [or_throw]. run_ret. unfold mbind at 1, M_bind at 1.
  destruct (emit_notices_run (srs_notices h) (set_now S w)) as (w1 & -> & _).
  destruct (srs_should_continue h && _) eqn:E.
  - apply andb_true_iff in E as [_ E]. apply negb_true_iff, Nat.leb_gt in E.
    unfold MAX_STOP_HOOK_CONTINUATIONS_PER_TURN in E.
    split; unfold continuation_state; simpl; unfold steps_of in *; simpl.
    + lia.
    + unfold measure, phase_measure, steps_of. simpl. rewrite Hi. lia.
  - destruct (pr_enabled _).
    + unfold mbind, M_bind, attempt. by destruct (run_pruning config ctx w1).
    + by run_ret.
Qed.

Lemma complete_ok initial k w :
  steps_of initial = 0 ->
  iteration_ok initial Complete k
    (step_machine config ctx (create_driver config) initial Complete k w).1.
Proof.
  intros Hi. cbn [step_machine]. unfold step_complete. unfold mbind at 1, M_bind at 1, run_turn_end.
  destruct (run_middleware _ Complete w) as [[st|e] w1] eqn:E; [|by eapply middleware_error].
  apply middleware_calm in E; [|apply driver_calm|done].
  destruct st as [| | | | | |msg t o|]; try done; try (apply iteration_next; [done|simpl; lia]).
  by apply finish_turn_ok.
Qed.

(** Every iteration returns, fails or comes closer to the end. *)
Lemma iteration_progress initial st k w :
  steps_of initial = 0 -> legit st ->
  iteration_ok initial st k (step_machine config ctx (create_driver config) initial st k w).1.
Proof.
  intros Hi Hl. destruct st as [c|c tools|r c|calls rs c|c wait| |msg t o|].
  - by apply before_ok.
  - by apply call_ok.
  - by apply after_ok.
  - by apply processing_ok.
  - by apply waiting_ok.
  - by apply complete_ok.
  - cbn [step_machine]. unfold step_stopped. simpl in Hl. by rewrite bool_decide_eq_false_2.
  - done.
Qed.

Lemma run_machine_ends fuel initial st k w :
  steps_of initial = 0 -> legit st -> measure st k <= Z.of_nat fuel ->
  (run_machine config ctx fuel (create_driver config) initial st k w).1 <> Err OutOfFuel.
Proof.
  intros Hi. revert st k w. induction fuel as [|fuel IH]; intros st k w Hl Hf.
  { pose proof (measure_pos st k Hl). lia. }
  cbn [run_machine]. unfold mbind at 1, M_bind at 1. rewrite is_cancelled_run.
  destruct (cancelled_at (w_now w)); [done|]. unfold mbind, M_bind.
  pose proof (iteration_progress initial st k (set_now S w) Hi Hl) as H.
  destruct (step_machine config ctx (create_driver config) initial st k (set_now S w)) as [[[st' k'|o]|e] w1];
    simpl in H; [|done|by intros [= ->]].
  destruct H as [Hl' Hm]. apply IH; [done|lia].
Qed.

(** The fuel that is enough. *)
Definition cycle_fuel : nat := Z.to_nat (10 * n + 9).

Lemma cycle_ends fuel mode w :
  (cycle_fuel <= fuel)%nat ->
  (execute_cycle_state_machine config ctx fuel mode w).1 <> Err OutOfFuel.
Proof.
  intros Hf. unfold execute_cycle_state_machine. unfold mbind at 1, M_bind at 1.
  assert (ends any finite (session_history ctx)) as Hh.
  { unfold session_history, get_effective_agent_history, store_get_history. ends_auto. }
  specialize (Hh w). unfold wp in Hh.
  destruct (session_history ctx w) as [[messages|e] w1]; [|by intros [= ->]].
  destruct (ex_llm_config ctx) as [c|]; [|done]. cbv zeta.
  unfold mbind, M_bind, run_turn_start.
  set (initial := initial_context_of ctx mode c messages).
  assert (steps_of initial = 0) as Hi by done.
  destruct (run_middleware _ (BeforeLlmCall initial) w1) as [[st|e] w2] eqn:E.
  - apply middleware_calm in E; [|apply driver_calm|done].
    assert (legit st /\ phase_measure st <= 5 * n + 3) as [Hl Hm].
    { destruct st as [c1| | | | | |msg t o|]; try done; simpl in *; [|split; [done|lia]..].
      unfold steps_of. rewrite E. cbn. lia. }
    apply run_machine_ends; [done|done|]. unfold measure. unfold cycle_fuel in Hf. lia.
  - intros [= ->]. by eapply middleware_error.
Qed.
End termination.
