(* ===== verification/CycleProps.v ===== *)
(** The properties of the execution cycle: the pairing of tool uses and
    results, what storing a response and running its calls write, termination
    under a step limit, and where the cycle falls short of its own comments. *)
From S2P Require Import Prelude Numbers Text Json Chat LlmErrors Domain Events Model ExecState.
From S2P Require Import Driver Pruning Hooks World Limits ContextMw DelegationMw AgentConfig.
From S2P Require Import Compaction Retry CallLlm ModelCall ToolCalls Transitions Wait.
From S2P Require Import Maintenance Machine Fixtures Pairing WaitSpec HistoryProps CycleInv.
From S2P Require Import Termination.

Local Open Scope Z_scope.

(** ** Scenarios *)

Section scenarios.
#[local] Existing Instance toy_json.

(** The model asks for one call of [lookup], and is done when called again. *)
Definition one_call : Scenario :=
  with_chat (fun t => if (t <? 10)%nat then Ok (calling_response FrToolCalls (Some usage_default))
                      else Ok (plain_response "done")) quiet.

(** The model asks for a call every time, and never reports its usage. *)
Definition endless_calls : Scenario :=
  with_chat (fun _ => Ok (calling_response FrToolCalls None)) quiet.

Definition with_history (h : list AgentMessage) (w : World) : World := set_history (fun _ => h) w.
Definition world_hi : World := with_history [user_message "u" "hi"] world0.

Definition config_of (max_steps : option Z) (policy : RuntimeExecutionPolicy) : AgentConfig :=
  {| ac_tool_config := all_tools; ac_tool_registry := ∅; ac_middleware_drivers := [];
     ac_max_steps := max_steps; ac_snapshot_policy := SpNone; ac_assume_mutating := false;
     ac_mutating_tools := ∅; ac_delegation_wait_policy := DwAll;
     ac_delegation_wait_timeout_secs := 60; ac_execution_policy := policy |}.

Definition run_cycle (s : Scenario) (config : AgentConfig) (w : World)
    : result ExecError CycleOutcome * World :=
  @execute_cycle_state_machine _ (env_of s) config ctx0 50 Build w.

(** The ids each message uses and answers. *)
Definition id_trace (w : World) : list (list string * list string) :=
  map (fun m => (used_ids m, answered_ids m)) (w_history w).

Lemma from_model_scenario s messages tools r :
  @from_model _ (env_of s) messages tools r ->
  (exists t resp, r = result_of_response resp /\ sc_chat s t = Ok resp) \/
  sc_streaming s = true.
Proof. intros [(t & resp & -> & [H|H])|[H _]]; [left; by exists t, resp..|by right]. Qed.
End scenarios.

(** ** Pairing *)

(** C1: the pairing across a whole execution cycle.  Assume that the middleware
    is well behaved, as the built-in drivers are shown to be (it writes nothing
    to the history and does not change the calls, results or response of the
    state it is given), and that the model announces its calls: a response with
    tool calls never ends with Stop, Length or ContentFilter (the code stores
    such calls and never runs them).  Then on a history whose uses are all
    answered, with any tools, hooks and store failures, every tool use in the
    stored history is answered by the very next message, in order; only a
    cancelled or failed cycle can leave the uses of its newest message open. *)
Theorem cycle_pairs_history {J : Json} {Ev : Env} config ctx fuel mode w :
  Forall WellBehaved (ac_middleware_drivers config) -> announces_calls -> paired (w_history w) ->
  let '(r, w') := execute_cycle_state_machine config ctx fuel mode w in
  open_history (w_history w') /\
  (env_cancel_at = None -> is_ok r = true -> paired (w_history w')).
Proof.
  intros Hd Ha Hp. apply cycle_spec; [|exact Ha|exact Hp].
  unfold create_driver. apply Forall_app_2; [|exact Hd].
  destruct (ac_max_steps config); [constructor; [apply _|constructor]|constructor].
Qed.

Section history_example.
#[local] Existing Instance toy_json.

Lemma cycle_pairs_history_witness :
  let '(r, w') := run_cycle one_call config0 world_hi in
  open_history (w_history w') /\
  (sc_cancel_at one_call = None -> is_ok r = true -> paired (w_history w')).
Proof.
  apply (@cycle_pairs_history _ (env_of one_call) config0 ctx0 50 Build world_hi).
  - constructor.
  - intros messages tools r Hr.
    apply from_model_scenario in Hr as [(t & resp & -> & H)|H]; [|discriminate].
    simpl in H. destruct (t <? 10)%nat; injection H as <-; intros Hne; [done|by destruct Hne].
  - reflexivity.
Defined.
End history_example.

(** C2: processing a batch of calls stores exactly one user message, which
    answers the earlier results and every call, in order; it errs only when
    the store or the delegation hook does, and then stores nothing.  That
    holds for calls that fail, are blocked, are denied or are cut off by a
    cancellation; only a [delegate] call makes the cycle wait. *)
Theorem processing_answers_every_call {J : Json} {Ev : Env} config ctx calls results context w :
  Forall plain_result results ->
  match transition_processing_tool_calls config ctx calls results context w with
  | (Ok st, w') =>
      exists m, w_history w' = w_history w ++ [m] /\ am_role m = User /\
        answered_ids m = map tr_call_id results ++ map mtc_id calls /\ used_ids m = [] /\
        ((st = Cancelled /\ env_cancel_at <> None) \/
         exists c, cc_messages c = cc_messages context ++ [to_chat_message m] /\
           cc_stats c = cc_stats context /\
           (st = BeforeLlmCall c \/
            exists wait, st = WaitingForEvent c wait /\
              (Exists delegates results \/
               Exists (fun call => tf_name (mtc_function call) = "delegate") calls)))
  | (Err e, w') => w_history w' = w_history w /\ e <> OutOfFuel /\ storing_failed
  end.
Proof. apply processing_spec. Qed.

Section processing_example.
#[local] Existing Instance toy_json.

(** Two calls, the second one cut off by the cancellation. *)
Abbreviation two_calls_cut :=
  (@transition_processing_tool_calls _ (env_of (with_cancel 12 one_call)) config0 ctx0
    [a_call "a" "lookup" "{}"; a_call "b" "lookup" "{}"] [] context0 world0).

Lemma processing_answers_every_call_witness :
  two_calls_cut.1 = Ok Cancelled /\ id_trace two_calls_cut.2 = [([], ["a"; "b"])] /\
  exists m, w_history two_calls_cut.2 = [m] /\ answered_ids m = ["a"; "b"].
Proof.
  assert (two_calls_cut.1 = Ok Cancelled) as E by (vm_compute; reflexivity).
  split; [exact E|]. split; [vm_compute; reflexivity|].
  pose proof (@processing_answers_every_call _ (env_of (with_cancel 12 one_call)) config0 ctx0
    [a_call "a" "lookup" "{}"; a_call "b" "lookup" "{}"] [] context0 world0
    (List.Forall_nil _)) as H.
  apply (run_ok two_calls_cut _ _ _ E) in H.
  destruct H as (m & H1 & _ & H2 & _). exists m. split; [exact H1|exact H2].
Defined.
End processing_example.

(** C21: storing a response, unless the cycle is cancelled: after at most the
    snapshot of the turn, one assistant message of the session, under the id the
    response has if any, with the text of the response and with its calls, in
    order, under their ids, names and arguments, and no tool result; the context
    gains the same message, the turn count stays, the step count moves by one
    exactly when usage is reported, and the next state is the one the finish
    reason asks for.  It errs only when the store does, and then stores at most
    the snapshot. *)
Theorem after_llm_stores_response {J : Json} {Ev : Env} ctx response context w :
  match transition_after_llm ctx response context w with
  | (Ok st, w') =>
      (cancelled_at (w_now w) = true /\ st = Cancelled /\ w_history w' = w_history w) \/
      (cancelled_at (w_now w) = false /\
       stored_exactly ctx response context w st w')
  | (Err e, w') =>
      e <> OutOfFuel /\ (exists t s, env_store_error t = Some s) /\
      exists snap, w_history w' = w_history w ++ snap /\ turn_start ctx w snap
  end.
Proof. apply after_llm_exact. Qed.

(** ** Where the pairing breaks *)

Section cancelled_example.
#[local] Existing Instance toy_json.

(** a cancellation that is seen at the top of the loop, after the response
    with its tool uses was stored and before they are processed, ends the
    cycle with the uses unanswered: the repair that the processing does on
    cancellation is never reached. *)
Theorem cancelled_cycle_orphans_calls :
  let '(r, w') := run_cycle (with_cancel 16 one_call) config0 world_hi in
  r = Ok CoCancelled /\ id_trace w' = [([], []); (["c1"], [])] /\
  @open_calls toy_json [] (w_history w') = Some ["c1"].
Proof. vm_compute. done. Qed.
End cancelled_example.

(** tool calls of a response that claims to have stopped, to be cut off or
    to be filtered are stored as uses but never run: the cycle ends, or stops,
    with every one of them open. *)
Theorem unannounced_calls_stay_open {J : Json} {Ev : Env} ctx response context w st w' :
  transition_after_llm ctx response context w = (Ok st, w') ->
  cancelled_at (w_now w) = false ->
  lr_finish_reason response ∈ [Some FrStop; Some FrLength; Some FrContentFilter] ->
  paired (w_history w) ->
  open_calls [] (w_history w') = Some (map mtc_id (lr_tool_calls response)) /\
  match st with ProcessingToolCalls _ _ _ => False | _ => True end.
Proof.
  intros E Hc Hf Hp. pose proof (after_llm_spec ctx response context w) as H. rewrite E in H.
  destruct H as [[H _]|[_ (snap & m & c & Hh & Hs & _ & Hu & Ha & _ & _ & _ & ->)]]; [congruence|].
  split.
  - rewrite Hh, open_calls_app, Hp. simpl. rewrite open_calls_app, open_calls_silent by done. simpl.
    rewrite Ha, Hu. by rewrite bool_decide_eq_true_2.
  - unfold next_state. rewrite !elem_of_cons in Hf.
    destruct Hf as [->|[->|[->|Hf]]]; try done. by apply not_elem_of_nil in Hf.
Qed.

Section stopped_example.
#[local] Existing Instance toy_json.

Abbreviation stopped_with_call :=
  (@transition_after_llm _ (env_of quiet) ctx0
    (response_of (result_of_response (calling_response FrStop None))) context0 world0).

Lemma unannounced_calls_stay_open_witness :
  stopped_with_call.1 = Ok Complete /\
  @open_calls toy_json [] (w_history stopped_with_call.2) = Some ["c1"].
Proof.
  assert (stopped_with_call.1 = Ok Complete) as E by (vm_compute; reflexivity).
  split; [exact E|].
  exact (proj1 (@unannounced_calls_stay_open _ (env_of quiet) ctx0 _ context0 world0 _ _
    (run_eq stopped_with_call _ E) eq_refl ltac:(by left) eq_refl)).
Defined.
End stopped_example.

(** ** Termination *)

(** C3: with a step limit, middleware that keeps the counters and asks for no
    compaction, and a model that reports its usage, the cycle ends: the loop
    takes at most [10 * max_steps + 9] iterations, whatever the tools, the
    hooks, the delegations and the store do. *)
Theorem cycle_terminates {J : Json} {Ev : Env} config ctx max_steps fuel mode w :
  0 <= max_steps < 2 ^ 63 -> ac_max_steps config = Some max_steps ->
  Forall Calm (ac_middleware_drivers config) -> reports_usage ->
  (cycle_fuel max_steps <= fuel)%nat ->
  (execute_cycle_state_machine config ctx fuel mode w).1 <> Err OutOfFuel.
Proof. intros H1 H2 H3 H4 H5. by apply (cycle_ends config ctx max_steps). Qed.

Section limited_example.
#[local] Existing Instance toy_json.

Definition limited (n : Z) : AgentConfig := config_of (Some n) policy_default.

Lemma cycle_terminates_witness :
  (run_cycle (with_chat (fun _ => Ok (calling_response FrToolCalls (Some usage_default))) quiet)
     (limited 2) world_hi).1 <> Err OutOfFuel.
Proof.
  apply (@cycle_terminates _ (env_of _) (limited 2) ctx0 2 50 Build world_hi).
  - lia.
  - reflexivity.
  - constructor.
  - intros messages tools r Hr.
    apply from_model_scenario in Hr as [(t & resp & -> & H)|H]; [|discriminate].
    injection H as <-. discriminate.
  - vm_compute. lia.
Defined.
End limited_example.

(** The states of the endless conversation. *)
Section endless.
#[local] Existing Instance toy_json.
#[local] Instance endless_env : Env := env_of endless_calls.

Definition lookups : list MwToolCall := [a_call "c1" "lookup" "{}"].
Definition lookup_response : LlmResponse :=
  response_of (result_of_response (calling_response FrToolCalls None)).

Definition looping (st : ExecutionState) : Prop :=
  match st with
  | BeforeLlmCall c | CallLlm c [_] => st_steps (cc_stats c) = 0
  | AfterLlm r c => st_steps (cc_stats c) = 0 /\ r = lookup_response
  | ProcessingToolCalls calls rs c => st_steps (cc_stats c) = 0 /\ calls = lookups /\ rs = []
  | _ => False
  end.

Lemma endless_before c w : exists w',
  transition_before_llm_call (limited 1) ctx0 c w = (Ok (CallLlm c [a_tool "lookup"]), w').
Proof.
  unfold transition_before_llm_call, build_provider, is_cancelled, ask, mbind, M_bind; simpl.
  destruct (w_tools_hash w); simpl; [destruct (negb _)|]; eexists; reflexivity.
Qed.

Lemma endless_call c t w : exists w',
  transition_call_llm (limited 1) ctx0 c [t] w = (Ok (AfterLlm lookup_response c), w').
Proof. eexists. apply run_eq. reflexivity. Qed.

Lemma endless_middleware p st w :
  looping st -> exists w',
  run_middleware (run_phase (create_driver (limited 1)) p) st w = (Ok st, w').
Proof.
  intros Hst. unfold run_middleware, map_err, create_driver. cbn [limited config_of ac_max_steps
    ac_middleware_drivers app run_phase]. unfold mbind, M_bind.
  destruct p; try (destruct st; try done; by eexists).
  set (cfg := with_max_steps limits_default 1).
  change (phase_handler (LimitsMiddleware limits_driver_index cfg) PhStepStart)
    with (limits_on_step_start limits_driver_index cfg).
  pose proof (limits_on_step_start_result limits_driver_index cfg st w) as H.
  destruct (limits_on_step_start limits_driver_index cfg st w) as [r w']. simpl in H. subst r.
  exists w'. destruct st as [c| | | | | | |]; try done. unfold limits_decide. simpl in Hst.
  cbn [cfg with_max_steps lc_max_steps lc_max_turns lc_max_price_usd limits_default].
  by rewrite Hst.
Qed.

Lemma endless_step initial st w :
  looping st -> exists st' w',
  step_machine (limited 1) ctx0 (create_driver (limited 1)) initial st 0 w =
    (Ok (Continue st' 0), w') /\ looping st'.
Proof.
  intros Hst. destruct st as [c|c [|t []]|r c|calls rs c| | | |]; try done; cbn [step_machine];
    unfold mbind, M_bind.
  - destruct (endless_middleware PhStepStart (BeforeLlmCall c) w Hst) as [w1 E].
    unfold run_step_start. rewrite E. destruct (endless_before c w1) as [w2 ->]. by eexists _, _.
  - destruct (endless_call c t w) as [w1 ->]. eexists _, _. split; [reflexivity|by split].
  - destruct (endless_middleware PhAfterLlm (AfterLlm r c) w Hst) as [w1 E].
    unfold run_after_llm. rewrite E. destruct Hst as [Hs ->].
    pose proof (after_llm_spec ctx0 lookup_response c w1) as H.
    destruct (transition_after_llm ctx0 lookup_response c w1) as [[st|e] w2];
      [|by destruct H as (_ & (t & s & H) & _)].
    destruct H as [[H _]|[_ (snap & m & c' & _ & _ & _ & _ & _ & _ & Hst & _ & ->)]]; [done|].
    eexists _, _. split; [reflexivity|]. split; [|by split]. by rewrite Hst.
  - destruct (endless_middleware PhProcessingToolCalls (ProcessingToolCalls calls rs c) w Hst) as [w1 E].
    unfold run_processing_tool_calls. rewrite E. destruct Hst as (Hs & -> & ->).
    pose proof (processing_spec (limited 1) ctx0 lookups [] c w1 (List.Forall_nil _)) as H.
    destruct (transition_processing_tool_calls (limited 1) ctx0 lookups [] c w1) as [[st|e] w2];
      [|by destruct H as (_ & _ & [(t & s & H)|(t & q & s & H)])].
    destruct H as (m & _ & _ & _ & _ & [[_ H]|(c' & _ & Hc & [->|(wait & -> & [H|H])])]); try done.
    + eexists _, _. split; [reflexivity|]. simpl. by rewrite Hc.
    + by apply Exists_nil in H.
    + apply Exists_cons in H as [H|H]; [done|by apply Exists_nil in H].
Qed.

Lemma endless_run fuel initial st w :
  looping st ->
  (run_machine (limited 1) ctx0 fuel (create_driver (limited 1)) initial st 0 w).1 = Err OutOfFuel.
Proof.
  revert st w. induction fuel as [|fuel IH]; intros st w Hst; [done|].
  cbn [run_machine]. unfold mbind at 1, M_bind at 1. rewrite is_cancelled_run. cbn [cancelled_at].
  unfold mbind, M_bind. destruct (endless_step initial st (set_now S w) Hst) as (st' & w' & E & Hst').
  change (cancelled_at (w_now w)) with false. cbv beta iota. rewrite E. by apply IH.
Qed.

(** without usage reports the step limit never fires: under
    [max_steps = 1], a model that keeps asking for a tool is called for ever,
    from any world; for no number of iterations does the cycle end. *)
Theorem unreported_usage_never_stops fuel mode w :
  (execute_cycle_state_machine (limited 1) ctx0 fuel mode w).1 = Err OutOfFuel.
Proof.
  unfold execute_cycle_state_machine. unfold mbind at 1, M_bind at 1.
  destruct (session_history ctx0 w) as [[messages|e] w1] eqn:Eh.
  - cbn [ctx0 ex_llm_config]. cbv zeta. unfold mbind, M_bind, run_turn_start.
    match goal with |- context [run_middleware _ (BeforeLlmCall ?i) w1] =>
      destruct (endless_middleware PhTurnStart (BeforeLlmCall i) w1 eq_refl) as [w2 ->] end.
    by apply endless_run.
  - assert (ends any (fun _ => False) (session_history ctx0)) as H.
    { unfold session_history, get_effective_agent_history, store_get_history. ends_auto. }
    specialize (H w). unfold wp in H. by rewrite Eh in H.
Qed.
End endless.

(** ** The end of a turn *)

(** a stop hook can make a turn go on at most once, and the continuation
    starts over from the context the cycle began with, plus the hook's
    message: neither the messages nor the statistics of the turn that has
    just completed are in it. *)
Theorem stop_hook_restarts {J : Json} {Ev : Env} config ctx initial k w :
  let request := {| srq_context := hook_context ctx; srq_stop_reason := "EndTurn" |} in
  match finish_turn config ctx initial Complete k w with
  | (Ok (Continue st k'), w') =>
      k = 0%nat /\ k' = 1%nat /\ w_history w' = w_history w /\
      exists h m c, env_stop (w_now w) request = Ok h /\ srs_should_continue h = true /\
        st = BeforeLlmCall c /\ cc_messages c = cc_messages initial ++ [m] /\
        cc_stats c = cc_stats initial
  | (Ok (Return o), w') =>
      o = CoCompleted /\
      exists h, env_stop (w_now w) request = Ok h /\ (srs_should_continue h = false \/ (1 <= k)%nat)
  | (Err e, _) => exists s, env_stop (w_now w) request = Err s /\ e = Anyhow s
  end.
Proof.
  cbv zeta. unfold finish_turn, ask. unfold mbind at 1, M_bind at 1.
  match goal with |- context [env_stop ?t ?r] => destruct (env_stop t r) as [h|s] eqn:Eh end;
    [|by exists s].
  cbn [or_throw]. run_ret. unfold mbind at 1, M_bind at 1.
  destruct (emit_notices_run (srs_notices h) (set_now S w)) as (w1 & -> & Hw & _).
  destruct (srs_should_continue h && _) eqn:E.
  - apply andb_true_iff in E as [E1 E2]. apply negb_true_iff, Nat.leb_gt in E2.
    unfold MAX_STOP_HOOK_CONTINUATIONS_PER_TURN in E2. cbn.
    split_and!; [lia|lia|exact Hw|]. eexists h, _, _. split_and!; [done|done|reflexivity|done|done].
  - assert (srs_should_continue h = false \/ (1 <= k)%nat) as Hor.
    { apply andb_false_iff in E as [E|E]; [by left|right].
      apply negb_false_iff, Nat.leb_le in E. exact E. }
    destruct (pr_enabled _).
    + unfold mbind, M_bind, attempt. destruct (run_pruning config ctx w1). split; [done|by exists h].
    + run_ret. split; [done|by exists h].
Qed.

(** a hook that blocks every compaction does not end the turn: once the
    context threshold is reached the loop asks the hook again and again, for
    ever. *)
Theorem blocked_compaction_never_ends {J : Json} {Ev : Env} config ctx fuel d initial msg o k w :
  env_cancel_at = None -> (forall t, env_store_error t = None) ->
  (forall t r, exists h, env_pre_compaction t r = Ok h /\ pcr_should_block h = true) ->
  co_auto (ep_compaction (ac_execution_policy config)) = true ->
  (run_machine config ctx fuel d initial (Stopped msg ContextThreshold o) k w).1 = Err OutOfFuel.
Proof.
  intros Hc Hst Hb Ha. revert msg o w. induction fuel as [|fuel IH]; intros msg o w; [done|].
  cbn [run_machine step_machine]. unfold mbind at 1, M_bind at 1. rewrite is_cancelled_run.
  unfold cancelled_at. rewrite Hc. unfold step_stopped. rewrite Ha, bool_decide_eq_true_2 by done.
  cbn [andb]. unfold mbind at 1, M_bind at 1. unfold mbind at 1, M_bind at 1, attempt.
  set (w1 := set_now S w).
  assert (exists m w2, run_ai_compaction config ctx (Stopped msg ContextThreshold o) w1 =
    (Ok (Stopped m ContextThreshold o), w2)) as (m & w2 & ->).
  { unfold run_ai_compaction. unfold mbind at 1, M_bind at 1.
    destruct (effective_history_run w1) as [(e & He & _)| ->]; [by rewrite Hst in He|].
    cbn [or_throw]. run_ret. cbv zeta. unfold mbind at 1, M_bind at 1, ask.
    match goal with |- context [env_pre_compaction ?t ?r] => destruct (Hb t r) as (h & -> & Hbl) end.
    cbn [or_throw]. run_ret. unfold mbind at 1, M_bind at 1.
    destruct (emit_notices_run (pcr_notices h) (set_now S (set_now S w1))) as (w3 & -> & _).
    rewrite Hbl. by eexists _, _. }
  apply IH.
Qed.

Section blocking_example.
#[local] Existing Instance toy_json.

Definition blocking_hook : PreCompactionResult :=
  {| pcr_should_block := true; pcr_block_reason := None; pcr_additional_contexts := [];
     pcr_notices := [] |}.

Abbreviation blocking_env := (env_of (with_pre_compaction blocking_hook quiet)).

Lemma blocked_compaction_never_ends_witness :
  (@run_machine _ blocking_env config0 ctx0 1000
     (@create_driver _ blocking_env config0) context0 (Stopped "full" ContextThreshold (Some context0)) 0 world0).1
  = Err OutOfFuel.
Proof.
  apply (@blocked_compaction_never_ends _ (env_of (with_pre_compaction blocking_hook quiet))).
  - reflexivity.
  - reflexivity.
  - intros t r. exists blocking_hook. split; reflexivity.
  - reflexivity.
Defined.
End blocking_example.
