(* ===== verification/WaitProps.v ===== *)
(** Properties of the wait for delegations (agent/execution/wait.rs). *)
From S2P Require Import Prelude Numbers Text Json Chat LlmErrors Domain Events Model ExecState.
From S2P Require Import Driver Pruning Hooks World Limits AgentConfig ToolCalls Transitions.
From S2P Require Import Wait Fixtures Pairing WaitSpec.

Local Open Scope Z_scope.

(** What the code awaits of the received sequence, whatever the policy: the
    first outcome of each awaited id, in the order received. *)
Definition awaited (wait : WaitCondition) : gset string := list_to_set (wc_correlation_ids wait).

(** C22: under the [All] policy a wait that is not cancelled consumes a prefix
    of what it receives and ends in exactly one of three ways: all the awaited
    delegations have settled, and it resumes with one line for the first
    outcome of each; the timer fires first (possible only with a positive
    timeout), and the unsettled ones are reported as timed out after the
    settled ones; or the stream closes while some are still open, and the
    turn stops.  No delegation is reported twice. *)
Theorem wait_all_reports_each_once {J : Json} {Ev : Env} config ctx wait context w :
  env_cancel_at = None -> wc_reason wait = WrDelegation -> wc_correlation_ids wait <> [] ->
  ac_delegation_wait_policy config = DwAll ->
  let '(r, w') := transition_waiting_for_event config ctx wait context w in
  exists seen, w_rx w = seen ++ w_rx w' /\
    wait_all_ended config ctx wait context (awaited wait) [] seen (w_rx w') r /\
    NoDup (map outcome_id (settled ctx wait (awaited wait) seen)).
Proof.
  intros Hc Hr Hids Hp. unfold transition_waiting_for_event.
  unfold mbind at 1, M_bind at 1. rewrite is_cancelled_run. unfold cancelled_at. rewrite Hc, Hr.
  rewrite bool_decide_eq_true_2 by done. cbn [negb]. unfold mbind, M_bind, gets.
  rewrite Hp, bool_decide_eq_false_2 by done. cbv zeta.
  assert (awaited wait <> ∅) as Hne.
  { unfold awaited. destruct (wc_correlation_ids wait); [done|]. set_solver. }
  rewrite bool_decide_eq_false_2 by done.
  pose proof (wait_all_loop config ctx wait context (awaited wait) [] _ (set_now S w) Hc Hne eq_refl)
    as H. unfold awaited in H |- *.
  destruct (wait_all config ctx wait context _ [] _ (set_now S w)) as [r w'].
  destruct H as (seen & Hs & He). exists seen. split_and!; [exact Hs|exact He|].
  apply firsts_nodup.
Qed.

Section all_example.
#[local] Existing Instance toy_json.

Definition delegated (a b : string) : WaitCondition :=
  {| wc_reason := WrDelegation; wc_correlation_ids := [a; b] |}.

Definition received (k : AgentEventKind) : WaitInput :=
  WiEvent (EnvDurable {| de_event_id := "e"; de_stream_seq := 1; de_session_id := "s";
                      de_timestamp := 0; de_origin := OrLocal; de_source_node := None;
                      de_kind := k |}).

(** Two delegations: the first completes twice, another one's event comes in
    between, and the second never answers. *)
Definition half_done : World :=
  set_rx [received (DelegationCompleted "d1" (Some "ok")); received (DelegationFailed "d9" "no");
          received (DelegationCompleted "d1" None); WiTimer] world0.

Abbreviation half_wait :=
  (@transition_waiting_for_event _ (env_of quiet) config0 ctx0 (delegated "d1" "d2") context0
     half_done).

Lemma wait_all_reports_each_once_witness :
  let '(r, w') := half_wait in
  exists seen, w_rx half_done = seen ++ w_rx w' /\
    @wait_all_ended _ (env_of quiet) config0 ctx0 (delegated "d1" "d2") context0
      (awaited (delegated "d1" "d2")) [] seen (w_rx w') r /\
    NoDup (map outcome_id (settled ctx0 (delegated "d1" "d2") (awaited (delegated "d1" "d2")) seen)).
Proof.
  apply (@wait_all_reports_each_once _ (env_of quiet) config0 ctx0 (delegated "d1" "d2") context0).
  - reflexivity.
  - reflexivity.
  - discriminate.
  - reflexivity.
Defined.
End all_example.

(** under the [Any] policy a wait that is not cancelled resumes with the
    first matching outcome it receives, and consumes nothing after it; with
    no matching outcome before the stream closes, the turn stops.  The timer
    has no effect under this policy. *)
Theorem wait_any_takes_first {J : Json} {Ev : Env} config ctx wait context w :
  env_cancel_at = None -> wc_reason wait = WrDelegation ->
  ac_delegation_wait_policy config = DwAny ->
  let '(r, w') := transition_waiting_for_event config ctx wait context w in
  match omap (received_outcome ctx wait) (w_rx w) with
  | [] => r = Ok (closed_state context) /\ w_rx w' = []
  | o :: later =>
      resumed context (format_wait_outcome o) r /\
      omap (received_outcome ctx wait) (w_rx w') = later
  end.
Proof.
  intros Hc Hr Hp. unfold transition_waiting_for_event.
  unfold mbind at 1, M_bind at 1. rewrite is_cancelled_run. unfold cancelled_at. rewrite Hc, Hr.
  rewrite bool_decide_eq_true_2 by done. cbn [negb]. unfold mbind, M_bind, gets.
  rewrite Hp, bool_decide_eq_true_2 by done.
  exact (wait_any_loop ctx wait context _ (set_now S w) Hc eq_refl).
Qed.

Section any_example.
#[local] Existing Instance toy_json.

Definition config_any : AgentConfig :=
  {| ac_tool_config := all_tools; ac_tool_registry := ∅; ac_middleware_drivers := [];
     ac_max_steps := None; ac_snapshot_policy := SpNone; ac_assume_mutating := false;
     ac_mutating_tools := ∅; ac_delegation_wait_policy := DwAny;
     ac_delegation_wait_timeout_secs := 60; ac_execution_policy := policy_default |}.

Definition d1_done : World :=
  set_rx [WiTimer; WiLagged; received (DelegationFailed "d1" "no retry");
          received (DelegationCompleted "d2" None)] world0.

Abbreviation any_wait :=
  (@transition_waiting_for_event _ (env_of quiet) config_any ctx0 (delegated "d1" "d2") context0
     d1_done).

Lemma wait_any_takes_first_witness :
  let '(r, w') := any_wait in
  @resumed _ (env_of quiet) context0 (format_wait_outcome (WoFailed "d1" "no retry")) r /\
  omap (received_outcome ctx0 (delegated "d1" "d2")) (w_rx w') = [WoCompleted "d2" None].
Proof.
  apply (@wait_any_takes_first _ (env_of quiet) config_any ctx0 (delegated "d1" "d2") context0
           d1_done); reflexivity.
Defined.
End any_example.

(** ** What is awaited *)

Section recorded.
Context {J : Json} {Ev : Env} (ctx : ExecutionContext).

(** A computation whose value names exactly the delegations it adds. *)
Definition recording {A} (ids : A -> list string) (m : X A) : Prop := forall w,
  wp m (fun r w' => match r with
                    | Ok a => exists ds, w_delegations w' = w_delegations w ++ ds /\
                                map del_public_id ds = ids a
                    | Err _ => True
                    end) w.

Lemma recording_ret {A} ids (a : A) : ids a = [] -> recording ids (mret a).
Proof. intros H w. exists []. by rewrite app_nil_r, H. Qed.

(** One that adds none. *)
Definition on_delegations (P : list Delegation -> Prop) (w : World) : Prop := P (w_delegations w).
Definition adds_none {A} (m : X A) : Prop := forall P, keeps (on_delegations P) m.

Lemma recording_after {A B} ids (m : X A) (f : A -> X B) :
  adds_none m -> (forall a, recording ids (f a)) -> recording ids (m ≫= f).
Proof.
  intros Hm Hf w. apply wp_bind. specialize (Hm (eq (w_delegations w)) w eq_refl). unfold wp in *.
  destruct (m w) as [[a|e] w1]; [|done]. unfold on_delegations in Hm. rewrite Hm. apply Hf.
Qed.

Ltac adds_none := repeat
  first [ keeps_step; cbn beta iota | by apply keeps_store | by apply keeps_ask
        | by apply keeps_emit | by apply keeps_modify ].

Lemma adds_none_notices l : adds_none (emit_notices l).
Proof. intros P. apply keeps_mapM_. intros n. by apply keeps_emit. Qed.

Lemma adds_none_written r name : adds_none (record_written_file r name).
Proof. intros P. unfold record_written_file, record_artifact, unix_time. adds_none. Qed.

(** [record_delegation] adds the delegation it returns, or none. *)
Lemma record_delegation_adds target objective context constraints output w :
  wp (record_delegation target objective context constraints output) (fun r w' =>
    match r with
    | Ok (Ok d) => w_delegations w' = w_delegations w ++ [d]
    | Ok (Err _) => w_delegations w' = w_delegations w
    | Err _ => True
    end) w.
Proof.
  unfold record_delegation, create_delegation, fresh_uuid, unix_time, wp, mbind, M_bind, store_call,
    ask, gets. cbv zeta. destruct (env_store_error (w_now w)); [done|]. simpl.
  destruct (is_empty_str (trim (env_uuid _))); simpl;
    by destruct (env_store_error _).
Qed.

Definition awaited_ids (o : option WaitCondition) : list string :=
  default [] (wc_correlation_ids <$> o).

Lemma request_delegation_records r :
  recording (fun x => awaited_ids x.2) (request_delegation ctx r).
Proof.
  unfold request_delegation. cbv zeta. apply recording_after; [intros P; by apply keeps_ask|].
  intros hook. apply recording_after; [intros P; adds_none|]. intros pre.
  apply recording_after; [apply adds_none_notices|]. intros _.
  destruct (pdr_should_block pre); [by apply recording_ret|].
  intros w. apply wp_bind. eapply wp_mono; [apply record_delegation_adds|].
  intros [[d|s]|e] w1 H; [| |done]; unfold wp; simpl.
  - exists [d]. by rewrite H.
  - exists []. by rewrite H, app_nil_r.
Qed.

Lemma side_effects_record r :
  recording (fun x => awaited_ids x.2) (record_tool_side_effects ctx r).
Proof.
  unfold record_tool_side_effects. destruct (tr_is_error r); [by apply recording_ret|].
  destruct (tr_tool_name r) as [name|]; [|by apply recording_ret].
  apply recording_after.
  - destruct (_ || _); [apply adds_none_written|]. intros P. apply keeps_ret.
  - intros _. destruct (String.eqb name "delegate"); [apply request_delegation_records|].
    by apply recording_ret.
Qed.

Lemma adjust_results_record results :
  recording (fun x => concat (map wc_correlation_ids x.2)) (adjust_results ctx results).
Proof.
  induction results as [|r results IH]; [by apply recording_ret|]. intros w. simpl.
  apply wp_bind. eapply wp_mono; [apply side_effects_record|].
  intros [[r' wc]|e] w1; [|done]. intros (ds & H1 & H2).
  apply wp_bind. eapply wp_mono; [apply IH|].
  intros [[rs waits]|e] w2; [|done]. intros (ds' & H3 & H4). unfold wp. simpl.
  exists (ds ++ ds'). rewrite H3, H1, app_assoc. split; [done|].
  rewrite map_app, H2, H4, map_app, concat_app. f_equal.
  destruct wc; simpl; [by rewrite app_nil_r|done].
Qed.

Lemma merge_loop_ids reason ids conditions :
  merge_loop reason ids conditions =
  (match conditions with [] => reason | _ => Some WrDelegation end,
   ids ++ concat (map wc_correlation_ids conditions)).
Proof.
  revert reason ids. induction conditions as [|[[] i] l IH]; intros reason ids; simpl;
    [by rewrite app_nil_r|].
  assert (forall o : option WaitReason,
    match o with Some r => Some r | None => Some WrDelegation end = Some WrDelegation) as Hr
    by (by intros [[]|]). rewrite Hr, bool_decide_eq_true_2 by done.
  rewrite IH, <- app_assoc. by destruct l.
Qed.

(** Merging keeps every id, in order; there is only one reason. *)
Lemma wait_merge_ids conditions :
  wait_merge conditions =
  match conditions with
  | [] => None
  | _ => Some {| wc_reason := WrDelegation;
                 wc_correlation_ids := concat (map wc_correlation_ids conditions) |}
  end.
Proof. unfold wait_merge. rewrite merge_loop_ids. by destruct conditions. Qed.
End recorded.

(** The delegations a stored batch of results waits for. *)
Definition waits_for {J : Json} (st : ExecutionState) : list string :=
  match st with WaitingForEvent _ wait => wc_correlation_ids wait | _ => [] end.

(** storing a batch of results waits for exactly the delegations it has
    put in the store, in the order of the results that asked for them: none is
    forgotten, and nothing else is awaited. *)
Theorem stored_batch_awaits_its_delegations {J : Json} {Ev : Env} ctx results context w :
  match store_all_tool_results ctx results context w with
  | (Ok st, w') => exists ds, w_delegations w' = w_delegations w ++ ds /\
                     waits_for st = map del_public_id ds
  | (Err _, _) => True
  end.
Proof.
  change (wp (store_all_tool_results ctx results context) (fun r w' =>
    match r with
    | Ok st => exists ds, w_delegations w' = w_delegations w ++ ds /\
                 waits_for st = map del_public_id ds
    | Err _ => True
    end) w).
  unfold store_all_tool_results. apply wp_bind. eapply wp_mono; [apply adjust_results_record|].
  intros [[rs waits]|e] w1; [|done]. intros (ds & H1 & H2). simpl in H2.
  unfold wp, fresh_uuid, unix_time, add_message, store_add_message, store_call, mbind, M_bind, ask,
    aggregate_changes. cbv zeta. simpl.
  destruct (env_store_error (S (S (w_now w1)))); [done|]. simpl. rewrite wait_merge_ids.
  destruct (diff_is_empty (combined_paths results)); simpl; (exists ds; split; [exact H1|]);
    rewrite H2; by destruct waits.
Qed.

(** ** Timing out *)

(** The store's rows after the delegations of [ids] have been given up. *)
Definition given_up {J : Json} (ids : list string) (d : Delegation) : Delegation :=
  if bool_decide (del_public_id d ∈ ids) then set_delegation_status DsCancelled d else d.

Lemma given_up_cons {J : Json} id ids d :
  given_up ids (if String.eqb (del_public_id d) id then set_delegation_status DsCancelled d else d)
  = given_up (id :: ids) d.
Proof.
  unfold given_up. destruct (String.eqb_spec (del_public_id d) id) as [<-|Hn]; simpl.
  - rewrite (bool_decide_eq_true_2 (del_public_id d ∈ del_public_id d :: ids)) by set_solver.
    by destruct (bool_decide _).
  - destruct (bool_decide_reflect (del_public_id d ∈ ids)) as [H|H].
    + by rewrite bool_decide_eq_true_2 by set_solver.
    + by rewrite bool_decide_eq_false_2 by set_solver.
Qed.

(** giving up on delegations marks exactly their rows as cancelled and
    announces, for each in turn, the request to cancel it and its
    cancellation; nothing else of the store changes, and a failing store is
    not reported. *)
Theorem cleanup_cancels_exactly {J : Json} {Ev : Env} (ids : list string) (w : World) :
  (forall t, env_store_error t = None) ->
  exists w' : World, cleanup_timed_out_delegations (Ev := Ev) ids w = (Ok tt, w') /\
    w_delegations w' = map (given_up ids) (w_delegations w) /\
    w_events w' = w_events w ++
      flat_map (fun id => [DelegationCancelRequested id; DelegationCancelled id]) ids /\
    w_history w' = w_history w /\ w_tasks w' = w_tasks w.
Proof.
  intros Hs. revert w. induction ids as [|id ids IH]; intros w.
  - exists w. rewrite app_nil_r. split_and!; try done.
    rewrite <- (map_id (w_delegations w)) at 1. apply map_ext. intros d.
    unfold given_up. by rewrite bool_decide_eq_false_2 by set_solver.
  - unfold cleanup_timed_out_delegations in *. cbn [mapM_].
    unfold mbind at 1, M_bind at 1.
    match goal with |- context [let '(_, _) := ?m w in _] =>
      assert (exists w1, m w = (Ok tt, w1) /\
        w_delegations w1 = map (fun d => if String.eqb (del_public_id d) id
                                 then set_delegation_status DsCancelled d else d) (w_delegations w) /\
        w_events w1 = w_events w ++ [DelegationCancelRequested id; DelegationCancelled id] /\
        w_history w1 = w_history w /\ w_tasks w1 = w_tasks w) as (w1 & -> & H1 & H2 & H3 & H4) end.
    { unfold update_delegation_status, emit_event, modify, store_call, mbind, M_bind. simpl.
      rewrite Hs. eexists. split; [reflexivity|]. simpl. split_and!; try done.
      by rewrite <- app_assoc. }
    destruct (IH w1) as (w2 & -> & H5 & H6 & H7 & H8). exists w2.
    split_and!; [done| | |congruence|congruence].
    + rewrite H5, H1, map_map. apply map_ext. intros d. apply given_up_cons.
    + rewrite H6, H2. simpl. by rewrite <- app_assoc.
Qed.

Section cleanup_example.
#[local] Existing Instance toy_json.

Lemma cleanup_cancels_exactly_witness :
  exists w', cleanup_timed_out_delegations (Ev := env_of quiet) ["d1"; "d2"] world0 = (Ok tt, w') /\
    w_delegations w' = [] /\
    w_events w' = [DelegationCancelRequested "d1"; DelegationCancelled "d1";
                   DelegationCancelRequested "d2"; DelegationCancelled "d2"] /\
    w_history w' = [] /\ w_tasks w' = [].
Proof. exact (cleanup_cancels_exactly (Ev := env_of quiet) ["d1"; "d2"] world0 (fun _ => eq_refl)). Defined.
End cleanup_example.
