(* ===== verification/ModelProps.v ===== *)
(** Properties of the model call (agent/execution/llm_retry.rs and
    transition_call_llm in transitions.rs): retries, streaming, cache
    breakpoints, usage and costs. *)
From S2P Require Import Prelude Numbers Text Json Chat LlmErrors Domain Events Model ExecState.
From S2P Require Import Driver Pruning Hooks World Limits AgentConfig Retry CallLlm ModelCall.
From S2P Require Import Transitions Fixtures.

Local Open Scope Z_scope.

(** ** Retries *)

(** What the loop reports when it gives up on an error. *)
Definition failure_of (max_retries : nat) (e : LLMError) : string :=
  match extract_rate_limit_info e with
  | Some (message, _) =>
      "Rate limit exceeded after " +:+ dec_of_Z (Z.of_nat max_retries) +:+ " attempts: " +:+ message
  | None => llm_error_display e
  end.

Section retry.
Context {J : Json} {Ev : Env} (config : AgentConfig).

(** The attempt that decides: the first success, the first error not worth a
    retry, or the last one allowed. *)
Definition decisive {A} (answers : nat -> result LLMError A) (max_retries k : nat) : Prop :=
  (k < Nat.max 1 max_retries)%nat /\
  (forall j, (j < k)%nat -> exists e, answers j = Err e /\ is_retryable e = true) /\
  forall e, answers k = Err e -> is_retryable e = false \/ (max_retries <= S k)%nat.

Lemma decisive_exists {A} (answers : nat -> result LLMError A) max_retries :
  exists k, decisive answers max_retries k.
Proof.
  assert (forall n, (forall j, (j < n)%nat -> exists e, answers j = Err e /\ is_retryable e = true) \/
    exists k, (k < n)%nat /\
      (forall j, (j < k)%nat -> exists e, answers j = Err e /\ is_retryable e = true) /\
      forall e, answers k = Err e -> is_retryable e = false) as H.
  { induction n as [|n [IH|(k & Hk & H1 & H2)]]; [left; lia| |right; exists k; split_and!; [lia|done..]].
    destruct (answers n) as [a|e] eqn:E.
    - right. exists n. rewrite E. split_and!; [lia|done|done].
    - destruct (is_retryable e) eqn:Er.
      + left. intros j Hj. destruct (decide (j = n)) as [->|]; [by exists e|apply IH; lia].
      + right. exists n. split_and!; [lia|done|]. rewrite E. by intros ? [= <-]. }
  destruct (H (Nat.max 1 max_retries)) as [Hall|(k & Hk & H1 & H2)].
  - exists (Nat.max 1 max_retries - 1)%nat. split_and!; [lia| |].
    + intros j Hj. apply Hall. lia.
    + intros e _. right. lia.
  - exists k. split_and!; [done|done|]. intros e He. left. by apply H2.
Qed.

(** The loop at the attempt that decides. *)
Lemma retry_loop_decides {A} (answers : nat -> result LLMError A) fuel k w :
  env_cancel_at = None -> decisive answers (rl_max_retries (rate_limit config)) k ->
  (retry_loop config (S fuel) (scripted answers) k w).1 =
  match answers k with
  | Ok a => Ok a
  | Err e => Err (Anyhow (failure_of (rl_max_retries (rate_limit config)) e))
  end.
Proof.
  intros Hc (_ & _ & He). cbn [retry_loop].
  unfold mbind, M_bind, is_cancelled, ask, cancelled_at, scripted, mret, M_ret. rewrite Hc.
  destruct (answers k) as [a|e] eqn:E; [done|]. unfold failure_of.
  destruct (extract_rate_limit_info e) as [[m ra]|] eqn:Ei.
  - destruct (He e eq_refl) as [Hr|Hm].
    + pose proof (rate_limit_info_retryable e ltac:(by rewrite Ei)). congruence.
    + by replace (rl_max_retries (rate_limit config) <=? S k)%nat with true
        by (symmetry; apply Nat.leb_le; lia).
  - unfold is_transient_error. destruct (He e eq_refl) as [->|Hm]; [done|].
    replace (S k <? rl_max_retries (rate_limit config))%nat with false
      by (symmetry; apply Nat.ltb_ge; lia).
    by rewrite andb_false_r.
Qed.
End retry.

(** C9: without a cancellation, a call that is retried ends, with the answer
    of its decisive attempt: the first success, or the failure of the first
    error not worth a retry, or that of the last of the allowed attempts
    (never fewer than one).  Every attempt before it failed with a retryable
    error, and nothing of the history is written meanwhile. *)
Theorem retry_returns_decisive_answer {J : Json} {Ev : Env} config
    (answers : nat -> result LLMError ChatResponse) w :
  env_cancel_at = None ->
  exists k, decisive answers (rl_max_retries (rate_limit config)) k /\
    (call_llm_with_retry config (scripted answers) w).1 =
    match answers k with
    | Ok a => Ok a
    | Err e => Err (Anyhow (failure_of (rl_max_retries (rate_limit config)) e))
    end /\
    w_history (call_llm_with_retry config (scripted answers) w).2 = w_history w.
Proof.
  intros Hc. destruct (decisive_exists answers (rl_max_retries (rate_limit config))) as (k & Hk).
  exists k. split; [done|]. split.
  - unfold call_llm_with_retry, retry_fuel. pose proof Hk as (H1 & H2 & _).
    destruct (retry_loop_reaches config answers k (S (rl_max_retries (rate_limit config) - k)) 0 w Hc)
      as (w' & _ & Heq).
    + intros j Hj. apply H2. lia.
    + lia.
    + replace (S (rl_max_retries (rate_limit config)))
        with (k + S (rl_max_retries (rate_limit config) - k))%nat by lia.
      rewrite Heq. by apply retry_loop_decides.
  - pose proof (keeps_retry_loop config (fun l => l = w_history w) (retry_fuel config)
      (scripted answers) 0 ltac:(intros j; apply keeps_ret) w eq_refl) as H.
    unfold wp in H. unfold call_llm_with_retry. by destruct (retry_loop _ _ _ _ w).
Qed.

Section retry_example.
#[local] Existing Instance toy_json.

Definition third_time_lucky (k : nat) : result LLMError ChatResponse :=
  match k with
  | 0%nat => Err (RateLimited "slow down" (Some 2))
  | 1%nat => Err (HttpStatus 503 "busy" None)
  | _ => Ok (plain_response "done")
  end.

Lemma retry_returns_decisive_answer_witness :
  (exists k, decisive third_time_lucky 3 k /\
     (call_llm_with_retry (Ev := env_of quiet) config0 (scripted third_time_lucky) world0).1 =
     match third_time_lucky k with
     | Ok a => Ok a
     | Err e => Err (Anyhow (failure_of 3 e))
     end /\
     w_history (call_llm_with_retry (Ev := env_of quiet) config0 (scripted third_time_lucky) world0).2
       = []) /\
  (call_llm_with_retry (Ev := env_of quiet) config0 (scripted third_time_lucky) world0).1
    = Ok (plain_response "done").
Proof.
  split.
  - apply (retry_returns_decisive_answer (Ev := env_of quiet) config0 third_time_lucky world0).
    reflexivity.
  - vm_compute. reflexivity.
Defined.
End retry_example.

(** ** Streaming *)

(** C27: a streamed response is, whole, what one stream the provider created
    says: its text and thinking are the concatenated deltas, its calls the
    first call of each id, its usage the maximum reported (with the usage that
    trails the end), its reason the stream's own or the one its calls imply.
    The events the call adds are those up to the last recovery, if there was
    one, and those after it; the deltas of all the latter, and they alone, spell
    the response's text and thinking.  Nothing of an abandoned attempt is in it;
    a call that ends without a response was cancelled; the history is left
    alone. *)
Theorem streamed_response_is_one_stream {J : Json} {Ev : Env} config messages tools w :
  match call_streaming config messages tools w with
  | (Ok (Some r), w') =>
      exists t items cs fr given_up evs,
        env_chat_stream_with_tools t messages tools = Ok items /\
        stream_chunks items = Some (cs, fr) /\ streamed cs fr r /\
        w_history w' = w_history w /\ w_events w' = w_events w ++ given_up ++ evs /\
        up_to_recovery given_up /\ no_recovery evs /\
        content_deltas evs = cl_content r /\
        thinking_deltas evs = default "" (cl_thinking r)
  | (Ok None, w') => env_cancel_at <> None /\ w_history w' = w_history w
  | (Err e, w') => e <> OutOfFuel /\ w_history w' = w_history w
  end.
Proof.
  pose proof (call_streaming_spec config messages tools w) as H.
  destruct (call_streaming config messages tools w) as [[[r|]|e] w']; [|exact H..].
  destruct H as (t & items & cs & fr & given_up & evs & H1 & H2 & H3 & H4 & H5 & H6 & H7 & H8 & H9).
  exists t, items, cs, fr, given_up, evs. split_and!; try done.
  - by rewrite H8, (proj1 H3).
  - rewrite H9, (proj1 (proj2 H3)). destruct (is_empty_str _) eqn:E; [|done].
    by apply is_empty_str_spec in E.
Qed.

(** the model is called with the response's own context: a model call
    ends with an [AfterLlm] state over the unchanged context whose response is
    an answer of the model to that context's messages, or is cancelled, or
    fails; it never writes to the history and never runs on for ever. *)
Theorem model_call_answers_context {J : Json} {Ev : Env} config ctx context tools w :
  match transition_call_llm config ctx context tools w with
  | (Ok st, w') =>
      w_history w' = w_history w /\
      ((st = Cancelled /\ env_cancel_at <> None) \/
       exists r, st = AfterLlm (response_of r) context /\
         from_model (apply_cache_breakpoints (cc_messages context)) tools r)
  | (Err e, w') => e <> OutOfFuel /\ w_history w' = w_history w
  end.
Proof. apply call_llm_spec. Qed.

Lemma imap_app_plain {A} (f : nat -> A -> A) (l : list A) :
  (forall i x, l !! i = Some x -> f i x = x) -> imap f l = l.
Proof.
  intros H. apply list_eq. intros i. rewrite list_lookup_imap.
  destruct (l !! i) as [x|] eqn:E; [|done]. simpl. by rewrite (H i x E).
Qed.

(** the cache breakpoints go on the last two messages, whatever mark they
    had, and on nothing else; a conversation of a single message gets none. *)
Theorem cache_breakpoints_on_last_two {J : Json} :
  (forall h a b, apply_cache_breakpoints (h ++ [a; b]) = h ++ [with_cache a; with_cache b]) /\
  (forall l, (length l < 2)%nat -> apply_cache_breakpoints l = l).
Proof.
  unfold apply_cache_breakpoints. split.
  - intros h a b. rewrite length_app. change (length [a; b]) with 2%nat.
    rewrite (proj2 (Nat.leb_le 2 (length h + 2))) by lia. cbv zeta.
    replace (length h + 2 - 2)%nat with (length h) by lia.
    rewrite imap_app, imap_app_plain.
    + f_equal. cbn. rewrite Nat.add_0_r, Nat.leb_refl.
      by rewrite (proj2 (Nat.leb_le (length h) (length h + 1))) by lia.
    + intros i x Hi. apply lookup_lt_Some in Hi.
      by rewrite (proj2 (Nat.leb_gt (length h) i)) by lia.
  - intros l Hl. apply imap_app_plain. intros i x _.
    by rewrite (proj2 (Nat.leb_gt 2 (length l))) by lia.
Qed.

(** ** Usage and costs *)

Lemma merge_max_comm a b : merge_max a b = merge_max b a.
Proof. unfold merge_max. f_equal; lia. Qed.

Lemma merge_max_assoc a b c : merge_max (merge_max a b) c = merge_max a (merge_max b c).
Proof. unfold merge_max. simpl. f_equal; lia. Qed.

(** the usage of a stream does not depend on the order in which the
    provider reports its parts. *)
Theorem merged_usage_order_independent us us' (o : option Usage) :
  us ≡ₚ us' -> fold_left merge_usage us o = fold_left merge_usage us' o.
Proof.
  intros H. revert o. induction H as [|u l l' _ IH|u v l|l1 l2 l3 _ IH1 _ IH2]; intros o; simpl.
  - done.
  - apply IH.
  - f_equal. unfold merge_usage. f_equal. destruct o as [p|]; [|apply merge_max_comm].
    by rewrite !merge_max_assoc, (merge_max_comm u v).
  - by rewrite IH1.
Qed.

Lemma merged_usage_order_independent_witness :
  let a := {| u_input := 100; u_output := 0; u_reasoning := 0; u_cache_read := 7; u_cache_write := 0 |} in
  let b := {| u_input := 0; u_output := 25; u_reasoning := 3; u_cache_read := 0; u_cache_write := 0 |} in
  fold_left merge_usage [a; b] None = fold_left merge_usage [b; a] None.
Proof. cbv zeta. apply merged_usage_order_independent. apply perm_swap. Defined.

(** the cumulative cost of the [LlmRequestEnd] event charges the reasoning
    tokens of the current request twice and those of earlier requests not at
    all, whereas the session's statistics, updated with the same usage, charge
    each of them once. *)
Theorem cumulative_cost_miscounts_reasoning stats pricing usage :
  (request_costs stats (Some pricing) (Some usage)).2 =
    calculate_cost pricing ((st_total_input_tokens stats + u_input usage) mod 2 ^ 64)
      ((st_total_output_tokens stats + u_output usage + 2 * u_reasoning usage) mod 2 ^ 64) /\
  (let counted := count_usage stats usage in
   st_total_input_tokens counted = (st_total_input_tokens stats + u_input usage) mod 2 ^ 64 /\
   u64_add (st_total_output_tokens counted) (st_reasoning_tokens counted) =
     (st_total_output_tokens stats + u_output usage
      + st_reasoning_tokens stats + u_reasoning usage) mod 2 ^ 64).
Proof.
  unfold request_costs, count_usage, u64_add. cbn [snd]. split; [|split; [done|]].
  - simpl. f_equal. rewrite <- Zplus_mod. f_equal. lia.
  - simpl. rewrite <- Zplus_mod. f_equal. lia.
Qed.
