(* ===== verification/MiddlewareProps.v ===== *)
(** Properties of the middleware pipeline and of its drivers: composition,
    limits, context warnings, the delegation guard, task completion. *)
From S2P Require Import Prelude Numbers Text Json Chat LlmErrors Domain Events Model ExecState.
From S2P Require Import Driver Pruning Hooks World Limits ContextMw DelegationMw AgentConfig.
From S2P Require Import Compaction Retry CallLlm ModelCall ToolCalls Transitions Wait.
From S2P Require Import Maintenance Machine Fixtures Pairing WaitSpec HistoryProps CycleInv.

Local Open Scope Z_scope.

(** ** The pipeline *)

(** a pipeline is the composition of its parts: its second part runs on
    what the first part gives, unless a driver of the first part has failed or
    ended the phase; then the second part has no effect at all. *)
Theorem pipeline_composes {J : Json} {S : Type} (d1 d2 : CompositeDriver S) phase state (s : S) :
  run_phase (d1 ++ d2) phase state s =
  match run_phase d1 phase state s with
  | (Ok st', s') =>
      if is_terminal phase st' && negb (is_nil d1) then (Ok st', s')
      else run_phase d2 phase st' s'
  | (Err e, s') => (Err e, s')
  end.
Proof. apply run_phase_app. Qed.

(** the limits a pipeline advertises are, for each of the three kinds, the
    one the first driver with such a limit advertises; none at all when no
    driver advertises any. *)
Theorem advertised_limits_first_wins {J : Json} {S : Type} (d : CompositeDriver S) :
  composite_get_limits d =
  let all := omap md_get_limits d in
  if is_nil all then None
  else Some {| sl_max_steps := head (omap sl_max_steps all);
               sl_max_turns := head (omap sl_max_turns all);
               sl_max_cost_usd := head (omap sl_max_cost_usd all) |}.
Proof.
  unfold composite_get_limits. rewrite get_limits_loop_spec. cbv zeta. simpl.
  by destruct (is_nil (omap md_get_limits d)).
Qed.

(** ** Limits *)

(** The single-limit drivers of a combined configuration, in its order. *)
Definition single_limits {J : Json} (config : LimitsConfig) (input output : f64)
    : CompositeDriver World :=
  option_list (MaxStepsMiddleware <$> lc_max_steps config)
  ++ option_list (TurnLimitMiddleware <$> lc_max_turns config)
  ++ option_list ((fun price => PriceLimitMiddleware
       {| pl_max_cost := price; pl_input_cost_per_million := input;
          pl_output_cost_per_million := output |}) <$> lc_max_price_usd config).

Lemma price_is_total {J : Json} {Ev : Env} config context a b c d e input output price :
  lc_model_info_source config = Manual a b c d e (Some input) (Some output) ->
  limits_total_cost config (cc_stats context) context =
  Some (price_total_cost {| pl_max_cost := price; pl_input_cost_per_million := input;
          pl_output_cost_per_million := output |} (cc_stats context)).
Proof. intros H. unfold limits_total_cost. by rewrite H. Qed.

(** A driver that decides without effects, at the head of a pipeline. *)
Lemma run_phase_decides {J : Json} dr rest p st st' (w : World) :
  phase_handler dr p st w = (Ok st', w) ->
  run_phase (dr :: rest) p st w = if is_terminal p st' then (Ok st', w) else run_phase rest p st' w.
Proof.
  intros H. cbn [run_phase]. unfold mbind, M_bind. rewrite H. by destruct (is_terminal p st').
Qed.

(** with prices given by hand, the combined limits driver decides every
    step as the pipeline of the three single-limit drivers does, stop messages
    included. *)
Theorem combined_limits_agree {J : Json} {Ev : Env} idx config a b c d e input output context w :
  lc_model_info_source config = Manual a b c d e (Some input) (Some output) ->
  (run_step_start [LimitsMiddleware idx config] (BeforeLlmCall context) w).1 =
  (run_step_start (single_limits config input output) (BeforeLlmCall context) w).1.
Proof.
  intros Hs. transitivity (Ok (E := string) (default (BeforeLlmCall context) (limits_decide config context))).
  - unfold run_step_start. cbn [run_phase phase_handler on_step_start LimitsMiddleware].
    pose proof (limits_on_step_start_result idx config (BeforeLlmCall context) w) as H.
    unfold mbind, M_bind. destruct (limits_on_step_start idx config (BeforeLlmCall context) w) as [r w'].
    simpl in H. rewrite H. by destruct (is_terminal _ _).
  - unfold limits_decide, single_limits, run_step_start.
    assert (forall (A : Type) (o : option A) (f : A -> MiddlewareDriver World) rest,
      option_list (f <$> o) ++ rest = match o with Some x => f x :: rest | None => rest end) as Ho
      by (by intros A [x|] f rest).
    rewrite <- (app_nil_r (option_list (_ <$> lc_max_price_usd config))), !Ho.
    destruct (lc_max_steps config) as [ms|];
      [erewrite run_phase_decides by reflexivity;
       destruct (ms <=? st_steps (cc_stats context)); [done|cbn [is_terminal]]|];
    (destruct (lc_max_turns config) as [mt|];
      [erewrite run_phase_decides by reflexivity;
       destruct (mt <=? st_turns (cc_stats context)); [done|cbn [is_terminal]]|]);
    (destruct (lc_max_price_usd config) as [mp|]; [|done]);
    erewrite run_phase_decides by reflexivity;
    cbn [mbind option_bind]; rewrite (price_is_total config context a b c d e input output mp Hs);
    cbn [mbind option_bind pl_max_cost];
    by destruct (f64_gt (price_total_cost _ _) mp).
Qed.

Section limits_example.
#[local] Existing Instance toy_json.

Definition three_limits : LimitsConfig :=
  with_max_price_usd (with_max_turns (with_max_steps
    (with_manual_pricing (f64_of_Z 3) (f64_of_Z 15)) 5) 10) (f64_of_Z 1).

Lemma combined_limits_agree_witness :
  (run_step_start [LimitsMiddleware (Ev := env_of quiet) 0 three_limits] (BeforeLlmCall context0)
     world0).1 =
  (run_step_start (single_limits three_limits (f64_of_Z 3) (f64_of_Z 15)) (BeforeLlmCall context0)
     world0).1.
Proof.
  apply (combined_limits_agree (Ev := env_of quiet) 0 three_limits (Some 32000) (Some 4096)
           true false false).
  reflexivity.
Defined.
End limits_example.

(** before a model call the limits driver stops exactly when a limit is
    reached, with the message of the first one reached in the order steps,
    turns, price; otherwise it passes the state on. It writes no message. *)
Theorem limits_stop_exactly_when_reached {J : Json} {Ev : Env} idx config context w :
  let '(r, w') := limits_on_step_start idx config (BeforeLlmCall context) w in
  r = Ok (match reached_limits config context with
          | stop :: _ => stop
          | [] => BeforeLlmCall context
          end) /\
  w_history w' = w_history w /\ w_events w' = w_events w.
Proof.
  pose proof (limits_on_step_start_result idx config (BeforeLlmCall context) w) as H.
  pose proof (limits_on_step_start_world idx config (BeforeLlmCall context) w) as Hw.
  destruct (limits_on_step_start idx config (BeforeLlmCall context) w) as [r w']. simpl in *.
  split; [|exact Hw]. rewrite H, limits_decide_reached. by destruct (reached_limits config context).
Qed.

(** ** The context window *)

(** a step first asks for compaction when that is enabled and the context
    has reached its threshold, whether or not it has warned.  Otherwise it
    warns at most once a session: a step that adds a message had not warned
    this session since the model last changed, and leaves behind a state in
    which every later step of the session with the same model either asks for
    compaction or passes the state on, changing nothing. *)
Theorem context_warns_once {J : Json} {Ev : Env} idx config c w :
  let limit := get_max_tokens config c in
  let full := negb (limit =? 0) && cx_auto_compact config
    && (percent_threshold limit (cx_compact_at_percent config) <=? st_context_tokens (cc_stats c)) in
  match context_step idx config (BeforeLlmCall c) w with
  | (BeforeLlmCall c', w') =>
      full = false /\
      (c' = c \/
       exists warning, c' = inject_message c warning /\
         (cell_last_model (get_cell idx w) = Some (cc_provider c, cc_model c) ->
          cc_session_id c ∉ cell_warned_sessions (get_cell idx w)) /\
         forall later, cc_session_id later = cc_session_id c ->
           cc_provider later = cc_provider c -> cc_model later = cc_model c ->
           exists st, context_step idx config (BeforeLlmCall later) w' = (st, w') /\
             (st = BeforeLlmCall later \/ exists n m, st = compaction_state config n m later))
  | (st, _) => full = true /\
      st = compaction_state config (st_context_tokens (cc_stats c)) limit c
  end.
Proof.
  cbv zeta. unfold context_step at 1. destruct (get_max_tokens config c =? 0) eqn:Ez; cbn [negb andb];
    [by split; [|left]|].
  destruct (cx_auto_compact config && _) eqn:Ef; [by split|].
  destruct (should_warn _ _ _ _ _ _) as [[warning|] w'] eqn:Ew; [|by split; [|left]].
  split; [done|]. right. exists warning. split; [done|].
  apply should_warn_marks in Ew as (Hn & Hin & Hm). rewrite context_check_last in Hm. split.
  - intros Hl. by rewrite context_check_warned in Hn.
  - intros later Hs Hp Hmo. unfold context_step. rewrite context_check_warned by congruence.
    destruct (get_max_tokens config later =? 0); [by eexists; split; [|left]|].
    match goal with |- context [if ?b then (compaction_state _ _ _ _, _) else _] => destruct b end;
      [eexists; split; [reflexivity|right; by eexists _, _]|].
    rewrite should_warn_silent; [by eexists; split; [|left]|]. rewrite Hin, Hs. set_solver.
Qed.

(** ** The delegation guard *)

(** Whether an earlier delegation blocks one of the delegate calls among
    [parts], at the time [now]. *)
Definition blocked_calls {J : Json} {Ev : Env} (g : DelegationGuard) (now : Z)
    (parts : list MessagePart) (earlier : list Delegation) : bool :=
  existsb (fun '(target, objective) =>
    existsb (fun d => same_delegation (env_rapidhash objective) target d
                      && is_some (blocks_now g now d)) earlier)
    (omap delegate_args parts).

Lemma keeps_check_delegations {J : Json} {Ev : Env} P g show hash target l :
  keeps (fun w => P (w_delegations w)) (check_delegations g show hash target l).
Proof.
  induction l as [|d l IH]; [apply keeps_ret|]. cbn [check_delegations].
  repeat first [exact IH | keeps_step | cbn beta iota]. intros w0 H. exact H.
Qed.

Lemma check_parts_blocked {J : Json} {Ev : Env} g show parts now w :
  (forall t, env_unix_time t = now) -> (forall t, env_store_error t = None) ->
  exists o w', check_parts g show parts w = (Ok o, w') /\ w_delegations w' = w_delegations w /\
    is_some o = blocked_calls g now parts (w_delegations w).
Proof.
  intros Hn Hs. revert w. induction parts as [|p parts IH]; intros w; [by eexists _, _|].
  cbn [check_parts]. unfold blocked_calls. rewrite omap_cons.
  destruct (delegate_args p) as [[target objective]|]; [|apply IH]. cbn [existsb].
  unfold check_delegation_allowed, mw_list_delegations, mw_store. unfold mbind at 1, M_bind at 1.
  unfold mbind at 1, M_bind at 1. rewrite Hs. cbn.
  destruct (check_delegations_blocked g show (env_rapidhash objective) target (w_delegations w) now
    (set_now S w) Hn) as (o & w1 & E & Ho). rewrite E.
  pose proof (keeps_check_delegations (fun ds => ds = w_delegations w) g show
    (env_rapidhash objective) target (w_delegations w) (set_now S w) eq_refl) as Hw.
  unfold wp in Hw. rewrite E in Hw.
  rewrite <- Ho. destruct o as [m|]; simpl; [by eexists _, _|].
  destruct (IH w1) as (o & w2 & -> & H1 & H2). exists o, w2. rewrite Hw in *. by split_and!.
Qed.

(** the guard stops the turn exactly when the newest stored message is an
    assistant message with a delegate call that an earlier delegation to the
    same agent with the same objective blocks: one still in progress, one that
    has failed as often as allowed, or one that failed within the window.  The
    state it stops with is the context it was given, without the warning. *)
Theorem guard_blocks_exactly {J : Json} {Ev : Env} g response context now m w :
  (forall t, env_unix_time t = now) -> (forall t, env_store_error t = None) ->
  last (w_history w) = Some m -> am_role m = Assistant ->
  (guard_on_after_llm g (AfterLlm response context) w).1 =
  Ok (if blocked_calls g now (am_parts m) (w_delegations w)
      then Stopped "Delegation blocked by guard" DelegationBlocked (Some context)
      else AfterLlm response context).
Proof.
  intros Hn Hs Hl Hr. unfold guard_on_after_llm, check_last_message, mw_get_history, mw_store.
  unfold mbind at 1, M_bind at 1. unfold mbind at 1, M_bind at 1. rewrite Hs. cbn.
  rewrite Hl, bool_decide_eq_true_2 by done.
  destruct (check_parts_blocked g del_public_id (am_parts m) now (set_now S w) Hn Hs)
    as (o & w1 & -> & _ & Ho). simpl in Ho. rewrite <- Ho. by destruct o.
Qed.

(** the guard runs before the response of the step is stored, and reads
    only what is stored: in a history where every tool use has been answered,
    as it is in whenever a response arrives, it lets every response pass, in
    particular any call to delegate, however often it has failed before. *)
Theorem guard_never_blocks_response {J : Json} {Ev : Env} g response context w :
  paired (w_history w) ->
  (guard_on_after_llm g (AfterLlm response context) w).1 = Ok (AfterLlm response context).
Proof.
  intros Hp. unfold guard_on_after_llm. unfold mbind, M_bind.
  destruct (check_last_message_passes g del_public_id w) as (w' & ->); [|done].
  intros m Hl _. apply last_Some in Hl as [h Hh]. rewrite Hh in Hp. unfold paired in Hp.
  rewrite open_calls_app in Hp. destruct (open_calls [] h) as [q|]; [|done]. simpl in Hp.
  destruct (bool_decide _); [|done]. injection Hp as Hu. unfold used_ids in Hu.
  induction (am_parts m) as [|p ps IH]; [done|]. by destruct p; simpl in *; try apply IH.
Qed.

Section guard_example.
#[local] Existing Instance toy_json.

(** An assistant message that delegates, and the same delegation in the store,
    failed three times. *)
Definition delegating_message : AgentMessage :=
  {| am_id := "m"; am_session_id := "s"; am_role := Assistant;
     am_parts := [MpToolUse (an_llm_call "c1" "delegate" "{target_agent_id:coder,objective:fix}")];
     am_created_at := 0; am_parent_message_id := None; am_source_provider := None;
     am_source_model := None |}.

Definition failed_delegation : Delegation :=
  {| del_id := 1; del_public_id := "d1"; del_session_id := 1; del_task_id := None;
     del_target_agent_id := "coder"; del_objective := "fix"; del_objective_hash := 3;
     del_context := None; del_constraints := None; del_expected_output := None;
     del_verification_spec := None; del_planning_summary := None; del_status := DsFailed;
     del_retry_count := 3; del_created_at := 0; del_completed_at := Some 0 |}.

(** The clock stands still at 100. *)
Definition stopped_clock (Ev := env_of quiet) : Env :=
  {| env_cancel_at := env_cancel_at; env_race := env_race; env_unix_time := fun _ => 100;
     env_uuid := env_uuid; env_powi := env_powi; env_rapidhash := env_rapidhash;
     env_blob_size := env_blob_size; env_flush_due := env_flush_due;
     env_store_error := env_store_error; env_session_internal_id := env_session_internal_id;
     env_row_id := env_row_id; env_session_active_task := env_session_active_task;
     env_models := env_models; env_provider_error := env_provider_error;
     env_provider_tools := env_provider_tools; env_supports_streaming := env_supports_streaming;
     env_has_key_resolver := env_has_key_resolver; env_chat := env_chat;
     env_chat_with_tools := env_chat_with_tools; env_chat_stream := env_chat_stream;
     env_chat_stream_with_tools := env_chat_stream_with_tools;
     env_builtin_call := env_builtin_call; env_mcp := env_mcp; env_mcp_call := env_mcp_call;
     env_provider_call := env_provider_call; env_tools_json := env_tools_json;
     env_is_object := env_is_object; env_debug_error := env_debug_error;
     env_pre_tool_use := env_pre_tool_use; env_permission_request := env_permission_request;
     env_post_tool_use := env_post_tool_use; env_stop := env_stop;
     env_pre_compaction := env_pre_compaction; env_post_compaction := env_post_compaction;
     env_pre_delegation := env_pre_delegation; env_request_permission := env_request_permission;
     env_snapshot_diff := env_snapshot_diff; env_metadata := env_metadata;
     env_temp_dir := env_temp_dir; env_create_dir := env_create_dir; env_write := env_write |}.

Definition delegating_world : World :=
  set_delegations (fun _ => [failed_delegation]) (set_history (fun _ => [delegating_message]) world0).
Definition delegating_response : LlmResponse :=
  llm_response_new "" [a_call "c2" "delegate" "{target_agent_id:coder,objective:fix}"] None
    (Some FrToolCalls).

Lemma guard_blocks_exactly_witness :
  (guard_on_after_llm (Ev := stopped_clock) guard_new (AfterLlm delegating_response context0)
     delegating_world).1 =
  Ok (if blocked_calls (Ev := stopped_clock) guard_new 100 (am_parts delegating_message)
           [failed_delegation]
      then Stopped "Delegation blocked by guard" DelegationBlocked (Some context0)
      else AfterLlm delegating_response context0) /\
  blocked_calls (Ev := stopped_clock) guard_new 100 (am_parts delegating_message)
    [failed_delegation] = true.
Proof.
  split; [|vm_compute; reflexivity].
  apply (guard_blocks_exactly (Ev := stopped_clock) guard_new delegating_response context0 100
           delegating_message delegating_world); reflexivity.
Defined.

Lemma guard_never_blocks_response_witness :
  (guard_on_after_llm (Ev := stopped_clock) guard_new (AfterLlm delegating_response context0)
     (set_history (fun _ => [user_message "u" "hi"]) delegating_world)).1 =
  Ok (AfterLlm delegating_response context0).
Proof. apply guard_never_blocks_response. vm_compute. reflexivity. Defined.
End guard_example.

(** ** Task completion *)

(** The task a response without calls completes: the session's active task,
    when its row is active and not recurring, and each of its delegations has
    completed or failed. *)
Definition completed_task {J : Json} {Ev : Env} (response : LlmResponse) (w : World) : option Task :=
  if has_tool_calls response then None
  else
    id ← mjoin (env_session_active_task (S (w_now w)));
    task ← find_task id (w_tasks w);
    if bool_decide (task_status task = TsActive) && negb (bool_decide (task_kind task = Recurring))
       && forallb (fun d => negb (of_task id d) || delegation_settled d) (w_delegations w)
    then Some task else None.

Lemma all_done_forallb {J : Json} id l :
  all_delegations_done id l = forallb (fun d => negb (of_task id d) || delegation_settled d) l.
Proof.
  unfold all_delegations_done. induction l as [|d l IH]; [done|]. simpl.
  destruct (of_task id d); simpl; [|exact IH]. rewrite <- IH.
  destruct (List.filter (of_task id) l); simpl; [|done]. by rewrite andb_true_r.
Qed.

(** with the store answering, the auto-completion passes every response on
    and marks as done exactly the rows of the completed task, changing nothing
    else: a task with a delegation still requested or running, and also one
    with a cancelled delegation, is left alone. *)
Theorem auto_completion_marks_exactly {J : Json} {Ev : Env} response context w :
  (forall t, env_store_error t = None) ->
  let '(r, w') := auto_on_after_llm (AfterLlm response context) w in
  r = Ok (AfterLlm response context) /\
  (exists now, w_tasks w' =
     match completed_task response w with
     | Some task => update_stored_status (task_public_id task) TsDone now (w_tasks w)
     | None => w_tasks w
     end) /\
  w_delegations w' = w_delegations w /\ w_history w' = w_history w /\ w_events w' = w_events w.
Proof.
  intros Hs. unfold auto_on_after_llm, completed_task.
  destruct (has_tool_calls response); [split_and!; try done; by exists 0|].
  unfold auto_complete, mw_list_delegations, mw_store, mbind, M_bind, option_bind.
  rewrite !Hs. simpl. destruct (env_session_active_task (S (w_now w))) as [[id|]|]; simpl;
    try (split_and!; try done; by exists 0).
  rewrite !Hs. simpl.
  destruct (find_task id (w_tasks w)) as [task|]; simpl; [|split_and!; try done; by exists 0].
  destruct (bool_decide (task_status task = TsActive)); simpl; [|split_and!; try done; by exists 0].
  destruct (bool_decide (task_kind task = Recurring)); simpl; [split_and!; try done; by exists 0|].
  rewrite !Hs. simpl. rewrite all_done_forallb.
  destruct (forallb _ (w_delegations w)); [|split_and!; try done; by exists 0].
  rewrite !Hs. simpl. split_and!; try done. by eexists.
Qed.

Section task_example.
#[local] Existing Instance toy_json.

Definition active_task : Task :=
  {| task_id := 7; task_public_id := "t7"; task_session_id := 1; task_kind := Finite;
     task_status := TsActive; task_expected_deliverable := None;
     task_acceptance_criteria := None; task_created_at := 0; task_updated_at := 0 |}.

Definition task_world : World := set_tasks (fun _ => [active_task]) world0.

Abbreviation task_run :=
  (auto_on_after_llm (Ev := env_of (with_session_task 7 quiet))
     (AfterLlm (llm_response_new "done" [] None (Some FrStop)) context0) task_world).

Lemma auto_completion_marks_exactly_witness :
  map task_status (w_tasks task_run.2) = [TsDone] /\
  let '(r, w') := task_run in
  r = Ok (AfterLlm (llm_response_new "done" [] None (Some FrStop)) context0) /\
  (exists now, w_tasks w' =
     match completed_task (Ev := env_of (with_session_task 7 quiet))
             (llm_response_new "done" [] None (Some FrStop)) task_world with
     | Some task => update_stored_status (task_public_id task) TsDone now (w_tasks task_world)
     | None => w_tasks task_world
     end) /\
  w_delegations w' = [] /\ w_history w' = [] /\ w_events w' = [].
Proof.
  split; [vm_compute; reflexivity|].
  apply (auto_completion_marks_exactly (Ev := env_of (with_session_task 7 quiet))
           (llm_response_new "done" [] None (Some FrStop)) context0 task_world).
  reflexivity.
Defined.
End task_example.
