(* ===== verification/ToolProps.v ===== *)
(** Properties of the tools' side: permission, dispatch, which tools are
    offered, and the truncation of what they return. *)
From S2P Require Import Prelude Numbers Text Json Chat LlmErrors Domain Events Model ExecState.
From S2P Require Import Driver Pruning Hooks World Limits AgentConfig ToolCalls Fixtures.

Local Open Scope Z_scope.

(** ** Permission *)

Section permission.
Context {J : Json} {Ev : Env} (config : AgentConfig) (ctx : ExecutionContext).

(** No active task, or one in the active state. *)
Definition task_permits (w : World) : Prop :=
  match w_active_task w with Some t => task_status t = TsActive | None => True end.

Definition client_says (id name : string) (args : Value) (answer : string) : Prop :=
  exists t, env_request_permission t (permission_request ctx id name args) = Ok (RpSelected answer).

(** Why a tool may run. *)
Inductive permitted (id name : string) (args : Value) (w : World) : Prop :=
| pm_not_needed : requires_permission_for_tool config name = false -> permitted id name args w
| pm_remembered : task_permits w -> w_permission_cache w !! name = Some true ->
    permitted id name args w
| pm_hook t q h : task_permits w -> env_permission_request t q = Ok h ->
    prs_decision h = Some PrdAllow -> permitted id name args w
| pm_headless : task_permits w -> ex_has_bridge ctx = false -> permitted id name args w
| pm_client answer : task_permits w -> client_says id name args answer ->
    answer = "allow_once" \/ answer = "allow_always" -> permitted id name args w.

(** A decision taken from the cache alone. *)
Lemma permission_cached id name args w b :
  requires_permission_for_tool config name = true -> task_permits w ->
  w_permission_cache w !! name = Some b ->
  ensure_tool_permission config ctx id name args w = (Ok (Ok b), w).
Proof.
  intros Hr Ht Hc. unfold ensure_tool_permission. rewrite Hr. cbn [negb].
  unfold mbind at 1, M_bind at 1, gets at 1. unfold task_permits in Ht.
  destruct (w_active_task w) as [task|]; [rewrite Ht, bool_decide_eq_true_2 by done|];
    cbn [negb]; unfold mbind, M_bind, gets; by rewrite Hc.
Qed.

(** An awaited question: dropped, or answered. *)
Lemma awaiting_ask {A} (f : nat -> A) w :
  exists n, awaiting (ask f) w = (Err Dropped, set_now (Nat.add n) w) \/
  exists t, awaiting (ask f) w = (Ok (f t), set_now (Nat.add n) w).
Proof.
  unfold awaiting, drop_point, ask, mbind, M_bind, mret, M_ret. simpl.
  destruct (cancelled_at (w_now w) && env_race (w_now w)); [by exists 1%nat; left|]. simpl.
  destruct (cancelled_at (S (S (w_now w))) && env_race (S (S (w_now w))));
    exists 3%nat; [by left|right; by eexists].
Qed.

Lemma emit_notices_cache l w :
  exists w', emit_notices l w = (Ok tt, w') /\ w_permission_cache w' = w_permission_cache w.
Proof.
  revert w. induction l as [|n l IH]; intros w; [by exists w|].
  cbn [emit_notices mapM_]. unfold mbind, M_bind, emit_event at 1, modify.
  match goal with |- context [mapM_ _ l ?w1] => destruct (IH w1) as (w2 & E & H) end.
  unfold emit_notices in E. rewrite E. by exists w2.
Qed.
Lemma permission_outcome id name args w :
  match ensure_tool_permission config ctx id name args w with
  | (Ok (Ok granted), w') =>
      (granted = true -> permitted id name args w) /\
      (w_permission_cache w' = w_permission_cache w \/
       w_permission_cache w' = <[name := granted]> (w_permission_cache w) /\
       requires_permission_for_tool config name = true /\ task_permits w /\
       client_says id name args (if granted then "allow_always" else "reject_always"))
  | (_, w') => w_permission_cache w' = w_permission_cache w
  end.
Proof.
  unfold ensure_tool_permission.
  destruct (requires_permission_for_tool config name) eqn:Hr; [|split; [by constructor|by left]].
  cbn [negb]. unfold mbind at 1, M_bind at 1, gets at 1.
  destruct (match w_active_task w with Some t => negb (bool_decide (task_status t = TsActive))
            | None => false end) eqn:Et; [by split; [|left]|].
  assert (task_permits w) as Ht.
  { unfold task_permits. destruct (w_active_task w); [|done].
    apply negb_false_iff in Et. by apply bool_decide_eq_true in Et. }
  unfold mbind at 1, M_bind at 1, gets at 1.
  destruct (w_permission_cache w !! name) as [b|] eqn:Ec.
  { split; [|by left]. intros ->. by apply pm_remembered. }
  unfold mbind at 1, M_bind at 1.
  destruct (awaiting_ask (fun t => env_permission_request t
    {| prr_context := hook_context ctx; prr_tool_name := name; prr_tool_input := args |}) w)
    as (n & [->|(t & ->)]); [done|].
  destruct (env_permission_request t _) as [h|e] eqn:Eh; [|done].
  unfold mbind at 1, M_bind at 1.
  destruct (emit_notices_cache (prs_notices h) (set_now (Nat.add n) w)) as (w1 & -> & Hw1).
  destruct (prs_decision h) as [[|m]|] eqn:Ed;
    [split; [intros _; by eapply pm_hook|by left]|by split; [|left]|].
  unfold fresh_uuid, mbind, M_bind, ask at 1, emit_event, modify.
  destruct (ex_has_bridge ctx) eqn:Eb; cbn [negb]; [|split; [intros _; by apply pm_headless|by left]].
  match goal with |- context [awaiting (ask ?f) ?w2] =>
    destruct (awaiting_ask f w2) as (k & [->|(t2 & ->)]) end; [exact Hw1|].
  destruct (env_request_permission t2 _) as [[answer|]|e] eqn:Er; [|by split; [|left]|exact Hw1].
  assert (client_says id name args answer) as Hs by (by exists t2).
  destruct (String.eqb_spec answer "allow_always") as [->|Hna]; simpl.
  { split; [intros _; eapply pm_client; eauto|]. right. by rewrite Hw1. }
  destruct (String.eqb_spec answer "reject_always") as [->|Hnr]; simpl.
  { split; [done|]. right. by rewrite Hw1. }
  split; [|left; exact Hw1]. rewrite orb_false_r. intros ->%String.eqb_eq.
  eapply pm_client; eauto.
Qed.
End permission.

(** a tool that needs permission is granted it only for a reason: a
    remembered or a fresh "allow" of the client, a hook's decision, or the
    absence of a client to ask; never while the active task is not in the
    active state.  Only an "always" answer changes what is remembered, and it
    decides every later request for the same tool at once, with no question
    and no event; a request that fails or is dropped remembers nothing. *)
Theorem permission_has_reason {J : Json} {Ev : Env} config ctx id name args w :
  match ensure_tool_permission config ctx id name args w with
  | (Ok (Ok granted), w') =>
      (granted = true -> permitted config ctx id name args w) /\
      (w_permission_cache w' = w_permission_cache w \/
       w_permission_cache w' = <[name := granted]> (w_permission_cache w) /\
       client_says ctx id name args (if granted then "allow_always" else "reject_always") /\
       forall id' args' later, w_permission_cache later = w_permission_cache w' ->
         w_active_task later = w_active_task w ->
         ensure_tool_permission config ctx id' name args' later = (Ok (Ok granted), later))
  | (_, w') => w_permission_cache w' = w_permission_cache w
  end.
Proof.
  pose proof (permission_outcome config ctx id name args w) as H.
  destruct (ensure_tool_permission config ctx id name args w) as [[[granted|e]|e] w']; [|done..].
  destruct H as [H [Hc|(Hc & Hr & Ht & Hs)]]; (split; [exact H|]); [by left|right].
  split_and!; [done|done|]. intros id' args' later H1 H2. apply permission_cached; [done| |].
  - unfold task_permits in *. by rewrite H2.
  - by rewrite H1, Hc, lookup_insert_eq.
Qed.

(** ** Dispatch *)

(** a registered tool that the access lists allow is run whether or not it
    needs permission: its answer is the outcome of the call, nothing is asked
    of the hook or the client, and no permission event is emitted.  (The
    permission check is made for the provider's tools alone.) *)
Theorem builtin_runs_without_permission {J : Json} {Ev : Env} config ctx call args tool w :
  env_cancel_at = None ->
  let name := tf_name (mtc_function call) in
  registry_find (ac_tool_registry config) name = Some tool ->
  is_mcp_tool_allowed_with (ex_tool_config ctx) name (mcp_tools (env_mcp (w_now w)) !! name) = true ->
  exists t w', dispatch_tool config ctx call args w =
      (Ok (tool_outcome (env_builtin_call t name args)), w') /\
    w_events w' = w_events w /\ w_permission_cache w' = w_permission_cache w.
Proof.
  intros Hc name Hf Ha. unfold dispatch_tool. fold name. unfold mbind at 1, M_bind at 1, ask at 1.
  rewrite Ha, Hf. cbn [negb]. unfold mbind, M_bind. rewrite awaiting_ask_run by done.
  eexists _, _. split; [reflexivity|done].
Qed.

Section dispatch_example.
#[local] Existing Instance toy_json.

(** An agent with the [shell] tool built in. *)
Definition shell_config : AgentConfig :=
  {| ac_tool_config := all_tools;
     ac_tool_registry := {[ "shell" := {| bt_definition := a_tool "shell";
                                          bt_truncation_hint := None |} ]};
     ac_middleware_drivers := []; ac_max_steps := None; ac_snapshot_policy := SpNone;
     ac_assume_mutating := false; ac_mutating_tools := {[ "shell" ]};
     ac_delegation_wait_policy := DwAll; ac_delegation_wait_timeout_secs := 60;
     ac_execution_policy := policy_default |}.

Lemma builtin_runs_without_permission_witness :
  requires_permission_for_tool shell_config "shell" = true /\
  exists t w', dispatch_tool (Ev := env_of quiet) shell_config ctx0 (a_call "c" "shell" "{}")
        (TObj []) world0 =
      (Ok (tool_outcome (env_builtin_call (Env := env_of quiet) t "shell" (TObj []))), w') /\
    w_events w' = [] /\ w_permission_cache w' = ∅.
Proof.
  split; [reflexivity|].
  apply (builtin_runs_without_permission (Ev := env_of quiet) shell_config ctx0
           (a_call "c" "shell" "{}") (TObj [])
           {| bt_definition := a_tool "shell"; bt_truncation_hint := None |} world0);
    reflexivity.
Defined.
End dispatch_example.

(** The access check of the dispatch, on the servers as they are at [w]. *)
Definition let_through {J : Json} {Ev : Env} (ctx : ExecutionContext) (w : World) (name : string)
    : bool :=
  is_mcp_tool_allowed_with (ex_tool_config ctx) name (mcp_tools (env_mcp (w_now w)) !! name).

(** a call of a tool that was not offered for want of access is refused
    without running anything, and every tool that is offered to the model, from
    the same snapshot of the servers, passes the check of the dispatch: a
    refused name was not offered. *)
Theorem refused_tool_was_not_offered {J : Json} {Ev : Env} config ctx provider_tools call args w :
  let name := tf_name (mtc_function call) in
  let_through ctx w name = false ->
  dispatch_tool config ctx call args w =
    (Ok (error_text ("tool '" +:+ name +:+ "' is not allowed"), true), set_now S w) /\
  Forall (fun t => tool_name_of t <> name)
    (collect_tools config provider_tools (Some (env_mcp (w_now w))) (Some (ex_tool_config ctx))).
Proof.
  intros name Hl. split.
  - unfold dispatch_tool. fold name. unfold mbind, M_bind, ask. unfold let_through in Hl. by rewrite Hl.
  - apply Forall_forall. intros t Ht Hn.
    apply collect_tools_elem in Ht as (server & Ha & Hs). simpl in Ha. rewrite Hn in *.
    unfold let_through in Hl. destruct Hs as [->|(snap & [= <-] & ->)]; [|congruence].
    pose proof (allowed_any_server (ex_tool_config ctx) name
      (mcp_tools (env_mcp (w_now w)) !! name) Ha). congruence.
Qed.

Section offered_example.
#[local] Existing Instance toy_json.

Definition denying_ctx : ExecutionContext :=
  {| ex_session_id := "s"; ex_cwd := None;
     ex_tool_config := {| tcfg_policy := BuiltInAndProvider; tcfg_allowlist := None;
                          tcfg_denylist := {[ "shell" ]} |};
     ex_llm_config := None; ex_max_prompt_bytes := None; ex_turn_id := None; ex_turn_mode := Build;
     ex_has_bridge := true |}.

Lemma refused_tool_was_not_offered_witness :
  dispatch_tool (Ev := env_of quiet) shell_config denying_ctx (a_call "c" "shell" "{}") (TObj [])
    world0 = (Ok (error_text ("tool '" +:+ "shell" +:+ "' is not allowed"), true), set_now S world0) /\
  Forall (fun t => tool_name_of t <> "shell")
    (collect_tools shell_config (Some [a_tool "shell"; a_tool "lookup"])
       (Some (env_mcp (Env := env_of quiet) 0)) (Some (ex_tool_config denying_ctx))).
Proof.
  apply (refused_tool_was_not_offered (Ev := env_of quiet) shell_config denying_ctx
           (Some [a_tool "shell"; a_tool "lookup"]) (a_call "c" "shell" "{}") (TObj []) world0).
  reflexivity.
Defined.
End offered_example.

(** ** Truncation *)

Lemma slen_truncated_note : slen truncated_note = 12%nat.
Proof. reflexivity. Qed.

(** a limit above the length of the note is kept, in bytes: a text within
    it is unchanged, and a longer one becomes its longest beginning that ends
    between two characters and leaves room for the note, followed by the note. *)
Theorem truncate_to_bytes_bound input max_bytes :
  (slen truncated_note < max_bytes)%nat ->
  (slen (truncate_to_bytes input max_bytes) <= max_bytes)%nat /\
  ((slen input <= max_bytes)%nat -> truncate_to_bytes input max_bytes = input) /\
  ((max_bytes < slen input)%nat -> exists kept rest, input = kept +:+ rest /\
     truncate_to_bytes input max_bytes = kept +:+ truncated_note /\
     is_char_boundary input (slen kept) = true /\
     forall i, (slen kept < i <= max_bytes - slen truncated_note)%nat ->
       is_char_boundary input i = false).
Proof.
  intros Hm. unfold truncate_to_bytes. destruct (slen input <=? max_bytes)%nat eqn:E.
  - apply Nat.leb_le in E. split_and!; [done|done|lia].
  - apply Nat.leb_gt in E. rewrite (proj2 (Nat.leb_gt max_bytes (slen truncated_note))) by lia.
    set (room := (max_bytes - slen truncated_note)%nat).
    pose proof (boundary_down_le input room) as Hle.
    assert (slen (str_take (boundary_down input room) input) = boundary_down input room) as Hlen
      by (apply slen_str_take; lia).
    split_and!; [rewrite slen_app, Hlen; lia|lia|]. intros _.
    exists (str_take (boundary_down input room) input), (str_drop (boundary_down input room) input).
    rewrite Hlen, str_take_drop. split_and!; [done|done|apply boundary_down_is_boundary|].
    intros i Hi. by apply (boundary_down_max input room).
Qed.

Lemma truncate_to_bytes_bound_witness :
  (slen (truncate_to_bytes "a text of more than twenty bytes" 20) <= 20)%nat /\
  truncate_to_bytes "a text of more than twenty bytes" 20 = "a text o" +:+ truncated_note.
Proof.
  split; [|vm_compute; reflexivity].
  apply (truncate_to_bytes_bound "a text of more than twenty bytes" 20). vm_compute. lia.
Defined.

(** The euro sign, three bytes of UTF-8. *)
Definition euro : string :=
  String (Ascii.ascii_of_nat 226) (String (Ascii.ascii_of_nat 130) (String (Ascii.ascii_of_nat 172) "")).

(** the byte limits count characters: cut at the head, four euro signs
    under a limit of three bytes keep nine bytes; cut at the tail, two of them
    under a limit of five bytes lose as many characters as bytes are too many,
    and one is left where the limit would hold it, but under three bytes
    nothing is left; and the small limits of [truncate_to_bytes] keep nine
    bytes too. *)
Theorem byte_limits_count_characters :
  let four := euro +:+ euro +:+ euro +:+ euro in
  slen (tr_content (truncate_output four 10 3 Head)) = 9%nat /\
  tr_content (truncate_output (euro +:+ euro) 10 5 Tail) = euro /\
  tr_content (truncate_output (euro +:+ euro) 10 3 Tail) = "" /\
  slen (truncate_to_bytes four 3) = 9%nat.
Proof. vm_compute. done. Qed.
