(* ===== verification/WireProps.v ===== *)
(** Properties of what crosses the wire: the chat messages made of the stored
    ones, and the provider errors sent from node to node. *)
From S2P Require Import Prelude Numbers Text Json Chat LlmErrors Domain Events Model ExecState.
From S2P Require Import Driver Pruning Hooks World Limits ContextMw DelegationMw AgentConfig.
From S2P Require Import Compaction Retry CallLlm ModelCall ToolCalls Transitions Wait.
From S2P Require Import Maintenance Machine Fixtures Pairing WaitSpec HistoryProps CycleInv.

Local Open Scope Z_scope.

(** ** One message *)

Section chat.
Context {J : Json}.

(** The pairing as the model's interface sees it. *)
Definition block_use_id (b : Content) : option string :=
  match b with CToolUse id _ _ => Some id | _ => None end.
Definition block_result_id (b : Content) : option string :=
  match b with CToolResult id _ _ _ => Some id | _ => None end.
Definition chat_used (m : ChatMessage) : list string := omap block_use_id (cm_content m).
Definition chat_answered (m : ChatMessage) : list string := omap block_result_id (cm_content m).

Lemma omap_filter_drop {A B} (f : A -> option B) (p : A -> bool) l :
  (forall x, p x = false -> f x = None) -> omap f (List.filter p l) = omap f l.
Proof.
  intros H. induction l as [|x l IH]; [done|]. cbn [List.filter]. destruct (p x) eqn:E;
    rewrite !omap_cons, IH; [done|]. by rewrite (H x E).
Qed.

Lemma omap_filter_none {A B} (f : A -> option B) (p : A -> bool) l :
  (forall x, p x = true -> f x = None) -> omap f (List.filter p l) = [].
Proof.
  intros H. induction l as [|x l IH]; [done|]. cbn [List.filter]. destruct (p x) eqn:E; [|done].
  by rewrite omap_cons, (H x E).
Qed.

Lemma sorted_ids (blocks : list Content) :
  omap block_use_id (sort_tool_results_first blocks) = omap block_use_id blocks /\
  omap block_result_id (sort_tool_results_first blocks) = omap block_result_id blocks.
Proof.
  unfold sort_tool_results_first. rewrite !omap_app. split.
  - rewrite omap_filter_none, omap_filter_drop; [done|by intros []|by intros []].
  - rewrite omap_filter_drop, omap_filter_none, app_nil_r; [done|by intros []|by intros []].
Qed.

Lemma blocks_ids preserve mx (parts : list MessagePart) :
  omap block_use_id (omap (part_to_block preserve mx) parts) = omap part_tool_use_id parts /\
  omap block_result_id (omap (part_to_block preserve mx) parts) = omap part_tool_result_id parts.
Proof.
  induction parts as [|p parts [IH1 IH2]]; [done|].
  rewrite !(omap_cons (part_to_block _ _)), !(omap_cons part_tool_use_id),
    !(omap_cons part_tool_result_id).
  assert (forall b, part_to_block preserve mx p = Some b ->
    block_use_id b = part_tool_use_id p /\ block_result_id b = part_tool_result_id p) as Hs.
  { intros b. destruct p; simpl; try (by intros [= <-]). case_match; [done|by intros [= <-]]. }
  assert (part_to_block preserve mx p = None ->
    part_tool_use_id p = None /\ part_tool_result_id p = None) as Hn by (by destruct p).
  destruct (part_to_block preserve mx p) as [b|].
  - destruct (Hs b eq_refl) as [<- <-]. by rewrite !omap_cons, IH1, IH2.
  - destruct (Hn eq_refl) as [-> ->]. done.
Qed.

Lemma sort_perm (blocks : list Content) : sort_tool_results_first blocks ≡ₚ blocks.
Proof.
  unfold sort_tool_results_first. induction blocks as [|b l IH]; [done|]. simpl.
  destruct (is_tool_result b); simpl; [by constructor|].
  etrans; [symmetry; apply Permutation_middle|]. by constructor.
Qed.

Lemma sort_none (blocks : list Content) :
  existsb is_tool_result blocks = false -> sort_tool_results_first blocks = blocks.
Proof.
  unfold sort_tool_results_first. intros H.
  assert (List.filter is_tool_result blocks = [] /\
    List.filter (fun b => negb (is_tool_result b)) blocks = blocks) as [-> ->]; [|done].
  induction blocks as [|b l IH]; [done|]. simpl in *. apply orb_false_iff in H as [-> H].
  destruct (IH H) as [-> IH2]. simpl. by rewrite IH2.
Qed.
End chat.

(** a message is sent with the same tool uses and the same results, in the
    same order, as it is stored with; of a user message with results, the
    results come first and everything else after them, each in its order and
    nothing lost; any other message keeps the order of its parts. *)
Theorem sent_message_keeps_calls {J : Json} m target_provider target_model max_prompt_bytes :
  let sent := to_chat_message_with_target m target_provider target_model max_prompt_bytes in
  let blocks := omap (part_to_block (preserve_provider_metadata target_provider target_model
                        (am_source_provider m) (am_source_model m)) max_prompt_bytes) (am_parts m) in
  cm_role sent = am_role m /\ chat_used sent = used_ids m /\ chat_answered sent = answered_ids m /\
  cm_content sent ≡ₚ blocks /\
  cm_content sent =
    (if bool_decide (am_role m = User)
     then List.filter is_tool_result blocks ++ List.filter (fun b => negb (is_tool_result b)) blocks
     else blocks).
Proof.
  intros sent blocks. unfold chat_used, chat_answered.
  pose proof (blocks_ids (preserve_provider_metadata target_provider target_model
    (am_source_provider m) (am_source_model m)) max_prompt_bytes (am_parts m)) as [Hu Ha].
  fold blocks in Hu, Ha. pose proof (sorted_ids blocks) as [Su Sa].
  assert (cm_content sent = if bool_decide (am_role m = User)
    then sort_tool_results_first blocks else blocks) as ->.
  { unfold sent, to_chat_message_with_target. cbn [cm_content]. fold blocks.
    destruct (bool_decide (am_role m = User)); cbn [andb]; [|done].
    destruct (existsb is_tool_result blocks) eqn:E; [done|]. by rewrite sort_none. }
  unfold used_ids, answered_ids. rewrite <- Hu, <- Ha.
  destruct (bool_decide (am_role m = User)); split_and!; try done. apply sort_perm.
Qed.

(** ** The whole history *)

Section wire_history.
Context {J : Json}.

(** The pairing of a list of sent messages. *)
Fixpoint open_chat (pending : list string) (l : list ChatMessage) : option (list string) :=
  match l with
  | [] => Some pending
  | m :: rest =>
      if bool_decide (chat_answered m = pending) then open_chat (chat_used m) rest else None
  end.

Lemma open_chat_sent mx pending h :
  open_chat pending (map (fun m => to_chat_message_with_max_prompt_bytes m mx) h)
  = open_calls pending h.
Proof.
  revert pending. induction h as [|m h IH]; intros pending; [done|]. cbn [map open_chat open_calls].
  destruct (sent_message_keeps_calls m None None mx) as (_ & Hu & Ha & _).
  unfold to_chat_message_with_max_prompt_bytes in *. by rewrite Ha, Hu, IH.
Qed.

(** Roles as the cycle writes them: only assistant messages use tools, and a
    compaction request answers nothing. *)
Definition well_roled (m : AgentMessage) : Prop :=
  (am_role m = User -> used_ids m = []) /\
  (has_compaction_request m = true -> answered_ids m = []).

Lemma answers_something m : existsb is_tool_result_part (am_parts m) = true -> answered_ids m <> [].
Proof.
  unfold answered_ids. induction (am_parts m) as [|p l IH]; [done|]. simpl.
  destruct p; simpl; try apply IH. done.
Qed.

(** A snapshot-only message neither uses nor answers. *)
Lemma snapshot_only_silent m : not_snapshot_only m = false -> silent m.
Proof.
  unfold not_snapshot_only, silent, used_ids, answered_ids.
  induction (am_parts m) as [|p l IH]; [done|]. simpl. destruct p; simpl; try done; apply IH.
Qed.

(** The pairing of a stored history where the results of a batch of calls may be
    in one message or, as older sessions have them, in several user messages
    one after the other, and where messages with nothing but turn snapshots
    may stand anywhere.  [mid] says that a batch is answered in part. *)
Fixpoint split_calls (mid : bool) (pending : list string) (h : list AgentMessage)
    : option (list string) :=
  match h with
  | [] => if mid then None else Some pending
  | m :: rest =>
      if negb (not_snapshot_only m) then split_calls mid pending rest
      else if mid && negb (is_user_tool_result m) then None
      else if bool_decide (answered_ids m = pending) then split_calls false (used_ids m) rest
      else if is_user_tool_result m
              && bool_decide (take (length (answered_ids m)) pending = answered_ids m)
      then split_calls true (drop (length (answered_ids m)) pending) rest
      else None
  end.

(** Results in one message each are a special case. *)
Lemma open_calls_split h : forall p q, open_calls p h = Some q -> split_calls false p h = Some q.
Proof.
  induction h as [|m h IH]; intros p q; [done|]. cbn [open_calls split_calls].
  destruct (bool_decide (answered_ids m = p)) eqn:E; [|done]. intros Ho.
  destruct (not_snapshot_only m) eqn:En; cbn [negb]; [by apply IH|].
  apply snapshot_only_silent in En as [Hu Ha]. apply bool_decide_eq_true in E.
  rewrite Hu in Ho. rewrite Ha in E. subst p. by apply IH.
Qed.

Lemma split_calls_filter h : forall mid p,
  split_calls mid p (List.filter not_snapshot_only h) = split_calls mid p h.
Proof.
  induction h as [|m h IH]; intros mid p; [done|]. cbn [List.filter].
  destruct (not_snapshot_only m) eqn:En; cbn [split_calls]; rewrite En; cbn [negb]; [|apply IH].
  by rewrite !IH.
Qed.

(** Where a message answers nothing, everything before it is answered. *)
Lemma split_calls_cut before m rest : not_snapshot_only m = true -> answered_ids m = [] -> forall mid p q,
  split_calls mid p (before ++ m :: rest) = Some q -> split_calls false [] (m :: rest) = Some q.
Proof.
  intros Hn Ha. assert (Hu : is_user_tool_result m = false).
  { unfold is_user_tool_result. destruct (existsb _ _) eqn:E; [|apply andb_false_r].
    by apply answers_something in E. }
  induction before as [|x before IH]; intros mid p q.
  - cbn [app split_calls]. rewrite Hn, Ha, Hu. cbn [negb andb]. rewrite (bool_decide_true ([] = [])) by done.
    destruct mid; [done|]. by case_bool_decide.
  - rewrite <- app_comm_cons. intros H. cbn [split_calls] in H.
    destruct (negb (not_snapshot_only x)); [by eapply IH|]. destruct (mid && _); [done|].
    case_bool_decide; [by eapply IH|]. destruct (_ && _); [by eapply IH|done].
Qed.

Lemma request_not_snapshot m : has_compaction_request m = true -> not_snapshot_only m = true.
Proof.
  unfold has_compaction_request, not_snapshot_only. induction (am_parts m) as [|p l IH]; [done|]. cbn.
  intros [Hp|Hl]%orb_true_iff; [|rewrite IH by done; apply orb_true_r]. by destruct p.
Qed.

(** *** Merging *)

Lemma open_calls_snoc p l m : open_calls p (l ++ [m]) =
  (q ← open_calls p l; if bool_decide (answered_ids m = q) then Some (used_ids m) else None).
Proof. rewrite open_calls_app. by destruct (open_calls p l). Qed.

Lemma extend_ids m m' : used_ids (extend_parts m (am_parts m')) = used_ids m ++ used_ids m'
  /\ answered_ids (extend_parts m (am_parts m')) = answered_ids m ++ answered_ids m'.
Proof. unfold used_ids, answered_ids. cbn. by rewrite !omap_app. Qed.

(** What the merged list, newest message first, says of the messages so far. *)
Definition merged (result : list AgentMessage) (mid : bool) (pending : list string) : Prop :=
  match result with
  | [] => mid = false /\ pending = []
  | prev :: older =>
      well_roled prev /\
      if mid
      then is_user_tool_result prev = true /\ open_calls [] (rev older) = Some (answered_ids prev ++ pending)
      else pending = used_ids prev /\ open_calls [] (rev result) = Some pending
  end.

Lemma user_result m : is_user_tool_result m = true -> am_role m = User /\ answered_ids m <> [].
Proof.
  unfold is_user_tool_result. intros [Hr Ha]%andb_true_iff. apply bool_decide_eq_true in Hr.
  split; [done|by apply answers_something].
Qed.

(** The next message is one of its own. *)
Lemma merged_push result m pending : well_roled m -> merged result false pending ->
  (answered_ids m = pending -> merged (m :: result) false (used_ids m))
  /\ (is_user_tool_result m = true -> forall rest, answered_ids m ++ rest = pending -> merged (m :: result) true rest).
Proof.
  intros Hm Hr. assert (Ho : open_calls [] (rev result) = Some pending).
  { destruct result as [|prev older]; [by destruct Hr as [_ ->]|by destruct Hr as (_ & _ & ?)]. }
  split; [intros He|intros Hu rest He]; (split; [done|]).
  - split; [done|]. cbn [rev]. rewrite open_calls_snoc, Ho. cbn. by rewrite bool_decide_true.
  - split; [done|]. by rewrite Ho, <- He.
Qed.

(** The next message is a part of the batch before it. *)
Lemma merged_extend prev older m pending : well_roled m -> merged (prev :: older) true pending ->
  is_user_tool_result m = true ->
  (answered_ids m = pending -> merged (extend_parts prev (am_parts m) :: older) false (used_ids m))
  /\ (forall rest, answered_ids m ++ rest = pending -> merged (extend_parts prev (am_parts m) :: older) true rest).
Proof.
  intros Hm (Hp & Hup & Ho) Hum. destruct (extend_ids prev m) as [Eu Ea].
  destruct (user_result _ Hup) as [Hrp _]. destruct (user_result _ Hum) as [Hrm _].
  assert (Hw : well_roled (extend_parts prev (am_parts m))).
  { split; [intros _; rewrite Eu; by rewrite (proj1 Hp Hrp), (proj1 Hm Hrm)|].
    rewrite Ea. unfold has_compaction_request. cbn. rewrite existsb_app.
    intros [Hc|Hc]%orb_true_iff; [destruct (user_result _ Hup) as [_ []]|destruct (user_result _ Hum) as [_ []]];
      [by apply Hp|by apply Hm]. }
  split; [intros He|intros rest He]; (split; [done|]).
  - split; [by rewrite Eu, (proj1 Hp Hrp)|]. cbn [rev]. rewrite open_calls_snoc, Ho. cbn [mbind option_bind].
    rewrite Ea, He, bool_decide_true by done. by rewrite Eu, (proj1 Hp Hrp).
  - split; [by apply is_user_tool_result_extend|]. by rewrite Ea, Ho, <- He, app_assoc.
Qed.

Lemma merge_messages_paired l : forall result mid pending q,
  Forall well_roled l -> Forall (fun m => not_snapshot_only m = true) l ->
  merged result mid pending -> split_calls mid pending l = Some q ->
  open_calls [] (merge_messages result l) = Some q.
Proof.
  induction l as [|m l IH]; intros result mid pending q Hw Hn Hr.
  { cbn. destruct mid; [done|]. intros [= <-]. destruct result as [|prev older]; [by destruct Hr as [_ ->]|].
    by destruct Hr as (_ & _ & ?). }
  apply Forall_cons in Hw as [Hm Hw]. apply Forall_cons in Hn as [Hnm Hn].
  cbn [split_calls]. rewrite Hnm. cbn [negb]. set (a := answered_ids m) in *. intros Hs.
  assert (Hmid : mid = true -> is_user_tool_result m = true)
    by (intros ->; cbn [andb] in Hs; by destruct (is_user_tool_result m)).
  assert (Hcases : (a = pending /\ split_calls false (used_ids m) l = Some q)
    \/ (is_user_tool_result m = true /\ exists rest, a ++ rest = pending /\ split_calls true rest l = Some q)).
  { destruct (mid && _); [done|]. case_bool_decide; [by left|right]. destruct (_ && _) eqn:E; [|done].
    apply andb_true_iff in E as [Eu Et]. apply bool_decide_eq_true in Et.
    split; [done|]. eexists. split; [|exact Hs]. rewrite <- Et at 1. apply take_drop. }
  clear Hs. destruct result as [|prev older]; cbn [merge_messages].
  - destruct Hr as [-> ->]. destruct (merged_push [] m [] Hm (conj eq_refl eq_refl)) as [H1 H2].
    destruct Hcases as [[He Hs]|(Hu & rest & He & Hs)]; eapply IH; eauto.
  - destruct mid.
    + specialize (Hmid eq_refl). rewrite Hmid, (proj1 (proj2 Hr)). cbn [andb].
      destruct (merged_extend _ _ _ _ Hm Hr Hmid) as [H1 H2].
      destruct Hcases as [[He Hs]|(Hu & rest & He & Hs)]; eapply IH; eauto.
    + assert (is_user_tool_result m && is_user_tool_result prev = false) as ->.
      { apply not_true_iff_false. intros [Hum Hup]%andb_true_iff.
        destruct (user_result _ Hum) as [_ Ha]. destruct (user_result _ Hup) as [Hrp _].
        destruct Hr as (Hp & He & _). rewrite (proj1 Hp Hrp) in He. subst pending. apply Ha.
        destruct Hcases as [[He _]|(_ & rest & He & _)]; [done|]. by apply app_eq_nil in He as [? _]. }
      destruct (merged_push _ _ _ Hm Hr) as [H1 H2].
      destruct Hcases as [[He Hs]|(Hu & rest & He & Hs)]; eapply IH; eauto.
Qed.

Lemma merge_consecutive_messages l : merge_consecutive_tool_result_messages l = merge_messages [] l.
Proof. unfold merge_consecutive_tool_result_messages. by destruct l as [|m [|m' l]]. Qed.
End wire_history.

(** C8: the history the model is sent is paired.  Take a stored history in which
    every batch of tool calls is answered in order, except the open calls [q]
    at its end: by one message or, as older sessions store it, by several user
    messages in a row, messages with only turn snapshots standing anywhere.
    Assume that its roles are as the cycle writes them: a user message uses no
    tool and a compaction request answers none.  Then in the messages made of
    its effective history each batch is answered, in order, by the one message
    that follows it, up to the same open calls: over compactions, dropped
    snapshots and the merging of split results. *)
Theorem sent_history_stays_paired {J : Json} h q mx :
  split_calls false [] h = Some q -> Forall well_roled h ->
  open_chat [] (map (fun m => to_chat_message_with_max_prompt_bytes m mx)
                  (filter_to_effective_history h)) = Some q.
Proof.
  intros Ho Hr. rewrite open_chat_sent. unfold filter_to_effective_history.
  assert (split_calls false [] (default h (from_last has_compaction_request h)) = Some q /\
    Forall well_roled (default h (from_last has_compaction_request h))) as [Ho' Hr'].
  { destruct (from_last has_compaction_request h) as [kept|] eqn:E; [|done]. simpl.
    destruct (from_last_suffix _ _ _ E) as [dropped ->].
    destruct (from_last_head _ _ _ E) as (m & rest & -> & Hm & _).
    apply Forall_app in Hr as [_ Hr]. split; [|done].
    eapply split_calls_cut; [by apply request_not_snapshot| |exact Ho].
    inversion Hr as [|? ? [_ Hc]]. by apply Hc. }
  rewrite merge_consecutive_messages. rewrite <- split_calls_filter in Ho'.
  eapply merge_messages_paired; [| |by split|exact Ho']; clear -Hr'.
  - induction Hr'; simpl; [done|]. case_match; [by constructor|done].
  - induction Hr'; simpl; [done|]. case_match; [by constructor|done].
Qed.

Section wire_example.
#[local] Existing Instance toy_json.

Definition a_message (role : ChatRole) (parts : list MessagePart) : AgentMessage :=
  {| am_id := "m"; am_session_id := "s"; am_role := role; am_parts := parts; am_created_at := 0;
     am_parent_message_id := None; am_source_provider := None; am_source_model := None |}.

(** A compacted session: a snapshot, two calls, and the result of each in a
    message of its own, with a file snapshot and a turn snapshot. *)
Definition compacted_session : list AgentMessage :=
  [a_message User [MpText "earlier"]; a_message User [MpCompactionRequest 10];
   a_message Assistant [MpCompaction "summary" 10]; a_message User [MpText "go on"];
   a_message Assistant [MpTurnSnapshotStart "t" "tree"];
   a_message Assistant [MpToolUse (an_llm_call "c1" "lookup" "{}"); MpToolUse (an_llm_call "c2" "lookup" "{}")];
   a_message User [MpSnapshot 0 diff_paths_new; MpToolResult "c1" [CText "found"] false None None None];
   a_message Assistant [MpTurnSnapshotPatch "t" "tree" []];
   a_message User [MpToolResult "c2" [CText "none"] false None None None]].

Example compacted_session_split : open_calls [] compacted_session = None.
Proof. reflexivity. Qed.

Lemma sent_history_stays_paired_witness :
  open_chat [] (map (fun m => to_chat_message_with_max_prompt_bytes m None)
                  (filter_to_effective_history compacted_session)) = Some [].
Proof.
  apply (sent_history_stays_paired compacted_session []).
  - reflexivity.
  - repeat constructor; try done; intros H; discriminate H.
Defined.
End wire_example.

(** ** Provider errors *)

(** C40: an error that crosses the wire comes back as it was sent, but for the
    three kinds that wrap an error of a library; of these the JSON and URL
    errors, which are not worth a retry, come back as kinds that are. *)
Theorem error_payload_roundtrip e :
  from_payload (to_payload e) =
    match e with
    | JsonError m => PluginError m
    | InvalidUrl m => HttpError m
    | IoError m => Transport TkOther m
    | _ => e
    end /\
  is_retryable (from_payload (to_payload e)) =
    (is_retryable e || match e with JsonError _ | InvalidUrl _ => true | _ => false end) /\
  retry_after_secs (from_payload (to_payload e)) = retry_after_secs e.
Proof. destruct e; simpl; rewrite ?orb_false_r; done. Qed.
