(* ===== verification/ScheduleDomain.v ===== *)
(** Schedules: the data of session/domain_schedule.rs, the deadline queue, the
    event accumulator and the run-time arithmetic of scheduler/wake.rs.

    An instant ([OffsetDateTime]) is its number of nanoseconds since the Unix
    epoch; adding a duration panics outside the range of the [time] crate,
    which [dt_add] reports as [None].  A duration is a number of nanoseconds. *)
From S2P Require Import Prelude Numbers.
From Stdlib Require Import SpecFloat.

Local Open Scope Z_scope.

(** ** Instants *)

Definition NANOS : Z := 1000000000.
Definition DT_MIN : Z := -377705116800 * NANOS.
Definition DT_MAX : Z := 253402300800 * NANOS - 1.

Definition dt_add (t d : Z) : option Z :=
  let r := t + d in if (DT_MIN <=? r) && (r <=? DT_MAX) then Some r else None.

(** [time::Duration::seconds(s as i64)] of a [u64]. *)
Definition as_i64 (z : Z) : Z := (z + 2 ^ 63) mod 2 ^ 64 - 2 ^ 63.
Definition duration_seconds (s : Z) : Z := as_i64 s * NANOS.

(** [x as i64]: truncation, saturating at the bounds, NaN to 0. *)
Definition f64_as_i64 (x : f64) : Z :=
  match x with
  | S754_nan => 0
  | S754_infinity s => if s then - 2 ^ 63 else 2 ^ 63 - 1
  | _ => match f64_trunc x with
         | Some z => Z.min (2 ^ 63 - 1) (Z.max (- 2 ^ 63) z)
         | None => 0
         end
  end.

Definition u64_saturating_pow (b e : Z) : Z := Z.min (b ^ e) (2 ^ 64 - 1).
Definition u64_saturating_mul (a b : Z) : Z := Z.min (a * b) (2 ^ 64 - 1).

(** ** Data *)

Record EventTriggerFilter := {
  etf_event_kinds : list string;
  etf_threshold : Z;
  etf_session_public_id : option string;
}.

Inductive ScheduleTrigger :=
| Interval (seconds : Z)
| EventDriven (event_filter : EventTriggerFilter) (debounce_seconds : Z)
| OnceAt (at_ : Z).

Inductive ScheduleState := Armed | Running | Paused | Exhausted | Failed.

#[export] Instance ScheduleState_eq_dec : EqDecision ScheduleState.
Proof. solve_decision. Defined.

(** [Display] and [FromStr] of the states. *)
Definition schedule_state_to_string (s : ScheduleState) : string :=
  match s with
  | Armed => "armed"
  | Running => "running"
  | Paused => "paused"
  | Exhausted => "exhausted"
  | Failed => "failed"
  end.

Definition schedule_state_from_str (s : string) : result string ScheduleState :=
  if String.eqb s "armed" then Ok Armed
  else if String.eqb s "running" then Ok Running
  else if String.eqb s "paused" then Ok Paused
  else if String.eqb s "exhausted" then Ok Exhausted
  else if String.eqb s "failed" then Ok Failed
  else Err ("Unknown schedule state: " +:+ s).

Record ScheduleExecutionLimits := {
  sel_max_steps : option Z;
  sel_max_cost_usd : option f64;
}.

Record ScheduleConfig := {
  sc_max_runs : option Z;
  sc_max_consecutive_failures : Z;
  sc_max_runtime_seconds : Z;
  sc_jitter_percent : Z;
  sc_backoff_base_seconds : Z;
  sc_execution_limits : option ScheduleExecutionLimits;
}.

Definition default_max_consecutive_failures : Z := 3.
Definition default_max_runtime_seconds : Z := 120.
Definition default_jitter_percent : Z := 10.
Definition default_backoff_base_seconds : Z := 60.

Definition schedule_config_default : ScheduleConfig :=
  {| sc_max_runs := None;
     sc_max_consecutive_failures := default_max_consecutive_failures;
     sc_max_runtime_seconds := default_max_runtime_seconds;
     sc_jitter_percent := default_jitter_percent;
     sc_backoff_base_seconds := default_backoff_base_seconds;
     sc_execution_limits := None |}.

Record Schedule := {
  sch_id : Z;
  sch_public_id : string;
  sch_task_public_id : string;
  sch_session_public_id : string;
  sch_task_id : Z;
  sch_session_id : Z;
  sch_trigger : ScheduleTrigger;
  sch_state : ScheduleState;
  sch_last_run_at : option Z;
  sch_next_run_at : option Z;
  sch_run_count : Z;
  sch_consecutive_failures : Z;
  sch_config : ScheduleConfig;
  sch_created_at : Z;
  sch_updated_at : Z;
}.

Definition set_max_runs (n : option Z) (c : ScheduleConfig) : ScheduleConfig :=
  {| sc_max_runs := n; sc_max_consecutive_failures := sc_max_consecutive_failures c;
     sc_max_runtime_seconds := sc_max_runtime_seconds c;
     sc_jitter_percent := sc_jitter_percent c;
     sc_backoff_base_seconds := sc_backoff_base_seconds c;
     sc_execution_limits := sc_execution_limits c |}.

(** [Schedule::new], given the clock and the fresh identifier; [None] is the
    panic of an instant out of range. *)
Definition schedule_new (now : Z) (uuid task session : string) (trigger : ScheduleTrigger)
  : option Schedule :=
  next_run_at ← match trigger with
                | Interval seconds => t ← dt_add now (duration_seconds seconds); Some (Some t)
                | EventDriven _ _ => Some None
                | OnceAt at_ => Some (Some at_)
                end;
  let config := schedule_config_default in
  let config := match trigger with OnceAt _ => set_max_runs (Some 1) config | _ => config end in
  Some {| sch_id := 0; sch_public_id := uuid; sch_task_public_id := task;
          sch_session_public_id := session; sch_task_id := 0; sch_session_id := 0;
          sch_trigger := trigger; sch_state := Armed; sch_last_run_at := None;
          sch_next_run_at := next_run_at; sch_run_count := 0; sch_consecutive_failures := 0;
          sch_config := config; sch_created_at := now; sch_updated_at := now |}.

Definition is_valid_transition (from to : ScheduleState) : bool :=
  match from, to with
  | Armed, Running | Running, Armed | Running, Exhausted | Running, Failed
  | Armed, Paused | Running, Paused | Paused, Armed => true
  | _, _ => false
  end.

(** ** The deadline queue

    The binary heap as the multiset of its entries, kept as a list; [peek] is
    the least entry under the order of [(i64, String)]. *)

Definition DeadlineQueue : Type := list (Z * string).

Definition entry_lt (a b : Z * string) : bool :=
  (a.1 <? b.1) || ((a.1 =? b.1) && String.ltb a.2 b.2).

Fixpoint queue_min (x : Z * string) (l : DeadlineQueue) : Z * string :=
  match l with
  | [] => x
  | y :: l' => queue_min (if entry_lt y x then y else x) l'
  end.

Definition dq_insert (next_run_at : Z) (id : string) (q : DeadlineQueue) : DeadlineQueue :=
  (as_i64 next_run_at, id) :: q.

Definition dq_peek (q : DeadlineQueue) : option (Z * string) :=
  match q with [] => None | x :: l => Some (queue_min x l) end.

Definition dq_remove (id : string) (q : DeadlineQueue) : DeadlineQueue :=
  List.filter (fun e => negb (String.eqb e.2 id)) q.

Definition dq_len (q : DeadlineQueue) : Z := Z.of_nat (length q).

(** ** The event accumulator; a handle is the number of a spawned task *)

Record EventAccumulator := {
  ea_count : Z;
  ea_threshold : Z;
  ea_debounce_until : option Z;
  ea_debounce_handle : option nat;
}.

Definition acc_new (threshold : Z) : EventAccumulator :=
  {| ea_count := 0; ea_threshold := threshold; ea_debounce_until := None;
     ea_debounce_handle := None |}.

Definition acc_threshold_met (a : EventAccumulator) : bool := ea_threshold a <=? ea_count a.

(** [increment]: the new accumulator and whether the threshold is met. *)
Definition acc_increment (a : EventAccumulator) : bool * EventAccumulator :=
  let a' := {| ea_count := u32_add (ea_count a) 1; ea_threshold := ea_threshold a;
               ea_debounce_until := ea_debounce_until a;
               ea_debounce_handle := ea_debounce_handle a |} in
  (acc_threshold_met a', a').

(** [reset]: the task to abort, and the new accumulator. *)
Definition acc_reset (a : EventAccumulator) : option nat * EventAccumulator :=
  (ea_debounce_handle a,
   {| ea_count := 0; ea_threshold := ea_threshold a; ea_debounce_until := None;
      ea_debounce_handle := None |}).

Definition acc_is_debouncing (now : Z) (a : EventAccumulator) : bool :=
  match ea_debounce_until a with Some until => now <? until | None => false end.

Record ActiveCycle := { ac_started_at : Z; ac_timeout_handle : nat }.

(** ** Next run and backoff *)

(** Seconds to the next run: the interval with its jitter, at least one. *)
Definition jittered_seconds (interval_seconds jitter_percent nanos : Z) : Z :=
  let jitter_fraction := f64_div (f64_of_Z jitter_percent) (f64_of_Z 100) in
  let jitter_range := f64_mul (f64_of_Z interval_seconds) jitter_fraction in
  let pseudo_random := f64_div (f64_of_Z (nanos mod 1000)) (f64_of_Z 1000) in
  let jitter_offset :=
    f64_mul (f64_sub (f64_mul pseudo_random (f64_of_Z 2)) (f64_of_Z 1)) jitter_range in
  f64_as_i64 (f64_max (f64_add (f64_of_Z interval_seconds) jitter_offset) (f64_of_Z 1)).

Definition compute_next_run_at (interval_seconds jitter_percent from : Z) : option Z :=
  dt_add from (jittered_seconds interval_seconds jitter_percent (from mod 2 ^ 64) * NANOS).

Definition raw_backoff (backoff_base_seconds consecutive_failures : Z) : Z :=
  Z.min (u64_saturating_mul backoff_base_seconds (u64_saturating_pow 2 consecutive_failures)) 3600.

(** [compute_backoff] at the clock's [now]: a duration. *)
Definition compute_backoff (backoff_base_seconds consecutive_failures jitter_percent now : Z)
  : option Z :=
  jittered ← compute_next_run_at (raw_backoff backoff_base_seconds consecutive_failures)
               jitter_percent now;
  Some (Z.max (jittered - now) NANOS).

Example no_jitter_ex : jittered_seconds 3600 0 123456789 = 3600.
Proof. vm_compute. reflexivity. Qed.
Example jitter_ex : map (jittered_seconds 3600 10) [0; 500; 999] = [3240; 3600; 3959].
Proof. vm_compute. reflexivity. Qed.
Example at_least_one_ex : jittered_seconds 1 100 0 = 1.
Proof. vm_compute. reflexivity. Qed.
Example dq_peek_ex :
  dq_peek (dq_remove "b" (dq_insert 7 "a" (dq_insert 3 "c" (dq_insert 3 "b" [])))) = Some (3, "c").
Proof. vm_compute. reflexivity. Qed.

(** ** Lemmas *)

Lemma schedule_state_parse s :
  schedule_state_from_str (schedule_state_to_string s) = Ok s.
Proof. by destruct s. Qed.

Lemma schedule_state_print str s :
  schedule_state_from_str str = Ok s -> str = schedule_state_to_string s.
Proof.
  unfold schedule_state_from_str.
  repeat case_match; intros [= <-]; by match goal with
    H : String.eqb _ _ = true |- _ => apply String.eqb_eq in H as -> end.
Qed.

(** Removing an entry removes every entry of the schedule and no other. *)
Lemma dq_remove_spec id q e : In e (dq_remove id q) <-> In e q /\ e.2 <> id.
Proof.
  unfold dq_remove. rewrite List.filter_In, negb_true_iff.
  split; intros [H1 H2]; split; try done; [by apply String.eqb_neq|by apply String.eqb_neq].
Qed.

Lemma raw_backoff_exact base n :
  0 <= base -> 0 <= n -> raw_backoff base n = Z.min (base * 2 ^ n) 3600.
Proof.
  intros Hb Hn. unfold raw_backoff, u64_saturating_mul, u64_saturating_pow.
  assert (0 < 2 ^ n) by (apply Z.pow_pos_nonneg; lia).
  destruct (Z.eq_dec base 0) as [->|Hb0]; [lia|].
  destruct (Z.le_gt_cases (2 ^ n) (2 ^ 64 - 1)) as [Hs|Hs].
  - rewrite (Z.min_l (2 ^ n)) by lia. lia.
  - rewrite (Z.min_r (2 ^ n)) by lia.
    assert (1 * (2 ^ 64 - 1) <= base * (2 ^ 64 - 1)) by (apply Z.mul_le_mono_nonneg_r; lia).
    assert (1 * 2 ^ n <= base * 2 ^ n) by (apply Z.mul_le_mono_nonneg_r; lia). lia.
Qed.
