(* ===== verification/ScheduleRepo.v ===== *)
(** session/repo_schedule.rs: the schedule table and the scheduler's lease.

    The table is the list of its rows in rowid order; a row is the [Schedule]
    it is read back as.  Date columns hold RFC 3339 text, and the queries
    compare that text: [format_dt] is the rendering of the [time] crate, a
    parameter.  Each operation gives its result and the new database; the
    failures of the database itself are the scheduler's environment
    ([se_store_error] in Scheduler.v). *)
From S2P Require Import Prelude Numbers LlmErrors ScheduleDomain.

Local Open Scope Z_scope.

(** [session::error::SessionError] *)
Inductive SessionError :=
| SessionNotFound (s : string) | TaskNotFound (s : string) | IntentSnapshotNotFound (s : string)
| DecisionNotFound (s : string) | AlternativeNotFound (s : string)
| ProgressEntryNotFound (s : string) | ArtifactNotFound (s : string)
| DelegationNotFound (s : string) | InvalidForkPoint (s : string)
| ForkPointTypeMismatch (expected actual : string) | InvalidMessageIndex (s : string)
| DatabaseError (s : string) | SerializationError (s : string) | InvalidOperation (s : string)
| SeProviderError (e : LLMError) | SeOther (s : string).

Class Rfc3339 := { format_dt : Z -> string }.

Record SchedulerLease := {
  lease_owner_id : string;
  lease_acquired_at : Z;
  lease_expires_at : Z;
}.

Record ScheduleDb := {
  db_schedules : list Schedule;
  db_lease : option SchedulerLease;
}.

Definition set_db_schedules (rows : list Schedule) (db : ScheduleDb) : ScheduleDb :=
  {| db_schedules := rows; db_lease := db_lease db |}.
Definition set_db_lease (l : option SchedulerLease) (db : ScheduleDb) : ScheduleDb :=
  {| db_schedules := db_schedules db; db_lease := l |}.

Definition has_public_id (id : string) (s : Schedule) : bool := String.eqb (sch_public_id s) id.

Definition set_row_id (id : Z) (public_id : string) (s : Schedule) : Schedule :=
  {| sch_id := id; sch_public_id := public_id;
     sch_task_public_id := sch_task_public_id s; sch_session_public_id := sch_session_public_id s;
     sch_task_id := sch_task_id s; sch_session_id := sch_session_id s;
     sch_trigger := sch_trigger s; sch_state := sch_state s; sch_last_run_at := sch_last_run_at s;
     sch_next_run_at := sch_next_run_at s; sch_run_count := sch_run_count s;
     sch_consecutive_failures := sch_consecutive_failures s; sch_config := sch_config s;
     sch_created_at := sch_created_at s; sch_updated_at := sch_updated_at s |}.

Definition set_row_state (state : ScheduleState) (now : Z) (s : Schedule) : Schedule :=
  {| sch_id := sch_id s; sch_public_id := sch_public_id s;
     sch_task_public_id := sch_task_public_id s; sch_session_public_id := sch_session_public_id s;
     sch_task_id := sch_task_id s; sch_session_id := sch_session_id s;
     sch_trigger := sch_trigger s; sch_state := state; sch_last_run_at := sch_last_run_at s;
     sch_next_run_at := sch_next_run_at s; sch_run_count := sch_run_count s;
     sch_consecutive_failures := sch_consecutive_failures s; sch_config := sch_config s;
     sch_created_at := sch_created_at s; sch_updated_at := now |}.

(** The columns that [UPDATE schedules SET ..] of [update_schedule] writes. *)
Definition update_columns (new row : Schedule) : Schedule :=
  {| sch_id := sch_id row; sch_public_id := sch_public_id row;
     sch_task_public_id := sch_task_public_id row;
     sch_session_public_id := sch_session_public_id row;
     sch_task_id := sch_task_id row; sch_session_id := sch_session_id row;
     sch_trigger := sch_trigger new; sch_state := sch_state new;
     sch_last_run_at := sch_last_run_at new; sch_next_run_at := sch_next_run_at new;
     sch_run_count := sch_run_count new;
     sch_consecutive_failures := sch_consecutive_failures new; sch_config := sch_config new;
     sch_created_at := sch_created_at row; sch_updated_at := sch_updated_at new |}.

Section repo.
Context {F : Rfc3339}.

(** Text order of two date columns. *)
Definition text_lt (a b : Z) : bool := String.ltb (format_dt a) (format_dt b).

(** [ORDER BY .. ASC]: NULL first, then by text; rows that tie stay in rowid order. *)
Definition key_le (a b : option Z) : bool :=
  match a, b with
  | None, _ => true
  | Some _, None => false
  | Some a, Some b => negb (text_lt b a)
  end.

Fixpoint insert_by (key : Schedule -> option Z) (s : Schedule) (l : list Schedule)
  : list Schedule :=
  match l with
  | [] => [s]
  | x :: l' => if key_le (key s) (key x) then s :: l else x :: insert_by key s l'
  end.
Definition order_by (key : Schedule -> option Z) (l : list Schedule) : list Schedule :=
  foldr (insert_by key) [] l.

(** The rows a condition selects, updated, and how many they are. *)
Definition update_where (p : Schedule -> bool) (f : Schedule -> Schedule) (rows : list Schedule)
  : nat * list Schedule :=
  (length (List.filter p rows), map (fun s => if p s then f s else s) rows).

Definition next_rowid (rows : list Schedule) : Z := 1 + foldr Z.max 0 (map sch_id rows).

Definition create_schedule (uuid : string) (schedule : Schedule) (db : ScheduleDb)
  : result SessionError Schedule * ScheduleDb :=
  let public_id :=
    if is_empty_str (sch_public_id schedule) then uuid else sch_public_id schedule in
  if existsb (has_public_id public_id) (db_schedules db)
  then (Err (DatabaseError "UNIQUE constraint failed: schedules.public_id"), db)
  else
    let s := set_row_id (next_rowid (db_schedules db)) public_id schedule in
    (Ok s, set_db_schedules (db_schedules db ++ [s]) db).

Definition get_schedule (id : string) (db : ScheduleDb) : option Schedule :=
  List.find (has_public_id id) (db_schedules db).

Definition list_schedules (session : string) (db : ScheduleDb) : list Schedule :=
  order_by (fun s => Some (sch_created_at s))
    (List.filter (fun s => String.eqb (sch_session_public_id s) session) (db_schedules db)).

Definition list_all_armed_schedules (db : ScheduleDb) : list Schedule :=
  order_by sch_next_run_at
    (List.filter (fun s => bool_decide (sch_state s = Armed)) (db_schedules db)).

Definition update_schedule (schedule : Schedule) (db : ScheduleDb)
  : result SessionError unit * ScheduleDb :=
  let '(affected, rows) :=
    update_where (has_public_id (sch_public_id schedule)) (update_columns schedule)
      (db_schedules db) in
  match affected with
  | O => (Err (SeOther ("Schedule not found: " +:+ sch_public_id schedule)), db)
  | S _ => (Ok tt, set_db_schedules rows db)
  end.

Definition update_schedule_state (now : Z) (id : string) (from to : ScheduleState)
  (db : ScheduleDb) : bool * ScheduleDb :=
  let '(affected, rows) :=
    update_where (fun s => has_public_id id s && bool_decide (sch_state s = from))
      (set_row_state to now) (db_schedules db) in
  ((affected =? 1)%nat, set_db_schedules rows db).

Definition delete_schedule (id : string) (db : ScheduleDb)
  : result SessionError unit * ScheduleDb :=
  let rest := List.filter (fun s => negb (has_public_id id s)) (db_schedules db) in
  if (length rest =? length (db_schedules db))%nat
  then (Err (SeOther ("Schedule not found: " +:+ id)), db)
  else (Ok tt, set_db_schedules rest db).

Definition get_schedule_for_task (task : string) (db : ScheduleDb) : option Schedule :=
  List.find (fun s => String.eqb (sch_task_public_id s) task) (db_schedules db).

(** [last_run_at < ?] is not true of a NULL. *)
Definition list_running_schedules_older_than (cutoff : Z) (db : ScheduleDb) : list Schedule :=
  order_by sch_last_run_at
    (List.filter
       (fun s => bool_decide (sch_state s = Running) &&
                 match sch_last_run_at s with Some t => text_lt t cutoff | None => false end)
       (db_schedules db)).

(** ** The lease; [None] is the panic of an expiry out of range *)

Definition lease_until (now ttl_seconds : Z) : option Z := dt_add now (duration_seconds ttl_seconds).

Definition try_acquire_scheduler_lease (owner : string) (now expires : Z) (db : ScheduleDb)
  : bool * ScheduleDb :=
  let new := {| lease_owner_id := owner; lease_acquired_at := now; lease_expires_at := expires |} in
  match db_lease db with
  | None => (true, set_db_lease (Some new) db)
  | Some l => if text_lt (lease_expires_at l) now then (true, set_db_lease (Some new) db)
              else (false, db)
  end.

Definition renew_scheduler_lease (owner : string) (now expires : Z) (db : ScheduleDb)
  : bool * ScheduleDb :=
  match db_lease db with
  | Some l =>
      if String.eqb (lease_owner_id l) owner && negb (text_lt (lease_expires_at l) now)
      then (true, set_db_lease (Some {| lease_owner_id := lease_owner_id l;
                                        lease_acquired_at := now;
                                        lease_expires_at := expires |}) db)
      else (false, db)
  | None => (false, db)
  end.

Definition release_scheduler_lease (owner : string) (db : ScheduleDb) : bool * ScheduleDb :=
  match db_lease db with
  | Some l => if String.eqb (lease_owner_id l) owner then (true, set_db_lease None db)
              else (false, db)
  | None => (false, db)
  end.

(** ** Lemmas *)

(** Public ids are unique in the table. *)
Definition unique_ids (db : ScheduleDb) : Prop := NoDup (map sch_public_id (db_schedules db)).

Definition row_state (id : string) (db : ScheduleDb) : option ScheduleState :=
  sch_state <$> get_schedule id db.

Lemma insert_by_perm key s l : insert_by key s l ≡ₚ s :: l.
Proof.
  induction l as [|x l IH]; cbn [insert_by]; [done|]. case_match; [done|].
  rewrite IH. apply perm_swap.
Qed.

Lemma order_by_perm key l : order_by key l ≡ₚ l.
Proof.
  induction l as [|x l IH]; [done|]. unfold order_by in *. cbn [foldr].
  rewrite insert_by_perm. by constructor.
Qed.

Lemma has_public_id_spec id s : has_public_id id s = true <-> sch_public_id s = id.
Proof. apply String.eqb_eq. Qed.

Lemma get_schedule_id id db s : get_schedule id db = Some s -> sch_public_id s = id.
Proof. intros H. apply has_public_id_spec. by apply List.find_some in H as [_ ?]. Qed.

Lemma get_schedule_In id db s : get_schedule id db = Some s -> In s (db_schedules db).
Proof. intros H. by apply List.find_some in H as [? _]. Qed.

(** A row of the table is the one found under its id. *)
Lemma get_schedule_unique db s :
  unique_ids db -> In s (db_schedules db) -> get_schedule (sch_public_id s) db = Some s.
Proof.
  unfold unique_ids, get_schedule. induction (db_schedules db) as [|x l IH]; [done|].
  cbn [map List.find]. intros [Hx Hl]%NoDup_cons [->|Hin].
  - unfold has_public_id. by rewrite String.eqb_refl.
  - destruct (has_public_id (sch_public_id s) x) eqn:E; [|by apply IH].
    apply has_public_id_spec in E. exfalso. apply Hx. rewrite E.
    apply list_elem_of_In, in_map, Hin.
Qed.

Lemma list_armed_In db s :
  In s (list_all_armed_schedules db) <-> In s (db_schedules db) /\ sch_state s = Armed.
Proof.
  unfold list_all_armed_schedules. rewrite <- list_elem_of_In, order_by_perm, list_elem_of_In.
  rewrite List.filter_In, bool_decide_eq_true. done.
Qed.

Lemma list_running_In cutoff db s :
  In s (list_running_schedules_older_than cutoff db) ->
  In s (db_schedules db) /\ sch_state s = Running.
Proof.
  unfold list_running_schedules_older_than.
  rewrite <- list_elem_of_In, order_by_perm, list_elem_of_In, List.filter_In.
  intros [? [?%bool_decide_eq_true _]%andb_true_iff]. done.
Qed.

(** Finding a row after an update of rows that keeps their ids. *)
Lemma find_update id (p : Schedule -> bool) (f : Schedule -> Schedule) rows :
  (forall s, sch_public_id (f s) = sch_public_id s) ->
  List.find (has_public_id id) (map (fun s => if p s then f s else s) rows) =
  (fun s => if p s then f s else s) <$> List.find (has_public_id id) rows.
Proof.
  intros Hf. induction rows as [|x l IH]; [done|]. cbn [map List.find].
  assert (has_public_id id (if p x then f x else x) = has_public_id id x) as ->.
  { unfold has_public_id. destruct (p x); [by rewrite Hf|done]. }
  by destruct (has_public_id id x).
Qed.

Lemma update_ids (p : Schedule -> bool) (f : Schedule -> Schedule) rows :
  (forall s, sch_public_id (f s) = sch_public_id s) ->
  map sch_public_id (map (fun s => if p s then f s else s) rows) = map sch_public_id rows.
Proof. intros Hf. rewrite map_map. apply map_ext. intros s. destruct (p s); [apply Hf|done]. Qed.

Lemma filter_none_find id rows :
  List.filter (has_public_id id) rows = [] <-> List.find (has_public_id id) rows = None.
Proof.
  induction rows as [|x l IH]; [done|]. cbn [List.filter List.find].
  by destruct (has_public_id id x).
Qed.

(** [update_schedule] fails exactly when there is no row, and otherwise
    changes that row alone. *)
Lemma update_schedule_get s db :
  match get_schedule (sch_public_id s) db with
  | None => update_schedule s db = (Err (SeOther ("Schedule not found: " +:+ sch_public_id s)), db)
  | Some row => exists db', update_schedule s db = (Ok tt, db') /\
      get_schedule (sch_public_id s) db' = Some (update_columns s row) /\
      (forall id, id <> sch_public_id s -> get_schedule id db' = get_schedule id db) /\
      map sch_public_id (db_schedules db') = map sch_public_id (db_schedules db) /\
      db_lease db' = db_lease db
  end.
Proof.
  unfold get_schedule, update_schedule, update_where. cbn [fst snd].
  destruct (List.find (has_public_id (sch_public_id s)) (db_schedules db)) as [row|] eqn:E.
  - destruct (length _) eqn:El.
    { apply length_zero_iff_nil, filter_none_find in El. congruence. }
    eexists; split; [reflexivity|]. cbn [set_db_schedules db_schedules db_lease].
    rewrite find_update, E by done. cbn [fmap option_fmap option_map].
    apply List.find_some in E as [_ ->]. split; [done|]. split; [|split; [by apply update_ids|done]].
    intros id Hne. rewrite find_update by done.
    destruct (List.find (has_public_id id) _) as [r|] eqn:Er; [|done]. cbn.
    apply List.find_some in Er as [_ Hr%has_public_id_spec].
    destruct (has_public_id (sch_public_id s) r) eqn:E2; [|done].
    apply has_public_id_spec in E2. congruence.
  - apply filter_none_find in E. rewrite E. done.
Qed.

(** The compare-and-swap: with unique ids it succeeds exactly when the row is
    in the state it expects, and then only that row's state changes. *)
Lemma update_where_unique id (p : Schedule -> bool) rows :
  NoDup (map sch_public_id rows) ->
  length (List.filter (fun s => has_public_id id s && p s) rows) =
  match List.find (has_public_id id) rows with Some r => if p r then 1%nat else 0%nat | None => 0%nat end.
Proof.
  induction rows as [|x l IH]; [done|]. cbn [map List.filter List.find].
  intros [Hx Hl]%NoDup_cons. specialize (IH Hl).
  destruct (has_public_id id x) eqn:E; [|done]. cbn [andb].
  assert (List.find (has_public_id id) l = None) as Hn.
  { destruct (List.find _ l) as [r|] eqn:Er; [|done]. exfalso. apply Hx.
    apply List.find_some in Er as [Hin Hr%has_public_id_spec]. apply has_public_id_spec in E.
    rewrite E, <- Hr. apply list_elem_of_In, in_map, Hin. }
  rewrite Hn in IH. destruct (p x); cbn; by rewrite IH.
Qed.

Lemma cas_get now id from to db :
  unique_ids db ->
  let r := update_schedule_state now id from to db in
  r.1 = bool_decide (row_state id db = Some from) /\
  unique_ids r.2 /\ db_lease r.2 = db_lease db /\
  (forall id', id' <> id -> get_schedule id' r.2 = get_schedule id' db) /\
  get_schedule id r.2 =
    (if r.1 then set_row_state to now <$> get_schedule id db else get_schedule id db).
Proof.
  intros Hu. unfold update_schedule_state, update_where. cbn [fst snd set_db_schedules].
  assert (forall s, sch_public_id (set_row_state to now s) = sch_public_id s) as Hf by done.
  split; [|split; [|split; [done|split]]].
  - rewrite (update_where_unique id) by done. unfold row_state, get_schedule.
    destruct (List.find _ _) as [r|]; cbn; [|done].
    by destruct (decide (sch_state r = from)) as [<-|Hn];
      [rewrite !bool_decide_true|rewrite !bool_decide_false by congruence].
  - unfold unique_ids. cbn. rewrite update_ids; done.
  - intros id' Hne. unfold get_schedule. cbn. rewrite find_update by done.
    destruct (List.find (has_public_id id') _) as [r|] eqn:Er; [|done]. cbn.
    apply List.find_some in Er as [_ Hr%has_public_id_spec].
    destruct (has_public_id id r) eqn:E2; [|done]. apply has_public_id_spec in E2. congruence.
  - rewrite (update_where_unique id) by done. unfold get_schedule. cbn.
    rewrite find_update by done. destruct (List.find _ _) as [r|] eqn:Er; cbn; [|done].
    apply List.find_some in Er as [_ ->]. cbn. by case_bool_decide.
Qed.

End repo.
