(* ===== verification/SchedWorld.v ===== *)
(** The scheduler's world (scheduler/mod.rs, scheduler/messages.rs): the actor's
    state, its mailbox, the timer tasks it has spawned, the schedule database,
    and what it has sent to sessions and to the event sink; with the
    environment it asks ([SchedEnv]) and the primitive operations of the
    handlers in Scheduler.v.

    A timer task is an entry of [sw_tasks] under its handle's number: aborting
    it removes the entry, and when it fires the entry goes and its message is
    put in the mailbox.  A handler that panics ends in the monad's error. *)
From S2P Require Import Prelude Numbers Json Chat Domain Events ScheduleDomain ScheduleRepo.

Local Open Scope Z_scope.

(** ** Metrics: the [u64] counters and gauges by name, and two floats *)

Inductive MetricField :=
| fires_total | completions_total | failures_total | cas_conflicts_total
| idempotent_drops_total | transition_denials_total | reconciliation_sweeps_total
| reconciliation_recoveries_total | reconciliation_overdue_fires_total
| lease_acquisitions_total | lease_renewals_total | lease_losses_total
| active_cycles | armed_interval_schedules | armed_event_schedules | pending_deletes.

#[export] Instance MetricField_eq_dec : EqDecision MetricField.
Proof. solve_decision. Defined.

Record SchedulerMetrics := {
  sm_u64 : MetricField -> Z;
  sm_last_fire_lag_secs : f64;
  sm_last_cycle_runtime_secs : f64;
}.

Definition metrics_default : SchedulerMetrics :=
  {| sm_u64 := fun _ => 0; sm_last_fire_lag_secs := f64_of_Z 0;
     sm_last_cycle_runtime_secs := f64_of_Z 0 |}.

Definition metric_set (f : MetricField) (v : Z) (m : SchedulerMetrics) : SchedulerMetrics :=
  {| sm_u64 := fun g => if decide (f = g) then v else sm_u64 m g;
     sm_last_fire_lag_secs := sm_last_fire_lag_secs m;
     sm_last_cycle_runtime_secs := sm_last_cycle_runtime_secs m |}.
Definition metric_bump (f : MetricField) (m : SchedulerMetrics) : SchedulerMetrics :=
  metric_set f (u64_add (sm_u64 m f) 1) m.
Definition metric_runtime (x : f64) (m : SchedulerMetrics) : SchedulerMetrics :=
  {| sm_u64 := sm_u64 m; sm_last_fire_lag_secs := sm_last_fire_lag_secs m;
     sm_last_cycle_runtime_secs := x |}.

Record SchedulerConfig := { shc_reconcile_interval_secs : Z; shc_lease_ttl_secs : Z }.

Definition scheduler_config_default : SchedulerConfig :=
  {| shc_reconcile_interval_secs := 60; shc_lease_ttl_secs := 120 |}.

(** [agent::messages::ScheduledPrompt] *)
Record ScheduledPrompt := {
  sp_schedule_public_id : string;
  sp_prompt_text : string;
  sp_execution_limits : option ScheduleExecutionLimits;
}.

(** The futures given to [tokio::spawn]: a sleep, in seconds, and what follows. *)
Inductive SpawnedTask :=
| TkWake (delay : Z) (id : string)
| TkTimeout (delay : Z) (id : string)
| TkTimeoutNoRef (delay : Z) (id : string)
| TkDebounce (delay : Z) (id : string).

Record SchedulerActor := {
  sa_owner_id : string;
  sa_config : SchedulerConfig;
  sa_deadline_queue : DeadlineQueue;
  sa_event_counters : gmap string EventAccumulator;
  sa_active_cycles : gmap string ActiveCycle;
  sa_pending_deletes : gset string;
  sa_processed_terminals : gset (string * option string);
  sa_self_ref : bool;
  sa_wake_handle : option nat;
  sa_shutdown_token : bool;
  sa_metrics : SchedulerMetrics;
}.

Definition with_queue (f : DeadlineQueue -> DeadlineQueue) (a : SchedulerActor) : SchedulerActor :=
  {| sa_owner_id := sa_owner_id a; sa_config := sa_config a;
     sa_deadline_queue := f (sa_deadline_queue a); sa_event_counters := sa_event_counters a;
     sa_active_cycles := sa_active_cycles a; sa_pending_deletes := sa_pending_deletes a;
     sa_processed_terminals := sa_processed_terminals a; sa_self_ref := sa_self_ref a;
     sa_wake_handle := sa_wake_handle a; sa_shutdown_token := sa_shutdown_token a;
     sa_metrics := sa_metrics a |}.
Definition with_counters (f : gmap string EventAccumulator -> gmap string EventAccumulator) (a : SchedulerActor) : SchedulerActor :=
  {| sa_owner_id := sa_owner_id a; sa_config := sa_config a;
     sa_deadline_queue := sa_deadline_queue a; sa_event_counters := f (sa_event_counters a);
     sa_active_cycles := sa_active_cycles a; sa_pending_deletes := sa_pending_deletes a;
     sa_processed_terminals := sa_processed_terminals a; sa_self_ref := sa_self_ref a;
     sa_wake_handle := sa_wake_handle a; sa_shutdown_token := sa_shutdown_token a;
     sa_metrics := sa_metrics a |}.
Definition with_cycles (f : gmap string ActiveCycle -> gmap string ActiveCycle) (a : SchedulerActor) : SchedulerActor :=
  {| sa_owner_id := sa_owner_id a; sa_config := sa_config a;
     sa_deadline_queue := sa_deadline_queue a; sa_event_counters := sa_event_counters a;
     sa_active_cycles := f (sa_active_cycles a); sa_pending_deletes := sa_pending_deletes a;
     sa_processed_terminals := sa_processed_terminals a; sa_self_ref := sa_self_ref a;
     sa_wake_handle := sa_wake_handle a; sa_shutdown_token := sa_shutdown_token a;
     sa_metrics := sa_metrics a |}.
Definition with_deletes (f : gset string -> gset string) (a : SchedulerActor) : SchedulerActor :=
  {| sa_owner_id := sa_owner_id a; sa_config := sa_config a;
     sa_deadline_queue := sa_deadline_queue a; sa_event_counters := sa_event_counters a;
     sa_active_cycles := sa_active_cycles a; sa_pending_deletes := f (sa_pending_deletes a);
     sa_processed_terminals := sa_processed_terminals a; sa_self_ref := sa_self_ref a;
     sa_wake_handle := sa_wake_handle a; sa_shutdown_token := sa_shutdown_token a;
     sa_metrics := sa_metrics a |}.
Definition with_processed (f : gset (string * option string) -> gset (string * option string)) (a : SchedulerActor) : SchedulerActor :=
  {| sa_owner_id := sa_owner_id a; sa_config := sa_config a;
     sa_deadline_queue := sa_deadline_queue a; sa_event_counters := sa_event_counters a;
     sa_active_cycles := sa_active_cycles a; sa_pending_deletes := sa_pending_deletes a;
     sa_processed_terminals := f (sa_processed_terminals a); sa_self_ref := sa_self_ref a;
     sa_wake_handle := sa_wake_handle a; sa_shutdown_token := sa_shutdown_token a;
     sa_metrics := sa_metrics a |}.
Definition with_self_ref (f : bool -> bool) (a : SchedulerActor) : SchedulerActor :=
  {| sa_owner_id := sa_owner_id a; sa_config := sa_config a;
     sa_deadline_queue := sa_deadline_queue a; sa_event_counters := sa_event_counters a;
     sa_active_cycles := sa_active_cycles a; sa_pending_deletes := sa_pending_deletes a;
     sa_processed_terminals := sa_processed_terminals a; sa_self_ref := f (sa_self_ref a);
     sa_wake_handle := sa_wake_handle a; sa_shutdown_token := sa_shutdown_token a;
     sa_metrics := sa_metrics a |}.
Definition with_wake (f : option nat -> option nat) (a : SchedulerActor) : SchedulerActor :=
  {| sa_owner_id := sa_owner_id a; sa_config := sa_config a;
     sa_deadline_queue := sa_deadline_queue a; sa_event_counters := sa_event_counters a;
     sa_active_cycles := sa_active_cycles a; sa_pending_deletes := sa_pending_deletes a;
     sa_processed_terminals := sa_processed_terminals a; sa_self_ref := sa_self_ref a;
     sa_wake_handle := f (sa_wake_handle a); sa_shutdown_token := sa_shutdown_token a;
     sa_metrics := sa_metrics a |}.
Definition with_token (f : bool -> bool) (a : SchedulerActor) : SchedulerActor :=
  {| sa_owner_id := sa_owner_id a; sa_config := sa_config a;
     sa_deadline_queue := sa_deadline_queue a; sa_event_counters := sa_event_counters a;
     sa_active_cycles := sa_active_cycles a; sa_pending_deletes := sa_pending_deletes a;
     sa_processed_terminals := sa_processed_terminals a; sa_self_ref := sa_self_ref a;
     sa_wake_handle := sa_wake_handle a; sa_shutdown_token := f (sa_shutdown_token a);
     sa_metrics := sa_metrics a |}.
Definition with_metrics (f : SchedulerMetrics -> SchedulerMetrics) (a : SchedulerActor) : SchedulerActor :=
  {| sa_owner_id := sa_owner_id a; sa_config := sa_config a;
     sa_deadline_queue := sa_deadline_queue a; sa_event_counters := sa_event_counters a;
     sa_active_cycles := sa_active_cycles a; sa_pending_deletes := sa_pending_deletes a;
     sa_processed_terminals := sa_processed_terminals a; sa_self_ref := sa_self_ref a;
     sa_wake_handle := sa_wake_handle a; sa_shutdown_token := sa_shutdown_token a;
     sa_metrics := f (sa_metrics a) |}.

(** [SchedulerActor::new], with the fresh owner id. *)
Definition scheduler_actor_new (owner_id : string) (config : SchedulerConfig) : SchedulerActor :=
  {| sa_owner_id := owner_id; sa_config := config; sa_deadline_queue := [];
     sa_event_counters := ∅; sa_active_cycles := ∅; sa_pending_deletes := ∅;
     sa_processed_terminals := ∅; sa_self_ref := false; sa_wake_handle := None;
     sa_shutdown_token := false; sa_metrics := metrics_default |}.

Section world.
Context {J : Json}.

(** ** Messages *)

Inductive SchedulerMsg :=
| DeadlineReached (id : string)
| ProcessEvent (envelope : EventEnvelope)
| Reconcile
| CycleCompleted (id turn_id : string)
| CycleFailed (id : string) (turn_id : option string) (error : string)
| DebounceCompleted (id : string)
| TriggerNow (id : string)
| AddSchedule (schedule : Schedule)
| RemoveSchedule (id : string)
| PauseSchedule (id : string)
| ResumeSchedule (id : string)
| ListSchedules (session : option string)
| GetSchedule (id : string)
| GetMetrics
| Shutdown
| SetSelfRef.

(** [event_kind_name]: the serde tag of the variant. *)
Definition event_kind_name (kind : AgentEventKind) : string :=
  match kind with
  | SessionCreated => "session_created" | PromptReceived _ _ => "prompt_received"
  | UserMessageStored _ => "user_message_stored" | TurnStarted => "turn_started"
  | AssistantMessageStored _ _ _ => "assistant_message_stored"
  | AssistantContentDelta _ _ => "assistant_content_delta"
  | AssistantThinkingDelta _ _ => "assistant_thinking_delta"
  | EvRemoteStreamDisconnected _ _ => "remote_stream_disconnected"
  | EvRemoteStreamReconnected _ _ => "remote_stream_reconnected"
  | RemoteSessionDisconnected _ _ => "remote_session_disconnected"
  | RemoteProviderHeartbeat _ _ _ _ _ => "remote_provider_heartbeat"
  | StreamRecovering _ _ _ _ => "stream_recovering" | LlmRequestStart _ => "llm_request_start"
  | LlmRequestEnd _ _ _ _ _ _ _ => "llm_request_end"
  | ProviderChanged _ _ _ _ _ => "provider_changed" | ToolCallStart _ _ _ => "tool_call_start"
  | ToolCallEnd _ _ _ _ => "tool_call_end" | EvHookNotice _ _ _ => "hook_notice"
  | SnapshotStart _ => "snapshot_start" | SnapshotEnd _ => "snapshot_end"
  | CompactionStart _ => "compaction_start" | CompactionEnd _ _ => "compaction_end"
  | MiddlewareInjected _ => "middleware_injected"
  | MiddlewareStopped _ _ _ => "middleware_stopped" | SessionQueued _ => "session_queued"
  | SessionStopRequested => "session_stop_requested"
  | SessionForceStopped _ _ => "session_force_stopped" | EvCancelled => "cancelled"
  | EvError _ => "error" | IntentUpdated _ => "intent_updated" | TaskCreated _ => "task_created"
  | TaskUpdated _ => "task_updated" | TaskStatusChanged _ => "task_status_changed"
  | DecisionRecorded _ => "decision_recorded" | AlternativeRecorded _ => "alternative_recorded"
  | AlternativeDiscarded _ _ => "alternative_discarded"
  | ProgressRecorded _ => "progress_recorded" | ArtifactRecorded _ => "artifact_recorded"
  | DelegationRequested _ _ => "delegation_requested"
  | DelegationCompleted _ _ => "delegation_completed"
  | DelegationFailed _ _ => "delegation_failed" | DelegationCancelled _ => "delegation_cancelled"
  | DelegationCancelRequested _ => "delegation_cancel_requested"
  | UncertaintyEscalated _ _ _ => "uncertainty_escalated"
  | PermissionRequested _ _ _ _ => "permission_requested"
  | PermissionGranted _ _ => "permission_granted"
  | ElicitationRequested _ _ _ _ _ => "elicitation_requested"
  | SessionForked _ _ _ _ _ _ _ => "session_forked"
  | SessionConfigured _ _ _ => "session_configured" | ToolsAvailable _ _ => "tools_available"
  | DuplicateCodeDetected _ _ => "duplicate_code_detected" | ModeChanged _ _ => "mode_changed"
  | SessionModeChanged _ => "session_mode_changed" | EvRateLimited _ _ _ _ _ => "rate_limited"
  | RateLimitResume _ => "rate_limit_resume" | WorkspaceIndexReady _ => "workspace_index_ready"
  | ScheduleCreated _ _ _ => "schedule_created" | ScheduleFired _ _ => "schedule_fired"
  | ScheduleCycleCompleted _ _ _ => "schedule_cycle_completed"
  | ScheduleCycleFailed _ _ _ => "schedule_cycle_failed" | SchedulePaused _ => "schedule_paused"
  | ScheduleResumed _ => "schedule_resumed" | ScheduleExhausted _ => "schedule_exhausted"
  | ScheduleFailed _ _ => "schedule_failed"
  | ScheduledExecutionCompleted _ _ => "scheduled_execution_completed"
  | ScheduledExecutionFailed _ _ _ => "scheduled_execution_failed"
  | ScheduleDebounceCompleted _ => "schedule_debounce_completed"
  | KnowledgeIngested _ _ _ => "knowledge_ingested"
  | KnowledgeConsolidated _ _ _ => "knowledge_consolidated"
  end.

Record SchedWorld := {
  (** how many questions the outside has answered *)
  sw_now : nat;
  sw_db : ScheduleDb;
  sw_actor : SchedulerActor;
  sw_tasks : gmap nat SpawnedTask;
  sw_next_task : nat;
  sw_mailbox : list SchedulerMsg;
  sw_stopped : bool;
  (** events emitted, each under its session, and prompts delivered to sessions *)
  sw_events : list (string * AgentEventKind);
  sw_prompts : list (string * ScheduledPrompt);
}.

Definition set_sw_now (f : nat -> nat) (w : SchedWorld) : SchedWorld :=
  {| sw_now := f (sw_now w); sw_db := sw_db w; sw_actor := sw_actor w; sw_tasks := sw_tasks w;
     sw_next_task := sw_next_task w; sw_mailbox := sw_mailbox w; sw_stopped := sw_stopped w;
     sw_events := sw_events w; sw_prompts := sw_prompts w |}.
Definition set_sw_db (f : ScheduleDb -> ScheduleDb) (w : SchedWorld) : SchedWorld :=
  {| sw_now := sw_now w; sw_db := f (sw_db w); sw_actor := sw_actor w; sw_tasks := sw_tasks w;
     sw_next_task := sw_next_task w; sw_mailbox := sw_mailbox w; sw_stopped := sw_stopped w;
     sw_events := sw_events w; sw_prompts := sw_prompts w |}.
Definition set_sw_actor (f : SchedulerActor -> SchedulerActor) (w : SchedWorld) : SchedWorld :=
  {| sw_now := sw_now w; sw_db := sw_db w; sw_actor := f (sw_actor w); sw_tasks := sw_tasks w;
     sw_next_task := sw_next_task w; sw_mailbox := sw_mailbox w; sw_stopped := sw_stopped w;
     sw_events := sw_events w; sw_prompts := sw_prompts w |}.
Definition set_sw_tasks (f : gmap nat SpawnedTask -> gmap nat SpawnedTask) (w : SchedWorld) : SchedWorld :=
  {| sw_now := sw_now w; sw_db := sw_db w; sw_actor := sw_actor w; sw_tasks := f (sw_tasks w);
     sw_next_task := sw_next_task w; sw_mailbox := sw_mailbox w; sw_stopped := sw_stopped w;
     sw_events := sw_events w; sw_prompts := sw_prompts w |}.
Definition set_sw_next (f : nat -> nat) (w : SchedWorld) : SchedWorld :=
  {| sw_now := sw_now w; sw_db := sw_db w; sw_actor := sw_actor w; sw_tasks := sw_tasks w;
     sw_next_task := f (sw_next_task w); sw_mailbox := sw_mailbox w; sw_stopped := sw_stopped w;
     sw_events := sw_events w; sw_prompts := sw_prompts w |}.
Definition set_sw_mailbox (f : list SchedulerMsg -> list SchedulerMsg) (w : SchedWorld) : SchedWorld :=
  {| sw_now := sw_now w; sw_db := sw_db w; sw_actor := sw_actor w; sw_tasks := sw_tasks w;
     sw_next_task := sw_next_task w; sw_mailbox := f (sw_mailbox w); sw_stopped := sw_stopped w;
     sw_events := sw_events w; sw_prompts := sw_prompts w |}.
Definition set_sw_stopped (f : bool -> bool) (w : SchedWorld) : SchedWorld :=
  {| sw_now := sw_now w; sw_db := sw_db w; sw_actor := sw_actor w; sw_tasks := sw_tasks w;
     sw_next_task := sw_next_task w; sw_mailbox := sw_mailbox w; sw_stopped := f (sw_stopped w);
     sw_events := sw_events w; sw_prompts := sw_prompts w |}.
Definition set_sw_events (f : list (string * AgentEventKind) -> list (string * AgentEventKind)) (w : SchedWorld) : SchedWorld :=
  {| sw_now := sw_now w; sw_db := sw_db w; sw_actor := sw_actor w; sw_tasks := sw_tasks w;
     sw_next_task := sw_next_task w; sw_mailbox := sw_mailbox w; sw_stopped := sw_stopped w;
     sw_events := f (sw_events w); sw_prompts := sw_prompts w |}.
Definition set_sw_prompts (f : list (string * ScheduledPrompt) -> list (string * ScheduledPrompt)) (w : SchedWorld) : SchedWorld :=
  {| sw_now := sw_now w; sw_db := sw_db w; sw_actor := sw_actor w; sw_tasks := sw_tasks w;
     sw_next_task := sw_next_task w; sw_mailbox := sw_mailbox w; sw_stopped := sw_stopped w;
     sw_events := sw_events w; sw_prompts := f (sw_prompts w) |}.

(** ** The environment *)

Class SchedEnv := {
  se_now : nat -> Z;
  se_uuid : nat -> string;
  (** a failure of the schedule database *)
  se_store_error : nat -> option SessionError;
  (** whether the registry holds an actor for the session; the delivery of a
      prompt to it; the task of a public id *)
  se_registry : nat -> string -> bool;
  se_tell_prompt : nat -> string -> ScheduledPrompt -> option string;
  se_get_task : nat -> string -> result SessionError (option Task);
  (** the iteration order of a hash map's keys *)
  se_key_order : nat -> list string -> list string;
  se_key_order_perm : forall n l, se_key_order n l ≡ₚ l;
}.

(** ** Primitive operations *)

(** The error is the message of a panic. *)
Definition X (A : Type) : Type := M SchedWorld string A.

Definition ask {A} (f : nat -> A) : X A := fun w => (Ok (f (sw_now w)), set_sw_now S w).

Definition actor {A} (f : SchedulerActor -> A) : X A := gets (fun w => f (sw_actor w)).
Definition upd (f : SchedulerActor -> SchedulerActor) : X unit := modify (set_sw_actor f).

Definition bump (f : MetricField) : X unit := upd (with_metrics (metric_bump f)).
Definition gauge (f : MetricField) (v : Z) : X unit := upd (with_metrics (metric_set f v)).

Definition spawn (t : SpawnedTask) : X nat :=
  updating (fun w => (sw_next_task w,
    set_sw_next S (set_sw_tasks (insert (sw_next_task w) t) w))).
Definition abort_task (h : nat) : X unit := modify (set_sw_tasks (delete h)).
Definition abort_opt (h : option nat) : X unit :=
  match h with Some h => abort_task h | None => mret tt end.

Definition emit_schedule_event (session : string) (k : AgentEventKind) : X unit :=
  modify (set_sw_events (fun l => l ++ [(session, k)])).

Definition dt_add_or_panic (t d : Z) : X Z :=
  match dt_add t d with
  | Some r => mret r
  | None => fail "resulting value is out of range"
  end.
Definition or_panic {A} (o : option A) : X A :=
  match o with Some a => mret a | None => fail "resulting value is out of range" end.

Context {F : Rfc3339} {SE : SchedEnv}.

Definition now_utc : X Z := ask se_now.

(** A call of the repository: the database's failure, or its effect. *)
Definition store {A} (f : ScheduleDb -> result SessionError A * ScheduleDb)
  : X (result SessionError A) := fun w =>
  let w' := set_sw_now S w in
  match se_store_error (sw_now w) with
  | Some e => (Ok (Err e), w')
  | None => let '(r, db) := f (sw_db w') in (Ok r, set_sw_db (fun _ => db) w')
  end.

Definition query {A} (f : ScheduleDb -> A) : X (result SessionError A) :=
  store (fun db => (Ok (f db), db)).

Definition store_state (id : string) (from to : ScheduleState) : X (result SessionError bool) :=
  now ← now_utc;
  store (fun db => let '(ok, db') := update_schedule_state now id from to db in (Ok ok, db')).

(** [update_schedule], with its [map_err]. *)
Definition store_update (s : Schedule) : X (result SessionError unit) :=
  r ← store (update_schedule s);
  mret (match r with
        | Err (DatabaseError _) => Err (SeOther ("Schedule not found: " +:+ sch_public_id s))
        | _ => r
        end).

Definition store_create (s : Schedule) : X (result SessionError Schedule) :=
  uuid ← ask se_uuid; store (create_schedule uuid s).

Definition store_acquire (owner : string) (ttl : Z) : X (result SessionError bool) :=
  now ← now_utc; expires ← or_panic (lease_until now ttl);
  store (fun db => let '(ok, db') := try_acquire_scheduler_lease owner now expires db in (Ok ok, db')).
Definition store_renew (owner : string) (ttl : Z) : X (result SessionError bool) :=
  now ← now_utc; expires ← or_panic (lease_until now ttl);
  store (fun db => let '(ok, db') := renew_scheduler_lease owner now expires db in (Ok ok, db')).
Definition store_release (owner : string) : X (result SessionError bool) :=
  store (fun db => let '(ok, db') := release_scheduler_lease owner db in (Ok ok, db')).

(** ** Laws of the primitives *)

Lemma keeps_sched_ask {A} (I : SchedWorld -> Prop) (f : nat -> A) :
  (forall w, I w -> I (set_sw_now S w)) -> keeps I (ask f).
Proof. intros H w Hw. apply H, Hw. Qed.

Lemma keeps_sched_store {A} (I : SchedWorld -> Prop)
    (f : ScheduleDb -> result SessionError A * ScheduleDb) :
  (forall w, I w -> I (set_sw_now S w)) ->
  (forall w, I w -> I (set_sw_db (fun _ => (f (sw_db w)).2) w)) -> keeps I (store f).
Proof.
  intros H Hf w Hw. unfold store, wp. destruct (se_store_error (sw_now w)); [by apply H|].
  specialize (Hf _ (H _ Hw)). by destruct (f _).
Qed.

Lemma keeps_upd (I : SchedWorld -> Prop) f :
  (forall w, I w -> I (set_sw_actor f w)) -> keeps I (upd f).
Proof. apply keeps_modify. Qed.

Lemma keeps_dt_add (I : SchedWorld -> Prop) t d : keeps I (dt_add_or_panic t d).
Proof. unfold dt_add_or_panic. destruct (dt_add t d); [apply keeps_ret|apply keeps_fail]. Qed.

Lemma keeps_or_panic {A} (I : SchedWorld -> Prop) (o : option A) : keeps I (or_panic o).
Proof. destruct o; [apply keeps_ret|apply keeps_fail]. Qed.

End world.

#[export] Hint Resolve keeps_dt_add keeps_or_panic : qmt.
