(* ===== verification/Scheduler.v ===== *)
(** The scheduler actor (scheduler/mod.rs): one definition per handler, and the
    actor as a step relation over its mailbox and its timer tasks. *)
From S2P Require Import Prelude Numbers Json Chat Domain Events ScheduleDomain ScheduleRepo.
From S2P Require Import SchedWorld.

Local Open Scope Z_scope.

Section scheduler.
Context {J : Json} {F : Rfc3339} {SE : SchedEnv}.

(** ** Wakes and queues *)

(** [delay.whole_seconds().max(0) as u64] *)
Definition wake_delay (next_time now : Z) : Z := Z.max (next_time - now) 0 / NANOS.

Definition abort_wake : X unit :=
  h ← actor sa_wake_handle;
  match h with
  | Some h => upd (with_wake (fun _ => None)) ≫= fun _ => abort_task h
  | None => mret tt
  end.

Definition reschedule_wake : X unit :=
  abort_wake ≫= fun _ =>
  self_ref ← actor sa_self_ref;
  if negb self_ref then mret tt else
  head ← actor (fun a => dq_peek (sa_deadline_queue a));
  match head with
  | None => mret tt
  | Some (next_time, id) =>
      now ← now_utc;
      h ← spawn (TkWake (wake_delay next_time now) id);
      upd (with_wake (fun _ => Some h))
  end.

Definition abort_background_tasks : X unit :=
  upd (with_token (fun _ => true)) ≫= fun _ => abort_wake.

Definition gauge_queues : X unit :=
  n ← actor (fun a => dq_len (sa_deadline_queue a));
  gauge armed_interval_schedules n ≫= fun _ =>
  m ← actor (fun a => Z.of_nat (size (sa_event_counters a)));
  gauge armed_event_schedules m.

Definition enqueue_schedule (schedule : Schedule) : X unit :=
  match sch_trigger schedule with
  | Interval _ | OnceAt _ =>
      match sch_next_run_at schedule with
      | Some next =>
          upd (with_queue (dq_insert next (sch_public_id schedule))) ≫= fun _ => reschedule_wake
      | None => mret tt
      end
  | EventDriven event_filter _ =>
      upd (with_counters (insert (sch_public_id schedule) (acc_new (etf_threshold event_filter))))
  end ≫= fun _ => gauge_queues.

(** ** Terminal events *)

(** [Duration::as_seconds_f64] *)
Definition as_seconds_f64 (d : Z) : f64 := f64_div (f64_of_Z d) (f64_of_Z NANOS).

Definition end_active_cycle (id : string) : X unit :=
  cycle ← actor (fun a => sa_active_cycles a !! id);
  match cycle with
  | Some cycle =>
      upd (with_cycles (delete id)) ≫= fun _ =>
      abort_task (ac_timeout_handle cycle) ≫= fun _ =>
      now ← now_utc;
      upd (with_metrics (metric_runtime (as_seconds_f64 (now - ac_started_at cycle))))
  | None => mret tt
  end ≫= fun _ =>
  n ← actor (fun a => Z.of_nat (size (sa_active_cycles a)));
  gauge active_cycles n.

(** The schedule after a terminal event; ids, trigger and configuration stay. *)
Definition with_run (state : ScheduleState) (last next : option Z) (run_count failures : Z)
    (updated_at : Z) (s : Schedule) : Schedule :=
  {| sch_id := sch_id s; sch_public_id := sch_public_id s;
     sch_task_public_id := sch_task_public_id s; sch_session_public_id := sch_session_public_id s;
     sch_task_id := sch_task_id s; sch_session_id := sch_session_id s;
     sch_trigger := sch_trigger s; sch_state := state; sch_last_run_at := last;
     sch_next_run_at := next; sch_run_count := run_count; sch_consecutive_failures := failures;
     sch_config := sch_config s; sch_created_at := sch_created_at s;
     sch_updated_at := updated_at |}.

Definition handle_pending_delete (id : string) : X unit :=
  pending ← actor (fun a => bool_decide (id ∈ sa_pending_deletes a));
  if (pending : bool) then
    upd (with_deletes (fun d => d ∖ {[id]})) ≫= fun _ =>
    store (delete_schedule id) ≫= fun _ => mret tt
  else mret tt.

(** The idempotency guard: whether this terminal event is new. *)
Definition mark_terminal (key : string * option string) : X bool :=
  seen ← actor (fun a => bool_decide (key ∈ sa_processed_terminals a));
  if (seen : bool) then bump idempotent_drops_total ≫= fun _ => mret false
  else upd (with_processed (fun p => {[key]} ∪ p)) ≫= fun _ => mret true.

Definition is_exhausted (s : Schedule) (run_count : Z) : bool :=
  match sc_max_runs (sch_config s) with Some max => max <=? run_count | None => false end.

Definition complete_schedule (schedule : Schedule) : X unit :=
  let run_count := u32_add (sch_run_count schedule) 1 in
  last ← now_utc;
  updated_at ← now_utc;
  if is_exhausted schedule run_count then
    store_update (with_run Exhausted (Some last) None run_count 0 updated_at schedule) ≫= fun _ =>
    emit_schedule_event (sch_session_public_id schedule)
      (ScheduleExhausted (sch_public_id schedule))
  else
    next ← match sch_trigger schedule with
           | Interval seconds =>
               now ← now_utc;
               t ← or_panic (compute_next_run_at seconds
                               (sc_jitter_percent (sch_config schedule)) now);
               mret (Some t)
           | _ => mret (sch_next_run_at schedule)
           end;
    let updated := with_run Armed (Some last) next run_count 0 updated_at schedule in
    store_update updated ≫= fun _ => enqueue_schedule updated.

Definition handle_cycle_completed (id turn_id : string) : X unit :=
  fresh ← mark_terminal (id, Some turn_id);
  if negb fresh then mret tt else
  end_active_cycle id ≫= fun _ =>
  bump completions_total ≫= fun _ =>
  found ← query (get_schedule id);
  match found with
  | Err _ | Ok None => mret tt
  | Ok (Some schedule) =>
      complete_schedule schedule ≫= fun _ =>
      handle_pending_delete id ≫= fun _ =>
      emit_schedule_event (sch_session_public_id schedule)
        (ScheduleCycleCompleted id turn_id (u32_add (sch_run_count schedule) 1))
  end.

Definition fail_schedule (schedule : Schedule) : X unit :=
  let failures := u32_add (sch_consecutive_failures schedule) 1 in
  last ← now_utc;
  updated_at ← now_utc;
  if sc_max_consecutive_failures (sch_config schedule) <=? failures then
    store_update (with_run Failed (Some last) None (sch_run_count schedule) failures
                    updated_at schedule) ≫= fun _ =>
    emit_schedule_event (sch_session_public_id schedule)
      (ScheduleFailed (sch_public_id schedule) (u32_add (sch_consecutive_failures schedule) 1))
  else
    now ← now_utc;
    backoff ← or_panic (compute_backoff (sc_backoff_base_seconds (sch_config schedule)) failures
                          (sc_jitter_percent (sch_config schedule)) now);
    now2 ← now_utc;
    next ← dt_add_or_panic now2 backoff;
    let updated := with_run Armed (Some last) (Some next) (sch_run_count schedule) failures
                     updated_at schedule in
    store_update updated ≫= fun _ => enqueue_schedule updated.

Definition handle_cycle_failed_inner (id : string) (turn_id : option string) (error : string)
  : X unit :=
  fresh ← mark_terminal (id, turn_id);
  if negb fresh then mret tt else
  end_active_cycle id ≫= fun _ =>
  bump failures_total ≫= fun _ =>
  found ← query (get_schedule id);
  match found with
  | Err _ | Ok None => mret tt
  | Ok (Some schedule) =>
      fail_schedule schedule ≫= fun _ =>
      handle_pending_delete id ≫= fun _ =>
      emit_schedule_event (sch_session_public_id schedule) (ScheduleCycleFailed id turn_id error)
  end.

(** ** Firing *)

Definition default_prompt (id : string) : string :=
  "Execute the recurring task for schedule " +:+ id +:+ ".".

Definition prompt_text (id : string) (task : result SessionError (option Task)) : string :=
  match task with
  | Ok (Some task) =>
      match task_expected_deliverable task with
      | Some s => if is_empty_str s then default_prompt id else s
      | None => default_prompt id
      end
  | _ => default_prompt id
  end.

(** The timeout task, the active cycle and the event of a prompt delivered. *)
Definition start_cycle (id : string) (schedule : Schedule) : X unit :=
  let max_runtime := sc_max_runtime_seconds (sch_config schedule) in
  self_ref ← actor sa_self_ref;
  h ← spawn (if (self_ref : bool) then TkTimeout max_runtime id else TkTimeoutNoRef max_runtime id);
  now ← now_utc;
  upd (with_cycles (insert id {| ac_started_at := now; ac_timeout_handle := h |})) ≫= fun _ =>
  n ← actor (fun a => Z.of_nat (size (sa_active_cycles a)));
  gauge active_cycles n ≫= fun _ =>
  emit_schedule_event (sch_session_public_id schedule)
    (ScheduleFired id (sch_session_public_id schedule)).

Definition fire_schedule (id : string) : X unit :=
  cas ← store_state id Armed Running;
  match cas with
  | Err _ => mret tt
  | Ok false => bump cas_conflicts_total
  | Ok true =>
      found ← query (get_schedule id);
      match found with
      | Err _ | Ok None => mret tt
      | Ok (Some schedule) =>
          let session := sch_session_public_id schedule in
          registered ← ask (fun t => se_registry t session);
          if negb registered
          then handle_cycle_failed_inner id None "session not found in registry"
          else
            task ← ask (fun t => se_get_task t (sch_task_public_id schedule));
            let prompt :=
              {| sp_schedule_public_id := id; sp_prompt_text := prompt_text id task;
                 sp_execution_limits := sc_execution_limits (sch_config schedule) |} in
            sent ← ask (fun t => se_tell_prompt t session prompt);
            match sent with
            | Some e =>
                handle_cycle_failed_inner id None ("failed to send ScheduledPrompt: " +:+ e)
            | None =>
                modify (set_sw_prompts (fun l => l ++ [(session, prompt)])) ≫= fun _ =>
                bump fires_total ≫= fun _ => start_cycle id schedule
            end
      end
  end.

(** ** Management *)

Definition handle_add_schedule (schedule : Schedule) : X (result SessionError unit) :=
  created ← store_create schedule;
  match created with
  | Err e => mret (Err e)
  | Ok created =>
      enqueue_schedule created ≫= fun _ =>
      emit_schedule_event (sch_session_public_id schedule)
        (ScheduleCreated (sch_public_id created) (sch_session_public_id schedule)
           (sch_task_public_id schedule)) ≫= fun _ => mret (Ok tt)
  end.

Definition handle_remove_schedule (id : string) : X (result SessionError unit) :=
  running ← actor (fun a => bool_decide (is_Some (sa_active_cycles a !! id)));
  if (running : bool) then
    upd (with_deletes (fun d => {[id]} ∪ d)) ≫= fun _ =>
    n ← actor (fun a => Z.of_nat (size (sa_pending_deletes a)));
    gauge pending_deletes n ≫= fun _ => mret (Ok tt)
  else
    upd (with_queue (dq_remove id)) ≫= fun _ =>
    upd (with_counters (delete id)) ≫= fun _ =>
    gauge_queues ≫= fun _ =>
    reschedule_wake ≫= fun _ => store (delete_schedule id).

Definition reset_accumulator (id : string) : X unit :=
  acc ← actor (fun a => sa_event_counters a !! id);
  match acc with
  | Some acc =>
      let '(h, acc') := acc_reset acc in
      upd (with_counters (insert id acc')) ≫= fun _ => abort_opt h
  | None => mret tt
  end.

(** [.await.unwrap_or(false)] *)
Definition ok_or_false (r : result SessionError bool) : bool :=
  match r with Ok b => b | Err _ => false end.

Definition handle_pause_schedule (id : string) : X unit :=
  from_armed ← store_state id Armed Paused;
  paused ← (if ok_or_false from_armed then mret true else
            from_running ← store_state id Running Paused; mret (ok_or_false from_running));
  if negb paused then mret tt else
  upd (with_queue (dq_remove id)) ≫= fun _ =>
  reset_accumulator id ≫= fun _ =>
  reschedule_wake ≫= fun _ => emit_schedule_event "" (SchedulePaused id).

Definition handle_resume_schedule (id : string) : X unit :=
  cas ← store_state id Paused Armed;
  if negb (ok_or_false cas) then mret tt else
  found ← query (get_schedule id);
  match found with
  | Ok (Some schedule) =>
      match sch_trigger schedule with
      | Interval seconds =>
          now ← now_utc;
          next ← or_panic (compute_next_run_at seconds
                             (sc_jitter_percent (sch_config schedule)) now);
          updated_at ← now_utc;
          let updated := with_run (sch_state schedule) (sch_last_run_at schedule) (Some next)
                           (sch_run_count schedule) (sch_consecutive_failures schedule)
                           updated_at schedule in
          store_update updated ≫= fun _ => enqueue_schedule updated
      | _ => enqueue_schedule schedule
      end
  | _ => mret tt
  end ≫= fun _ => emit_schedule_event "" (ScheduleResumed id).

(** ** Event-driven schedules *)

Definition set_accumulator (id : string) (acc : EventAccumulator) : X unit :=
  upd (with_counters (insert id acc)).

Definition start_debounce (id : string) (acc : EventAccumulator) (debounce_secs : Z) : X unit :=
  now ← now_utc;
  until ← dt_add_or_panic now (duration_seconds debounce_secs);
  self_ref ← actor sa_self_ref;
  if (self_ref : bool) then
    h ← spawn (TkDebounce debounce_secs id);
    set_accumulator id {| ea_count := ea_count acc; ea_threshold := ea_threshold acc;
                          ea_debounce_until := Some until; ea_debounce_handle := Some h |}
  else
    set_accumulator id {| ea_count := ea_count acc; ea_threshold := ea_threshold acc;
                          ea_debounce_until := Some until;
                          ea_debounce_handle := ea_debounce_handle acc |}.

Definition handle_event_received (id : string) : X unit :=
  acc ← actor (fun a => sa_event_counters a !! id);
  match acc with
  | None => mret tt
  | Some acc =>
      let '(threshold_met, acc) := acc_increment acc in
      set_accumulator id acc ≫= fun _ =>
      if negb threshold_met then mret tt else
      debouncing ← match ea_debounce_until acc with
                   | Some until => now ← now_utc; mret (now <? until)
                   | None => mret false
                   end;
      if (debouncing : bool) then mret tt else
      found ← query (get_schedule id);
      match found with
      | Err _ | Ok None => mret tt
      | Ok (Some schedule) =>
          match sch_trigger schedule with
          | EventDriven _ debounce_secs =>
              if 0 <? debounce_secs then start_debounce id acc debounce_secs
              else reset_accumulator id ≫= fun _ => fire_schedule id
          | _ => mret tt
          end
      end
  end.

Definition handle_debounce_completed (id : string) : X unit :=
  acc ← actor (fun a => sa_event_counters a !! id);
  match acc with
  | None => mret tt
  | Some acc =>
      if acc_threshold_met acc then reset_accumulator id ≫= fun _ => fire_schedule id
      else set_accumulator id {| ea_count := ea_count acc; ea_threshold := ea_threshold acc;
                                 ea_debounce_until := None;
                                 ea_debounce_handle := ea_debounce_handle acc |}
  end.

Definition handle_deadline_reached (id : string) : X unit :=
  upd (with_queue (dq_remove id)) ≫= fun _ => reschedule_wake ≫= fun _ => fire_schedule id.

Definition handle_trigger_now (id : string) : X unit :=
  upd (with_queue (dq_remove id)) ≫= fun _ => reschedule_wake ≫= fun _ => fire_schedule id.

Definition handle_list_schedules (session : option string) : X (list Schedule) :=
  r ← match session with
      | Some spid => query (list_schedules spid)
      | None => query list_all_armed_schedules
      end;
  mret (match r with Ok l => l | Err _ => [] end).

Definition handle_get_schedule (id : string) : X (option Schedule) :=
  r ← query (get_schedule id); mret (match r with Ok o => o | Err _ => None end).

(** ** Reconciliation *)

Definition recover_one (schedule : Schedule) : X unit :=
  active ← actor (fun a => bool_decide (is_Some (sa_active_cycles a !! sch_public_id schedule)));
  if (active : bool) then mret tt else
  bump reconciliation_recoveries_total ≫= fun _ =>
  handle_cycle_failed_inner (sch_public_id schedule) None "recovered by reconciliation sweep".

Definition fire_overdue (now : Z) (schedule : Schedule) : X unit :=
  match sch_next_run_at schedule with
  | Some next_run =>
      if next_run <=? now then
        bump reconciliation_overdue_fires_total ≫= fun _ =>
        fire_schedule (sch_public_id schedule)
      else mret tt
  | None => mret tt
  end.

Definition STALE_SECONDS : Z := 300.

Definition reconcile : X unit :=
  bump reconciliation_sweeps_total ≫= fun _ =>
  now ← now_utc;
  cutoff ← dt_add_or_panic now (- (STALE_SECONDS * NANOS));
  stale ← query (list_running_schedules_older_than cutoff);
  match stale with Ok l => mapM_ recover_one l | Err _ => mret tt end ≫= fun _ =>
  armed ← query list_all_armed_schedules;
  match armed with
  | Ok l => now ← now_utc; mapM_ (fire_overdue now) l
  | Err _ => mret tt
  end ≫= fun _ =>
  owner ← actor sa_owner_id;
  ttl ← actor (fun a => shc_lease_ttl_secs (sa_config a));
  store_renew owner ttl ≫= fun _ => mret tt.

(** ** Events from the fan-out *)

Definition filter_matches (event_filter : EventTriggerFilter) (kind session : string) : bool :=
  existsb (String.eqb kind) (etf_event_kinds event_filter) &&
  match etf_session_public_id event_filter with
  | Some filter_session => String.eqb filter_session session
  | None => true
  end.

Definition offer_event (kind session id : string) : X unit :=
  found ← query (get_schedule id);
  match found with
  | Ok (Some schedule) =>
      match sch_trigger schedule with
      | EventDriven event_filter _ =>
          if filter_matches event_filter kind session then handle_event_received id else mret tt
      | _ => mret tt
      end
  | _ => mret tt
  end.

Definition process_event (envelope : EventEnvelope) : X unit :=
  match env_kind envelope with
  | ScheduledExecutionCompleted id turn_id => handle_cycle_completed id turn_id
  | ScheduledExecutionFailed id turn_id error => handle_cycle_failed_inner id turn_id error
  | ScheduleDebounceCompleted _ => mret tt
  | kind =>
      counters ← actor sa_event_counters;
      ids ← ask (fun t => se_key_order t (map fst (map_to_list counters)));
      mapM_ (offer_event (event_kind_name kind) (env_session_id envelope)) ids
  end.

(** ** Start *)

Definition recover_stale_running : X unit :=
  now ← now_utc;
  cutoff ← dt_add_or_panic now (- (STALE_SECONDS * NANOS));
  stale ← query (list_running_schedules_older_than cutoff);
  match stale with
  | Ok l => mapM_ (fun s => handle_cycle_failed_inner (sch_public_id s) None
                              "recovered from stale running state on startup") l
  | Err _ => mret tt
  end.

Definition rebuild_queues : X unit :=
  armed ← query list_all_armed_schedules;
  match armed with Ok l => mapM_ enqueue_schedule l | Err _ => mret tt end.

Definition initialize : X bool :=
  owner ← actor sa_owner_id;
  ttl ← actor (fun a => shc_lease_ttl_secs (sa_config a));
  acquired ← store_acquire owner ttl;
  if negb (ok_or_false acquired) then mret false else
  recover_stale_running ≫= fun _ => rebuild_queues ≫= fun _ => mret true.

Definition handle_shutdown : X unit :=
  abort_background_tasks ≫= fun _ =>
  owner ← actor sa_owner_id;
  store_release owner ≫= fun _ => modify (set_sw_stopped (fun _ => true)).

Definition handle_set_self_ref : X unit :=
  upd (with_self_ref (fun _ => true)) ≫= fun _ => reschedule_wake.

(** One tick of the lease renewal loop: a lost lease shuts the actor down. *)
Definition lease_renewal_tick : X unit :=
  owner ← actor sa_owner_id;
  ttl ← actor (fun a => shc_lease_ttl_secs (sa_config a));
  renewed ← store_renew owner ttl;
  match renewed with
  | Ok false => modify (set_sw_mailbox (fun l => l ++ [Shutdown]))
  | _ => mret tt
  end.

(** ** The actor *)

Inductive Reply :=
| RUnit
| RResult (r : result SessionError unit)
| RSchedules (l : list Schedule)
| RSchedule (s : option Schedule)
| RMetrics (m : SchedulerMetrics).

Definition silent (m : X unit) : X Reply := m ≫= fun _ => mret RUnit.

Definition handle_message (m : SchedulerMsg) : X Reply :=
  match m with
  | DeadlineReached id => silent (handle_deadline_reached id)
  | ProcessEvent envelope => silent (process_event envelope)
  | Reconcile => silent reconcile
  | CycleCompleted id turn_id => silent (handle_cycle_completed id turn_id)
  | CycleFailed id turn_id error => silent (handle_cycle_failed_inner id turn_id error)
  | DebounceCompleted id => silent (handle_debounce_completed id)
  | TriggerNow id => silent (handle_trigger_now id)
  | AddSchedule schedule => r ← handle_add_schedule schedule; mret (RResult r)
  | RemoveSchedule id => r ← handle_remove_schedule id; mret (RResult r)
  | PauseSchedule id => silent (handle_pause_schedule id)
  | ResumeSchedule id => silent (handle_resume_schedule id)
  | ListSchedules session => l ← handle_list_schedules session; mret (RSchedules l)
  | GetSchedule id => s ← handle_get_schedule id; mret (RSchedule s)
  | GetMetrics => m ← actor sa_metrics; mret (RMetrics m)
  | Shutdown => silent handle_shutdown
  | SetSelfRef => silent handle_set_self_ref
  end.

(** The message a timer task sends when its sleep is over. *)
Definition task_message (t : SpawnedTask) : option SchedulerMsg :=
  match t with
  | TkWake _ id => Some (DeadlineReached id)
  | TkTimeout max_runtime id =>
      Some (CycleFailed id None
              ("cycle exceeded max_runtime_seconds (" +:+ dec_of_Z max_runtime +:+ ")"))
  | TkTimeoutNoRef _ _ => None
  | TkDebounce _ id => Some (DebounceCompleted id)
  end.

(** A handler that panics stops the actor. *)
Definition process_head (m : SchedulerMsg) (rest : list SchedulerMsg) (w : SchedWorld)
  : SchedWorld :=
  match handle_message m (set_sw_mailbox (fun _ => rest) w) with
  | (Ok _, w') => w'
  | (Err _, w') => set_sw_stopped (fun _ => true) w'
  end.

Definition fire_task (h : nat) (t : SpawnedTask) (w : SchedWorld) : SchedWorld :=
  set_sw_tasks (delete h)
    (set_sw_mailbox (fun l => l ++ match task_message t with Some m => [m] | None => [] end) w).

(** A step: a message arrives, a timer fires, the actor handles the message at
    the head of its mailbox, the renewal loop ticks, or another client writes
    the database. *)
Inductive sched_step : SchedWorld -> SchedWorld -> Prop :=
| StepSend m w : sched_step w (set_sw_mailbox (fun l => l ++ [m]) w)
| StepTimer h t w : sw_tasks w !! h = Some t -> sched_step w (fire_task h t w)
| StepHandle m rest w :
    sw_stopped w = false -> sw_mailbox w = m :: rest -> sched_step w (process_head m rest w)
| StepRenew w :
    sa_shutdown_token (sw_actor w) = false -> sched_step w (lease_renewal_tick w).2
| StepOther db w : sched_step w (set_sw_db (fun _ => db) w).

Definition world_new (owner_id : string) (config : SchedulerConfig) (db : ScheduleDb)
  : SchedWorld :=
  {| sw_now := 0; sw_db := db; sw_actor := scheduler_actor_new owner_id config; sw_tasks := ∅;
     sw_next_task := 0; sw_mailbox := []; sw_stopped := false; sw_events := [];
     sw_prompts := [] |}.

(** [SchedulerActor::spawn]: when the lease is acquired, the actor runs with
    its self-reference on the way. *)
Definition spawn_scheduler (owner_id : string) (config : SchedulerConfig) (db : ScheduleDb)
  : option SchedWorld :=
  match initialize (world_new owner_id config db) with
  | (Ok true, w) => Some (set_sw_mailbox (fun l => l ++ [SetSelfRef]) w)
  | _ => None
  end.

End scheduler.
