(* ===== verification/SchedWake.v ===== *)
(** The wake of the scheduler: while the actor runs and its deadline queue is
    not empty, a timer task for the queue's earliest entry is pending, or its
    [DeadlineReached] message is in the mailbox.  Each handler keeps this, with
    the ownership of the task handles it needs. *)
From S2P Require Import Prelude Numbers Json Chat Domain Events ScheduleDomain ScheduleRepo.
From S2P Require Import SchedWorld Scheduler.

Local Open Scope Z_scope.

Section wake.
Context {J : Json} {F : Rfc3339} {SE : SchedEnv}.

(** A handle of another task than a wake. *)
Definition other_handle (w : SchedWorld) (h : nat) : Prop :=
  (h < sw_next_task w)%nat /\ forall d i, sw_tasks w !! h <> Some (TkWake d i).

(** Handles are below the next number; those of timeouts and debounces are
    not of a wake. *)
Definition handles_ok (w : SchedWorld) : Prop :=
  (forall h t, sw_tasks w !! h = Some t -> (h < sw_next_task w)%nat) /\
  (forall h, sa_wake_handle (sw_actor w) = Some h -> (h < sw_next_task w)%nat) /\
  (forall id c, sa_active_cycles (sw_actor w) !! id = Some c ->
     other_handle w (ac_timeout_handle c)) /\
  (forall id a h, sa_event_counters (sw_actor w) !! id = Some a ->
     ea_debounce_handle a = Some h -> other_handle w h).

(** The wake armed for the head of the queue. *)
Definition head_armed (w : SchedWorld) : Prop :=
  let a := sw_actor w in
  sa_self_ref a = true -> sa_shutdown_token a = false ->
  forall e, dq_peek (sa_deadline_queue a) = Some e ->
  exists h, sa_wake_handle a = Some h /\
    ((exists d, sw_tasks w !! h = Some (TkWake d e.2)) \/ In (DeadlineReached e.2) (sw_mailbox w)).

Definition wake_ok (w : SchedWorld) : Prop := handles_ok w /\ head_armed w.

(** ** Updates of other parts of the world keep both *)

Lemma keeps_gets_then {A B} (I : SchedWorld -> Prop) (f : SchedWorld -> A)
    (k : A -> X B) :
  (forall w, I w -> wp (k (f w)) (fun _ w' => I w') w) -> keeps I (gets f ≫= k).
Proof. intros H w Hw. apply wp_bind, wp_gets, H, Hw. Qed.

Ltac same := let w := fresh "w" in let H := fresh in intros w H; exact H.

Ltac keeps_prim :=
  lazymatch goal with
  | |- keeps _ (upd _) => apply keeps_upd; same
  | |- keeps _ (modify _) => apply keeps_modify; same
  | |- keeps _ (bump _) => apply keeps_upd; same
  | |- keeps _ (gauge _ _) => apply keeps_upd; same
  | |- keeps _ (emit_schedule_event _ _) => apply keeps_modify; same
  | |- keeps _ (ask _) => apply keeps_sched_ask; same
  | |- keeps _ now_utc => apply keeps_sched_ask; same
  | |- keeps _ (store _) => apply keeps_sched_store; same
  | |- keeps _ (query _) => apply keeps_sched_store; same
  | |- keeps _ (actor _) => apply keeps_gets
  end.
Local Hint Extern 2 (keeps _ _) => keeps_prim : qmt.

Section neutral.
(** The predicates at hand, and the operations that touch none of their parts. *)
Variable I : SchedWorld -> Prop.
Hypothesis HI : I = wake_ok \/ I = handles_ok.

Lemma keeps_store_update s : keeps I (store_update s).
Proof using HI. destruct HI as [-> | ->]; unfold store_update; keeps_auto. Qed.
Lemma keeps_store_state id a b : keeps I (store_state id a b).
Proof using HI. destruct HI as [-> | ->]; unfold store_state; keeps_auto. Qed.
Lemma keeps_store_create s : keeps I (store_create s).
Proof using HI. destruct HI as [-> | ->]; unfold store_create; keeps_auto. Qed.
Lemma keeps_store_renew o t : keeps I (store_renew o t).
Proof using HI. destruct HI as [-> | ->]; unfold store_renew; keeps_auto. Qed.
Lemma keeps_store_acquire o t : keeps I (store_acquire o t).
Proof using HI. destruct HI as [-> | ->]; unfold store_acquire; keeps_auto. Qed.
Lemma keeps_store_release o : keeps I (store_release o).
Proof using HI. destruct HI as [-> | ->]; unfold store_release; keeps_auto. Qed.
Lemma keeps_gauge_queues : keeps I gauge_queues.
Proof using HI. destruct HI as [-> | ->]; unfold gauge_queues; keeps_auto. Qed.
Lemma keeps_mark k : keeps I (mark_terminal k).
Proof using HI. destruct HI as [-> | ->]; unfold mark_terminal; keeps_auto. Qed.
Lemma keeps_pending_delete id : keeps I (handle_pending_delete id).
Proof using HI. destruct HI as [-> | ->]; unfold handle_pending_delete; keeps_auto. Qed.
End neutral.

Local Hint Resolve or_introl or_intror keeps_store_update keeps_store_state keeps_store_create
  keeps_store_renew keeps_store_acquire keeps_store_release keeps_gauge_queues keeps_mark
  keeps_pending_delete : qmt.

(** ** Tasks *)

(** A new task's number is free, and it is no one's handle. *)
Lemma spawned_handles t w : handles_ok w ->
  handles_ok (set_sw_next S (set_sw_tasks (insert (sw_next_task w) t) w)).
Proof.
  intros (H1 & H2 & H3 & H4).
  assert (Hk : forall h, other_handle w h ->
    other_handle (set_sw_next S (set_sw_tasks (insert (sw_next_task w) t) w)) h).
  { intros h [Hlt Hn]. split; cbn; [lia|]. intros d i. rewrite lookup_insert_ne by lia. apply Hn. }
  split; [|split; [|split]]; cbn.
  - intros h t'. destruct (decide (h = sw_next_task w)) as [->|Hne]; [lia|].
    rewrite lookup_insert_ne by done. intros E. apply H1 in E. lia.
  - intros h E. apply H2 in E. lia.
  - intros id c E. apply Hk, (H3 _ _ E).
  - intros id a h E Eh. apply Hk, (H4 _ _ _ E Eh).
Qed.

Lemma spawned_armed t w : handles_ok w -> head_armed w ->
  head_armed (set_sw_next S (set_sw_tasks (insert (sw_next_task w) t) w)).
Proof.
  intros (H1 & H2 & _) HA Hs Ht e Hp. destruct (HA Hs Ht e Hp) as (h & Hw & Hd).
  exists h. split; [done|]. destruct Hd as [[d Hd]|Hd]; [left|by right]. exists d. cbn.
  rewrite lookup_insert_ne; [done|]. apply H2 in Hw. lia.
Qed.

Lemma other_deleted h h' w : other_handle w h -> other_handle (set_sw_tasks (delete h') w) h.
Proof.
  intros [Hlt Hn]. split; [done|]. intros d i. cbn.
  intros [_ E]%lookup_delete_Some. by apply (Hn d i).
Qed.

Lemma deleted_handles h w : handles_ok w -> handles_ok (set_sw_tasks (delete h) w).
Proof.
  intros (H1 & H2 & H3 & H4). split; [|split; [|split]]; cbn.
  - intros h' t [_ E]%lookup_delete_Some. by apply (H1 _ t).
  - done.
  - intros id c E. apply other_deleted, (H3 _ _ E).
  - intros id a h' E Eh. apply other_deleted, (H4 _ _ _ E Eh).
Qed.

Lemma deleted_armed h w : other_handle w h -> head_armed w ->
  head_armed (set_sw_tasks (delete h) w).
Proof.
  intros [_ Hn] HA Hs Ht e Hp. destruct (HA Hs Ht e Hp) as (h' & Hw & Hd).
  exists h'. split; [done|]. destruct Hd as [[d Hd]|Hd]; [left|by right]. exists d. cbn.
  rewrite lookup_delete_ne; [done|]. intros ->. by apply (Hn d e.2).
Qed.

(** ** Rescheduling arms the head, whatever was armed before *)

Lemma handles_wake (o : option nat) w :
  (forall h, o = Some h -> (h < sw_next_task w)%nat) ->
  handles_ok w -> handles_ok (set_sw_actor (with_wake (fun _ => o)) w).
Proof. intros Ho (H1 & H2 & H3 & H4). by split; [|split; [|split]]. Qed.

Lemma abort_wake_handles w : handles_ok w ->
  wp abort_wake (fun r w' => r = Ok tt /\ handles_ok w' /\
    sa_wake_handle (sw_actor w') = None /\ sw_next_task w' = sw_next_task w /\
    sa_self_ref (sw_actor w') = sa_self_ref (sw_actor w) /\
    sa_shutdown_token (sw_actor w') = sa_shutdown_token (sw_actor w)) w.
Proof.
  intros H. unfold abort_wake. apply wp_bind, wp_gets.
  destruct (sa_wake_handle (sw_actor w)) as [h|] eqn:E; [|by apply wp_ret].
  apply wp_bind, wp_modify, wp_modify. split; [done|]. split; [|done].
  by apply deleted_handles, handles_wake.
Qed.

Lemma reschedule_arms w : handles_ok w -> wp reschedule_wake (fun _ w' => wake_ok w') w.
Proof.
  intros H. unfold reschedule_wake. apply wp_bind. eapply wp_mono; [by apply abort_wake_handles|].
  intros r w1 (-> & H1 & Hn & _). apply wp_bind, wp_gets.
  destruct (sa_self_ref (sw_actor w1)) eqn:Es; cbn [negb].
  2: { split; [done|]. intros Hs. congruence. }
  apply wp_bind, wp_gets. destruct (dq_peek (sa_deadline_queue (sw_actor w1))) as [[t id]|] eqn:Ep.
  2: { split; [done|]. intros _ _ e E. congruence. }
  apply wp_bind. unfold now_utc, ask, wp. cbn [fst snd]. apply wp_bind, wp_updating.
  apply wp_modify. split.
  - apply handles_wake; [intros h [= <-]; cbn; lia|]. by apply (spawned_handles _ (set_sw_now S w1)).
  - intros _ _ e E. cbn in E. rewrite Ep in E. injection E as <-.
    eexists; split; [reflexivity|]. left. eexists. cbn. by rewrite lookup_insert_eq.
Qed.

Lemma keeps_reschedule_ok : keeps wake_ok reschedule_wake.
Proof. intros w [H _]. by apply reschedule_arms. Qed.

(** A change of the queue followed by a reschedule. *)
Lemma requeue_arms f w : handles_ok w ->
  wp (upd (with_queue f) ≫= fun _ => reschedule_wake) (fun _ w' => wake_ok w') w.
Proof. intros H. apply wp_bind, wp_modify, reschedule_arms, H. Qed.

Lemma keeps_enqueue s : keeps wake_ok (enqueue_schedule s).
Proof.
  unfold enqueue_schedule. apply keeps_bind; [|eauto with qmt].
  assert (keeps wake_ok
    match sch_next_run_at s with
    | Some next => upd (with_queue (dq_insert next (sch_public_id s))) ≫= fun _ => reschedule_wake
    | None => mret tt
    end) as Hq.
  { destruct (sch_next_run_at s); [|apply keeps_ret]. intros w [H _]. by apply requeue_arms. }
  destruct (sch_trigger s); [done| |done].
  apply keeps_upd. intros w [(H1 & H2 & H3 & H4) HA]. split; [|exact HA].
  split; [done|split; [done|split; [done|]]]. cbn. intros id a h.
  intros [[_ <-]|[_ E]]%lookup_insert_Some; [done|]. apply (H4 _ _ _ E).
Qed.
Local Hint Resolve keeps_enqueue keeps_reschedule_ok : qmt.

(** ** The handlers *)

Lemma keeps_drop_cycle id w : wake_ok w ->
  match sa_active_cycles (sw_actor w) !! id with
  | Some c => wake_ok (set_sw_tasks (delete (ac_timeout_handle c))
                         (set_sw_actor (with_cycles (delete id)) w))
  | None => True
  end.
Proof.
  intros [(H1 & H2 & H3 & H4) HA].
  destruct (sa_active_cycles (sw_actor w) !! id) as [c|] eqn:E; [|done].
  split; [apply deleted_handles|apply deleted_armed; [apply (H3 _ _ E)|exact HA]].
  split; [done|split; [done|split; [|done]]]. cbn.
  intros id' c' [_ E']%lookup_delete_Some. apply (H3 _ _ E').
Qed.

Lemma keeps_end_cycle id : keeps wake_ok (end_active_cycle id).
Proof.
  unfold end_active_cycle. apply keeps_gets_then. intros w Hw.
  pose proof (keeps_drop_cycle id w Hw) as Hd. apply wp_bind.
  destruct (sa_active_cycles (sw_actor w) !! id) as [c|]; [exact Hd|exact Hw].
Qed.

Lemma keeps_complete s : keeps wake_ok (complete_schedule s).
Proof. unfold complete_schedule. keeps_auto. Qed.
Lemma keeps_fail_schedule s : keeps wake_ok (fail_schedule s).
Proof. unfold fail_schedule. keeps_auto. Qed.
Local Hint Resolve keeps_end_cycle keeps_complete keeps_fail_schedule : qmt.

Lemma keeps_completed id t : keeps wake_ok (handle_cycle_completed id t).
Proof. unfold handle_cycle_completed. keeps_auto. Qed.
Lemma keeps_failed id t e : keeps wake_ok (handle_cycle_failed_inner id t e).
Proof. unfold handle_cycle_failed_inner. keeps_auto. Qed.
Local Hint Resolve keeps_completed keeps_failed : qmt.

Lemma keeps_start_cycle id s : keeps wake_ok (start_cycle id s).
Proof.
  unfold start_cycle. apply keeps_gets_then. intros w [HH HA].
  apply wp_bind, wp_updating. apply wp_bind. unfold now_utc at 1, ask, wp at 1. cbn [fst snd].
  set (t := if sa_self_ref (sw_actor w) then _ else _).
  set (w1 := set_sw_now S (set_sw_next S (set_sw_tasks (insert (sw_next_task w) t) w))).
  assert (Ht : forall d i, t <> TkWake d i) by (intros d i; subst t; by destruct (sa_self_ref _)).
  pose proof (spawned_handles t w HH) as HH1. pose proof (spawned_armed t w HH HA) as HA1.
  apply wp_bind, wp_modify.
  match goal with |- wp ?m _ ?w2 => assert (keeps wake_ok m) as Hk by keeps_auto; apply Hk end.
  destruct HH1 as (H1 & H2 & H3 & H4). split; [|exact HA1].
  split; [done|split; [done|split; [|done]]]. cbn. intros id' c.
  intros [[_ <-]|[_ E]]%lookup_insert_Some; [|apply (H3 _ _ E)].
  split; cbn; [lia|]. intros d i. rewrite lookup_insert_eq. intros [= E]. by apply (Ht d i).
Qed.
Local Hint Resolve keeps_start_cycle : qmt.

Lemma keeps_fire id : keeps wake_ok (fire_schedule id).
Proof. unfold fire_schedule. keeps_auto. Qed.
Local Hint Resolve keeps_fire : qmt.

Lemma keeps_add s : keeps wake_ok (handle_add_schedule s).
Proof. unfold handle_add_schedule. keeps_auto. Qed.

Lemma gauge_queues_runs w : handles_ok w ->
  wp gauge_queues (fun r w' => r = Ok tt /\ handles_ok w') w.
Proof. done. Qed.

Lemma counters_ok f w :
  (forall id a h, f (sa_event_counters (sw_actor w)) !! id = Some a ->
     ea_debounce_handle a = Some h -> other_handle w h) ->
  handles_ok w -> handles_ok (set_sw_actor (with_counters f) w).
Proof. intros Hf (H1 & H2 & H3 & H4). by split; [|split; [|split]]. Qed.

Lemma keeps_remove id : keeps wake_ok (handle_remove_schedule id).
Proof.
  unfold handle_remove_schedule. apply keeps_gets_then. intros w [HH HA].
  destruct (bool_decide _).
  { match goal with |- wp ?m _ _ => assert (keeps wake_ok m) as Hk by keeps_auto; by apply Hk end. }
  apply wp_bind, wp_modify, wp_bind, wp_modify. set (w1 := set_sw_actor _ _).
  assert (handles_ok w1) as H1.
  { apply counters_ok; [|exact HH]. cbn. intros id' a h [_ E]%lookup_delete_Some.
    destruct HH as (_ & _ & _ & H4). apply (H4 _ _ _ E). }
  apply wp_bind. eapply wp_mono; [by apply gauge_queues_runs|]. intros r w2 [-> H2].
  apply wp_bind. eapply wp_mono; [by apply reschedule_arms|].
  intros [[]|e] w3 H3; [|done].
  match goal with |- wp ?m _ _ => assert (keeps wake_ok m) as Hk by keeps_auto; by apply Hk end.
Qed.
Local Hint Resolve keeps_add keeps_remove : qmt.

(** Resetting an accumulator aborts its debounce task, which is not the wake. *)
Definition acc_safe (a : EventAccumulator) (w : SchedWorld) : Prop :=
  forall h, ea_debounce_handle a = Some h -> other_handle w h.

Lemma counter_safe id a w :
  handles_ok w -> sa_event_counters (sw_actor w) !! id = Some a -> acc_safe a w.
Proof. intros (_ & _ & _ & H4) E h Eh. apply (H4 _ _ _ E Eh). Qed.

Lemma set_counter_handles id a w :
  acc_safe a w -> handles_ok w -> handles_ok (set_sw_actor (with_counters (insert id a)) w).
Proof.
  intros Ha HH. apply counters_ok; [|exact HH]. intros id' a' h.
  intros [[_ <-]|[_ E]]%lookup_insert_Some Eh; [by apply Ha|].
  destruct HH as (_ & _ & _ & H4). apply (H4 _ _ _ E Eh).
Qed.

Lemma set_counter_ok id a w :
  acc_safe a w -> wake_ok w -> wake_ok (set_sw_actor (with_counters (insert id a)) w).
Proof. intros Ha [HH HA]. split; [by apply set_counter_handles|exact HA]. Qed.

Lemma reset_handles id w : handles_ok w ->
  wp (reset_accumulator id) (fun r w' => r = Ok tt /\ handles_ok w' /\
    (head_armed w -> head_armed w')) w.
Proof.
  intros HH. unfold reset_accumulator. apply wp_bind, wp_gets.
  destruct (sa_event_counters (sw_actor w) !! id) as [a|] eqn:E; [|by apply wp_ret].
  cbn [acc_reset]. apply wp_bind, wp_modify.
  set (a' := {| ea_count := 0 |}). set (w1 := set_sw_actor _ w).
  assert (handles_ok w1) as H1 by (apply set_counter_handles; [intros h [=]|exact HH]).
  pose proof (counter_safe _ _ _ HH E) as Hs. unfold acc_safe in Hs.
  destruct (ea_debounce_handle a) as [h|]; cbn [abort_opt].
  - apply wp_modify. split; [done|]. split; [by apply deleted_handles|].
    intros HA. apply deleted_armed; [by apply Hs|exact HA].
  - by apply wp_ret.
Qed.

Lemma keeps_reset id : keeps wake_ok (reset_accumulator id).
Proof.
  intros w [HH HA]. eapply wp_mono; [by apply reset_handles|].
  intros r w' (_ & HH' & HA'). split; auto.
Qed.
Local Hint Resolve keeps_reset : qmt.

Lemma keeps_pause id : keeps wake_ok (handle_pause_schedule id).
Proof.
  unfold handle_pause_schedule. apply keeps_bind; [eauto with qmt|]. intros r.
  apply keeps_bind; [keeps_auto|]. intros [|]; cbn [negb]; [|apply keeps_ret].
  intros w [HH HA]. apply wp_bind, wp_modify, wp_bind.
  eapply wp_mono; [by apply reset_handles|]. intros r1 w1 (-> & H1 & _).
  apply wp_bind. eapply wp_mono; [by apply reschedule_arms|].
  intros [[]|e] w2 H2; exact H2.
Qed.

Lemma keeps_resume id : keeps wake_ok (handle_resume_schedule id).
Proof. unfold handle_resume_schedule. keeps_auto. Qed.

Lemma start_debounce_ok id a secs w : acc_safe a w -> wake_ok w ->
  wp (start_debounce id a secs) (fun _ w' => wake_ok w') w.
Proof.
  intros Ha Hw. unfold start_debounce. apply wp_bind. unfold now_utc, ask, wp at 1. cbn [fst snd].
  apply wp_bind. unfold dt_add_or_panic. destruct (dt_add _ _) as [until|]; [|exact Hw].
  apply wp_ret. apply wp_bind, wp_gets. cbn [set_sw_now sw_actor].
  destruct (sa_self_ref (sw_actor w)).
  - apply wp_bind, wp_updating, wp_modify. destruct Hw as [HH HA].
    apply set_counter_ok.
    + intros h [= <-]. split; cbn; [lia|]. intros d i. by rewrite lookup_insert_eq.
    + split; [by apply (spawned_handles _ (set_sw_now S w))|].
      by apply (spawned_armed _ (set_sw_now S w)).
  - apply wp_modify. by apply set_counter_ok.
Qed.

Lemma keeps_event_received id : keeps wake_ok (handle_event_received id).
Proof.
  unfold handle_event_received. apply keeps_gets_then. intros w Hw.
  destruct (sa_event_counters (sw_actor w) !! id) as [a|] eqn:E; [|exact Hw].
  pose proof (counter_safe _ _ _ (proj1 Hw) E) as Ha.
  cbn [acc_increment]. set (a1 := {| ea_count := u32_add (ea_count a) 1 |}).
  apply wp_bind, wp_modify.
  assert (wake_ok (set_sw_actor (with_counters (insert id a1)) w)) as H1 by by apply set_counter_ok.
  assert (acc_safe a1 (set_sw_actor (with_counters (insert id a1)) w)) as Ha1 by exact Ha.
  revert H1 Ha1. generalize (set_sw_actor (with_counters (insert id a1)) w). clear w Hw E Ha.
  intros w Hw Ha. destruct (acc_threshold_met a1); cbn [negb]; [|exact Hw].
  set (I := fun w => wake_ok w /\ acc_safe a1 w).
  assert (Hk : forall B (m : X B), keeps I m -> keeps I m) by auto.
  apply wp_bind. eapply wp_mono.
  { assert (keeps I match ea_debounce_until a1 with
                    | Some until => now ← now_utc; mret (now <? until)
                    | None => mret false end) as K by keeps_auto.
    by apply K. }
  intros [[|]|e] w1 [Hw1 Ha1]; [exact Hw1| |exact Hw1].
  apply wp_bind. eapply wp_mono.
  { assert (keeps I (query (get_schedule id))) as K by keeps_auto. by apply K. }
  intros [[[s|]|e]|e] w2 [Hw2 Ha2]; try exact Hw2.
  destruct (sch_trigger s); try exact Hw2.
  destruct (_ <? _); [by apply start_debounce_ok|].
  match goal with |- wp ?m _ _ => assert (keeps wake_ok m) as K by keeps_auto; by apply K end.
Qed.

Lemma keeps_debounce id : keeps wake_ok (handle_debounce_completed id).
Proof.
  unfold handle_debounce_completed. apply keeps_gets_then. intros w Hw.
  destruct (sa_event_counters (sw_actor w) !! id) as [a|] eqn:E; [|exact Hw].
  destruct (acc_threshold_met a).
  - match goal with |- wp ?m _ _ => assert (keeps wake_ok m) as K by keeps_auto; by apply K end.
  - apply wp_modify, set_counter_ok; [|exact Hw]. apply (counter_safe _ _ _ (proj1 Hw) E).
Qed.
Local Hint Resolve keeps_pause keeps_resume keeps_event_received keeps_debounce : qmt.

(** A deadline's message is consumed, and the next head is armed. *)
Lemma deadline_arms id w : handles_ok w ->
  wp (handle_deadline_reached id) (fun _ w' => wake_ok w') w.
Proof.
  intros HH. unfold handle_deadline_reached. apply wp_bind, wp_modify, wp_bind.
  eapply wp_mono; [by apply reschedule_arms|].
  intros [[]|e] w1 H1; [by apply keeps_fire|done].
Qed.

Lemma keeps_trigger id : keeps wake_ok (handle_trigger_now id).
Proof. intros w [HH _]. by apply (deadline_arms id). Qed.

Lemma keeps_reconcile : keeps wake_ok reconcile.
Proof. unfold reconcile, recover_one, fire_overdue. keeps_auto. Qed.

Lemma keeps_process_event e : keeps wake_ok (process_event e).
Proof. unfold process_event, offer_event. keeps_auto. Qed.

Lemma keeps_initialize : keeps wake_ok initialize.
Proof. unfold initialize, recover_stale_running, rebuild_queues. keeps_auto. Qed.

Lemma keeps_shutdown : keeps wake_ok handle_shutdown.
Proof.
  unfold handle_shutdown. apply keeps_bind; [|keeps_auto].
  unfold abort_background_tasks. intros w [HH HA]. apply wp_bind, wp_modify.
  eapply wp_mono; [by apply abort_wake_handles|].
  intros r w' (_ & HH' & _ & _ & _ & Ht). split; [done|]. intros _ Hf. cbn in Ht. congruence.
Qed.

Lemma set_self_ref_arms w : handles_ok w ->
  wp handle_set_self_ref (fun _ w' => wake_ok w') w.
Proof. intros HH. unfold handle_set_self_ref. by apply wp_bind, wp_modify, reschedule_arms. Qed.

Local Hint Resolve keeps_trigger keeps_reconcile keeps_process_event keeps_shutdown : qmt.

(** Taking a message out of the mailbox, unless it is the wake's. *)
Lemma popped_ok m rest w :
  wake_ok w -> sw_mailbox w = m :: rest -> (forall id, m <> DeadlineReached id) ->
  wake_ok (set_sw_mailbox (fun _ => rest) w).
Proof.
  intros [HH HA] Em Hm. split; [exact HH|]. intros Hs Ht e Hp.
  destruct (HA Hs Ht e Hp) as (h & Hw & [Hd|Hd]); exists h; (split; [done|]); [by left|right].
  rewrite Em in Hd. destruct Hd as [Hd|Hd]; [by apply Hm in Hd|exact Hd].
Qed.

Lemma handle_message_ok m rest w :
  wake_ok w -> sw_mailbox w = m :: rest ->
  wp (handle_message m) (fun _ w' => wake_ok w') (set_sw_mailbox (fun _ => rest) w).
Proof.
  intros Hw Em.
  destruct m; cbn [handle_message];
    try (match goal with |- wp ?p _ _ =>
           assert (keeps wake_ok p) as K by (unfold silent, handle_list_schedules,
             handle_get_schedule; keeps_auto)
         end; apply K, (popped_ok _ _ _ Hw Em); congruence).
  - apply wp_bind. eapply wp_mono; [apply deadline_arms, (proj1 Hw)|].
    intros [[]|e] w' H'; exact H'.
  - apply wp_bind. eapply wp_mono; [apply set_self_ref_arms, (proj1 Hw)|].
    intros [[]|e] w' H'; exact H'.
Qed.

Lemma timer_ok h t w :
  wake_ok w -> sw_tasks w !! h = Some t -> wake_ok (fire_task h t w).
Proof.
  intros [HH HA] Et. split; [by apply (deleted_handles h)|]. intros Hs Ht e Hp.
  destruct (HA Hs Ht e Hp) as (h' & Hw & Hd). exists h'. split; [done|]. cbn.
  destruct Hd as [[d Hd]|Hd]; [|right; apply in_or_app; by left].
  destruct (decide (h' = h)) as [->|Hne].
  - right. apply in_or_app. right. rewrite Hd in Et. injection Et as <-. by left.
  - left. exists d. by rewrite lookup_delete_ne.
Qed.

Lemma sent_ok l w : wake_ok w -> wake_ok (set_sw_mailbox (fun m => m ++ l) w).
Proof.
  intros [HH HA]. split; [exact HH|]. intros Hs Ht e Hp.
  destruct (HA Hs Ht e Hp) as (h & Hw & [Hd|Hd]); exists h; (split; [done|]); [by left|right].
  apply in_or_app. by left.
Qed.

Lemma step_wake_ok w w' : wake_ok w -> sched_step w w' -> wake_ok w'.
Proof.
  intros Hw Hs. destruct Hs as [m w|h t w Et|m rest w _ Em|w _|db w].
  - by apply sent_ok.
  - by apply timer_ok.
  - unfold process_head. pose proof (handle_message_ok m rest w Hw Em) as H. unfold wp in H.
    destruct (handle_message m _) as [[a|e] w']; exact H.
  - assert (forall w, wake_ok w -> wake_ok (lease_renewal_tick w).2) as K; [|by apply K].
    assert (keeps wake_ok lease_renewal_tick) as K.
    { unfold lease_renewal_tick. repeat (apply keeps_bind; [eauto with qmt|intros ?]).
      destruct a1 as [[|]|]; try apply keeps_ret. apply keeps_modify. intros w0. apply sent_ok. }
    clear Hw w. intros w Hw. specialize (K w Hw). unfold wp in K.
    by destruct (lease_renewal_tick w).
  - exact Hw.
Qed.

Lemma new_wake_ok owner config db : wake_ok (world_new owner config db).
Proof.
  split; [|intros [=]]. split; [|split; [|split]]; cbn; [|done|..].
  - intros h t E. by rewrite lookup_empty in E.
  - intros id c E. by rewrite lookup_empty in E.
  - intros id a h E. by rewrite lookup_empty in E.
Qed.

Lemma spawned_wake_ok owner config db w :
  spawn_scheduler owner config db = Some w -> wake_ok w.
Proof.
  unfold spawn_scheduler. pose proof (keeps_initialize _ (new_wake_ok owner config db)) as K.
  unfold wp in K. destruct (initialize _) as [[[|]|e] w0]; try done. intros [= <-]. by apply sent_ok.
Qed.

End wake.
