(* ===== verification/SchedStates.v ===== *)
(** What the scheduler's handlers write to the schedule table: the rows a
    completed and a failed cycle leave, the changes each message may make to a
    schedule's row ([message_changes]), and the proof that the handlers make
    no other ([handler_changes]). *)
From S2P Require Import Prelude Numbers Json Chat Domain Events ScheduleDomain ScheduleRepo.
From S2P Require Import SchedWorld Scheduler.

Local Open Scope Z_scope.

Section states.
Context {J : Json} {F : Rfc3339} {SE : SchedEnv}.

Definition on_db (P : ScheduleDb -> Prop) (w : SchedWorld) : Prop := P (sw_db w).

(** ** Operations that leave the database alone *)

Ltac same := let w := fresh "w" in let H := fresh in intros w H; exact H.
Ltac keeps_prim :=
  lazymatch goal with
  | |- keeps _ (upd _) => apply keeps_upd; same
  | |- keeps _ (modify _) => apply keeps_modify; same
  | |- keeps _ (updating _) => apply keeps_updating; same
  | |- keeps _ (spawn _) => apply keeps_updating; same
  | |- keeps _ (abort_task _) => apply keeps_modify; same
  | |- keeps _ (bump _) => apply keeps_upd; same
  | |- keeps _ (gauge _ _) => apply keeps_upd; same
  | |- keeps _ (emit_schedule_event _ _) => apply keeps_modify; same
  | |- keeps _ (ask _) => apply keeps_sched_ask; same
  | |- keeps _ now_utc => apply keeps_sched_ask; same
  | |- keeps _ (query _) => apply keeps_sched_store; same
  | |- keeps _ (actor _) => apply keeps_gets
  end.
Local Hint Extern 2 (keeps _ _) => keeps_prim : qmt.

(** What the operations below leave alone: the database, the pending deletes
    and the prompts delivered. *)
Definition on_view (P : ScheduleDb * gset string * list (string * ScheduledPrompt) -> Prop)
  (w : SchedWorld) : Prop := P (sw_db w, sa_pending_deletes (sw_actor w), sw_prompts w).

Section view.
Variable P : ScheduleDb * gset string * list (string * ScheduledPrompt) -> Prop.

Lemma view_reschedule : keeps (on_view P) reschedule_wake.
Proof. unfold reschedule_wake, abort_wake. keeps_auto. Qed.
Hint Resolve view_reschedule : qmt.
Lemma view_abort_opt h : keeps (on_view P) (abort_opt h).
Proof. destruct h; cbn; keeps_auto. Qed.
Hint Resolve view_abort_opt : qmt.
Lemma view_gauges : keeps (on_view P) gauge_queues.
Proof. unfold gauge_queues. keeps_auto. Qed.
Hint Resolve view_gauges : qmt.
Lemma view_enqueue s : keeps (on_view P) (enqueue_schedule s).
Proof. unfold enqueue_schedule. keeps_auto. Qed.
Lemma view_end_cycle id : keeps (on_view P) (end_active_cycle id).
Proof. unfold end_active_cycle. keeps_auto. Qed.
Lemma view_mark k : keeps (on_view P) (mark_terminal k).
Proof. unfold mark_terminal. keeps_auto. Qed.
Lemma view_start_cycle id s : keeps (on_view P) (start_cycle id s).
Proof. unfold start_cycle. keeps_auto. Qed.
Lemma view_reset id : keeps (on_view P) (reset_accumulator id).
Proof. unfold reset_accumulator. keeps_auto. Qed.
Lemma view_set_acc id a : keeps (on_view P) (set_accumulator id a).
Proof. unfold set_accumulator. keeps_auto. Qed.
Hint Resolve view_set_acc : qmt.
Lemma view_debounce id a s : keeps (on_view P) (start_debounce id a s).
Proof. unfold start_debounce. keeps_auto. Qed.
End view.

Section neutral.
Variable P : ScheduleDb -> Prop.

Lemma db_reschedule : keeps (on_db P) reschedule_wake.
Proof. apply (view_reschedule (fun v => P v.1.1)). Qed.
Lemma db_gauges : keeps (on_db P) gauge_queues.
Proof. apply (view_gauges (fun v => P v.1.1)). Qed.
Lemma db_enqueue s : keeps (on_db P) (enqueue_schedule s).
Proof. apply (view_enqueue (fun v => P v.1.1)). Qed.
Lemma db_end_cycle id : keeps (on_db P) (end_active_cycle id).
Proof. apply (view_end_cycle (fun v => P v.1.1)). Qed.
Lemma db_mark k : keeps (on_db P) (mark_terminal k).
Proof. apply (view_mark (fun v => P v.1.1)). Qed.
Lemma db_start_cycle id s : keeps (on_db P) (start_cycle id s).
Proof. apply (view_start_cycle (fun v => P v.1.1)). Qed.
Lemma db_reset id : keeps (on_db P) (reset_accumulator id).
Proof. apply (view_reset (fun v => P v.1.1)). Qed.
Lemma db_set_acc id a : keeps (on_db P) (set_accumulator id a).
Proof. apply (view_set_acc (fun v => P v.1.1)). Qed.
Lemma db_debounce id a s : keeps (on_db P) (start_debounce id a s).
Proof. apply (view_debounce (fun v => P v.1.1)). Qed.
End neutral.

Local Hint Resolve view_reschedule view_gauges view_enqueue view_end_cycle view_mark
  view_start_cycle view_reset view_set_acc view_debounce : qmt.
Local Hint Resolve db_reschedule db_gauges db_enqueue db_end_cycle db_mark db_start_cycle
  db_reset db_set_acc db_debounce : qmt.

(** ** The rows that end a cycle *)

(** The next run of a schedule re-armed after a completed cycle, by the clock's
    [n]-th reading: the jittered interval from then on. *)
Definition next_after (n : nat) (s : Schedule) (next : option Z) : Prop :=
  match sch_trigger s with
  | Interval seconds => exists t,
      compute_next_run_at seconds (sc_jitter_percent (sch_config s)) (se_now n) = Some t /\
      next = Some t
  | _ => next = sch_next_run_at s
  end.

(** The row a completed cycle leaves, when the clock is read from its [n]-th
    reading on. *)
Definition completed_row (n : nat) (s row : Schedule) : Prop :=
  let runs := u32_add (sch_run_count s) 1 in
  if is_exhausted s runs
  then row = with_run Exhausted (Some (se_now n)) None runs 0 (se_now (1 + n)) s
  else exists next, next_after (2 + n) s next /\
       row = with_run Armed (Some (se_now n)) next runs 0 (se_now (1 + n)) s.

(** The row a failed cycle leaves. *)
Definition failed_row (n : nat) (s row : Schedule) : Prop :=
  let failures := u32_add (sch_consecutive_failures s) 1 in
  if sc_max_consecutive_failures (sch_config s) <=? failures
  then row = with_run Failed (Some (se_now n)) None (sch_run_count s) failures (se_now (1 + n)) s
  else exists backoff next,
    compute_backoff (sc_backoff_base_seconds (sch_config s)) failures
      (sc_jitter_percent (sch_config s)) (se_now (2 + n)) = Some backoff /\
    dt_add (se_now (3 + n)) backoff = Some next /\
    row = with_run Armed (Some (se_now n)) (Some next) (sch_run_count s) failures
            (se_now (1 + n)) s.

(** ** What a message may do to a row *)

(** From armed to running; when the prompt could not be delivered, a failed
    cycle of the running schedule. *)
Definition fires (s r : Schedule) : Prop :=
  sch_state s = Armed /\ exists n,
    let running := set_row_state Running (se_now n) s in
    r = running \/ exists n', failed_row n' running r.

Definition pauses (s r : Schedule) : Prop :=
  (sch_state s = Armed \/ sch_state s = Running) /\
  exists n, r = set_row_state Paused (se_now n) s.

(** From paused to armed, a recurring schedule with a new next run. *)
Definition resumes (s r : Schedule) : Prop :=
  sch_state s = Paused /\ exists n,
    let armed := set_row_state Armed (se_now n) s in
    r = armed \/ exists seconds n' t,
      sch_trigger s = Interval seconds /\
      compute_next_run_at seconds (sc_jitter_percent (sch_config s)) (se_now n') = Some t /\
      r = with_run Armed (sch_last_run_at s) (Some t) (sch_run_count s)
            (sch_consecutive_failures s) (se_now (1 + n')) armed.

Definition completes (s r : Schedule) : Prop := exists n, completed_row n s r.
Definition fails (s r : Schedule) : Prop := exists n, failed_row n s r.

(** An event of this kind and session that the schedule waits for. *)
Definition awaits (e : EventEnvelope) (s : Schedule) : Prop :=
  exists event_filter debounce, sch_trigger s = EventDriven event_filter debounce /\
    filter_matches event_filter (event_kind_name (env_kind e)) (env_session_id e) = true.

(** What becomes of each schedule's row, by public id. *)
Definition RowRel : Type := string -> Schedule -> Schedule -> Prop.

Definition nothing : RowRel := fun _ s r => s = r.
Definition maybe (id : string) (R : Schedule -> Schedule -> Prop) : RowRel :=
  fun id' s r => s = r \/ id' = id /\ R s r.

Definition surely (id : string) (R : Schedule -> Schedule -> Prop) : RowRel :=
  fun id' s r => id' <> id /\ s = r \/ id' = id /\ R s r.

(** A sweep: a running schedule may be failed, then an armed one fired. *)
Definition sweeps : RowRel := fun _ s r =>
  exists t, (s = t \/ sch_state s = Running /\ fails s t) /\ (t = r \/ fires t r).

Definition message_changes (m : SchedulerMsg) : RowRel :=
  match m with
  | DeadlineReached id | TriggerNow id | DebounceCompleted id => maybe id fires
  | CycleCompleted id _ => maybe id completes
  | CycleFailed id _ _ => maybe id fails
  | PauseSchedule id => maybe id pauses
  | ResumeSchedule id => maybe id resumes
  | ProcessEvent e =>
      match env_kind e with
      | ScheduledExecutionCompleted id _ => maybe id completes
      | ScheduledExecutionFailed id _ _ => maybe id fails
      | ScheduleDebounceCompleted _ => nothing
      | _ => fun _ s r => s = r \/ awaits e s /\ fires s r
      end
  | Reconcile => sweeps
  | _ => nothing
  end.

(** Every row there is now was there before, and [R] relates the two. *)
Definition changed (R : RowRel) (db0 db : ScheduleDb) : Prop :=
  unique_ids db /\
  forall id r, get_schedule id db = Some r ->
    exists s, get_schedule id db0 = Some s /\ R id s r.

Lemma changed_mono (R R' : RowRel) db0 db :
  (forall id s r, R id s r -> R' id s r) -> changed R db0 db -> changed R' db0 db.
Proof. intros H [Hu Hc]. split; [done|]. intros id r Hr. edestruct Hc as (s & ? & ?); eauto. Qed.

Lemma changed_comp (R1 R2 R : RowRel) db0 db1 db2 :
  changed R1 db0 db1 -> changed R2 db1 db2 ->
  (forall id s t r, R1 id s t -> R2 id t r -> R id s r) -> changed R db0 db2.
Proof.
  intros [_ H1] [Hu H2] HR. split; [done|]. intros id r Hr.
  destruct (H2 id r Hr) as (t & Ht & H2'). destruct (H1 id t Ht) as (s & Hs & H1'). eauto.
Qed.

Lemma changed_same (R : RowRel) db0 db :
  (forall id s, R id s s) -> unique_ids db ->
  (forall id, get_schedule id db = get_schedule id db0) -> changed R db0 db.
Proof. intros HR Hu Hg. split; [done|]. intros id r. rewrite Hg. eauto. Qed.

(** A computation changes the rows of the table only by [R]. *)
Definition does {A} (R : RowRel) (m : X A) : Prop :=
  forall w, unique_ids (sw_db w) -> wp m (fun _ w' => changed R (sw_db w) (sw_db w')) w.

Definition reflexive_rel (R : RowRel) : Prop := forall id s, R id s s.

Lemma nothing_refl : reflexive_rel nothing.
Proof. done. Qed.
Lemma maybe_refl id R : reflexive_rel (maybe id R).
Proof. by left. Qed.
Hint Resolve nothing_refl maybe_refl : qmt.

Lemma does_mono {A} (R R' : RowRel) (m : X A) :
  (forall id s r, R id s r -> R' id s r) -> does R m -> does R' m.
Proof. intros H Hm w Hu. eapply wp_mono; [by apply Hm|]. intros r w'. by apply changed_mono. Qed.

Lemma does_quiet {A} (R : RowRel) (m : X A) :
  reflexive_rel R -> (forall P, keeps (on_db P) m) -> does R m.
Proof.
  intros HR Hm w Hu. eapply wp_mono; [by apply (Hm (eq (sw_db w)) w)|].
  unfold on_db. intros r w' <-. by apply changed_same.
Qed.

Lemma does_comp {A B} (R1 R2 R : RowRel) (m : X A) (k : A -> X B) :
  does R1 m -> (forall a, does R2 (k a)) ->
  (forall id s r, R1 id s r -> R id s r) ->
  (forall id s t r, R1 id s t -> R2 id t r -> R id s r) -> does R (m ≫= k).
Proof.
  intros Hm Hk H1 H2 w Hu. apply wp_bind. eapply wp_mono; [by apply Hm|].
  intros [a|e] w1 Hw1; [|by eapply changed_mono].
  eapply wp_mono; [by apply Hk, Hw1|]. intros r w2 Hw2. exact (changed_comp R1 R2 R _ _ _ Hw1 Hw2 H2).
Qed.

Lemma does_then {A B} (R : RowRel) (m : X A) (k : A -> X B) :
  does R m -> (forall a, does nothing (k a)) -> does R (m ≫= k).
Proof. intros Hm Hk. eapply does_comp; [done..|]. by intros id s t r H <-. Qed.

Lemma does_after {A B} (R : RowRel) (m : X A) (k : A -> X B) :
  reflexive_rel R -> does nothing m -> (forall a, does R (k a)) -> does R (m ≫= k).
Proof.
  intros HR Hm Hk. eapply does_comp; [done..| |]; [by intros id s r <-|by intros id s t r <-].
Qed.

Lemma does_ask {A B} (R : RowRel) (f : nat -> A) (k : A -> X B) :
  (forall n, does R (k (f n))) -> does R (ask f ≫= k).
Proof. intros Hk w Hu. apply wp_bind. by apply (Hk (sw_now w) (set_sw_now S w)). Qed.

(** A query: the answer is that of the table as it is. *)
Lemma does_query {A B} (R : RowRel) (f : ScheduleDb -> A) (k : result SessionError A -> X B) :
  (forall w, unique_ids (sw_db w) ->
     wp (k (Ok (f (sw_db w)))) (fun _ w' => changed R (sw_db w) (sw_db w')) w) ->
  (forall e, does R (k (Err e))) -> does R (query f ≫= k).
Proof.
  intros Hk He w Hu. apply wp_bind. unfold query, store, wp at 1.
  destruct (se_store_error (sw_now w)) as [e|]; [by apply (He e (set_sw_now S w))|].
  by apply (Hk (set_sw_db (fun _ => sw_db w) (set_sw_now S w))).
Qed.

Lemma does_query_get {B} (R : RowRel) id (k : result SessionError (option Schedule) -> X B) :
  (forall s w, unique_ids (sw_db w) -> get_schedule id (sw_db w) = Some s ->
     wp (k (Ok (Some s))) (fun _ w' => changed R (sw_db w) (sw_db w')) w) ->
  does R (k (Ok None)) -> (forall e, does R (k (Err e))) ->
  does R (query (get_schedule id) ≫= k).
Proof.
  intros Hs Hn. apply does_query. intros w Hu.
  destruct (get_schedule id (sw_db w)) as [s|] eqn:E; [by apply Hs|by apply Hn].
Qed.

(** ** Writes to the table *)

Lemma wp_now {B} (k : Z -> X B) (Q : result string B -> SchedWorld -> Prop) w :
  wp (k (se_now (sw_now w))) Q (set_sw_now S w) -> wp (now_utc ≫= k) Q w.
Proof. intros H. apply wp_bind. exact H. Qed.

Lemma write_row_changes (R : Schedule -> Schedule -> Prop) s new w :
  unique_ids (sw_db w) -> get_schedule (sch_public_id s) (sw_db w) = Some s ->
  sch_public_id new = sch_public_id s -> R s (update_columns new s) ->
  wp (store_update new) (fun _ w' => changed (maybe (sch_public_id s) R) (sw_db w) (sw_db w')) w.
Proof.
  intros Hu Hg Hid HR. unfold store_update. apply wp_bind. unfold store, wp at 1.
  destruct (se_store_error (sw_now w)) as [e|].
  { by apply wp_ret, changed_same; [apply maybe_refl| |]. }
  cbn [set_sw_now sw_db]. pose proof (update_schedule_get new (sw_db w)) as H.
  rewrite Hid, Hg in H. destruct H as (db' & -> & Hg' & Ho & Hids & _).
  apply wp_ret. cbn. split; [unfold unique_ids; by rewrite Hids|].
  intros id r Hr. destruct (decide (id = sch_public_id s)) as [->|Hne].
  - exists s. split; [done|]. right. split; [done|]. congruence.
  - rewrite Ho in Hr by done. exists r. split; [done|by left].
Qed.

Lemma find_filter_out id (p : Schedule -> bool) rows s :
  NoDup (map sch_public_id rows) ->
  List.find (has_public_id id) (List.filter p rows) = Some s ->
  List.find (has_public_id id) rows = Some s.
Proof.
  induction rows as [|x l IH]; [done|]. cbn [map List.filter List.find].
  intros [Hx Hl]%NoDup_cons. destruct (p x).
  - cbn [List.find]. destruct (has_public_id id x); [done|]. by apply IH.
  - intros Hs. destruct (has_public_id id x) eqn:E; [|by apply IH].
    exfalso. apply Hx. apply has_public_id_spec in E as ->.
    apply List.find_some in Hs as [[Hin _]%List.filter_In <-%has_public_id_spec].
    by apply list_elem_of_In, in_map.
Qed.

Lemma filter_ids_NoDup (p : Schedule -> bool) rows :
  NoDup (map sch_public_id rows) -> NoDup (map sch_public_id (List.filter p rows)).
Proof.
  induction rows as [|x l IH]; [done|]. cbn [map List.filter]. intros [Hx Hl]%NoDup_cons.
  destruct (p x); [|by apply IH]. cbn [map]. apply NoDup_cons. split; [|by apply IH].
  intros Hin. apply Hx. apply list_elem_of_In, in_map_iff in Hin as (y & <- & Hy).
  apply List.filter_In in Hy as [Hy _]. by apply list_elem_of_In, in_map.
Qed.

Lemma does_store {A} (R : RowRel) (f : ScheduleDb -> result SessionError A * ScheduleDb) :
  reflexive_rel R ->
  (forall db, unique_ids db -> changed R db (f db).2) -> does R (store f).
Proof.
  intros HR Hf w Hu. unfold store, wp. destruct (se_store_error (sw_now w)).
  - by apply changed_same.
  - specialize (Hf _ Hu). cbn [set_sw_now sw_db]. by destruct (f (sw_db w)).
Qed.

Lemma does_delete id : does nothing (store (delete_schedule id)).
Proof.
  apply does_store; [done|]. intros db Hu. unfold delete_schedule.
  case_match; cbn; [by apply changed_same|]. split; [by apply filter_ids_NoDup|].
  intros id' r Hr. exists r. split; [|done]. exact (find_filter_out id' _ _ r Hu Hr).
Qed.

Lemma does_pending_delete id : does nothing (handle_pending_delete id).
Proof.
  unfold handle_pending_delete. apply does_after; [done|apply does_quiet; [done|keeps_auto]|].
  intros [|]; [|apply does_quiet; [done|keeps_auto]].
  apply does_after; [done|apply does_quiet; [done|keeps_auto]|]. intros _.
  apply does_then; [apply does_delete|]. intros _. apply does_quiet; [done|keeps_auto].
Qed.

(** The compare-and-swap. *)
Definition moved (from to : ScheduleState) (s r : Schedule) : Prop :=
  sch_state s = from /\ exists n, r = set_row_state to (se_now n) s.

Lemma cas_wp id from to w : unique_ids (sw_db w) ->
  wp (store_state id from to) (fun r w' =>
    match r with
    | Ok (Ok true) => row_state id (sw_db w) = Some from /\
        row_state id (sw_db w') = Some to /\
        changed (surely id (moved from to)) (sw_db w) (sw_db w')
    | _ => changed nothing (sw_db w) (sw_db w')
    end) w.
Proof.
  intros Hu. unfold store_state. apply wp_now.
  unfold store, wp. cbn [set_sw_now sw_now sw_db].
  destruct (se_store_error _); [by apply changed_same|].
  pose proof (cas_get (se_now (sw_now w)) id from to (sw_db w) Hu) as Hc. cbn zeta in Hc.
  destruct (update_schedule_state _ _ _ _ _) as [ok db'] eqn:E. cbn [fst snd] in Hc.
  destruct Hc as (Hok & Hu' & _ & Ho & Hg). cbn [set_sw_db sw_db].
  destruct ok.
  - symmetry in Hok. apply bool_decide_eq_true in Hok. split; [done|].
    unfold row_state in *. destruct (get_schedule id (sw_db w)) as [s|] eqn:Es; [|done].
    injection Hok as Hok. split; [by rewrite Hg|]. split; [done|]. intros id' r Hr.
    destruct (decide (id' = id)) as [->|Hne].
    + exists s. split; [done|]. right. split; [done|]. split; [done|].
      rewrite Hg in Hr. injection Hr as <-. eauto.
    + rewrite Ho in Hr by done. exists r. split; [done|]. by left.
  - apply changed_same; [done..|]. intros id'.
    destruct (decide (id' = id)) as [->|]; [done|by apply Ho].
Qed.

Lemma write_then_quiet {A} (m : X A) (R : Schedule -> Schedule -> Prop) s new db0 w :
  sw_db w = db0 -> unique_ids db0 -> get_schedule (sch_public_id s) db0 = Some s ->
  sch_public_id new = sch_public_id s -> R s (update_columns new s) ->
  (forall P, keeps (on_db P) m) ->
  wp (store_update new ≫= fun _ => m)
     (fun _ w' => changed (maybe (sch_public_id s) R) db0 (sw_db w')) w.
Proof.
  intros <- Hu Hg Hid HR Hm. apply wp_bind. eapply wp_mono; [by apply (write_row_changes R s)|].
  intros [r|e] w1 H1; [|done].
  exact (Hm (changed (maybe (sch_public_id s) R) (sw_db w)) w1 H1).
Qed.

(** ** The end of a cycle *)

Lemma complete_changes s w :
  unique_ids (sw_db w) -> get_schedule (sch_public_id s) (sw_db w) = Some s ->
  wp (complete_schedule s)
     (fun _ w' => changed (maybe (sch_public_id s) completes) (sw_db w) (sw_db w')) w.
Proof.
  intros Hu Hg. unfold complete_schedule. apply wp_now, wp_now. cbn [set_sw_now sw_now].
  assert (Hend : forall row, completed_row (sw_now w) s row ->
            update_columns row s = row -> completes s (update_columns row s)).
  { intros row H ->. by exists (sw_now w). }
  unfold completed_row in Hend. destruct (is_exhausted s _).
  { apply write_then_quiet; [done..| |keeps_auto]. by apply Hend. }
  assert (Hrest : forall next w1, sw_db w1 = sw_db w -> next_after (2 + sw_now w) s next ->
    let row := with_run Armed (Some (se_now (sw_now w))) next (u32_add (sch_run_count s) 1) 0
                 (se_now (S (sw_now w))) s in
    wp (store_update row ≫= fun _ => enqueue_schedule row)
       (fun _ w' => changed (maybe (sch_public_id s) completes) (sw_db w) (sw_db w')) w1).
  { intros next w1 E Hn row.
    apply write_then_quiet; [done..| |intros; apply db_enqueue]. apply Hend; [by exists next|done]. }
  unfold next_after in Hrest. destruct (sch_trigger s) as [seconds|f d|at_];
    [|by apply wp_bind, wp_ret, Hrest..].
  apply wp_bind, wp_now. cbn [set_sw_now sw_now].
  destruct (compute_next_run_at _ _ _) as [t|] eqn:Et.
  - apply wp_bind, wp_ret, wp_ret, Hrest; [done|]. by exists t.
  - by apply changed_same; [apply maybe_refl| |].
Qed.

Lemma fail_changes s w :
  unique_ids (sw_db w) -> get_schedule (sch_public_id s) (sw_db w) = Some s ->
  wp (fail_schedule s)
     (fun _ w' => changed (maybe (sch_public_id s) fails) (sw_db w) (sw_db w')) w.
Proof.
  intros Hu Hg. unfold fail_schedule. apply wp_now, wp_now. cbn [set_sw_now sw_now].
  assert (Hend : forall row, failed_row (sw_now w) s row ->
            update_columns row s = row -> fails s (update_columns row s)).
  { intros row H ->. by exists (sw_now w). }
  unfold failed_row in Hend. destruct (_ <=? _).
  { apply write_then_quiet; [done..| |keeps_auto]. by apply Hend. }
  assert (Hsame : changed (maybe (sch_public_id s) fails) (sw_db w) (sw_db w))
    by (apply changed_same; [apply maybe_refl|done|done]).
  apply wp_now. cbn [set_sw_now sw_now]. apply wp_bind.
  destruct (compute_backoff _ _ _ _) as [b|] eqn:Eb; [|exact Hsame].
  apply wp_ret, wp_now. cbn [set_sw_now sw_now]. apply wp_bind. unfold dt_add_or_panic.
  destruct (dt_add _ b) as [next|] eqn:En; [|exact Hsame].
  apply wp_ret, write_then_quiet; [done..| |intros; apply db_enqueue].
  apply Hend; [by exists b, next|done].
Qed.

(** Both terminal handlers: mark, end the cycle, count, settle the row, emit. *)
Lemma settle_does id key c (settle : Schedule -> X unit) k (R : Schedule -> Schedule -> Prop) :
  (forall s w, unique_ids (sw_db w) -> get_schedule (sch_public_id s) (sw_db w) = Some s ->
     wp (settle s) (fun _ w' => changed (maybe (sch_public_id s) R) (sw_db w) (sw_db w')) w) ->
  does (maybe id R)
    (fresh ← mark_terminal key;
     if negb fresh then mret tt else
     end_active_cycle id ≫= fun _ => bump c ≫= fun _ =>
     found ← query (get_schedule id);
     match found with
     | Err _ | Ok None => mret tt
     | Ok (Some schedule) =>
         settle schedule ≫= fun _ => handle_pending_delete id ≫= fun _ =>
         emit_schedule_event (sch_session_public_id schedule) (k schedule)
     end).
Proof.
  intros Hs. assert (Hret : forall m : X unit, (forall P, keeps (on_db P) m) -> does (maybe id R) m)
    by (intros; apply does_quiet; [apply maybe_refl|done]).
  apply does_after; [apply maybe_refl|apply does_quiet; [done|intros; apply db_mark]|].
  intros fresh. destruct (negb fresh); [apply Hret; keeps_auto|].
  apply does_after; [apply maybe_refl|apply does_quiet; [done|intros; apply db_end_cycle]|].
  intros _. apply does_after; [apply maybe_refl|apply does_quiet; [done|keeps_auto]|]. intros _.
  apply does_query_get; [|apply Hret; keeps_auto|intros; apply Hret; keeps_auto].
  intros s w Hu Hg. pose proof (get_schedule_id _ _ _ Hg) as E. subst id. apply wp_bind.
  eapply wp_mono; [by apply Hs|]. intros [[]|e] w1 H1; [|done].
  eapply wp_mono; [apply (does_then nothing); [apply does_pending_delete| |apply H1]|].
  - intros _. apply does_quiet; [done|keeps_auto].
  - intros r w2 H2. eapply changed_comp; [exact H1|exact H2|]. by intros id s1 t r' H <-.
Qed.

Lemma does_completed id turn : does (maybe id completes) (handle_cycle_completed id turn).
Proof. apply settle_does, complete_changes. Qed.

Lemma does_failed id turn e : does (maybe id fails) (handle_cycle_failed_inner id turn e).
Proof. apply settle_does, fail_changes. Qed.

(** ** Firing, pausing, resuming *)

Lemma does_fire id : does (maybe id fires) (fire_schedule id).
Proof.
  intros w Hu. unfold fire_schedule. apply wp_bind.
  eapply wp_mono; [by apply cas_wp|]. intros [[[|]|e]|e] w1 H1;
    [|eapply changed_mono; [|exact H1]; intros ? s ? <-; by left..].
  destruct H1 as (_ & _ & H1).
  assert (does (maybe id fails) (found ← query (get_schedule id);
    match found with
    | Err _ | Ok None => mret tt
    | Ok (Some schedule) =>
        let session := sch_session_public_id schedule in
        registered ← ask (fun t => se_registry t session);
        if negb registered
        then handle_cycle_failed_inner id None "session not found in registry"
        else
          task ← ask (fun t => se_get_task t (sch_task_public_id schedule));
          let prompt :=
            {| sp_schedule_public_id := id; sp_prompt_text := prompt_text id task;
               sp_execution_limits := sc_execution_limits (sch_config schedule) |} in
          sent ← ask (fun t => se_tell_prompt t session prompt);
          match sent with
          | Some e =>
              handle_cycle_failed_inner id None ("failed to send ScheduledPrompt: " +:+ e)
          | None =>
              modify (set_sw_prompts (fun l => l ++ [(session, prompt)])) ≫= fun _ =>
              bump fires_total ≫= fun _ => start_cycle id schedule
          end
    end)) as Hrest.
  { assert (Hq : forall A (m : X A), (forall P, keeps (on_db P) m) -> does nothing m)
      by (intros; by apply does_quiet).
    apply does_after; [apply maybe_refl|apply Hq; keeps_auto|].
    intros [[s|]|e]; [|apply does_quiet; [apply maybe_refl|keeps_auto]..].
    apply does_after; [apply maybe_refl|apply Hq; keeps_auto|]. intros [|]; [|apply does_failed].
    apply does_after; [apply maybe_refl|apply Hq; keeps_auto|]. intros task.
    apply does_after; [apply maybe_refl|apply Hq; keeps_auto|]. intros [e|]; [apply does_failed|].
    apply does_quiet; [apply maybe_refl|]. keeps_auto. }
  eapply wp_mono; [apply Hrest, H1|]. intros r w2 H2.
  eapply changed_comp; [exact H1|exact H2|]. unfold maybe.
  intros id' s t r' [(Hne & <-)|(-> & Ha & n & ->)] [<-|(E & H3)];
    [by left|done|right; split; [done|]; split; [done|]; exists n..]; [by left|by right].
Qed.

Lemma does_cas id from to : does (maybe id (moved from to)) (store_state id from to).
Proof.
  intros w Hu. eapply wp_mono; [by apply cas_wp|].
  intros [[[|]|e]|e] w1 H; [destruct H as (_ & _ & H)|..];
    (eapply changed_mono; [|exact H]); [intros id' s r [[_ <-]|[-> Hm]]; [by left|by right]|..];
    intros id' s r <-; by left.
Qed.

(** A part that leaves the table alone, and one more of them before the rest. *)
Ltac quiet := solve [apply does_quiet; [solve [eauto with qmt | by left]|keeps_auto]].
Ltac skip := apply does_after; [solve [eauto with qmt | by left]|quiet|].

Lemma does_pause id : does (maybe id pauses) (handle_pause_schedule id).
Proof.
  unfold handle_pause_schedule.
  apply (does_comp (maybe id (moved Armed Paused)) (maybe id (moved Running Paused)));
    [apply does_cas| | |].
  - intros a. apply does_then; [destruct (ok_or_false a); [quiet|]|intros []; quiet].
    apply does_then; [apply does_cas|intros; quiet].
  - intros id' s r [<-|(-> & Ha & n & ->)]; [by left|]. right. repeat split; eauto.
  - intros id' s t r [<-|(-> & Ha & n & ->)] [<-|(E & Hr & n' & ->)]; [by left| | |done];
      right; repeat split; eauto.
Qed.

Lemma does_resume id : does (maybe id resumes) (handle_resume_schedule id).
Proof.
  intros w Hu. unfold handle_resume_schedule. apply wp_bind.
  eapply wp_mono; [by apply cas_wp|]. intros [[[|]|e]|e] w1 H1;
    [|eapply changed_mono; [|exact H1]; intros ? s ? <-; by left..].
  destruct H1 as (_ & _ & H1). cbn [ok_or_false negb].
  set (plans := fun f r => exists seconds n' t, sch_trigger f = Interval seconds /\
    compute_next_run_at seconds (sc_jitter_percent (sch_config f)) (se_now n') = Some t /\
    r = with_run (sch_state f) (sch_last_run_at f) (Some t) (sch_run_count f)
          (sch_consecutive_failures f) (se_now (1 + n')) f).
  match goal with |- wp ?m _ _ => assert (does (maybe id plans) m) as Hrest end.
  { apply does_query_get; [|quiet|intros; quiet]. intros s w2 Hu2 Hg. apply wp_bind.
    assert (Hsame : changed (maybe id plans) (sw_db w2) (sw_db w2))
      by (apply changed_same; [apply maybe_refl|done|done]).
    pose proof (get_schedule_id _ _ _ Hg) as E. subst id.
    match goal with |- wp ?m _ _ => assert (wp m (fun _ w' =>
      changed (maybe (sch_public_id s) plans) (sw_db w2) (sw_db w')) w2) as Hs end.
    2: { eapply wp_mono; [exact Hs|]. by intros [r|e] w3 H3. }
    destruct (sch_trigger s) as [seconds|f d|at_] eqn:Et;
      [|apply (does_quiet (maybe (sch_public_id s) plans) (enqueue_schedule s));
        [apply maybe_refl|intros; apply db_enqueue|done]..].
    apply wp_now. cbn [set_sw_now sw_now]. apply wp_bind.
    destruct (compute_next_run_at _ _ _) as [t|] eqn:En; [|exact Hsame].
    apply wp_ret, wp_now, write_then_quiet; [done..| |intros; apply db_enqueue].
    exists seconds, (sw_now w2), t. done. }
  eapply wp_mono; [apply Hrest, H1|]. intros r w2 H2.
  eapply changed_comp; [exact H1|exact H2|].
  intros id' s t r' [(Hne & <-)|(-> & Ha & n & ->)] [<-|(E & H3)];
    [by left|done|right; split; [done|]; split; [done|]; exists n..]; [by left|right].
  destruct H3 as (seconds & n' & t & Ht & Hc & ->). by exists seconds, n', t.
Qed.

(** ** Events *)

Lemma does_event id : does (maybe id fires) (handle_event_received id).
Proof.
  unfold handle_event_received. skip. intros [acc|]; [|quiet].
  destruct (acc_increment acc) as [met acc']. skip. intros _. destruct (negb met); [quiet|].
  skip. intros [|]; [quiet|]. skip. intros [[s|]|e]; [|quiet..].
  destruct (sch_trigger s); [quiet| |quiet]. destruct (0 <? _); [quiet|].
  skip. intros _. apply does_fire.
Qed.

Lemma does_debounce id : does (maybe id fires) (handle_debounce_completed id).
Proof.
  unfold handle_debounce_completed. skip. intros [acc|]; [|quiet].
  destruct (acc_threshold_met acc); [|quiet]. skip. intros _. apply does_fire.
Qed.

Lemma does_offer e id :
  does (maybe id (fun s r => awaits e s /\ fires s r))
    (offer_event (event_kind_name (env_kind e)) (env_session_id e) id).
Proof.
  unfold offer_event. apply does_query_get; [|quiet|intros; quiet]. intros s w Hu Hg.
  assert (Hsame : changed (maybe id (fun s r => awaits e s /\ fires s r)) (sw_db w) (sw_db w))
    by (apply changed_same; [apply maybe_refl|done|done]).
  destruct (sch_trigger s) as [seconds|f d|at_] eqn:Et; [exact Hsame| |exact Hsame].
  destruct (filter_matches f _ _) eqn:Ef; [|exact Hsame].
  eapply wp_mono; [by apply does_event|]. intros r w' [Hu' H]. split; [done|]. intros id' r' Hr.
  destruct (H id' r' Hr) as (s' & Hs' & [<-|(-> & Hf)]); exists s'; (split; [done|]); [by left|].
  rewrite Hg in Hs'. injection Hs' as <-. right. split; [done|]. split; [by exists f, d|done].
Qed.

(** One part per element, of different rows. *)
Lemma does_each {A} (f : A -> X unit) (key : A -> string) (R : Schedule -> Schedule -> Prop) l :
  (forall a, does (maybe (key a) R) (f a)) -> NoDup (map key l) ->
  does (fun id s r => s = r \/ In id (map key l) /\ R s r) (mapM_ f l).
Proof.
  intros Hf. induction l as [|a l IH]; [intros _; cbn [mapM_]; quiet|].
  cbn [map]. intros [Ha Hl]%NoDup_cons. cbn [mapM_].
  apply (does_comp (maybe (key a) R) (fun id s r => s = r \/ In id (map key l) /\ R s r));
    [apply Hf|intros _; by apply IH| |]; unfold maybe; cbn [In].
  - intros id s r [<-|[-> H]]; auto.
  - intros id s t r [<-|[-> H]] [<-|[Hin H']]; [by left|right; by auto..|].
    exfalso. apply Ha. by apply list_elem_of_In.
Qed.

(** ** Reconciliation *)

Lemma does_recover s : does (maybe (sch_public_id s) fails) (recover_one s).
Proof.
  unfold recover_one. skip. intros [|]; [quiet|]. skip. intros _. apply does_failed.
Qed.

Lemma does_overdue now s : does (maybe (sch_public_id s) fires) (fire_overdue now s).
Proof.
  unfold fire_overdue. destruct (sch_next_run_at s); [|quiet]. destruct (_ <=? _); [|quiet].
  skip. intros _. apply does_fire.
Qed.

Lemma selected_rows key (p : Schedule -> bool) db id s :
  unique_ids db -> In id (map sch_public_id (order_by key (List.filter p (db_schedules db)))) ->
  get_schedule id db = Some s -> p s = true.
Proof.
  intros Hu Hin Hg. rewrite <- list_elem_of_In, order_by_perm, list_elem_of_In in Hin.
  apply in_map_iff in Hin as (s' & <- & [Hs' Hp]%List.filter_In).
  rewrite (get_schedule_unique db s' Hu Hs') in Hg. congruence.
Qed.

Lemma selected_NoDup key (p : Schedule -> bool) db :
  unique_ids db -> NoDup (map sch_public_id (order_by key (List.filter p (db_schedules db)))).
Proof. intros Hu. rewrite order_by_perm. by apply filter_ids_NoDup. Qed.

Lemma recoveries_change cutoff w : unique_ids (sw_db w) ->
  wp (mapM_ recover_one (list_running_schedules_older_than cutoff (sw_db w)))
     (fun _ w' => changed (fun _ s r => s = r \/ sch_state s = Running /\ fails s r)
                    (sw_db w) (sw_db w')) w.
Proof.
  intros Hu. eapply wp_mono.
  { apply (does_each recover_one sch_public_id fails); [apply does_recover| |exact Hu].
    by apply selected_NoDup. }
  intros r w' [Hu' H]. split; [done|]. intros id row Hr.
  destruct (H id row Hr) as (s & Hs & [<-|[Hin Hf]]); exists s; (split; [done|]); [by left|right].
  split; [|done]. apply (selected_rows _ _ _ _ _ Hu Hin) in Hs.
  by apply andb_true_iff in Hs as [?%bool_decide_eq_true _].
Qed.

Lemma does_overdue_armed now db : unique_ids db ->
  does (fun _ s r => s = r \/ fires s r) (mapM_ (fire_overdue now) (list_all_armed_schedules db)).
Proof.
  intros Hu. eapply does_mono; [|apply (does_each _ sch_public_id fires);
    [apply does_overdue|by apply selected_NoDup]].
  intros id s r [<-|[_ H]]; auto.
Qed.

(** The lease is not part of the rows. *)
Lemma does_renew o t : does nothing (store_renew o t).
Proof.
  unfold store_renew. skip. intros now. skip. intros e. apply does_store; [done|].
  intros db Hu. unfold renew_scheduler_lease. repeat case_match; simplify_eq; by apply changed_same.
Qed.

Lemma does_release o : does nothing (store_release o).
Proof.
  unfold store_release. apply does_store; [done|].
  intros db Hu. unfold release_scheduler_lease. repeat case_match; simplify_eq; by apply changed_same.
Qed.

Lemma does_reconcile : does sweeps reconcile.
Proof.
  assert (Hsr : reflexive_rel sweeps) by (intros id s; exists s; auto).
  set (overdue := fun (_ : string) s r => s = r \/ fires s r).
  assert (Hor : reflexive_rel overdue) by (by left).
  unfold reconcile. apply does_after; [done|quiet|]. intros _.
  apply does_after; [done|quiet|]. intros now. apply does_after; [done|quiet|]. intros cutoff.
  match goal with |- does _ (query _ ≫= fun stale => _ ≫= ?rest) =>
    assert (does overdue (rest tt)) as Hrest end.
  { apply does_query.
    - intros w Hu. apply wp_bind, wp_now. eapply wp_mono; [by apply does_overdue_armed|].
      intros [r|e] w1 H1; [|done].
      eapply (wp_mono _ (fun _ w2 => changed nothing (sw_db w1) (sw_db w2))).
      { apply (does_after nothing); [done|quiet| |apply H1]. intros owner.
        apply does_after; [done|quiet|]. intros ttl.
        apply does_then; [apply does_renew|intros; quiet]. }
      intros r2 w2 H2. eapply changed_comp; [exact H1|exact H2|]. by intros id s t r' H <-.
    - intros e. apply does_after; [done|quiet|]. intros _. apply does_after; [done|quiet|].
      intros owner. apply does_after; [done|quiet|]. intros ttl.
      apply does_after; [done|apply does_renew|]. intros; quiet. }
  apply does_query.
  - intros w Hu. apply wp_bind. eapply wp_mono; [by apply recoveries_change|].
    intros [[]|e] w1 H1; [|by eapply changed_mono; [|exact H1]; intros id s r H; exists r; auto].
    eapply wp_mono; [apply Hrest, H1|]. intros r w2 H2.
    eapply changed_comp; [exact H1|exact H2|]. intros id s t r' Ha Hb. by exists t.
  - intros e. eapply does_mono; [|apply Hrest]. intros id s r H. exists s. auto.
Qed.

(** ** The other messages *)

Lemma does_remove id : does nothing (handle_remove_schedule id).
Proof.
  unfold handle_remove_schedule. skip. intros [|]; [quiet|].
  skip. intros _. skip. intros _. skip. intros _. skip. intros _. apply does_delete.
Qed.

Lemma does_shutdown : does nothing handle_shutdown.
Proof.
  unfold handle_shutdown. apply does_after; [done|unfold abort_background_tasks, abort_wake; quiet|].
  intros _. skip. intros owner. apply does_then; [apply does_release|intros; quiet].
Qed.

Lemma does_process e : does (message_changes (ProcessEvent e)) (process_event e).
Proof.
  assert (H : does (fun _ s r => s = r \/ awaits e s /\ fires s r)
    (counters ← actor sa_event_counters;
     ids ← ask (fun t => se_key_order t (map fst (map_to_list counters)));
     mapM_ (offer_event (event_kind_name (env_kind e)) (env_session_id e)) ids)).
  { skip. intros counters. apply does_ask. intros n.
    eapply does_mono; [|apply (does_each _ id (fun s r => awaits e s /\ fires s r));
      [apply does_offer|]].
    - intros id' s r [<-|[_ H]]; auto.
    - rewrite map_id, se_key_order_perm. apply NoDup_fst_map_to_list. }
  unfold process_event, message_changes. destruct (env_kind e); try exact H.
  - apply does_completed.
  - apply does_failed.
  - quiet.
Qed.

(** Adding a schedule leaves every row there is, and may add one. *)
Definition added (schedule : Schedule) (db0 db : ScheduleDb) : Prop :=
  unique_ids db /\ forall id r, get_schedule id db = Some r ->
    get_schedule id db0 = Some r \/
    get_schedule id db0 = None /\ (exists rowid, r = set_row_id rowid id schedule) /\
    (sch_public_id schedule = id \/ sch_public_id schedule = "").

Lemma find_last id (l : list Schedule) s r :
  List.find (has_public_id id) (l ++ [s]) = Some r ->
  List.find (has_public_id id) l = Some r \/
  List.find (has_public_id id) l = None /\ r = s /\ sch_public_id s = id.
Proof.
  induction l as [|x l IH]; cbn [List.find app]; [|by destruct (has_public_id id x); [left|]].
  destruct (has_public_id id s) eqn:E; [|done]. intros [= ->]. apply has_public_id_spec in E. auto.
Qed.

Lemma create_adds uuid s db : unique_ids db -> added s db (create_schedule uuid s db).2.
Proof.
  intros Hu. unfold create_schedule. set (pid := if is_empty_str _ then _ else _).
  destruct (existsb _ _) eqn:E; [split; [done|by left]|]. cbn [snd]. split.
  - unfold unique_ids. cbn. rewrite map_app. apply NoDup_app. split; [done|]. split.
    + cbn. intros x Hx ->%list_elem_of_singleton.
      apply list_elem_of_In, in_map_iff in Hx as (r & Hr & Hin).
      assert (existsb (has_public_id pid) (db_schedules db) = true) as E2; [|congruence].
      apply existsb_exists. exists r. split; [done|]. by apply has_public_id_spec.
    + cbn. apply NoDup_singleton.
  - intros id r [H|(H & -> & Hid)]%find_last; [by left|right]. cbn in Hid. subst id.
    split; [done|]. split; [by eexists|]. subst pid. unfold is_empty_str.
    by destruct (sch_public_id s); [right|left].
Qed.

Lemma add_adds s w : unique_ids (sw_db w) ->
  wp (handle_add_schedule s) (fun _ w' => added s (sw_db w) (sw_db w')) w.
Proof.
  intros Hu. assert (Hs : added s (sw_db w) (sw_db w)) by (split; [done|by left]).
  unfold handle_add_schedule. apply wp_bind.
  eapply (wp_mono _ (fun _ w' => added s (sw_db w) (sw_db w'))).
  { unfold store_create. apply wp_bind. unfold ask, wp at 1. cbn [fst snd].
    unfold store, wp. cbn [set_sw_now sw_now sw_db]. destruct (se_store_error _); [done|].
    pose proof (create_adds (se_uuid (sw_now w)) s _ Hu) as H.
    by destruct (create_schedule _ _ _). }
  intros [r|e] w1 H1; [|done].
  match goal with |- wp ?m _ _ => assert (keeps (on_db (added s (sw_db w))) m) as K by keeps_auto end.
  by apply K.
Qed.

Lemma does_silent R (m : X unit) : does R m -> does R (silent m).
Proof. intros H. apply does_then; [exact H|intros; quiet]. Qed.

Lemma does_message m : (forall s, m <> AddSchedule s) ->
  does (message_changes m) (handle_message m).
Proof.
  intros Hm. destruct m; cbn [handle_message message_changes]; try (apply does_silent); try quiet.
  - unfold handle_deadline_reached. skip. intros _. skip. intros _. apply does_fire.
  - apply does_process.
  - apply does_reconcile.
  - apply does_completed.
  - apply does_failed.
  - apply does_debounce.
  - unfold handle_trigger_now. skip. intros _. skip. intros _. apply does_fire.
  - by edestruct Hm.
  - apply does_then; [apply does_remove|intros; quiet].
  - apply does_pause.
  - apply does_resume.
  - unfold handle_list_schedules. quiet.
  - apply does_shutdown.
Qed.

(** Every row after a message was there before it and changed as the message
    allows, or is the schedule the message adds. *)
Lemma handler_changes m w id r : unique_ids (sw_db w) ->
  get_schedule id (sw_db (handle_message m w).2) = Some r ->
  match get_schedule id (sw_db w) with
  | Some s => message_changes m id s r
  | None => exists s rowid, m = AddSchedule s /\ r = set_row_id rowid id s /\
              (sch_public_id s = id \/ sch_public_id s = "")
  end.
Proof.
  intros Hu Hr. assert ((exists s, m = AddSchedule s) \/ forall s, m <> AddSchedule s) as [[s ->]|Hm]
    by (destruct m; eauto; right; discriminate).
  - pose proof (add_adds s w Hu) as H. cbn [handle_message] in Hr |- *.
    unfold wp, mbind, M_bind in *. destruct (handle_add_schedule s w) as [[a|e] w1];
      destruct H as [_ H]; destruct (H id r Hr) as [->|(-> & (n & ->) & Hid)];
      solve [done|by exists s, n].
  - pose proof (does_message m Hm w Hu) as H. unfold wp in H.
    destruct (handle_message m w) as [a w1]. destruct H as [_ H].
    by destruct (H id r Hr) as (s & -> & H').
Qed.

(** ** The state machine *)

Definition allowed (a b : ScheduleState) : Prop := is_valid_transition a b = true.

(** The schedule whose end a message reports. *)
Definition terminal_id (m : SchedulerMsg) : option string :=
  match m with
  | CycleCompleted id _ | CycleFailed id _ _ => Some id
  | ProcessEvent e =>
      match env_kind e with
      | ScheduledExecutionCompleted id _ | ScheduledExecutionFailed id _ _ => Some id
      | _ => None
      end
  | _ => None
  end.

Lemma completes_state s r : completes s r -> sch_state r = Armed \/ sch_state r = Exhausted.
Proof.
  intros [n H]. unfold completed_row in H. destruct (is_exhausted _ _); [by subst r; right|].
  destruct H as (next & _ & ->). by left.
Qed.

Lemma fails_state s r : fails s r -> sch_state r = Armed \/ sch_state r = Failed.
Proof.
  intros [n H]. unfold failed_row in H. destruct (_ <=? _); [by subst r; right|].
  destruct H as (b & next & _ & _ & ->). by left.
Qed.

Lemma running_ends s r : sch_state s = Running -> completes s r \/ fails s r ->
  allowed (sch_state s) (sch_state r).
Proof. by intros -> [[-> | ->]%completes_state|[-> | ->]%fails_state]. Qed.

Lemma fires_allowed s r : fires s r -> rtc allowed (sch_state s) (sch_state r).
Proof.
  intros (Ha & n & Hr). apply (rtc_l _ _ Running); [by rewrite Ha|].
  destruct Hr as [->|Hf]; [done|]. apply rtc_once.
  by apply (running_ends (set_row_state Running (se_now n) s)); [|right].
Qed.

(** What a message may do to a row is a path of the state machine, provided a
    message that reports the end of a cycle is about a schedule that runs. *)
Lemma message_path m id s r :
  (terminal_id m = Some id -> sch_state s = Running) -> message_changes m id s r ->
  rtc allowed (sch_state s) (sch_state r).
Proof.
  intros Ht. unfold message_changes, terminal_id in *.
  assert (Hend : forall i, (Some i = Some id -> sch_state s = Running) ->
    maybe i completes id s r \/ maybe i fails id s r -> rtc allowed (sch_state s) (sch_state r)).
  { intros i Hr [[<-|[-> H]]|[<-|[-> H]]]; [done| |done|];
      apply rtc_once, running_ends; auto. }
  assert (Hf : forall i, maybe i fires id s r -> rtc allowed (sch_state s) (sch_state r))
    by (intros i [<-|[_ H]]; [done|by apply fires_allowed]).
  destruct m; try (intros <-; reflexivity); try (by apply Hf);
    try (intros H; eapply Hend; [exact Ht|]; solve [by left|by right]).
  - destruct (env_kind envelope); try (intros [<-|[_ H]]; [done|by apply fires_allowed]);
      try (intros <-; done);
      (intros H; eapply Hend; [exact Ht|]; solve [by left|by right]).
  - intros (t & [<-|[Hr Hf1]] & [<-|Hf2]); [done|by apply fires_allowed| |].
    + apply rtc_once, running_ends; auto.
    + eapply rtc_l; [apply running_ends; eauto|by apply fires_allowed].
  - intros [<-|(_ & [Hs|Hs] & n & ->)]; [done|apply rtc_once; by rewrite Hs..].
  - intros [<-|(_ & Hs & n & Hr)]; [done|]. apply rtc_once. rewrite Hs.
    by destruct Hr as [->|(sec & n' & t & _ & _ & ->)].
Qed.

End states.
