(* ===== verification/SchedulerProps.v ===== *)
(** Properties of the scheduler: the wake of the deadline queue, the schedule
    state machine, firing and terminal events, event thresholds, the backoff,
    and the lease. *)
From S2P Require Import Prelude Numbers Json Chat Domain Events Fixtures ScheduleDomain.
From S2P Require Import ScheduleRepo SchedWorld Scheduler SchedWake SchedStates.

Local Open Scope Z_scope.
#[local] Existing Instance toy_json.

(** ** A concrete environment: a clock of one second per question, sessions
    that accept every prompt, a database that never fails, and dates as a
    string of one mark per second. *)

Fixpoint marks (n : nat) : string := match n with O => "" | S n' => "1" +:+ marks n' end.

#[local] Instance mark_dates : Rfc3339 := {| format_dt := fun t => marks (Z.to_nat (t / NANOS)) |}.

#[local] Instance calm_scheduler : SchedEnv := {|
  se_now := fun n => Z.of_nat n * NANOS;
  se_uuid := fun _ => "uuid";
  se_store_error := fun _ => None;
  se_registry := fun _ _ => true;
  se_tell_prompt := fun _ _ _ => None;
  se_get_task := fun _ _ => Ok None;
  se_key_order := fun _ l => l;
  se_key_order_perm := fun _ l => Permutation_refl l;
|}.

Definition every_minute : Schedule :=
  {| sch_id := 1; sch_public_id := "s"; sch_task_public_id := "task";
     sch_session_public_id := "session"; sch_task_id := 1; sch_session_id := 1;
     sch_trigger := Interval 60; sch_state := Armed; sch_last_run_at := None;
     sch_next_run_at := Some (60 * NANOS); sch_run_count := 0; sch_consecutive_failures := 0;
     sch_config := schedule_config_default; sch_created_at := 0; sch_updated_at := 0 |}.

Definition on_two_events : Schedule :=
  {| sch_id := 1; sch_public_id := "e"; sch_task_public_id := "task";
     sch_session_public_id := "session"; sch_task_id := 1; sch_session_id := 1;
     sch_trigger := EventDriven {| etf_event_kinds := ["session_created"]; etf_threshold := 2;
                                   etf_session_public_id := None |} 0;
     sch_state := Armed; sch_last_run_at := None;
     sch_next_run_at := None; sch_run_count := 0; sch_consecutive_failures := 0;
     sch_config := schedule_config_default; sch_created_at := 0; sch_updated_at := 0 |}.

Definition start (l : list Schedule) : SchedWorld :=
  match spawn_scheduler "owner" scheduler_config_default
          {| db_schedules := l; db_lease := None |} with
  | Some w => w
  | None => world_new "owner" scheduler_config_default {| db_schedules := []; db_lease := None |}
  end.

Definition handled (m : SchedulerMsg) (w : SchedWorld) : SchedWorld := (handle_message m w).2.

Example start_queue_ex :
  sa_deadline_queue (sw_actor (start [every_minute])) = [(60 * NANOS, "s")].
Proof. vm_compute. reflexivity. Qed.

Example fire_ex :
  let w := handled (DeadlineReached "s") (handled SetSelfRef (start [every_minute])) in
  (row_state "s" (sw_db w), sa_deadline_queue (sw_actor w), map snd (sw_prompts w)) =
  (Some Running, [],
   [{| sp_schedule_public_id := "s";
       sp_prompt_text := "Execute the recurring task for schedule s.";
       sp_execution_limits := None |}]).
Proof. vm_compute. reflexivity. Qed.

(** ** The wake *)

Section steps.
Context {J : Json} {F : Rfc3339} {SE : SchedEnv}.

Lemma steps_wake_ok w w' : wake_ok w -> rtc sched_step w w' -> wake_ok w'.
Proof. intros Hw Hs. induction Hs; [done|]. eauto using step_wake_ok. Qed.

(** A terminal event that was marked stays marked. *)
Definition marked (k : string * option string) (w : SchedWorld) : Prop :=
  k ∈ sa_processed_terminals (sw_actor w).

Ltac same := let w := fresh "w" in let H := fresh in intros w H; exact H.
Ltac keeps_prim :=
  lazymatch goal with
  | |- keeps _ (upd (with_processed _)) =>
      apply keeps_upd; let w := fresh "w" in let H := fresh in intros w H;
      unfold marked in *; cbn; set_solver
  | |- keeps _ (upd _) => apply keeps_upd; same
  | |- keeps _ (modify _) => apply keeps_modify; same
  | |- keeps _ (updating _) => apply keeps_updating; same
  | |- keeps _ (spawn _) => apply keeps_updating; same
  | |- keeps _ (abort_task _) => apply keeps_modify; same
  | |- keeps _ (abort_opt ?h) => destruct h; cbn [abort_opt]; [apply keeps_modify; same|apply keeps_ret]
  | |- keeps _ (bump _) => apply keeps_upd; same
  | |- keeps _ (gauge _ _) => apply keeps_upd; same
  | |- keeps _ (emit_schedule_event _ _) => apply keeps_modify; same
  | |- keeps _ (ask _) => apply keeps_sched_ask; same
  | |- keeps _ now_utc => apply keeps_sched_ask; same
  | |- keeps _ (store _) => apply keeps_sched_store; same
  | |- keeps _ (query _) => apply keeps_sched_store; same
  | |- keeps _ (actor _) => apply keeps_gets
  end.
Local Hint Extern 2 (keeps _ _) => keeps_prim : qmt.

Ltac marked_by d := unfold d; keeps_auto.

Section marks.
Variable k : string * option string.

Lemma marked_reschedule : keeps (marked k) reschedule_wake.
Proof. unfold reschedule_wake, abort_wake. keeps_auto. Qed.
Hint Resolve marked_reschedule : qmt.
Lemma marked_enqueue s : keeps (marked k) (enqueue_schedule s).
Proof. unfold enqueue_schedule, gauge_queues. keeps_auto. Qed.
Hint Resolve marked_enqueue : qmt.
Lemma marked_failed id t e : keeps (marked k) (handle_cycle_failed_inner id t e).
Proof.
  unfold handle_cycle_failed_inner, mark_terminal, end_active_cycle, fail_schedule, store_update,
    handle_pending_delete.
  keeps_auto.
Qed.
Hint Resolve marked_failed : qmt.
Lemma marked_completed id t : keeps (marked k) (handle_cycle_completed id t).
Proof.
  unfold handle_cycle_completed, mark_terminal, end_active_cycle, complete_schedule, store_update,
    handle_pending_delete.
  keeps_auto.
Qed.
Hint Resolve marked_completed : qmt.
Lemma marked_fire id : keeps (marked k) (fire_schedule id).
Proof. unfold fire_schedule, store_state, start_cycle. keeps_auto. Qed.
Hint Resolve marked_fire : qmt.
Lemma marked_reset id : keeps (marked k) (reset_accumulator id).
Proof. unfold reset_accumulator. keeps_auto. Qed.
Hint Resolve marked_reset : qmt.
Lemma marked_event id : keeps (marked k) (handle_event_received id).
Proof. unfold handle_event_received, start_debounce, set_accumulator. keeps_auto. Qed.
Hint Resolve marked_event : qmt.
Lemma marked_process e : keeps (marked k) (process_event e).
Proof. unfold process_event, offer_event. keeps_auto. Qed.
Lemma marked_renew o t : keeps (marked k) (store_renew o t).
Proof. unfold store_renew. keeps_auto. Qed.
Hint Resolve marked_process marked_renew : qmt.

Lemma marked_message m : keeps (marked k) (handle_message m).
Proof.
  destruct m; cbn [handle_message];
    unfold silent, handle_deadline_reached, reconcile, recover_one, fire_overdue,
      handle_debounce_completed, set_accumulator, handle_trigger_now, handle_add_schedule,
      store_create, handle_remove_schedule, gauge_queues, handle_pause_schedule, store_state,
      handle_resume_schedule, store_update, handle_list_schedules, handle_get_schedule,
      handle_shutdown, abort_background_tasks, abort_wake, store_release, handle_set_self_ref;
    keeps_auto.
Qed.
End marks.
Local Hint Resolve marked_enqueue : qmt.

Lemma marked_step k w w' : marked k w -> sched_step w w' -> marked k w'.
Proof.
  intros Hk Hs. destruct Hs as [m w|h t w Et|m rest w _ Em|w _|db w]; try exact Hk.
  - unfold process_head.
    pose proof (marked_message k m (set_sw_mailbox (fun _ => rest) w) Hk) as H.
    unfold wp in H. destruct (handle_message m _) as [[a|e] w']; exact H.
  - assert (keeps (marked k) lease_renewal_tick) as K.
    { pose proof (marked_renew k) as Hr. unfold lease_renewal_tick. keeps_auto. }
    specialize (K w Hk). unfold wp in K. by destruct (lease_renewal_tick w).
Qed.

Lemma marked_steps k w w' : marked k w -> rtc sched_step w w' -> marked k w'.
Proof. intros Hk Hs. induction Hs; eauto using marked_step. Qed.

Lemma failure_marks id t e w :
  wp (handle_cycle_failed_inner id t e) (fun _ w' => marked (id, t) w') w.
Proof.
  unfold handle_cycle_failed_inner. apply wp_bind.
  unfold mark_terminal at 1. apply wp_bind, wp_gets.
  destruct (bool_decide _) eqn:E.
  - apply bool_decide_eq_true in E. exact E.
  - apply wp_bind, wp_modify. apply wp_ret. cbn [negb].
    match goal with |- wp ?m _ ?w0 => assert (keeps (marked (id, t)) m) as K end.
    { unfold end_active_cycle, fail_schedule, store_update, handle_pending_delete. keeps_auto. }
    apply K. unfold marked. cbn. set_solver.
Qed.

End steps.

(** C6: From the start of the scheduler on, whatever messages arrive, timers
    fire, leases are renewed and other clients write to the database, while
    the actor has its self-reference and is not shut down, the earliest entry
    of a deadline queue that is not empty has its wake: the actor's wake handle
    is a pending timer for that entry, or that entry's [DeadlineReached] is in
    the mailbox. *)
Theorem no_lost_wakeup {J : Json} {F : Rfc3339} {SE : SchedEnv} owner config db w w' e :
  spawn_scheduler owner config db = Some w ->
  rtc sched_step w w' ->
  sa_self_ref (sw_actor w') = true -> sa_shutdown_token (sw_actor w') = false ->
  dq_peek (sa_deadline_queue (sw_actor w')) = Some e ->
  exists h, sa_wake_handle (sw_actor w') = Some h /\
    ((exists delay, sw_tasks w' !! h = Some (TkWake delay e.2)) \/
     In (DeadlineReached e.2) (sw_mailbox w')).
Proof.
  intros Hw Hs Hr Ht Hp. apply spawned_wake_ok in Hw.
  by apply (steps_wake_ok _ _ Hw Hs).
Qed.

Lemma no_lost_wakeup_witness :
  exists h, sa_wake_handle (sw_actor (process_head SetSelfRef [] (start [every_minute]))) = Some h /\
    ((exists delay, sw_tasks (process_head SetSelfRef [] (start [every_minute])) !! h =
                    Some (TkWake delay "s")) \/
     In (DeadlineReached "s") (sw_mailbox (process_head SetSelfRef [] (start [every_minute])))).
Proof.
  apply (no_lost_wakeup "owner" scheduler_config_default
           {| db_schedules := [every_minute]; db_lease := None |} (start [every_minute]) _
           (60 * NANOS, "s")); [vm_compute; reflexivity| |vm_compute; reflexivity..].
  apply rtc_once, StepHandle; vm_compute; reflexivity.
Defined.



(** A completion reported after the schedule was paused re-arms it: the pause
    of a running schedule is undone when its cycle ends. *)
Example pause_undone :
  let w := handled (PauseSchedule "s") (handled (DeadlineReached "s") (start [every_minute])) in
  (row_state "s" (sw_db w), row_state "s" (sw_db (handled (CycleCompleted "s" "t") w))) =
  (Some Paused, Some Armed).
Proof. vm_compute. reflexivity. Qed.

(** After the scheduler has handled one failure of a schedule that names no
    turn (a timeout, a session that is gone, a recovery), every later one is
    dropped whatever happens in between: the schedule, the queue and the active
    cycle stay as they are and only a counter moves, so a later cycle that
    exceeds its run time is never failed. *)
Theorem turnless_failure_counts_once {J : Json} {F : Rfc3339} {SE : SchedEnv} id e1 e2 w w' :
  rtc sched_step (handle_message (CycleFailed id None e1) w).2 w' ->
  handle_message (CycleFailed id None e2) w' =
    (Ok RUnit, set_sw_actor (with_metrics (metric_bump idempotent_drops_total)) w').
Proof.
  intros Hs. assert (marked (id, None) w') as Hm.
  { eapply marked_steps; [|exact Hs]. cbn [handle_message].
    pose proof (failure_marks id None e1 w) as H. unfold silent, wp in *.
    unfold mbind, M_bind. destruct (handle_cycle_failed_inner id None e1 w) as [[a|e] w1]; exact H. }
  cbn [handle_message]. unfold silent, handle_cycle_failed_inner, mark_terminal, actor, gets.
  unfold mbind, M_bind. rewrite bool_decide_true by exact Hm. reflexivity.
Qed.

(** The second cycle's timeout leaves the schedule running. *)
Lemma turnless_failure_counts_once_witness :
  let w := set_sw_mailbox (fun _ => [])
             (handled (DeadlineReached "s") (handled SetSelfRef (start [every_minute]))) in
  let w1 := (handle_message (CycleFailed "s" None "timeout") w).2 in
  let w2 := process_head (TriggerNow "s") [] (set_sw_mailbox (fun l => l ++ [TriggerNow "s"]) w1) in
  row_state "s" (sw_db w2) = Some Running /\
  handle_message (CycleFailed "s" None "timeout") w2 =
    (Ok RUnit, set_sw_actor (with_metrics (metric_bump idempotent_drops_total)) w2).
Proof.
  intros w w1 w2. split; [vm_compute; reflexivity|].
  assert (rtc sched_step w1 w2) as Hs.
  { apply (rtc_l _ _ (set_sw_mailbox (fun l => l ++ [TriggerNow "s"]) w1)); [apply StepSend|].
    apply rtc_once, StepHandle; vm_compute; reflexivity. }
  exact (turnless_failure_counts_once "s" "timeout" "timeout" w w2 Hs).
Defined.

(** ** Terminal events *)

Section calm.
Context {J : Json} {F : Rfc3339} {SE : SchedEnv}.

(** The clock has been read at least [n] times. *)
Definition since (n : nat) (w : SchedWorld) : Prop := (n <= sw_now w)%nat.

(** An operation that leaves the view alone and does not turn back the clock. *)
Definition calm {A} (m : X A) : Prop :=
  (forall P, keeps (on_view P) m) /\ (forall n, keeps (since n) m).

Ltac later := let w := fresh "w" in let H := fresh in intros w H; unfold since in *; cbn; lia.
Ltac keeps_prim :=
  lazymatch goal with
  | |- keeps _ (upd _) => apply keeps_upd; later
  | |- keeps _ (modify _) => apply keeps_modify; later
  | |- keeps _ (spawn _) => apply keeps_updating; later
  | |- keeps _ (abort_task _) => apply keeps_modify; later
  | |- keeps _ (bump _) => apply keeps_upd; later
  | |- keeps _ (gauge _ _) => apply keeps_upd; later
  | |- keeps _ (emit_schedule_event _ _) => apply keeps_modify; later
  | |- keeps _ now_utc => apply keeps_sched_ask; later
  | |- keeps _ (actor _) => apply keeps_gets
  end.
Local Hint Extern 2 (keeps _ _) => keeps_prim : qmt.

Ltac view := let w := fresh "w" in let H := fresh in intros w H; exact H.

Lemma calm_now : calm now_utc.
Proof. split; [intros P; apply keeps_sched_ask; view|keeps_auto]. Qed.
Lemma calm_bump f : calm (bump f).
Proof. split; [intros P; apply keeps_upd; view|keeps_auto]. Qed.
Lemma calm_emit se k : calm (emit_schedule_event se k).
Proof. split; [intros P; apply keeps_modify; view|keeps_auto]. Qed.
Lemma calm_end_cycle id : calm (end_active_cycle id).
Proof. split; [intros; apply view_end_cycle|]. unfold end_active_cycle. keeps_auto. Qed.
Lemma calm_enqueue s : calm (enqueue_schedule s).
Proof.
  split; [intros; apply view_enqueue|].
  unfold enqueue_schedule, gauge_queues, reschedule_wake, abort_wake. keeps_auto.
Qed.

End calm.

Section terminal.
Context {J : Json} {F : Rfc3339} {SE : SchedEnv}.
Hypothesis Hstore : forall n, se_store_error n = None.

Lemma wp_query {A B} (f : ScheduleDb -> A) (k : result SessionError A -> X B)
    (Q : result string B -> SchedWorld -> Prop) w :
  (forall w', sw_db w' = sw_db w -> sa_pending_deletes (sw_actor w') =
     sa_pending_deletes (sw_actor w) -> sw_prompts w' = sw_prompts w ->
     wp (k (Ok (f (sw_db w)))) Q w') ->
  wp (query f ≫= k) Q w.
Proof using Hstore.
  intros Hk. apply wp_bind. unfold query, store, wp at 1. rewrite Hstore. by apply Hk.
Qed.

(** A world with the database, the pending deletes and the prompts of another,
    whose clock has not gone back. *)
Definition same_view (w0 w : SchedWorld) : Prop :=
  on_view (eq (sw_db w0, sa_pending_deletes (sw_actor w0), sw_prompts w0)) w /\
  since (sw_now w0) w.

Lemma mark_fresh k w : k ∉ sa_processed_terminals (sw_actor w) ->
  wp (mark_terminal k) (fun r w' => r = Ok true /\ same_view w w') w.
Proof.
  intros Hk. unfold mark_terminal. apply wp_bind, wp_gets. rewrite bool_decide_false by done.
  split; [done|]. split; [done|]. unfold since. cbn. lia.
Qed.

Lemma wp_same_view {A B} (m : X A) (k : A -> X B) (Q : result string B -> SchedWorld -> Prop)
    w0 w :
  calm m -> same_view w0 w -> (forall e w', Q (Err e) w') ->
  (forall a w', same_view w0 w' -> wp (k a) Q w') -> wp (m ≫= k) Q w.
Proof.
  intros [Hv Hc] [Hw1 Hw2] HQ Hk. apply wp_bind.
  eapply wp_mono; [apply wp_conj; [by apply (Hv _ w Hw1)|by apply (Hc _ w Hw2)]|].
  intros [a|e] w' [H1 H2]; [by apply Hk|apply HQ].
Qed.

(** Writing a schedule's row, given the row it was read from. *)
Definition row_is (n : nat) (id : string) (row : Schedule) (w : SchedWorld) : Prop :=
  on_view (fun v => get_schedule id v.1.1 = Some row /\ id ∉ v.1.2) w /\ since n w.

Lemma write_then {A} (m : X A) s st last next rc f u w0 w n :
  calm m -> get_schedule (sch_public_id s) (sw_db w0) = Some s ->
  sch_public_id s ∉ sa_pending_deletes (sw_actor w0) -> same_view w0 w -> since n w ->
  wp (store_update (with_run st last next rc f u s) ≫= fun _ => m)
     (fun r w' => is_ok r = true ->
        row_is n (sch_public_id s) (with_run st last next rc f u s) w') w.
Proof using Hstore.
  intros [Hm1 Hm2] Hg Hp [Hv _] Hn. injection Hv as Hdb Hpd _.
  apply wp_bind. unfold store_update. apply wp_bind.
  unfold store, wp at 1. rewrite Hstore. cbn [set_sw_now sw_db].
  pose proof (update_schedule_get (with_run st last next rc f u s) (sw_db w)) as H.
  cbn [with_run sch_public_id] in H. rewrite <- Hdb in H |- *. rewrite Hg in H.
  destruct H as (db' & E & Hg' & _). rewrite E. cbn [fst snd]. apply wp_ret.
  set (row := with_run st last next rc f u s).
  eapply wp_mono; [apply wp_conj; [eapply (Hm1 (fun v =>
    get_schedule (sch_public_id s) v.1.1 = Some row /\ sch_public_id s ∉ v.1.2))|
    eapply (Hm2 n)]|auto].
  - split; [exact Hg'|]. cbn. by rewrite <- Hpd.
  - unfold since in *. cbn. lia.
Qed.

Lemma no_pending_delete n id row w :
  row_is n id row w -> wp (handle_pending_delete id) (fun r w' => row_is n id row w') w.
Proof.
  intros [[Hg Hp] Hn]. unfold handle_pending_delete. apply wp_bind, wp_gets.
  rewrite bool_decide_false by exact Hp. by split.
Qed.

Lemma complete_schedule_spec s w0 w :
  get_schedule (sch_public_id s) (sw_db w0) = Some s ->
  sch_public_id s ∉ sa_pending_deletes (sw_actor w0) -> same_view w0 w ->
  wp (complete_schedule s) (fun r w' => is_ok r = true ->
    exists row, completed_row (sw_now w) s row /\
      row_is (1 + sw_now w) (sch_public_id s) row w') w.
Proof using Hstore.
  intros Hg Hp [Hv Hn]. unfold complete_schedule, completed_row. apply wp_now, wp_now.
  cbn [set_sw_now sw_now].
  assert (Hend : forall st last next rc f u m w', calm m -> sw_db w' = sw_db w ->
    sa_pending_deletes (sw_actor w') = sa_pending_deletes (sw_actor w) ->
    sw_prompts w' = sw_prompts w -> (1 + sw_now w <= sw_now w')%nat ->
    wp (store_update (with_run st last next rc f u s) ≫= fun _ => m)
       (fun (r : result string unit) w'' => is_ok r = true ->
          row_is (1 + sw_now w) (sch_public_id s) (with_run st last next rc f u s) w'') w').
  { intros st last next rc f u m w' Hm E1 E2 E3 Hn'. unfold since in Hn.
    apply (write_then m s _ _ _ _ _ _ w0); [done..| |exact Hn'].
    split; [unfold on_view; by rewrite E1, E2, E3|unfold since; lia]. }
  destruct (is_exhausted s _).
  { eapply wp_mono; [apply Hend; [apply calm_emit|try done..]|]. 1: { cbn; lia. }
    intros r w3 H3 Hr. eexists; split; [done|by apply H3]. }
  unfold next_after. destruct (sch_trigger s) as [seconds|f d|at_].
  2,3: apply wp_bind, wp_ret; eapply wp_mono; [apply Hend; [apply calm_enqueue|done..|cbn; lia]|];
    intros r w3 H3 Hr; eexists; split; [by eexists|by apply H3].
  apply wp_bind, wp_now. cbn [set_sw_now sw_now].
  destruct (compute_next_run_at _ _ _) as [t|] eqn:Et; [|done].
  apply wp_bind, wp_ret, wp_ret.
  eapply wp_mono; [apply Hend; [apply calm_enqueue|done..|cbn; lia]|].
  intros r w3 H3 Hr. eexists; split; [|by apply H3]. exists (Some t). split; [by exists t|done].
Qed.

Lemma fail_schedule_spec s w0 w :
  get_schedule (sch_public_id s) (sw_db w0) = Some s ->
  sch_public_id s ∉ sa_pending_deletes (sw_actor w0) -> same_view w0 w ->
  wp (fail_schedule s) (fun r w' => is_ok r = true ->
    exists row, failed_row (sw_now w) s row /\
      row_is (1 + sw_now w) (sch_public_id s) row w') w.
Proof using Hstore.
  intros Hg Hp [Hv Hn]. unfold fail_schedule, failed_row. apply wp_now, wp_now.
  cbn [set_sw_now sw_now]. unfold since in Hn. destruct (_ <=? _).
  { eapply wp_mono; [apply (write_then _ s _ _ _ _ _ _ w0 _ (1 + sw_now w));
      [apply calm_emit|done..|split; [done|]|]; unfold since; cbn; lia|].
    intros r w3 H3 Hr. eexists; split; [done|by apply H3]. }
  apply wp_now. cbn [set_sw_now sw_now]. apply wp_bind.
  destruct (compute_backoff _ _ _ _) as [b|] eqn:Eb; [|done]. apply wp_ret, wp_now.
  cbn [set_sw_now sw_now]. apply wp_bind. unfold dt_add_or_panic.
  destruct (dt_add _ b) as [next|] eqn:En; [|done]. apply wp_ret.
  eapply wp_mono; [apply (write_then _ s _ _ _ _ _ _ w0 _ (1 + sw_now w));
    [apply calm_enqueue|done..|split; [done|]|]; unfold since; cbn; lia|].
  intros r w5 H5 Hr. eexists; split; [|by apply H5]. by exists b, next.
Qed.

(** Both terminal handlers: mark, end the cycle, count, settle the row, emit. *)
Lemma settle_spec id key c s (settle : Schedule -> X unit) k (R : nat -> Schedule -> Prop) w :
  key ∉ sa_processed_terminals (sw_actor w) ->
  get_schedule id (sw_db w) = Some s -> id ∉ sa_pending_deletes (sw_actor w) ->
  (forall w', same_view w w' -> wp (settle s) (fun r w'' => is_ok r = true ->
     exists row, R (sw_now w') row /\ row_is (1 + sw_now w') id row w'') w') ->
  wp (fresh ← mark_terminal key;
      if negb fresh then mret tt else
      end_active_cycle id ≫= fun _ => bump c ≫= fun _ =>
      found ← query (get_schedule id);
      match found with
      | Err _ | Ok None => mret tt
      | Ok (Some schedule) =>
          settle schedule ≫= fun _ => handle_pending_delete id ≫= fun _ =>
          emit_schedule_event (sch_session_public_id schedule) (k schedule)
      end)
     (fun r w' => is_ok r = true -> exists n row,
        (sw_now w <= n < sw_now w')%nat /\ R n row /\ get_schedule id (sw_db w') = Some row) w.
Proof using Hstore.
  intros Hk Hg Hp Hs. apply wp_bind. eapply wp_mono; [by apply mark_fresh|].
  intros r w1 [-> H1]. cbn [negb].
  apply (wp_same_view _ _ _ w); [apply calm_end_cycle|exact H1|done|]. intros _ w2 H2.
  apply (wp_same_view _ _ _ w); [apply calm_bump|exact H2|done|]. intros _ w3 [H3 Hn].
  injection H3 as Hdb Hpd Hpr. unfold since in Hn. apply wp_bind. unfold query, store, wp at 1.
  rewrite Hstore. cbn [set_sw_now sw_db sw_now]. rewrite <- Hdb, Hg.
  apply wp_bind. eapply wp_mono; [apply Hs; split; [|unfold since; cbn; lia]|].
  { unfold on_view. cbn. by rewrite Hpd, Hpr. }
  intros [[]|e] w5 H5; [|done]. destruct (H5 eq_refl) as (row & HR & Hrow).
  apply wp_bind. eapply wp_mono; [by apply no_pending_delete|]. intros [[]|e] w6 H6; [|done].
  apply wp_modify. intros _. destruct H6 as [[Hg6 _] Hn6]. unfold since in Hn6.
  eexists _, row. split; [|by split]. cbn in *. lia.
Qed.

End terminal.

Lemma silent_ok {J : Json} {F : Rfc3339} {SE : SchedEnv} (m : X unit) (Q : SchedWorld -> Prop) w :
  wp m (fun r w' => is_ok r = true -> Q w') w ->
  is_ok (silent m w).1 = true -> Q (silent m w).2.
Proof. unfold silent, wp, mbind, M_bind. by destruct (m w) as [[[]|e] w1]. Qed.

(** C28: When the database does not fail and a completed cycle is reported for
    the first time, of a schedule that is not to be deleted, then, unless the
    actor stops because a date leaves the range of dates, the schedule's row
    counts the run, clears the failures and takes a reading of the clock made
    while the message is handled as its last run.  It is exhausted, without a
    next run, when the runs have reached their maximum, and otherwise armed; a
    recurring schedule's next run is then its jittered interval from the
    clock's second next reading on, any other's is the one it had.  The state
    the schedule was in does not matter: a completion also re-arms a schedule
    that is paused, failed or exhausted. *)
Theorem completion_settles_schedule {J : Json} {F : Rfc3339} {SE : SchedEnv} id turn s w :
  (forall n, se_store_error n = None) ->
  (id, Some turn) ∉ sa_processed_terminals (sw_actor w) ->
  id ∉ sa_pending_deletes (sw_actor w) ->
  get_schedule id (sw_db w) = Some s ->
  is_ok (handle_message (CycleCompleted id turn) w).1 = true ->
  let w' := (handle_message (CycleCompleted id turn) w).2 in
  exists n row, (sw_now w <= n < sw_now w')%nat /\ completed_row n s row /\
    get_schedule id (sw_db w') = Some row.
Proof.
  intros Hstore Hk Hp Hg. pose proof (get_schedule_id _ _ _ Hg) as <-.
  apply (silent_ok (handle_cycle_completed (sch_public_id s) turn) (fun w' => exists n row,
    (sw_now w <= n < sw_now w')%nat /\ completed_row n s row /\
    get_schedule (sch_public_id s) (sw_db w') = Some row)).
  apply (settle_spec Hstore) with (s := s); [done..|]. intros w1 H1. by eapply complete_schedule_spec.
Qed.

Definition run_once : SchedWorld := handled (DeadlineReached "s") (start [every_minute]).

Lemma completion_settles_schedule_witness :
  let w' := (handle_message (CycleCompleted "s" "t") run_once).2 in
  exists n row, (sw_now run_once <= n < sw_now w')%nat /\
    completed_row n (set_row_state Running (5 * NANOS) every_minute) row /\
    get_schedule "s" (sw_db w') = Some row.
Proof.
  apply (completion_settles_schedule "s" "t" _ run_once); [done|..].
  - vm_compute. intros H. inversion H.
  - vm_compute. intros H. inversion H.
  - vm_compute. reflexivity.
  - vm_compute. reflexivity.
Defined.

(** When the database does not fail, a failed cycle that is reported for the
    first time, of a schedule that is not to be deleted, counts the failure and
    leaves the schedule failed without a next run when it has reached its
    maximum of consecutive failures, and otherwise armed, with its backoff from
    the time the message is handled as its next run. *)
Theorem failure_backs_off {J : Json} {F : Rfc3339} {SE : SchedEnv} id turn error s w :
  (forall n, se_store_error n = None) ->
  (id, turn) ∉ sa_processed_terminals (sw_actor w) ->
  id ∉ sa_pending_deletes (sw_actor w) ->
  get_schedule id (sw_db w) = Some s ->
  is_ok (handle_message (CycleFailed id turn error) w).1 = true ->
  let w' := (handle_message (CycleFailed id turn error) w).2 in
  exists n row, (sw_now w <= n < sw_now w')%nat /\ failed_row n s row /\
    get_schedule id (sw_db w') = Some row.
Proof.
  intros Hstore Hk Hp Hg. pose proof (get_schedule_id _ _ _ Hg) as <-.
  apply (silent_ok (handle_cycle_failed_inner (sch_public_id s) turn error) (fun w' =>
    exists n row, (sw_now w <= n < sw_now w')%nat /\ failed_row n s row /\
    get_schedule (sch_public_id s) (sw_db w') = Some row)).
  apply (settle_spec Hstore) with (s := s); [done..|]. intros w1 H1. by eapply fail_schedule_spec.
Qed.

Lemma failure_backs_off_witness :
  let w' := (handle_message (CycleFailed "s" (Some "t") "boom") run_once).2 in
  exists n row, (sw_now run_once <= n < sw_now w')%nat /\
    failed_row n (set_row_state Running (5 * NANOS) every_minute) row /\
    get_schedule "s" (sw_db w') = Some row.
Proof.
  apply (failure_backs_off "s" (Some "t") "boom" _ run_once); [done|..].
  - vm_compute. intros H. inversion H.
  - vm_compute. intros H. inversion H.
  - vm_compute. reflexivity.
  - vm_compute. reflexivity.
Defined.

(** ** Firing *)

Section firing.
Context {J : Json} {F : Rfc3339} {SE : SchedEnv}.

Definition prompts_are (l : list (string * ScheduledPrompt)) (w : SchedWorld) : Prop :=
  sw_prompts w = l.

Ltac same := let w := fresh "w" in let H := fresh in intros w H; exact H.
Ltac keeps_prim :=
  lazymatch goal with
  | |- keeps _ (upd _) => apply keeps_upd; same
  | |- keeps _ (bump _) => apply keeps_upd; same
  | |- keeps _ (gauge _ _) => apply keeps_upd; same
  | |- keeps _ (abort_task _) => apply keeps_modify; same
  | |- keeps _ (emit_schedule_event _ _) => apply keeps_modify; same
  | |- keeps _ (ask _) => apply keeps_sched_ask; same
  | |- keeps _ now_utc => apply keeps_sched_ask; same
  | |- keeps _ (store _) => apply keeps_sched_store; same
  | |- keeps _ (query _) => apply keeps_sched_store; same
  | |- keeps _ (actor _) => apply keeps_gets
  end.
Local Hint Extern 2 (keeps _ _) => keeps_prim : qmt.

Lemma prompts_view l : forall w, on_view (fun v => v.2 = l) w = prompts_are l w.
Proof. done. Qed.

Lemma prompts_failed l id t e : keeps (prompts_are l) (handle_cycle_failed_inner id t e).
Proof.
  pose proof (fun s => view_enqueue (fun v => v.2 = l) s) as He.
  pose proof (fun s => view_end_cycle (fun v => v.2 = l) s) as Hc.
  change (on_view (fun v => v.2 = l)) with (prompts_are l) in He, Hc.
  unfold handle_cycle_failed_inner, mark_terminal, fail_schedule, store_update,
    handle_pending_delete.
  keeps_auto.
Qed.

Lemma prompts_start l id s : keeps (prompts_are l) (start_cycle id s).
Proof. exact (view_start_cycle (fun v => v.2 = l) id s). Qed.

Lemma prompts_cas l id a b : keeps (prompts_are l) (store_state id a b).
Proof. unfold store_state. keeps_auto. Qed.

(** Firing leaves the prompts as they are, or adds one for the schedule's
    session after moving it from armed to running. *)
Lemma fire_spec id w : unique_ids (sw_db w) ->
  wp (fire_schedule id) (fun _ w' =>
    sw_prompts w' = sw_prompts w \/
    row_state id (sw_db w) = Some Armed /\
    exists s p, get_schedule id (sw_db w') = Some s /\ sch_state s = Running /\
      sw_prompts w' = sw_prompts w ++ [(sch_session_public_id s, p)] /\
      sp_schedule_public_id p = id) w.
Proof.
  intros Hu. unfold fire_schedule. apply wp_bind.
  eapply wp_mono; [apply wp_conj; [by apply cas_wp|apply (prompts_cas (sw_prompts w)); done]|].
  intros [[[|]|e]|e] w1 [H Hp]; [|left; exact Hp..].
  destruct H as (Ha & Hr & Ht). apply wp_bind. unfold query, store, wp at 1.
  destruct (se_store_error (sw_now w1)) as [e|]; [left; exact Hp|].
  destruct (get_schedule id _) as [s|] eqn:Eg; [|left; exact Hp].
  apply wp_bind. unfold ask, wp at 1. cbn [fst snd]. destruct (se_registry _ _); cbn [negb].
  2: { eapply wp_mono; [apply (prompts_failed (sw_prompts w)); exact Hp|]. by left. }
  apply wp_bind. unfold wp at 1. cbn [fst snd].
  apply wp_bind. unfold wp at 1. cbn [fst snd]. destruct (se_tell_prompt _ _ _) as [e|].
  { eapply wp_mono; [apply (prompts_failed (sw_prompts w)); exact Hp|]. by left. }
  apply wp_bind, wp_modify, wp_bind, wp_modify.
  unfold row_state in Hr. cbn [set_sw_now sw_db] in Eg. rewrite Eg in Hr. injection Hr as Hr.
  set (p := {| sp_schedule_public_id := id |}).
  eapply wp_mono.
  { apply (view_start_cycle (fun v => get_schedule id v.1.1 = Some s /\
      v.2 = sw_prompts w ++ [(sch_session_public_id s, p)]) id s).
    split; [exact Eg|]. cbn. by rewrite <- Hp. }
  intros r w2 [Hdb Hpr]. right. split; [exact Ha|]. exists s, p. by split.
Qed.

End firing.

(** Firing a schedule delivers at most one prompt, and only to a schedule
    that was armed: the schedule is then running, and the prompt names it and
    went to its session. *)
Theorem fires_only_armed {J : Json} {F : Rfc3339} {SE : SchedEnv} id w :
  unique_ids (sw_db w) ->
  let w' := (fire_schedule id w).2 in
  sw_prompts w' = sw_prompts w \/
  row_state id (sw_db w) = Some Armed /\
  exists s p, get_schedule id (sw_db w') = Some s /\ sch_state s = Running /\
    sw_prompts w' = sw_prompts w ++ [(sch_session_public_id s, p)] /\
    sp_schedule_public_id p = id.
Proof.
  intros Hu. pose proof (fire_spec id w Hu) as H. unfold wp in H.
  by destruct (fire_schedule id w).
Qed.

Lemma fires_only_armed_witness :
  let w := start [every_minute] in
  let w' := (fire_schedule "s" w).2 in
  sw_prompts w' = sw_prompts w \/
  row_state "s" (sw_db w) = Some Armed /\
  exists s p, get_schedule "s" (sw_db w') = Some s /\ sch_state s = Running /\
    sw_prompts w' = sw_prompts w ++ [(sch_session_public_id s, p)] /\
    sp_schedule_public_id p = "s".
Proof.
  apply (fires_only_armed "s" (start [every_minute])).
  vm_compute. constructor; [|constructor]. intros H. inversion H.
Defined.

(** ** Event thresholds *)

Section threshold.
Context {J : Json} {F : Rfc3339} {SE : SchedEnv}.
Hypothesis Hstore : forall n, se_store_error n = None.
Variables (id : string) (T : Z) (event_filter : EventTriggerFilter).

(** An event-driven schedule without debounce, with [n] events counted. *)
Definition counting (n : Z) (w0 w : SchedWorld) : Prop :=
  sa_event_counters (sw_actor w) !! id =
    Some {| ea_count := n; ea_threshold := T; ea_debounce_until := None;
            ea_debounce_handle := None |} /\
  sw_db w = sw_db w0 /\ sw_prompts w = sw_prompts w0.

Lemma count_one n w0 w s :
  get_schedule id (sw_db w0) = Some s -> sch_trigger s = EventDriven event_filter 0 ->
  0 <= n -> n + 1 < 2 ^ 32 -> counting n w0 w ->
  if T <=? n + 1
  then exists w1, counting 0 w0 w1 /\ handle_event_received id w = fire_schedule id w1
  else wp (handle_event_received id) (fun r w' => r = Ok tt /\ counting (n + 1) w0 w') w.
Proof using Hstore.
  intros Hg Ht H0 Hn (Hc & Hdb & Hp). unfold handle_event_received.
  assert (E : u32_add n 1 = n + 1) by (apply u32_add_small; lia).
  destruct (T <=? n + 1) eqn:El.
  - set (a := {| ea_count := n + 1; ea_threshold := T; ea_debounce_until := None;
                 ea_debounce_handle := None |}).
    set (w2 := set_sw_db (fun _ => sw_db w) (set_sw_now S
                 (set_sw_actor (with_counters (insert id a)) w))).
    set (a0 := (acc_reset a).2).
    exists (set_sw_actor (with_counters (insert id a0)) w2). split.
    { split; [|done]. cbn. by rewrite lookup_insert_eq. }
    unfold mbind, M_bind, actor at 1, gets. rewrite Hc. cbn [acc_increment ea_count ea_threshold
      ea_debounce_until ea_debounce_handle acc_threshold_met]. rewrite E.
    subst w2 a0 a. unfold acc_threshold_met. cbn [ea_count ea_threshold]. rewrite El. cbn [negb].
    unfold set_accumulator, upd, modify, query, store. unfold mret at 1, M_ret at 1. cbn iota beta. rewrite Hstore.
    cbn [set_sw_now set_sw_actor sw_db]. rewrite <- Hdb in Hg. rewrite Hg, Ht.
    change (0 <? 0) with false. cbn iota beta.
    unfold reset_accumulator, actor, gets, mbind, M_bind, upd, modify.
    cbn [set_sw_now set_sw_actor set_sw_db sw_actor with_counters sa_event_counters].
    rewrite lookup_insert_eq. reflexivity.
  - apply wp_bind, wp_gets. rewrite Hc. cbn [acc_increment ea_count ea_threshold
      ea_debounce_until ea_debounce_handle]. rewrite E. unfold acc_threshold_met.
    cbn [ea_count ea_threshold]. rewrite El. cbn [negb]. apply wp_bind, wp_modify.
    split; [done|]. split; [|done]. cbn. by rewrite lookup_insert_eq.
Qed.

(** [n] matching events in a row. *)
Definition events (n : nat) : X unit := mapM_ (fun _ => handle_event_received id) (repeat tt n).

Lemma events_below n k w0 w s :
  get_schedule id (sw_db w0) = Some s -> sch_trigger s = EventDriven event_filter 0 ->
  T < 2 ^ 32 -> 0 <= k -> k + Z.of_nat n < T -> counting k w0 w ->
  wp (events n) (fun r w' => r = Ok tt /\ counting (k + Z.of_nat n) w0 w') w.
Proof using Hstore.
  intros Hg Ht HT. revert k w. induction n as [|n IH]; intros k w Hk Hn Hc.
  { cbn. split; [done|]. by rewrite Z.add_0_r. }
  unfold events. cbn [repeat mapM_]. apply wp_bind.
  pose proof (count_one k w0 w s Hg Ht Hk ltac:(lia) Hc) as H1.
  destruct (T <=? k + 1) eqn:E; [lia|]. eapply wp_mono; [exact H1|].
  intros r w1 [-> Hc1]. eapply wp_mono; [apply (IH (k + 1)); [lia|lia|done]|].
  intros r' w' [-> Hc']. split; [done|]. 
  assert (k + Z.of_nat (S n) = k + 1 + Z.of_nat n) as -> by lia. exact Hc'.
Qed.

Lemma events_threshold n w0 w s :
  get_schedule id (sw_db w0) = Some s -> sch_trigger s = EventDriven event_filter 0 ->
  T < 2 ^ 32 -> T = Z.of_nat (S n) -> counting 0 w0 w ->
  exists w1, counting 0 w0 w1 /\ events (S n) w = fire_schedule id w1.
Proof using Hstore.
  intros Hg Ht HT Hn Hc.
  assert (Happ : events (S n) w = (events n ≫= fun _ => handle_event_received id) w).
  { unfold events. clear. revert w. induction n as [|n IH]; intros w.
    - cbn. unfold mbind, M_bind, mret, M_ret. by destruct (handle_event_received id w) as [[[]|e] w'].
    - cbn [repeat mapM_]. unfold mbind, M_bind in *.
      destruct (handle_event_received id w) as [[[]|e] w']; [|done]. apply IH. }
  rewrite Happ. pose proof (events_below n 0 w0 w s Hg Ht HT ltac:(lia) ltac:(lia) Hc) as H.
  unfold wp in H. unfold mbind, M_bind. destruct (events n w) as [r w2]. destruct H as [-> H2].
  pose proof (count_one (0 + Z.of_nat n) w0 w2 s Hg Ht ltac:(lia) ltac:(lia) H2) as H1.
  destruct (T <=? _) eqn:E; [exact H1|lia].
Qed.

End threshold.

(** Firing an armed schedule whose session takes the prompt. *)
Lemma fire_delivers {J : Json} {F : Rfc3339} {SE : SchedEnv} id w :
  (forall n, se_store_error n = None) -> (forall n s, se_registry n s = true) ->
  (forall n s p, se_tell_prompt n s p = None) ->
  unique_ids (sw_db w) -> row_state id (sw_db w) = Some Armed ->
  wp (fire_schedule id) (fun r w' => r = Ok tt /\ row_state id (sw_db w') = Some Running /\
    exists se p, sw_prompts w' = sw_prompts w ++ [(se, p)] /\ sp_schedule_public_id p = id) w.
Proof.
  intros Hstore Hreg Htell Hu Ha. unfold fire_schedule. apply wp_bind.
  unfold store_state. apply wp_bind. unfold now_utc, ask, wp at 1. cbn [fst snd].
  unfold store at 1, wp at 1. rewrite Hstore.
  pose proof (cas_get (se_now (sw_now w)) id Armed Running (sw_db w) Hu) as Hc. cbn zeta in Hc.
  cbn [set_sw_now sw_db]. destruct (update_schedule_state _ _ _ _ _) as [ok db1].
  cbn [fst snd] in Hc. destruct Hc as (-> & _ & _ & _ & Hg). rewrite bool_decide_true in Hg |- * by done.
  cbn [set_sw_db]. apply (wp_query Hstore). intros w2 E1 _ E3. cbn [set_sw_db sw_db].
  unfold row_state in Ha. destruct (get_schedule id (sw_db w)) as [s0|]; [|done].
  cbn in Hg. rewrite Hg. cbn zeta. apply wp_bind. unfold ask, wp at 1. cbn [fst snd]. rewrite Hreg. cbn [negb].
  apply wp_bind. unfold wp at 1. cbn [fst snd]. apply wp_bind. unfold wp at 1. cbn [fst snd].
  rewrite Htell. apply wp_bind, wp_modify, wp_bind, wp_modify. unfold start_cycle.
  apply wp_bind, wp_gets, wp_bind, wp_updating, wp_bind. unfold now_utc, ask, wp at 1. cbn [fst snd].
  apply wp_bind, wp_modify, wp_bind, wp_gets, wp_bind, wp_modify, wp_modify.
  split; [done|]. cbn. split.
  - rewrite E1. unfold row_state. cbn. by rewrite Hg.
  - eexists _, _. split; [rewrite E3; reflexivity|reflexivity].
Qed.

(** For an armed event-driven schedule without debounce, whose fresh
    accumulator asks for [T] events, any number of matching events below [T]
    delivers no prompt, and the [T]-th delivers exactly one and leaves the
    schedule running, when the database works and the session takes prompts. *)
Theorem threshold_fires_exactly {J : Json} {F : Rfc3339} {SE : SchedEnv} id T event_filter s w :
  (forall n, se_store_error n = None) -> (forall n s, se_registry n s = true) ->
  (forall n s p, se_tell_prompt n s p = None) ->
  unique_ids (sw_db w) -> get_schedule id (sw_db w) = Some s -> sch_state s = Armed ->
  sch_trigger s = EventDriven event_filter 0 ->
  sa_event_counters (sw_actor w) !! id = Some (acc_new (Z.of_nat T)) ->
  (0 < T)%nat -> Z.of_nat T < 2 ^ 32 ->
  (forall n, (n < T)%nat -> sw_prompts (events id n w).2 = sw_prompts w) /\
  row_state id (sw_db (events id T w).2) = Some Running /\
  exists session p, sw_prompts (events id T w).2 = sw_prompts w ++ [(session, p)] /\
    sp_schedule_public_id p = id.
Proof.
  intros Hstore Hreg Htell Hu Hg Ha Ht Hc HT HT2.
  assert (H0 : counting id (Z.of_nat T) 0 w w) by done. split.
  - intros n Hn. pose proof (events_below Hstore id (Z.of_nat T) event_filter n 0 w w s
      Hg Ht HT2 ltac:(lia) ltac:(lia) H0) as H. unfold wp in H.
    destruct (events id n w) as [r w']. apply H.
  - destruct T as [|n]; [lia|].
    destruct (events_threshold Hstore id _ event_filter n w w s Hg Ht HT2 eq_refl H0)
      as (w1 & (_ & Hdb & Hp) & ->).
    pose proof (fire_delivers id w1 Hstore Hreg Htell) as H. unfold wp in H.
    rewrite Hdb, Hp in H. destruct (fire_schedule id w1) as [r w'].
    apply H; [done|]. unfold row_state. by rewrite Hg, <- Ha.
Qed.

Lemma threshold_fires_exactly_witness :
  let w := start [on_two_events] in
  (forall n, (n < 2)%nat -> sw_prompts (events "e" n w).2 = sw_prompts w) /\
  row_state "e" (sw_db (events "e" 2 w).2) = Some Running /\
  exists session p, sw_prompts (events "e" 2 w).2 = sw_prompts w ++ [(session, p)] /\
    sp_schedule_public_id p = "e".
Proof.
  apply (threshold_fires_exactly "e" 2
           {| etf_event_kinds := ["session_created"]; etf_threshold := 2;
              etf_session_public_id := None |} on_two_events (start [on_two_events]));
    try solve [vm_compute; reflexivity | lia | intros; reflexivity].
  vm_compute. constructor; [|constructor]. intros H. inversion H.
Defined.

(** ** Backoff *)

(** The delays of the default configuration, for each pseudo-random residue. *)
Definition within_ten_percent (raw r : Z) : bool :=
  let d := jittered_seconds raw 10 r in (9 * raw <=? 10 * d) && (10 * d <=? 11 * raw).

Lemma default_delays_checked :
  forallb (fun raw => forallb (fun r => within_ten_percent raw (Z.of_nat r)) (seq 0 1000))
    [60; 120; 240; 480; 960; 1920; 3600] = true.
Proof. vm_compute. reflexivity. Qed.

Lemma default_raw n : 0 <= n -> In (raw_backoff 60 n) [60; 120; 240; 480; 960; 1920; 3600].
Proof.
  intros Hn. rewrite raw_backoff_exact by lia.
  destruct (Z.le_gt_cases 6 n) as [H|H].
  - assert (2 ^ 6 <= 2 ^ n) by (apply Z.pow_le_mono_r; lia).
    rewrite Z.min_r by (change (2 ^ 6) with 64 in *; lia). simpl. tauto.
  - assert (n = 0 \/ n = 1 \/ n = 2 \/ n = 3 \/ n = 4 \/ n = 5) as E by lia.
    repeat destruct E as [->|E]; [simpl; tauto..|subst n; simpl; tauto].
Qed.

Lemma jittered_residue interval jitter nanos :
  jittered_seconds interval jitter nanos = jittered_seconds interval jitter (nanos mod 1000).
Proof. unfold jittered_seconds. by rewrite Z.mod_mod. Qed.

(** With the default backoff of one minute and jitter of ten percent, the
    delay after [n] consecutive failures is within ten percent of
    [min(60 * 2^n, 3600)] seconds, for every [n] and every clock, the
    saturating [u64] arithmetic included. *)
Theorem default_backoff_bounds n now d :
  0 <= n ->
  compute_backoff default_backoff_base_seconds n default_jitter_percent now = Some d ->
  let raw := Z.min (60 * 2 ^ n) 3600 in
  9 * (raw * NANOS) <= 10 * d <= 11 * (raw * NANOS).
Proof.
  intros Hn. rewrite <- (raw_backoff_exact 60 n) by lia.
  unfold compute_backoff, default_backoff_base_seconds, default_jitter_percent.
  pose proof (default_raw n Hn) as Hin. revert Hin. generalize (raw_backoff 60 n). intros raw Hin.
  unfold compute_next_run_at, dt_add. rewrite jittered_residue.
  set (r := (now mod 2 ^ 64) mod 1000).
  assert (0 <= r < 1000) as Hr by (apply Z.mod_pos_bound; lia).
  assert (within_ten_percent raw r = true) as Hw.
  { pose proof default_delays_checked as H. rewrite forallb_forall in H.
    specialize (H raw Hin). rewrite forallb_forall in H.
    specialize (H (Z.to_nat r)). rewrite Z2Nat.id in H by lia. apply H.
    apply in_seq. lia. }
  unfold within_ten_percent in Hw. apply andb_true_iff in Hw as [H1%Z.leb_le H2%Z.leb_le].
  destruct ((_ <=? _) && _); cbn; [|done]. intros [= <-].
  assert (60 <= raw) by (simpl in Hin; lia). unfold NANOS in *. lia.
Qed.

Lemma default_backoff_bounds_witness :
  let raw := Z.min (60 * 2 ^ 3) 3600 in
  9 * (raw * NANOS) <= 10 * (471 * NANOS) <= 11 * (raw * NANOS).
Proof.
  apply (default_backoff_bounds 3 1700000000000000407); [lia|]. vm_compute. reflexivity.
Defined.

(** ** The lease *)

Section lease.
Context {F : Rfc3339}.

Inductive LeaseOp :=
| LAcquire (owner : string) (now ttl : Z)
| LRenew (owner : string) (now ttl : Z)
| LRelease (owner : string).

(** A lease granted at an instant until another, or released. *)
Inductive LeaseEvent :=
| Granted (owner : string) (at_ until : Z)
| Released (owner : string).

Definition lease_op (op : LeaseOp) (db : ScheduleDb) : option LeaseEvent * ScheduleDb :=
  let granting (f : string -> Z -> Z -> ScheduleDb -> bool * ScheduleDb) owner now ttl :=
    match lease_until now ttl with
    | None => (None, db)
    | Some e => let '(ok, db') := f owner now e db in
                ((if ok then Some (Granted owner now e) else None), db')
    end in
  match op with
  | LAcquire owner now ttl => granting try_acquire_scheduler_lease owner now ttl
  | LRenew owner now ttl => granting renew_scheduler_lease owner now ttl
  | LRelease owner =>
      let '(ok, db') := release_scheduler_lease owner db in
      ((if ok then Some (Released owner) else None), db')
  end.

Fixpoint lease_events (ops : list LeaseOp) (db : ScheduleDb) : list LeaseEvent :=
  match ops with
  | [] => []
  | op :: ops' =>
      let '(ev, db') := lease_op op db in
      match ev with Some e => e :: lease_events ops' db' | None => lease_events ops' db' end
  end.

(** One leader at a time: a grant to another owner comes after the expiry of
    the grant before it, to the second, or after its release by its owner. *)
Fixpoint one_leader (cur : option (string * Z)) (evs : list LeaseEvent) : Prop :=
  match evs with
  | [] => True
  | Granted owner at_ until :: evs' =>
      match cur with
      | Some (o, u) => o = owner \/ u / NANOS <= at_ / NANOS
      | None => True
      end /\ one_leader (Some (owner, until)) evs'
  | Released owner :: evs' =>
      (exists u, cur = Some (owner, u)) /\ one_leader None evs'
  end.

(** Years 1970 to 9999, which RFC 3339 renders with four digits. *)
Definition in_era (t : Z) : Prop := 0 <= t <= DT_MAX.

Definition op_in_era (op : LeaseOp) : Prop :=
  match op with
  | LAcquire _ now ttl | LRenew _ now ttl => in_era now /\ 0 <= ttl < 2 ^ 63
  | LRelease _ => True
  end.

Definition lease_view (db : ScheduleDb) : option (string * Z) :=
  l ← db_lease db; Some (lease_owner_id l, lease_expires_at l).

Definition lease_in_era (db : ScheduleDb) : Prop :=
  match db_lease db with Some l => in_era (lease_expires_at l) | None => True end.

(** Text order of dates agrees with the order of their seconds. *)
Hypothesis text_seconds : forall a b,
  in_era a -> in_era b -> text_lt a b = true -> a / NANOS <= b / NANOS.

Lemma lease_until_era now ttl e :
  in_era now -> 0 <= ttl < 2 ^ 63 -> lease_until now ttl = Some e -> in_era e.
Proof.
  intros Hn Ht. unfold lease_until, dt_add, duration_seconds, as_i64, in_era in *.
  rewrite Z.mod_small by lia. unfold NANOS. case_match; [|done]. intros [= <-]. lia.
Qed.

Lemma lease_op_ok op db :
  op_in_era op -> lease_in_era db ->
  lease_in_era (lease_op op db).2 /\
  match (lease_op op db).1 with
  | None => lease_view (lease_op op db).2 = lease_view db
  | Some (Granted o at_ u) => lease_view (lease_op op db).2 = Some (o, u) /\
      match lease_view db with
      | Some (o', u') => o' = o \/ u' / NANOS <= at_ / NANOS
      | None => True
      end
  | Some (Released o) => lease_view (lease_op op db).2 = None /\
      exists u, lease_view db = Some (o, u)
  end.
Proof using text_seconds.
  intros Ho Hd. unfold lease_in_era, lease_view in *. destruct op as [o now ttl|o now ttl|o]; cbn in *.
  - destruct Ho as [Hn Ht]. destruct (lease_until now ttl) as [e|] eqn:Ee; [|done].
    pose proof (lease_until_era _ _ _ Hn Ht Ee) as He.
    unfold try_acquire_scheduler_lease. destruct (db_lease db) as [l|] eqn:El; [|done].
    destruct (text_lt _ _) eqn:Et; cbn; [|by cbn; rewrite ?El].
    split; [done|]. split; [done|]. right. by apply text_seconds.
  - destruct Ho as [Hn Ht]. destruct (lease_until now ttl) as [e|] eqn:Ee; [|done].
    pose proof (lease_until_era _ _ _ Hn Ht Ee) as He.
    unfold renew_scheduler_lease. destruct (db_lease db) as [l|] eqn:El; [|by cbn; rewrite ?El].
    destruct (String.eqb _ _) eqn:Eo; cbn; [|by cbn; rewrite ?El].
    destruct (text_lt _ _) eqn:Et; cbn; [by cbn; rewrite ?El|].
    apply String.eqb_eq in Eo. subst o. split; [done|]. split; [done|]. by left.
  - unfold release_scheduler_lease. destruct (db_lease db) as [l|] eqn:El; [|by cbn; rewrite ?El].
    destruct (String.eqb _ _) eqn:Eo; cbn; [|by cbn; rewrite ?El].
    apply String.eqb_eq in Eo. subst o. split; [done|]. split; [done|]. by eexists.
Qed.

Lemma lease_events_one_leader ops db :
  Forall op_in_era ops -> lease_in_era db -> one_leader (lease_view db) (lease_events ops db).
Proof using text_seconds.
  intros Hops. revert db. induction Hops as [|op ops Ho _ IH]; intros db Hd; [done|].
  cbn [lease_events]. pose proof (lease_op_ok op db Ho Hd) as [Hd' H].
  destruct (lease_op op db) as [[[o at_ u|o]|] db']; cbn [fst snd] in *.
  - destruct H as [Hv Hp]. cbn [one_leader]. split; [exact Hp|]. rewrite <- Hv. by apply IH.
  - destruct H as [Hv Hp]. cbn [one_leader]. split; [exact Hp|]. rewrite <- Hv. by apply IH.
  - rewrite <- H. by apply IH.
Qed.

End lease.

(** C10: Whatever sequence of acquisitions, renewals and releases any number of
    scheduler instances make on the lease, at any times and with any lifetimes,
    there is one leader at a time: an instance is granted the lease of another
    only after the other's last grant has expired, to the second, or the other
    has released it.  The text of dates is required to order instants of
    different seconds, as RFC 3339 text of four-digit years does. *)
Theorem lease_has_one_leader {F : Rfc3339} ops db :
  (forall a b, in_era a -> in_era b -> text_lt a b = true -> a / NANOS <= b / NANOS) ->
  Forall op_in_era ops -> lease_in_era db ->
  one_leader (lease_view db) (lease_events ops db).
Proof. intros Ht. by apply (lease_events_one_leader Ht). Qed.

Lemma marks_lt m n : String.ltb (marks m) (marks n) = (m <? n)%nat.
Proof.
  revert n. induction m as [|m IH]; intros [|n]; [reflexivity..|].
  change (String.ltb (marks m) (marks n) = (m <? n)%nat). apply IH.
Qed.

Lemma lease_has_one_leader_witness :
  one_leader None [Granted "a" 0 (120 * NANOS); Granted "a" (60 * NANOS) (180 * NANOS);
                   Granted "b" (181 * NANOS) (301 * NANOS); Released "b"].
Proof.
  set (ops := [LAcquire "a" 0 120; LAcquire "b" (10 * NANOS) 120; LRenew "a" (60 * NANOS) 120;
     LAcquire "b" (130 * NANOS) 120; LRenew "b" (140 * NANOS) 120;
     LAcquire "b" (181 * NANOS) 120; LRelease "a"; LRelease "b"]).
  set (db := {| db_schedules := []; db_lease := None |}).
  assert (lease_events ops db =
    [Granted "a" 0 (120 * NANOS); Granted "a" (60 * NANOS) (180 * NANOS);
     Granted "b" (181 * NANOS) (301 * NANOS); Released "b"]) as E by (vm_compute; reflexivity).
  rewrite <- E. apply (lease_has_one_leader ops db).
  - intros a b [Ha _] [Hb _]. unfold text_lt. cbn [format_dt mark_dates]. rewrite marks_lt.
    intros H%Nat.ltb_lt. apply Z.div_pos with (b := NANOS) in Ha, Hb; [lia|done..].
  - subst ops. repeat constructor; vm_compute; congruence.
  - exact I.
Defined.
