(* ===== verification/Delegations.v ===== *)
(** The delegation orchestrator (delegation/core.rs, delegation/model_overrides.rs,
    and the delegation requests and results of hooks/engine.rs).

    A delegation is run by a task of its own, beside other delegations and the
    listener of events.  The task is a program ([prog]) over the operations of
    [DOp]: a call of the store, a hook, the child's session, the semaphore or
    the shared map of active delegations, with the type of its answer.  The
    orchestrator is a step relation ([orch_step]) that interleaves the
    operations of the tasks with the events and with aborts.

    At its end, the texts of a delegation: the summary of a delegate's history
    (core.rs) and the brief made of the parent's (delegation/summarizer.rs). *)
From S2P Require Import Prelude Numbers Text Json Chat Domain Events Model Pruning Hooks.
From S2P Require Import AgentConfig Compaction Wait.

Local Open Scope Z_scope.

(** ** Configuration and data *)

Record DelegationOrchestratorConfig := {
  doc_cwd : option string;
  doc_inject_results : bool;
  doc_run_verification : bool;
  doc_wait_policy : DelegationWaitPolicy;
  doc_wait_timeout_secs : Z;
  doc_cancel_grace_secs : Z;
  doc_max_parallel_delegations : nat;
}.

Definition delegation_orchestrator_config_new (cwd : option string)
  : DelegationOrchestratorConfig :=
  {| doc_cwd := cwd; doc_inject_results := false; doc_run_verification := false;
     doc_wait_policy := DwAny; doc_wait_timeout_secs := 120; doc_cancel_grace_secs := 5;
     doc_max_parallel_delegations := 5 |}.


Record DelegateModelOverride := { dmo_model_id : string; dmo_node_id : option string }.

(** [DelegateModelOverrideStore]: its map and operations. *)
Definition ModelOverrides : Type := gmap (string * string) DelegateModelOverride.
Definition overrides_set (parent agent : string) (m : DelegateModelOverride)
  (o : ModelOverrides) : ModelOverrides := <[(parent, agent) := m]> o.
Definition overrides_get (parent agent : string) (o : ModelOverrides)
  : option DelegateModelOverride := o !! (parent, agent).
Definition overrides_clear (parent agent : string) (o : ModelOverrides) : ModelOverrides :=
  delete (parent, agent) o.
Definition overrides_clear_parent (parent : string) (o : ModelOverrides) : ModelOverrides :=
  filter (fun kv : (string * string) * DelegateModelOverride => kv.1.1 <> parent) o.

(** The provider node a routing policy gives an agent: set when the policy's
    provider target is a peer and the peer is resolved. *)
Record RoutePolicy := {
  rp_provider_is_peer : bool;
  rp_resolved_provider_node_id : option string;
}.

Section delegations.
Context {J : Json}.

Record DelegationStartRequest := {
  dsr_context : HookContext;
  dsr_delegation_id : string;
  dsr_target_agent_id : string;
  dsr_objective : string;
  dsr_delegation_context : option string;
  dsr_constraints : option string;
  dsr_expected_output : option string;
  dsr_status : string;
}.
Record PostDelegationRequest := {
  pdr'_context : HookContext;
  pdr'_delegation_id : string;
  pdr'_target_agent_id : string;
  pdr'_child_session_id : string;
  pdr'_objective : string;
  pdr'_status : string;
  pdr'_summary : string;
  pdr'_verification_passed : bool;
}.
Record DelegationFailureRequest := {
  dfr_context : HookContext;
  dfr_delegation_id : string;
  dfr_target_agent_id : string;
  dfr_objective : string;
  dfr_status : string;
  dfr_error : string;
  dfr_error_type : string;
}.

(** The results of the three hooks have the same fields. *)
Record DelegationHookResult := {
  dhr_additional_contexts : list string;
  dhr_notices : list HookNotice;
}.

(** The parent's stored configuration: the parameters are what is read of it. *)
Record ParentLlmConfig := { plc_params : option Value }.

(** ** Operations and programs *)

Inductive DOp : Type -> Type :=
| OAcquire : DOp bool
| ODelegationStart (r : DelegationStartRequest) : DOp (result string DelegationHookResult)
| OPostDelegation (r : PostDelegationRequest) : DOp (result string DelegationHookResult)
| ODelegationFailure (r : DelegationFailureRequest) : DOp (result string DelegationHookResult)
| OSetStatus (id : string) (s : DelegationStatus) : DOp (option string)
| OUpdateDelegation (d : Delegation) : DOp (option string)
| OGetLlmConfig (session : string) : DOp (result string (option ParentLlmConfig))
| OParseEffort (v : Value) : DOp (result string (option ReasoningEffort))
| OGetSessionCwd (session : string) : DOp (result string (option (option string)))
| OCreateSession (cwd : option string) (parent : string) : DOp (result string string)
| ORoute (agent : string) : DOp (option RoutePolicy)
| OSetProviderNode (session node : string) : DOp (option string)
| OModelOverride (parent agent : string) : DOp (option DelegateModelOverride)
| OParseNode (node : string) : DOp (result string string)
| OSetModel (session model : string) (node : option string) : DOp (option string)
| OSetEffort (session : string) (e : option ReasoningEffort) : DOp (option string)
| OShutdownChild (session : string) : DOp unit
| OEmit (session : string) (k : AgentEventKind) : DOp unit
| OEffectiveHistory (session : string) : DOp (result string (list AgentMessage))
| OSummarize (history : list AgentMessage) (objective : string) : DOp (result string string)
| OSetPlanning (session summary : string) : DOp (option string)
  (** the prompt raced with the cancellation: [None] when it is taken *)
| OPrompt (session text : string) : DOp (option (result string StopReason))
| OCancelChild (session : string) : DOp unit
| OVerify (spec : VerificationSpec) (session : string) (task id : option string)
    (cwd : option string) : DOp (option string)
| OGetHistory (session : string) : DOp (result string (list AgentMessage))
| OPromptParent (session text : string) : DOp (option string)
| ORemoveActive (id : string) : DOp unit.

Inductive prog (A : Type) : Type :=
| Ret (a : A)
| Vis {B : Type} (o : DOp B) (k : B -> prog A).
Arguments Ret {A} a.
Arguments Vis {A B} o k.

Fixpoint prog_bind {A B} (p : prog A) (f : A -> prog B) : prog B :=
  match p with Ret a => f a | Vis o k => Vis o (fun b => prog_bind (k b) f) end.

#[global] Instance prog_mret : MRet prog := @Ret.
#[global] Instance prog_mbind : MBind prog := fun A B f p => prog_bind p f.

Definition op {B} (o : DOp B) : prog B := Vis o Ret.

Fixpoint each {A} (f : A -> prog unit) (l : list A) : prog unit :=
  match l with [] => Ret tt | x :: l' => f x ≫= fun _ => each f l' end.

(** ** Helpers of the execution *)

Definition emit_hook_notices (session : string) (notices : list HookNotice) : prog unit :=
  each (fun n => op (OEmit session
    (EvHookNotice (hn_event_name n) (hn_message n) (hn_is_error n)))) notices.

Definition build_delegation_prompt (d : Delegation) : string :=
  "Task: " +:+ del_objective d +:+ nl +:+
  match del_context d with Some c => "Context: " +:+ c +:+ nl | None => "" end +:+
  match del_constraints d with Some c => nl +:+ "Constraints: " +:+ c +:+ nl | None => "" end +:+
  match del_expected_output d with
  | Some e => nl +:+ "Expected Output: " +:+ e +:+ nl | None => "" end +:+
  nl +:+ "Please complete this task and summarize your work.".

Definition hook_context (session : string) (cwd : option string) : HookContext :=
  {| hc_session_id := session; hc_turn_id := ""; hc_cwd := cwd; hc_model := "";
     hc_permission_mode := "default" |}.

Definition inject_results (session id summary : string) : prog unit :=
  op (OPromptParent session (format_delegation_completion_message id summary)) ≫= fun _ => Ret tt.

Definition inject_failure (session id error : string) : prog unit :=
  op (OPromptParent session (format_delegation_failure_message id error)) ≫= fun _ => Ret tt.

(** [DelegationFailureContext] *)
Record FailureContext := {
  fx_config : DelegationOrchestratorConfig;
  fx_parent_session_id : string;
  fx_delegation_id : string;
  fx_target_agent_id : option string;
  fx_objective : option string;
}.

Definition blank_line : string := nl +:+ nl.

(** The message and the contexts the hook adds to it. *)
Definition with_contexts (message : string) (contexts : list string) : string :=
  match contexts with [] => message | _ => message +:+ blank_line +:+ join blank_line contexts end.

Definition failure_request (c : FailureContext) (error_message : string)
  : DelegationFailureRequest :=
  {| dfr_context := hook_context (fx_parent_session_id c) (doc_cwd (fx_config c));
     dfr_delegation_id := fx_delegation_id c;
     dfr_target_agent_id := default "" (fx_target_agent_id c);
     dfr_objective := default "" (fx_objective c);
     dfr_status := "failed"; dfr_error := error_message;
     dfr_error_type := fst (classify_delegation_error error_message) |}.

Definition fail_delegation (c : FailureContext) (error_message : string) : prog unit :=
  op (OSetStatus (fx_delegation_id c) DsFailed) ≫= fun _ =>
  hook ← op (ODelegationFailure (failure_request c error_message));
  message ← match hook with
            | Ok r => emit_hook_notices (fx_parent_session_id c) (dhr_notices r) ≫= fun _ =>
                      Ret (with_contexts error_message (dhr_additional_contexts r))
            | Err _ => Ret error_message
            end;
  op (OEmit (fx_parent_session_id c) (DelegationFailed (fx_delegation_id c) message)) ≫= fun _ =>
  if doc_inject_results (fx_config c)
  then inject_failure (fx_parent_session_id c) (fx_delegation_id c) message
  else Ret tt.

(** ** The execution of a delegation *)

Section execution.
Variables (config : DelegationOrchestratorConfig) (has_summarizer has_routing : bool).
(** the [{:?}] of a stop reason; [serde_json]'s reading of an effort is [OParseEffort] *)
Variable debug_stop_reason : StopReason -> string.
(** the summary of the child's history ([extract_session_summary_from_history]) *)
Variable extract_summary : list AgentMessage -> string.
Variables (parent : string) (d : Delegation).

Let id := del_public_id d.
Let agent := del_target_agent_id d.

Definition failure_context : FailureContext :=
  {| fx_config := config; fx_parent_session_id := parent; fx_delegation_id := id;
     fx_target_agent_id := Some agent; fx_objective := Some (del_objective d) |}.

Definition fail_and_remove (error_message : string) : prog unit :=
  fail_delegation failure_context error_message ≫= fun _ => op (ORemoveActive id).

(** The start hook: what it adds to the planning context. *)
Definition delegation_start : prog string :=
  hook ← op (ODelegationStart
    {| dsr_context := hook_context parent (doc_cwd config); dsr_delegation_id := id;
       dsr_target_agent_id := agent; dsr_objective := del_objective d;
       dsr_delegation_context := del_context d; dsr_constraints := del_constraints d;
       dsr_expected_output := del_expected_output d; dsr_status := "requested" |});
  match hook with
  | Ok r =>
      emit_hook_notices parent (dhr_notices r) ≫= fun _ =>
      Ret (match dhr_additional_contexts r with
           | [] => ""
           | l => blank_line +:+ "<hook-added-context>" +:+ nl +:+ join blank_line l +:+ nl +:+
                  "</hook-added-context>"
           end)
  | Err _ => Ret ""
  end.

(** [reasoning_effort_from_llm_config] *)
Definition reasoning_effort_from_llm_config (c : ParentLlmConfig)
  : prog (result string (option ReasoningEffort)) :=
  match (params ← plc_params c; value_get params "reasoning_effort") with
  | Some v => op (OParseEffort v)
  | None => Ret (Ok None)
  end.

Definition parent_reasoning_effort : prog (result string (option ReasoningEffort)) :=
  config ← op (OGetLlmConfig parent);
  match config with
  | Ok (Some c) =>
      r ← reasoning_effort_from_llm_config c;
      Ret (match r with
           | Ok e => Ok e
           | Err err => Err ("Failed to read reasoning effort from parent session '" +:+ parent +:+
                             "': " +:+ err)
           end)
  | Ok None => Ret (Err ("Parent session '" +:+ parent +:+ "' has no LLM configuration"))
  | Err err => Ret (Err ("Failed to load LLM configuration for parent session '" +:+ parent +:+
                         "': " +:+ err))
  end.

Definition effective_cwd : prog (option string) :=
  session ← op (OGetSessionCwd parent);
  Ret (match session with
       | Ok (Some (Some cwd)) => Some cwd
       | _ => doc_cwd config
       end).

Definition apply_routing (child : string) : prog unit :=
  if negb has_routing then Ret tt else
  policy ← op (ORoute agent);
  match policy with
  | Some p =>
      match rp_provider_is_peer p, rp_resolved_provider_node_id p with
      | true, Some node => op (OSetProviderNode child node) ≫= fun _ => Ret tt
      | _, _ => Ret tt
      end
  | None => Ret tt
  end.

(** The model override; the error is the message the delegation fails with. *)
Definition apply_model_override (child : string) : prog (result string unit) :=
  model_override ← op (OModelOverride parent agent);
  match model_override with
  | None => Ret (Ok tt)
  | Some m =>
      node ← match dmo_node_id m with
             | Some n =>
                 r ← op (OParseNode n);
                 Ret (match r with
                      | Ok n => Ok (Some n)
                      | Err err => Err ("Invalid provider node '" +:+ n +:+
                                        "' for delegate model override: " +:+ err)
                      end)
             | None => Ret (Ok None)
             end;
      match node with
      | Err e => Ret (Err e)
      | Ok node =>
          r ← op (OSetModel child (dmo_model_id m) node);
          Ret (match r with
               | None => Ok tt
               | Some err => Err ("Failed to apply model '" +:+ dmo_model_id m +:+
                                  "' to delegate '" +:+ agent +:+ "': " +:+ err)
               end)
      end
  end.

Definition set_planning_summary (summary : string) : Delegation :=
  {| del_id := del_id d; del_public_id := del_public_id d; del_session_id := del_session_id d;
     del_task_id := del_task_id d; del_target_agent_id := del_target_agent_id d;
     del_objective := del_objective d; del_objective_hash := del_objective_hash d;
     del_context := del_context d; del_constraints := del_constraints d;
     del_expected_output := del_expected_output d;
     del_verification_spec := del_verification_spec d; del_planning_summary := Some summary;
     del_status := del_status d; del_retry_count := del_retry_count d;
     del_created_at := del_created_at d; del_completed_at := del_completed_at d |}.

(** The planning summary, generated, persisted and injected. *)
Definition inject_planning (child additions : string) : prog unit :=
  if negb has_summarizer then Ret tt else
  history ← op (OEffectiveHistory parent);
  match history with
  | Err _ => Ret tt
  | Ok history =>
      summary ← op (OSummarize history (del_objective d));
      match summary with
      | Err _ => Ret tt
      | Ok summary =>
          op (OUpdateDelegation (set_planning_summary summary)) ≫= fun _ =>
          op (OSetPlanning child (blank_line +:+ "<planning-context>" +:+ nl +:+ summary +:+
                additions +:+ nl +:+ "</planning-context>")) ≫= fun _ => Ret tt
      end
  end.

Definition verification_passed : prog bool :=
  if negb (doc_run_verification config) then Ret true else
  match del_verification_spec d with
  | None => Ret true
  | Some spec =>
      r ← op (OVerify spec parent (dec_of_Z <$> del_task_id d) (Some id) (doc_cwd config));
      Ret (match r with None => true | Some _ => false end)
  end.

Definition finish_delegation (child : string) : prog unit :=
  passed ← verification_passed;
  if negb passed then
    fail_delegation failure_context
      "Verification failed: The changes did not pass the specified verification checks."
  else
    history ← op (OGetHistory child);
    let summary := match history with
                   | Ok h => extract_summary h
                   | Err _ => "Error extracting summary."
                   end in
    hook ← op (OPostDelegation
      {| pdr'_context := hook_context parent (doc_cwd config); pdr'_delegation_id := id;
         pdr'_target_agent_id := agent; pdr'_child_session_id := child;
         pdr'_objective := del_objective d; pdr'_status := "complete"; pdr'_summary := summary;
         pdr'_verification_passed := passed |});
    summary ← match hook with
              | Ok r => emit_hook_notices parent (dhr_notices r) ≫= fun _ =>
                        Ret (with_contexts summary (dhr_additional_contexts r))
              | Err _ => Ret summary
              end;
    op (OSetStatus id DsComplete) ≫= fun _ =>
    op (OEmit parent (DelegationCompleted id (Some summary))) ≫= fun _ =>
    (if doc_inject_results config then inject_results parent id summary else Ret tt) ≫= fun _ =>
    op (ORemoveActive id).

Definition cancel_delegation (child : string) : prog unit :=
  op (OCancelChild child) ≫= fun _ =>
  op (OSetStatus id DsCancelled) ≫= fun _ =>
  op (OEmit parent (DelegationCancelled id)) ≫= fun _ =>
  op (ORemoveActive id).

(** The prompt and what becomes of its answer. *)
Definition prompt_child (child : string) : prog unit :=
  answer ← op (OPrompt child (build_delegation_prompt d));
  match answer with
  | None => cancel_delegation child
  | Some (Ok EndTurn) => finish_delegation child
  | Some (Ok reason) =>
      fail_and_remove ("Delegate stopped prematurely: " +:+ debug_stop_reason reason)
  | Some (Err e) => fail_and_remove ("Delegation failed: " +:+ e)
  end.

(** The child's session: routing, model, reasoning effort, then the prompt. *)
Definition run_child (child additions : string) (effort : option ReasoningEffort) : prog unit :=
  apply_routing child ≫= fun _ =>
  overridden ← apply_model_override child;
  match overridden with
  | Err e => op (OShutdownChild child) ≫= fun _ => fail_and_remove e
  | Ok _ =>
      set ← op (OSetEffort child effort);
      match set with
      | Some err =>
          op (OShutdownChild child) ≫= fun _ =>
          fail_and_remove ("Failed to inherit reasoning effort for delegate '" +:+ agent +:+
                           "': " +:+ err)
      | None =>
          op (OEmit parent (SessionForked parent child agent FoDelegation FpProgressEntry id
                              (del_context d))) ≫= fun _ =>
          inject_planning child additions ≫= fun _ => prompt_child child
      end
  end.

Definition execute_delegation : prog unit :=
  additions ← delegation_start;
  op (OSetStatus id DsRunning) ≫= fun _ =>
  effort ← parent_reasoning_effort;
  match effort with
  | Err e => fail_and_remove e
  | Ok effort =>
      cwd ← effective_cwd;
      created ← op (OCreateSession cwd parent);
      match created with
      | Err e => fail_delegation failure_context ("Failed to create session via kameo: " +:+ e)
      | Ok child => run_child child additions effort
      end
  end.

(** The spawned task: the permit, then the execution when the agent has a handle. *)
Definition delegation_task (registered : bool) : prog unit :=
  permit ← op OAcquire;
  if negb permit then
    fail_delegation failure_context "Delegation queue closed before execution could start"
  else if (registered : bool) then execute_delegation
  else fail_delegation failure_context
    ("Agent '" +:+ agent +:+ "' is not registered with a handle. " +:+
     "Register it via register_handle() in the AgentRegistry.").

End execution.
(** ** The orchestrator *)

(** One operation with its answer. *)
Inductive OpCall :=
| Called {B : Type} (o : DOp B) (answer : B).

(** A spawned task: the permits it holds, released when it ends, and what it
    has still to do. *)
Record TaskSlot := {
  ts_permits : nat;
  ts_prog : prog unit;
}.

(** A delegation in progress: its parent session, its cancellation token and
    its join handle, [None] for the dummy that a session's cancellation leaves
    there.  A task's number serves for its token too. *)
Record ActiveDelegation := {
  ad_parent : string;
  ad_token : nat;
  ad_handle : option nat;
}.

Record OrchState := {
  os_permits : nat;
  os_active : gmap string ActiveDelegation;
  os_cancelled : gset nat;
  os_tasks : gmap nat TaskSlot;
  os_next : nat;
  (** what the listener is about to insert in the map, after the spawn *)
  os_pending : option (string * ActiveDelegation);
  (** handles that are aborted when the grace period ends *)
  os_reapers : list nat;
  os_status : gmap string DelegationStatus;
  os_events : list (string * AgentEventKind);
  (** history: what each task was spawned for, its operations, and the tasks
      that have returned *)
  os_requests : gmap nat (string * Delegation);
  os_log : list (nat * OpCall);
  os_returned : list nat;
}.

Definition orch_new (max_parallel : nat) (status : gmap string DelegationStatus) : OrchState :=
  {| os_permits := max_parallel; os_active := ∅; os_cancelled := ∅; os_tasks := ∅; os_next := 0;
     os_pending := None; os_reapers := []; os_status := status; os_events := [];
     os_requests := ∅; os_log := []; os_returned := [] |}.

Definition os_set_permits (f : nat -> nat) (s : OrchState) : OrchState :=
  {| os_permits := f (os_permits s); os_active := os_active s; os_cancelled := os_cancelled s;
     os_tasks := os_tasks s; os_next := os_next s; os_pending := os_pending s;
     os_reapers := os_reapers s; os_status := os_status s; os_events := os_events s;
     os_requests := os_requests s; os_log := os_log s; os_returned := os_returned s |}.
Definition os_set_active (f : gmap string ActiveDelegation -> gmap string ActiveDelegation) (s : OrchState) : OrchState :=
  {| os_permits := os_permits s; os_active := f (os_active s); os_cancelled := os_cancelled s;
     os_tasks := os_tasks s; os_next := os_next s; os_pending := os_pending s;
     os_reapers := os_reapers s; os_status := os_status s; os_events := os_events s;
     os_requests := os_requests s; os_log := os_log s; os_returned := os_returned s |}.
Definition os_set_cancelled (f : gset nat -> gset nat) (s : OrchState) : OrchState :=
  {| os_permits := os_permits s; os_active := os_active s; os_cancelled := f (os_cancelled s);
     os_tasks := os_tasks s; os_next := os_next s; os_pending := os_pending s;
     os_reapers := os_reapers s; os_status := os_status s; os_events := os_events s;
     os_requests := os_requests s; os_log := os_log s; os_returned := os_returned s |}.
Definition os_set_tasks (f : gmap nat TaskSlot -> gmap nat TaskSlot) (s : OrchState) : OrchState :=
  {| os_permits := os_permits s; os_active := os_active s; os_cancelled := os_cancelled s;
     os_tasks := f (os_tasks s); os_next := os_next s; os_pending := os_pending s;
     os_reapers := os_reapers s; os_status := os_status s; os_events := os_events s;
     os_requests := os_requests s; os_log := os_log s; os_returned := os_returned s |}.
Definition os_set_next (f : nat -> nat) (s : OrchState) : OrchState :=
  {| os_permits := os_permits s; os_active := os_active s; os_cancelled := os_cancelled s;
     os_tasks := os_tasks s; os_next := f (os_next s); os_pending := os_pending s;
     os_reapers := os_reapers s; os_status := os_status s; os_events := os_events s;
     os_requests := os_requests s; os_log := os_log s; os_returned := os_returned s |}.
Definition os_set_pending (f : option (string * ActiveDelegation) -> option (string * ActiveDelegation)) (s : OrchState) : OrchState :=
  {| os_permits := os_permits s; os_active := os_active s; os_cancelled := os_cancelled s;
     os_tasks := os_tasks s; os_next := os_next s; os_pending := f (os_pending s);
     os_reapers := os_reapers s; os_status := os_status s; os_events := os_events s;
     os_requests := os_requests s; os_log := os_log s; os_returned := os_returned s |}.
Definition os_set_reapers (f : list nat -> list nat) (s : OrchState) : OrchState :=
  {| os_permits := os_permits s; os_active := os_active s; os_cancelled := os_cancelled s;
     os_tasks := os_tasks s; os_next := os_next s; os_pending := os_pending s;
     os_reapers := f (os_reapers s); os_status := os_status s; os_events := os_events s;
     os_requests := os_requests s; os_log := os_log s; os_returned := os_returned s |}.
Definition os_set_status (f : gmap string DelegationStatus -> gmap string DelegationStatus) (s : OrchState) : OrchState :=
  {| os_permits := os_permits s; os_active := os_active s; os_cancelled := os_cancelled s;
     os_tasks := os_tasks s; os_next := os_next s; os_pending := os_pending s;
     os_reapers := os_reapers s; os_status := f (os_status s); os_events := os_events s;
     os_requests := os_requests s; os_log := os_log s; os_returned := os_returned s |}.
Definition os_set_events (f : list (string * AgentEventKind) -> list (string * AgentEventKind)) (s : OrchState) : OrchState :=
  {| os_permits := os_permits s; os_active := os_active s; os_cancelled := os_cancelled s;
     os_tasks := os_tasks s; os_next := os_next s; os_pending := os_pending s;
     os_reapers := os_reapers s; os_status := os_status s; os_events := f (os_events s);
     os_requests := os_requests s; os_log := os_log s; os_returned := os_returned s |}.
Definition os_set_requests (f : gmap nat (string * Delegation) -> gmap nat (string * Delegation)) (s : OrchState) : OrchState :=
  {| os_permits := os_permits s; os_active := os_active s; os_cancelled := os_cancelled s;
     os_tasks := os_tasks s; os_next := os_next s; os_pending := os_pending s;
     os_reapers := os_reapers s; os_status := os_status s; os_events := os_events s;
     os_requests := f (os_requests s); os_log := os_log s; os_returned := os_returned s |}.
Definition os_set_log (f : list (nat * OpCall) -> list (nat * OpCall)) (s : OrchState) : OrchState :=
  {| os_permits := os_permits s; os_active := os_active s; os_cancelled := os_cancelled s;
     os_tasks := os_tasks s; os_next := os_next s; os_pending := os_pending s;
     os_reapers := os_reapers s; os_status := os_status s; os_events := os_events s;
     os_requests := os_requests s; os_log := f (os_log s); os_returned := os_returned s |}.
Definition os_set_returned (f : list nat -> list nat) (s : OrchState) : OrchState :=
  {| os_permits := os_permits s; os_active := os_active s; os_cancelled := os_cancelled s;
     os_tasks := os_tasks s; os_next := os_next s; os_pending := os_pending s;
     os_reapers := os_reapers s; os_status := os_status s; os_events := os_events s;
     os_requests := os_requests s; os_log := os_log s; os_returned := f (os_returned s) |}.
Section orchestrator.
Variables (config : DelegationOrchestratorConfig) (has_summarizer has_routing : bool).
Variable debug_stop_reason : StopReason -> string.
Variable extract_summary : list AgentMessage -> string.
(** the agents with a handle *)
Variable registered : string -> bool.

Definition spawn_delegation (parent : string) (d : Delegation) (s : OrchState) : OrchState :=
  let h := os_next s in
  let p := delegation_task config has_summarizer has_routing debug_stop_reason extract_summary
             parent d (registered (del_target_agent_id d)) in
  os_set_next S
    (os_set_requests (insert h (parent, d))
      (os_set_pending (fun _ => Some (del_public_id d,
          {| ad_parent := parent; ad_token := h; ad_handle := Some h |}))
        (os_set_tasks (insert h {| ts_permits := 0; ts_prog := p |}) s))).

(** The semaphore gives a permit when it has one; it is never closed.  The
    prompt's cancellation branch needs the token. *)
Definition op_allowed (h : nat) {B} (o : DOp B) : B -> OrchState -> Prop :=
  match o with
  | OAcquire => fun b s => b = true /\ (0 < os_permits s)%nat
  | OPrompt _ _ => fun b s => b = None -> h ∈ os_cancelled s
  | _ => fun _ _ => True
  end.

(** The effect of an operation on what the tasks share. *)
Definition op_effect {B} (o : DOp B) : B -> OrchState -> OrchState :=
  match o with
  | OAcquire => fun _ => os_set_permits pred
  | OSetStatus id st => fun b s =>
      match b with None => os_set_status (alter (fun _ => st) id) s | Some _ => s end
  | OEmit session k => fun _ => os_set_events (fun l => l ++ [(session, k)])
  | ORemoveActive id => fun _ => os_set_active (delete id)
  | _ => fun _ s => s
  end.

Definition permits_taken {B} (o : DOp B) : nat := match o with OAcquire => 1 | _ => 0 end.

Definition do_op (h : nat) (slot : TaskSlot) {B} (o : DOp B) (k : B -> prog unit) (b : B)
    (s : OrchState) : OrchState :=
  os_set_log (fun l => l ++ [(h, Called o b)])
    (os_set_tasks (insert h {| ts_permits := (ts_permits slot + permits_taken o)%nat;
                               ts_prog := k b |})
      (op_effect o b s)).

(** A task ends and its permits return to the semaphore. *)
Definition end_task (h : nat) (slot : TaskSlot) (s : OrchState) : OrchState :=
  os_set_permits (fun n => (n + ts_permits slot)%nat) (os_set_tasks (delete h) s).

Definition cancel_requested (id : string) (a : ActiveDelegation) (s : OrchState) : OrchState :=
  os_set_reapers (fun l => match ad_handle a with Some h => h :: l | None => l end)
    (os_set_cancelled (fun c => {[ad_token a]} ∪ c) (os_set_active (delete id) s)).

Definition of_session (session : string) (a : ActiveDelegation) : bool :=
  String.eqb (ad_parent a) session.

Definition without_handle (session : string) (a : ActiveDelegation) : ActiveDelegation :=
  if of_session session a
  then {| ad_parent := ad_parent a; ad_token := ad_token a; ad_handle := None |} else a.

(** Every delegation of the session is cancelled and its handle taken. *)
Definition session_cancelled (session : string) (s : OrchState) : OrchState :=
  let mine := List.filter (of_session session) (map snd (map_to_list (os_active s))) in
  os_set_reapers (fun l => omap ad_handle mine ++ l)
    (os_set_cancelled (fun c => list_to_set (map ad_token mine) ∪ c)
      (os_set_active (fmap (without_handle session)) s)).

Inductive orch_step : OrchState -> OrchState -> Prop :=
| OsRequested parent d s :
    os_pending s = None -> orch_step s (spawn_delegation parent d s)
| OsInsert id a s :
    os_pending s = Some (id, a) ->
    orch_step s (os_set_active (insert id a) (os_set_pending (fun _ => None) s))
| OsCancelRequested id a s :
    os_pending s = None -> os_active s !! id = Some a -> orch_step s (cancel_requested id a s)
| OsSessionCancelled session s :
    os_pending s = None -> orch_step s (session_cancelled session s)
| OsOp h slot B (o : DOp B) k b s :
    os_tasks s !! h = Some slot -> ts_prog slot = Vis o k -> op_allowed h o b s ->
    orch_step s (do_op h slot o k b s)
| OsReturn h slot s :
    os_tasks s !! h = Some slot -> ts_prog slot = Ret tt ->
    orch_step s (os_set_returned (cons h) (end_task h slot s))
| OsAbort h slot s :
    In h (os_reapers s) -> os_tasks s !! h = Some slot -> orch_step s (end_task h slot s)
| OsOther status s : orch_step s (os_set_status (fun _ => status) s).

End orchestrator.
End delegations.
Arguments Ret {J A} a.
Arguments Vis {J A B} o k.

(** ** The texts of a delegation *)



Section text.
Context {J : Json}.

(** ** The delegate's results *)

Definition arg_str (v : Value) (key : string) : string := default "" (value_get_str v key).

Definition extract_tool_args_preview (tool_name args_json : string) : string :=
  match from_str args_json with
  | Err _ => ""
  | Ok args =>
      if bool_decide (tool_name ∈ ["write_file"; "read_tool"; "delete_file"])
      then arg_str args "path"
      else if bool_decide (tool_name ∈ ["web_fetch"; "browse"]) then arg_str args "url"
      else if bool_decide (tool_name = "shell") then arg_str args "command"
      else ""
  end.

(** What a history is read for. *)
Record SummaryParts := {
  sp_tools_used : list string;
  sp_files_modified : list string;
  sp_patches : list string;
  sp_agent_responses : list string;
}.

Definition summary_parts_empty : SummaryParts :=
  {| sp_tools_used := []; sp_files_modified := []; sp_patches := []; sp_agent_responses := [] |}.

(** The path a [write_file] or [delete_file] result names. *)
Definition modified_path (tool_name args : string) : option string :=
  if bool_decide (tool_name ∈ ["write_file"; "delete_file"])
  then match from_str args with Ok v => value_get_str v "path" | Err _ => None end
  else None.

Definition summary_part (role : ChatRole) (a : SummaryParts) (p : MessagePart) : SummaryParts :=
  match p with
  | MpToolUse tc =>
      {| sp_tools_used := sp_tools_used a ++
           [tc_name tc +:+ " (" +:+ extract_tool_args_preview (tc_name tc) (tc_arguments tc)
            +:+ ")"];
         sp_files_modified := sp_files_modified a; sp_patches := sp_patches a;
         sp_agent_responses := sp_agent_responses a |}
  | MpToolResult _ _ _ (Some name) (Some args) _ =>
      match modified_path name args with
      | Some path =>
          if bool_decide (path ∈ sp_files_modified a) then a else
          {| sp_tools_used := sp_tools_used a;
             sp_files_modified := sp_files_modified a ++ [path]; sp_patches := sp_patches a;
             sp_agent_responses := sp_agent_responses a |}
      | None => a
      end
  | MpPatch _ files diff =>
      {| sp_tools_used := sp_tools_used a; sp_files_modified := sp_files_modified a;
         sp_patches := sp_patches a ++
           ["Files: " +:+ join ", " files +:+ nl +:+ nl +:+ diff];
         sp_agent_responses := sp_agent_responses a |}
  | MpText content =>
      if bool_decide (role = Assistant) && negb (is_empty_str (trim content)) then
        {| sp_tools_used := sp_tools_used a; sp_files_modified := sp_files_modified a;
           sp_patches := sp_patches a; sp_agent_responses := sp_agent_responses a ++ [content] |}
      else a
  | _ => a
  end.

Definition summary_parts (history : list AgentMessage) : SummaryParts :=
  fold_left (fun a m => fold_left (summary_part (am_role m)) (am_parts m) a)
    history summary_parts_empty.

Definition bullet_section (title : string) (items : list string) : string :=
  match items with
  | [] => ""
  | _ => title +:+ nl +:+ sconcat (map (fun i => "  - " +:+ i +:+ nl) items) +:+ nl
  end.

Fixpoint patch_entries (i : nat) (patches : list string) : string :=
  match patches with
  | [] => ""
  | p :: rest =>
      "Patch " +:+ nat_dec i +:+ ":" +:+ nl +:+ p +:+ nl +:+ nl +:+ patch_entries (S i) rest
  end.

Definition extract_session_summary_from_history (history : list AgentMessage) : string :=
  let a := summary_parts history in
  "=== Delegate Agent Results ===" +:+ nl +:+ nl +:+
  bullet_section "Tools used:" (sp_tools_used a) +:+
  bullet_section "Files modified:" (sp_files_modified a) +:+
  match sp_patches a with
  | [] => ""
  | l => "Patches applied:" +:+ nl +:+ nl +:+ patch_entries 1 l
  end +:+
  match last (sp_agent_responses a) with
  | Some response => "Agent's summary:" +:+ nl +:+ response +:+ nl
  | None => ""
  end +:+
  match sp_tools_used a, sp_files_modified a, sp_patches a with
  | [], [], [] => "(No modifications made)" +:+ nl
  | _, _, _ => ""
  end.

(** ** The brief of the parent's history *)

Definition summary_token_cost (p : MessagePart) : Z :=
  match p with
  | MpText content => estimate_simple content
  | MpPrompt blocks => estimate_simple (render_prompt_for_llm blocks None)
  | MpToolResult _ content _ _ _ _ => estimate_simple (join nl (omap as_text content))
  | MpReasoning content _ _ => estimate_simple content
  | MpCompaction summary _ => estimate_simple summary
  | _ => 0
  end.

Definition estimate_history_tokens (history : list AgentMessage) : Z :=
  foldr usize_add 0
    (map (fun m => foldr usize_add 0 (map summary_token_cost (am_parts m))) history).

Definition compaction_summary (p : MessagePart) : option string :=
  match p with MpCompaction summary _ => Some summary | _ => None end.

(** The summary of a compaction that ends the history. *)
Definition compaction_as_summary (history : list AgentMessage) : option string :=
  m ← last history; head (omap compaction_summary (am_parts m)).

Definition extract_text_content (m : AgentMessage) : string :=
  join nl (omap (fun p => match p with
                          | MpText content => Some content
                          | MpPrompt blocks => Some (render_prompt_for_display blocks)
                          | _ => None
                          end) (am_parts m)).

(** [&s[..s.floor_char_boundary(n)]] followed by dots, when [s] is longer. *)
Definition elide (n : nat) (s : string) : string :=
  if (n <? slen s)%nat then str_take (boundary_down s n) s +:+ "..." else s.

Definition summarize_tool_args (input : Value) : string :=
  match value_get_str input "path" with
  | Some path => path
  | None =>
  match value_get_str input "pattern" with
  | Some pattern => pattern
  | None =>
  match value_get_str input "filePath" with
  | Some file_path => file_path
  | None =>
  match value_get_str input "command" with
  | Some command => elide 100 command
  | None => elide 200 (value_to_string input)
  end end end end.

Definition planner_line (p : MessagePart) : string :=
  match p with
  | MpText content => nl +:+ "[Planner]: " +:+ content +:+ nl
  | MpPrompt blocks =>
      let display := render_prompt_for_display blocks in
      if is_empty_str (trim display) then "" else nl +:+ "[Planner]: " +:+ display +:+ nl
  | MpToolUse tu =>
      let args := match from_str (tc_arguments tu) with
                  | Ok v => summarize_tool_args v
                  | Err _ => tc_arguments tu
                  end in
      nl +:+ "[Tool Call]: " +:+ tc_name tu +:+ " (" +:+ args +:+ ")" +:+ nl
  | MpCompaction summary _ => nl +:+ "[Previous Context Summary]: " +:+ summary +:+ nl
  | _ => ""
  end.

Definition conversation_entry (m : AgentMessage) : string :=
  match am_role m with
  | User => nl +:+ "[User]: " +:+ extract_text_content m +:+ nl
  | Assistant => sconcat (map planner_line (am_parts m))
  end.

Definition format_conversation (history : list AgentMessage) (objective : string) : string :=
  "Delegation objective: " +:+ objective +:+ nl +:+ nl +:+ "Planning conversation:" +:+ nl +:+
  sconcat (map conversation_entry history).

Definition prepare_llm_input (history : list AgentMessage) (objective : string) : string :=
  join nl [
    "You are a technical brief writer. A planning agent had the following \";
    "conversation while researching a task. The task will now be delegated \";
    "to a coding agent for implementation."; "";
    format_conversation history objective; "";
    "Write a structured Implementation Brief for the coding agent. Include:";
    "1. **Objective** — one clear sentence";
    "2. **Key Decisions** — what was decided during planning";
    "3. **Files to Modify** — specific file paths and what to change in each";
    "4. **Patterns to Follow** — code patterns, conventions, or reference implementations found";
    "5. **Constraints** — technical constraints, user preferences, things to avoid";
    "6. **Implementation Steps** — ordered list of concrete steps"; "";
    "Be specific. Include file paths, function names, and code patterns \";
    "the planner discovered. The coding agent has no access to this \";
    "planning conversation."].

(** The model's answer to one user message, under the timeout: [None] when it
    has elapsed, an error, or the text of the response, if it has one. *)
Definition ChatAnswer : Type := option (result string (option string)).

(** [DelegationSummarizer::summarize] *)
Definition summarize_history (min_history_tokens timeout_secs : Z) (chat : string -> ChatAnswer)
    (history : list AgentMessage) (objective : string) : result string string :=
  match compaction_as_summary history with
  | Some summary => Ok summary
  | None =>
      if estimate_history_tokens history <? min_history_tokens
      then Ok (format_conversation history objective)
      else
        match chat (prepare_llm_input history objective) with
        | None => Err ("Invalid operation: Delegation summary generation timed out after " +:+
                       dec_of_Z timeout_secs +:+ " seconds")
        | Some (Err e) =>
            Err ("Invalid operation: Delegation summary LLM call failed: " +:+ e)
        | Some (Ok text) => Ok (default "No summary generated" text)
        end
  end.
End text.
