(* ===== verification/DelegationSpec.v ===== *)
(** The outcome of a delegation: a scan of a task's operations ([Scan]), what
    holds at the end of every path of its program ([settled]), and the
    invariants of the orchestrator over every interleaving. *)
From S2P Require Import Prelude Numbers Text Json Chat Domain Events Model Hooks AgentConfig.
From S2P Require Import Wait Delegations.

Local Open Scope Z_scope.

Section spec.
Context {J : Json}.

(** ** Scanning the operations of one task *)

Record Scan := {
  sc_outcomes : list (string * AgentEventKind);
  sc_status : option (string * DelegationStatus);
  sc_effort : bool;
  sc_answers : list (option (result string StopReason));
  (** the child was prompted before its reasoning effort was set *)
  sc_early : bool;
}.

Definition scan_empty : Scan :=
  {| sc_outcomes := []; sc_status := None; sc_effort := false; sc_answers := [];
     sc_early := false |}.

Definition is_outcome (k : AgentEventKind) : bool :=
  match k with
  | DelegationCompleted _ _ | DelegationFailed _ _ | DelegationCancelled _ => true
  | _ => false
  end.

Definition scan_emit (session : string) (k : AgentEventKind) (s : Scan) : Scan :=
  if is_outcome k
  then {| sc_outcomes := sc_outcomes s ++ [(session, k)]; sc_status := sc_status s;
          sc_effort := sc_effort s; sc_answers := sc_answers s; sc_early := sc_early s |}
  else s.

Definition scan_op {B} (o : DOp B) : B -> Scan -> Scan :=
  match o with
  | OEmit session k => fun _ s => scan_emit session k s
  | OSetStatus id st => fun _ s =>
      {| sc_outcomes := sc_outcomes s; sc_status := Some (id, st); sc_effort := sc_effort s;
         sc_answers := sc_answers s; sc_early := sc_early s |}
  | OSetEffort _ _ => fun b s =>
      {| sc_outcomes := sc_outcomes s; sc_status := sc_status s;
         sc_effort := match b with None => true | Some _ => sc_effort s end;
         sc_answers := sc_answers s; sc_early := sc_early s |}
  | OPrompt _ _ => fun b s =>
      {| sc_outcomes := sc_outcomes s; sc_status := sc_status s; sc_effort := sc_effort s;
         sc_answers := sc_answers s ++ [b]; sc_early := sc_early s || negb (sc_effort s) |}
  | _ => fun _ s => s
  end.

(** The end of a delegation: one outcome, the status written last agrees with
    it, and it is the one the child's answer calls for. *)
Definition failed_outcome (parent id : string) (s : Scan) : Prop :=
  exists m, sc_outcomes s = [(parent, DelegationFailed id m)] /\ sc_status s = Some (id, DsFailed).

Definition settled (parent : string) (d : Delegation) (s : Scan) : Prop :=
  let id := del_public_id d in
  sc_early s = false /\
  match sc_answers s with
  | [] => failed_outcome parent id s
  | [None] => sc_outcomes s = [(parent, DelegationCancelled id)] /\
              sc_status s = Some (id, DsCancelled)
  | [Some (Ok EndTurn)] =>
      failed_outcome parent id s \/
      exists r, sc_outcomes s = [(parent, DelegationCompleted id (Some r))] /\
                sc_status s = Some (id, DsComplete)
  | [Some _] => failed_outcome parent id s
  | _ => False
  end.

(** [Q] holds at the end of every path of a program, whatever its operations
    answer. *)
Fixpoint paths {A} (Q : Scan -> A -> Prop) (s : Scan) (p : prog A) : Prop :=
  match p with
  | Ret a => Q s a
  | Vis o k => forall b, paths Q (scan_op o b s) (k b)
  end.

Lemma paths_mono {A} (Q Q' : Scan -> A -> Prop) p s :
  (forall s a, Q s a -> Q' s a) -> paths Q s p -> paths Q' s p.
Proof. intros H. revert s. induction p as [a|B o k IH]; cbn; auto. Qed.

Lemma paths_bind {A B} (Q : Scan -> B -> Prop) (p : prog A) (f : A -> prog B) s :
  paths (fun s a => paths Q s (f a)) s p -> paths Q s (p ≫= f).
Proof.
  revert s. induction p as [a|C o k IH]; intros s H; [exact H|]. intros b. apply IH, H.
Qed.

Lemma paths_op {A B} (Q : Scan -> A -> Prop) (o : DOp B) (f : B -> prog A) s :
  (forall b, paths Q (scan_op o b s) (f b)) -> paths Q s (op o ≫= f).
Proof. auto. Qed.

Lemma paths_ret {A} (Q : Scan -> A -> Prop) a s : Q s a -> paths Q s (Ret a).
Proof. auto. Qed.

(** ** What the parts leave in the scan *)

Lemma paths_notices (Q : Scan -> unit -> Prop) session l s :
  Q s tt -> paths Q s (emit_hook_notices session l).
Proof.
  intros H. unfold emit_hook_notices. induction l as [|n l1 IH]; [exact H|].
  cbn [each]. apply paths_op. intros ?. exact IH.
Qed.

Definition scan_status (id : string) (st : DelegationStatus) (s : Scan) : Scan :=
  scan_op (OSetStatus id st) None s.

Lemma paths_fail (Q : Scan -> unit -> Prop) c m s :
  (forall m, Q (scan_emit (fx_parent_session_id c) (DelegationFailed (fx_delegation_id c) m)
                  (scan_status (fx_delegation_id c) DsFailed s)) tt) ->
  paths Q s (fail_delegation c m).
Proof.
  intros H. unfold fail_delegation. apply paths_op. intros ?. apply paths_op. intros hook.
  assert (Hend : forall m, paths Q (scan_status (fx_delegation_id c) DsFailed s)
    (op (OEmit (fx_parent_session_id c) (DelegationFailed (fx_delegation_id c) m)) ≫= fun _ =>
     if doc_inject_results (fx_config c)
     then inject_failure (fx_parent_session_id c) (fx_delegation_id c) m else Ret tt)).
  { intros m'. apply paths_op. intros ?. specialize (H m').
    destruct (doc_inject_results _); [|exact H]. unfold inject_failure. apply paths_op. intros ?.
    exact H. }
  apply paths_bind. destruct hook as [r|e].
  - apply paths_bind. apply paths_notices. apply paths_ret. apply Hend.
  - apply paths_ret. apply Hend.
Qed.

Section task.
Variables (config : DelegationOrchestratorConfig) (has_summarizer has_routing : bool).
Variable debug_stop_reason : StopReason -> string.
Variable extract_summary : list AgentMessage -> string.
Variables (parent : string) (d : Delegation).

Definition done_ (s : Scan) (_ : unit) : Prop := settled parent d s.

(** Before the prompt: nothing but the status has been written. *)
Definition fresh_scan (effort : bool) (s : Scan) : Prop :=
  sc_outcomes s = [] /\ sc_answers s = [] /\ sc_early s = false /\ sc_effort s = effort.

Lemma fail_fresh m e s : fresh_scan e s ->
  paths done_ s (fail_delegation (failure_context config parent d) m).
Proof.
  intros (Ho & Ha & He & _). apply paths_fail. intros m'. unfold done_, settled. cbn.
  rewrite Ha, He, Ho. split; [done|]. by exists m'.
Qed.

Lemma fail_remove_fresh m e s : fresh_scan e s ->
  paths done_ s (fail_and_remove config parent d m).
Proof.
  intros H. unfold fail_and_remove. apply paths_bind. eapply paths_mono; [|by eapply fail_fresh].
  intros s' [] Hs. intros b. exact Hs.
Qed.

(** After the prompt has been answered. *)
Definition answered (b : option (result string StopReason)) (s : Scan) : Prop :=
  sc_outcomes s = [] /\ sc_answers s = [b] /\ sc_early s = false.

Lemma fail_answered b m s : answered (Some b) s ->
  paths done_ s (fail_delegation (failure_context config parent d) m).
Proof.
  intros (Ho & Ha & He). apply paths_fail. intros m'. unfold done_, settled. cbn.
  rewrite Ha, He, Ho. split; [done|].
  assert (exists m, [(parent, DelegationFailed (del_public_id d) m')] =
                    [(parent, DelegationFailed (del_public_id d) m)] /\
     Some (del_public_id d, DsFailed) = Some (del_public_id d, DsFailed)) as Hf by by exists m'.
  destruct b as [[]|]; auto.
Qed.

Lemma fail_remove_answered b m s : answered (Some b) s ->
  paths done_ s (fail_and_remove config parent d m).
Proof.
  intros H. unfold fail_and_remove. apply paths_bind.
  eapply paths_mono; [|by eapply fail_answered]. intros s' [] Hs. intros x. exact Hs.
Qed.

Lemma finish_settles child s : answered (Some (Ok EndTurn)) s ->
  paths done_ s (finish_delegation config extract_summary parent d child).
Proof.
  intros H. unfold finish_delegation, verification_passed. apply paths_bind.
  assert (Hmain : forall passed : bool, paths done_ s
    (if negb passed then fail_delegation (failure_context config parent d)
       "Verification failed: The changes did not pass the specified verification checks."
     else
      history ← op (OGetHistory child);
      let summary := match history with
                     | Ok h => extract_summary h | Err _ => "Error extracting summary." end in
      hook ← op (OPostDelegation
        {| pdr'_context := hook_context parent (doc_cwd config);
           pdr'_delegation_id := del_public_id d; pdr'_target_agent_id := del_target_agent_id d;
           pdr'_child_session_id := child; pdr'_objective := del_objective d;
           pdr'_status := "complete"; pdr'_summary := summary;
           pdr'_verification_passed := passed |});
      summary ← match hook with
                | Ok r => emit_hook_notices parent (dhr_notices r) ≫= fun _ =>
                          Ret (with_contexts summary (dhr_additional_contexts r))
                | Err _ => Ret summary
                end;
      op (OSetStatus (del_public_id d) DsComplete) ≫= fun _ =>
      op (OEmit parent (DelegationCompleted (del_public_id d) (Some summary))) ≫= fun _ =>
      (if doc_inject_results config then inject_results parent (del_public_id d) summary
       else Ret tt) ≫= fun _ => op (ORemoveActive (del_public_id d)))).
  { intros [|]; cbn [negb]; [|by eapply fail_answered]. destruct H as (Ho & Ha & He).
    apply paths_op. intros history. cbn zeta. apply paths_op. intros hook. apply paths_bind.
    assert (Hend : forall summary, paths done_ s
      (op (OSetStatus (del_public_id d) DsComplete) ≫= fun _ =>
       op (OEmit parent (DelegationCompleted (del_public_id d) (Some summary))) ≫= fun _ =>
       (if doc_inject_results config then inject_results parent (del_public_id d) summary
        else Ret tt) ≫= fun _ => op (ORemoveActive (del_public_id d)))).
    { intros summary. apply paths_op. intros ?. apply paths_op. intros ?. apply paths_bind.
      assert (done_ (scan_emit parent (DelegationCompleted (del_public_id d) (Some summary))
                       (scan_status (del_public_id d) DsComplete s)) tt) as Hd.
      { unfold done_, settled. cbn. rewrite Ha, He, Ho. split; [done|]. right. by exists summary. }
      destruct (doc_inject_results config).
      - unfold inject_results. apply paths_op. intros ?. apply paths_ret. intros ?. exact Hd.
      - apply paths_ret. intros ?. exact Hd. }
    destruct hook as [r|e].
    - apply paths_bind, paths_notices, paths_ret, Hend.
    - apply paths_ret, Hend. }
  destruct (doc_run_verification config); cbn [negb]; [|apply paths_ret, Hmain].
  destruct (del_verification_spec d) as [spec|]; [|apply paths_ret, Hmain].
  apply paths_op. intros r. apply paths_ret, Hmain.
Qed.

Lemma prompt_settles child s : fresh_scan true s ->
  paths done_ s (prompt_child config debug_stop_reason extract_summary parent d child).
Proof.
  intros (Ho & Ha & He & Hf). unfold prompt_child. apply paths_op. intros b.
  assert (answered b (scan_op (OPrompt child (build_delegation_prompt d)) b s)) as H.
  { unfold answered. cbn. by rewrite Ho, Ha, He, Hf. }
  destruct b as [[[]|e]|].
  - by apply finish_settles.
  - by eapply fail_remove_answered.
  - by eapply fail_remove_answered.
  - by eapply fail_remove_answered.
  - by eapply fail_remove_answered.
  - destruct H as (Ho' & Ha' & He'). unfold cancel_delegation.
    apply paths_op. intros ?. apply paths_op. intros ?. apply paths_op. intros ?. intros ?.
    unfold done_, settled. cbn in *. by rewrite Ha', He', Ho'.
Qed.

Lemma routing_fresh child (Q : Scan -> unit -> Prop) s :
  Q s tt -> paths Q s (apply_routing has_routing d child).
Proof.
  intros H. unfold apply_routing. destruct has_routing; cbn [negb]; [|exact H].
  apply paths_op. intros [[[|] [n|]]|]; cbn; auto.
Qed.

Lemma override_fresh child (Q : Scan -> result string unit -> Prop) s :
  (forall r, Q s r) -> paths Q s (apply_model_override parent d child).
Proof.
  intros H. unfold apply_model_override. apply paths_op. intros [m|]; [|apply paths_ret, H].
  apply paths_bind. destruct (dmo_node_id m) as [n|].
  - apply paths_op. intros [node|e]; apply paths_ret.
    + apply paths_op. intros r. apply paths_ret, H.
    + apply paths_ret, H.
  - apply paths_ret. apply paths_op. intros r. apply paths_ret, H.
Qed.

Lemma planning_fresh child additions (Q : Scan -> unit -> Prop) s :
  Q s tt -> paths Q s (inject_planning has_summarizer parent d child additions).
Proof.
  intros H. unfold inject_planning. destruct has_summarizer; cbn [negb]; [|exact H].
  apply paths_op. intros [h|e]; [|exact H]. apply paths_op. intros [sm|e]; [|exact H].
  apply paths_op. intros ?. apply paths_op. intros ?. exact H.
Qed.

Lemma run_child_settles child additions effort s : fresh_scan false s ->
  paths done_ s (run_child config has_summarizer has_routing debug_stop_reason extract_summary
                   parent d child additions effort).
Proof.
  intros H. unfold run_child. apply paths_bind, routing_fresh, paths_bind, override_fresh.
  intros [[]|e].
  - apply paths_op. intros [err|].
    + apply paths_op. intros ?. by eapply fail_remove_fresh.
    + apply paths_op. intros ?. apply paths_bind, planning_fresh, prompt_settles.
      destruct H as (Ho & Ha & He & _). by repeat split.
  - apply paths_op. intros ?. by eapply fail_remove_fresh.
Qed.

Lemma execute_settles s : fresh_scan false s ->
  paths done_ s (execute_delegation config has_summarizer has_routing debug_stop_reason
                   extract_summary parent d).
Proof.
  intros H. unfold execute_delegation. apply paths_bind.
  assert (Hrest : forall additions, paths done_ s
    (op (OSetStatus (del_public_id d) DsRunning) ≫= fun _ =>
     effort ← parent_reasoning_effort parent;
     match effort with
     | Err e => fail_and_remove config parent d e
     | Ok effort =>
         cwd ← effective_cwd config parent;
         created ← op (OCreateSession cwd parent);
         match created with
         | Err e => fail_delegation (failure_context config parent d)
                      ("Failed to create session via kameo: " +:+ e)
         | Ok child => run_child config has_summarizer has_routing debug_stop_reason
                         extract_summary parent d child additions effort
         end
     end)).
  { intros additions. apply paths_op. intros r.
    assert (fresh_scan false (scan_op (OSetStatus (del_public_id d) DsRunning) r s)) as H1
      by exact H. revert H1. generalize (scan_op (OSetStatus (del_public_id d) DsRunning) r s).
    intros s1 H1. apply paths_bind. unfold parent_reasoning_effort.
    assert (Hk : forall s2 (e : result string (option ReasoningEffort)), fresh_scan false s2 ->
      paths done_ s2
      match e with
      | Err e => fail_and_remove config parent d e
      | Ok effort =>
         cwd ← effective_cwd config parent;
         created ← op (OCreateSession cwd parent);
         match created with
         | Err e => fail_delegation (failure_context config parent d)
                      ("Failed to create session via kameo: " +:+ e)
         | Ok child => run_child config has_summarizer has_routing debug_stop_reason
                         extract_summary parent d child additions effort
         end
      end).
    { clear s1 H1. intros s1 [effort|e] H1; [|by eapply fail_remove_fresh]. unfold effective_cwd.
      apply paths_bind, paths_op. intros cwd. apply paths_ret. apply paths_op.
      intros [child|e]; [by apply run_child_settles|by eapply fail_fresh]. }
    apply paths_op. intros [[c|]|e].
    - apply paths_bind. unfold reasoning_effort_from_llm_config.
      destruct (plc_params c ≫= _); [intros [e|e]|]; apply paths_ret, paths_ret;
        [exact (Hk _ (Ok e) H1)|exact (Hk _ (Err _) H1)|exact (Hk _ (Ok None) H1)].
    - apply paths_ret. exact (Hk _ (Err _) H1).
    - apply paths_ret. exact (Hk _ (Err _) H1). }
  unfold delegation_start. apply paths_op. intros [r|e].
  - apply paths_bind, paths_notices, paths_ret, Hrest.
  - apply paths_ret, Hrest.
Qed.

Lemma task_settles registered :
  paths done_ scan_empty (delegation_task config has_summarizer has_routing debug_stop_reason
                            extract_summary parent d registered).
Proof.
  assert (fresh_scan false scan_empty) as H by by repeat split.
  unfold delegation_task. apply paths_op. intros [|]; cbn [negb].
  - destruct registered; [by apply execute_settles|by eapply fail_fresh].
  - by eapply fail_fresh.
Qed.

End task.

(** ** The orchestrator's invariant *)

Definition scan_call (c : OpCall) (s : Scan) : Scan :=
  match c with Called o b => scan_op o b s end.

(** The scan of one task's operations in the history. *)
Definition scan_log (h : nat) (log : list (nat * OpCall)) : Scan :=
  fold_left (fun s e => if (e.1 =? h)%nat then scan_call e.2 s else s) log scan_empty.

Arguments scan_log : simpl never.

Lemma scan_log_snoc h log h' c :
  scan_log h (log ++ [(h', c)]) =
  if (h' =? h)%nat then scan_call c (scan_log h log) else scan_log h log.
Proof. unfold scan_log. by rewrite fold_left_app. Qed.

(** The program of a task that still waits for its permit. *)
Definition waits_for_permit (p : prog unit) : bool :=
  match p with Vis o _ => (permits_taken o =? 1)%nat | Ret _ => false end.

Definition held (tasks : gmap nat TaskSlot) : nat :=
  sum_list_with (fun kv => ts_permits kv.2) (map_to_list tasks).

Lemma held_insert_fresh h slot m :
  m !! h = None -> held (<[h:=slot]> m) = (ts_permits slot + held m)%nat.
Proof. intros H. unfold held. by rewrite map_to_list_insert. Qed.

Lemma held_delete h slot m :
  m !! h = Some slot -> held m = (ts_permits slot + held (delete h m))%nat.
Proof.
  intros H. rewrite <- (insert_delete_id m h slot H) at 1.
  apply held_insert_fresh, lookup_delete_eq.
Qed.

Lemma held_replace h slot slot' m :
  m !! h = Some slot ->
  (held (<[h:=slot']> m) + ts_permits slot = held m + ts_permits slot')%nat.
Proof.
  intros H. rewrite (held_delete h slot m H), <- insert_delete_eq, held_insert_fresh
    by apply lookup_delete_eq. lia.
Qed.

Section invariant.
Variables (config : DelegationOrchestratorConfig) (has_summarizer has_routing : bool).
Variable debug_stop_reason : StopReason -> string.
Variable extract_summary : list AgentMessage -> string.
Variable registered : string -> bool.
Variable max_parallel : nat.

Let step := orch_step config has_summarizer has_routing debug_stop_reason extract_summary registered.

Definition task_ok (s : OrchState) (h : nat) (slot : TaskSlot) : Prop :=
  (h < os_next s)%nat /\ ~ In h (os_returned s) /\
  (ts_permits slot = 0%nat ->
     scan_log h (os_log s) = scan_empty /\ waits_for_permit (ts_prog slot) = true) /\
  exists parent d, os_requests s !! h = Some (parent, d) /\
    paths (done_ parent d) (scan_log h (os_log s)) (ts_prog slot).

Definition returned_ok (s : OrchState) (h : nat) : Prop :=
  (h < os_next s)%nat /\
  exists parent d, os_requests s !! h = Some (parent, d) /\
    settled parent d (scan_log h (os_log s)).

Definition orch_inv (s : OrchState) : Prop :=
  (forall h slot, os_tasks s !! h = Some slot -> task_ok s h slot) /\
  (forall h, In h (os_returned s) -> returned_ok s h) /\
  (forall h c, In (h, c) (os_log s) -> (h < os_next s)%nat) /\
  (os_permits s + held (os_tasks s) = max_parallel)%nat.

Lemma scan_log_fresh h log : (forall h' c, In (h', c) log -> (h' < h)%nat) ->
  scan_log h log = scan_empty.
Proof.
  induction log as [|[h' c] log IH] using rev_ind; [done|]. intros H.
  rewrite scan_log_snoc.
  assert ((h' =? h)%nat = false) as ->.
  { apply Nat.eqb_neq. specialize (H h' c). rewrite in_app_iff in H. simpl in H.
    assert (h' < h)%nat by auto. lia. }
  apply IH. intros h2 c2 Hin. apply (H h2 c2), in_app_iff. by left.
Qed.

Lemma spawn_inv parent d s : orch_inv s ->
  orch_inv (spawn_delegation config has_summarizer has_routing debug_stop_reason extract_summary
              registered parent d s).
Proof.
  intros (Ht & Hr & Hl & Hp).
  assert (os_tasks s !! os_next s = None) as Hfresh.
  { destruct (os_tasks s !! os_next s) as [slot|] eqn:E; [|done].
    destruct (Ht _ _ E) as [Hlt _]. lia. }
  split; [|split; [|split]]; cbn.
  - intros h slot. destruct (decide (h = os_next s)) as [->|Hne].
    + rewrite lookup_insert_eq. intros [= <-]. split; [cbn; lia|]. cbn.
      split; [intros Hin; destruct (Hr _ Hin); lia|].
      assert (scan_log (os_next s) (os_log s) = scan_empty) as -> by by apply scan_log_fresh.
      split; [done|]. exists parent, d. rewrite lookup_insert_eq. split; [done|].
      apply task_settles.
    + rewrite lookup_insert_ne by done. intros E. destruct (Ht _ _ E) as (H1 & H2 & H3 & p & e & H4 & H5).
      split; [cbn; lia|]. split; [done|]. split; [done|]. exists p, e.
      cbn. by rewrite lookup_insert_ne.
  - intros h Hin. destruct (Hr _ Hin) as (H1 & p & e & H2 & H3). split; [cbn; lia|].
    exists p, e. cbn. rewrite lookup_insert_ne by lia. done.
  - intros h c Hin. specialize (Hl _ _ Hin). lia.
  - rewrite held_insert_fresh by done. exact Hp.
Qed.

Lemma op_inv h slot B (o : DOp B) k b s :
  orch_inv s -> os_tasks s !! h = Some slot -> ts_prog slot = Vis o k -> op_allowed h o b s ->
  orch_inv (do_op h slot o k b s).
Proof.
  intros (Ht & Hr & Hl & Hp) E Ep Ha.
  destruct (Ht _ _ E) as (H1 & H2 & H3 & p & e & H4 & H5). rewrite Ep in H5.
  assert (Hs : os_tasks (op_effect o b s) = os_tasks s /\ os_next (op_effect o b s) = os_next s /\
    os_returned (op_effect o b s) = os_returned s /\ os_log (op_effect o b s) = os_log s /\
    os_requests (op_effect o b s) = os_requests s /\
    (os_permits (op_effect o b s) + permits_taken o = os_permits s)%nat).
  { destruct o; cbn; repeat split; try lia.
    - cbn in Ha. destruct Ha as [_ Ha]. lia.
    - by destruct b. - by destruct b. - by destruct b. - by destruct b. - by destruct b.
    - destruct b; cbn; lia. }
  destruct Hs as (Et & En & Er & El & Eq & Eps). unfold do_op.
  split; [|split; [|split]]; cbn; rewrite ?Et, ?En, ?Er, ?El, ?Eq.
  - intros h' slot'. destruct (decide (h' = h)) as [->|Hne].
    + rewrite lookup_insert_eq. intros [= <-]. unfold task_ok. cbn.
      rewrite ?En, ?Er, ?El, ?Eq, scan_log_snoc, Nat.eqb_refl. split; [done|]. split; [done|].
      split; [|exists p, e; split; [done|apply H5]].
      intros Hz. destruct H3 as [_ Hw]; [lia|]. rewrite Ep in Hw. apply Nat.eqb_eq in Hw. lia.
    + rewrite lookup_insert_ne by done. intros E'.
      destruct (Ht _ _ E') as (G1 & G2 & G3 & p' & e' & G4 & G5). unfold task_ok. cbn.
      rewrite ?En, ?Er, ?El, ?Eq, scan_log_snoc.
      assert ((h =? h')%nat = false) as -> by (apply Nat.eqb_neq; done). eauto 10.
  - intros h' Hin. destruct (Hr _ Hin) as (G1 & p' & e' & G4 & G5). unfold returned_ok. cbn.
    rewrite ?En, ?El, ?Eq, scan_log_snoc.
    assert ((h =? h')%nat = false) as -> by (apply Nat.eqb_neq; intros ->; done). eauto.
  - intros h' c. rewrite in_app_iff. intros [Hin|[[= <- <-]|[]]]; [by apply (Hl _ c)|done].
  - pose proof (held_replace h slot {| ts_permits := ts_permits slot + permits_taken o;
      ts_prog := k b |} _ E) as Hh. cbn in Hh. lia.
Qed.

Lemma end_task_inv h slot s :
  orch_inv s -> os_tasks s !! h = Some slot -> orch_inv (end_task h slot s).
Proof.
  intros (Ht & Hr & Hl & Hp) E. split; [|split; [|split]]; cbn; [| done | done |].
  - intros h' slot' [_ E']%lookup_delete_Some. by apply Ht.
  - rewrite (held_delete _ _ _ E) in Hp. lia.
Qed.

Lemma return_inv h slot s :
  orch_inv s -> os_tasks s !! h = Some slot -> ts_prog slot = Ret tt ->
  orch_inv (os_set_returned (cons h) (end_task h slot s)).
Proof.
  intros Hi E Ep. pose proof (end_task_inv _ _ _ Hi E) as (Ht' & Hr' & Hl' & Hp').
  destruct Hi as (Ht & Hr & Hl & Hp). destruct (Ht _ _ E) as (H1 & H2 & H3 & p & e & H4 & H5).
  rewrite Ep in H5. split; [|split; [|split]]; cbn; [| | done | done].
  - intros h' slot' [Hne E']%lookup_delete_Some.
    destruct (Ht _ _ E') as (G1 & G2 & G3 & G4). split; [done|]. split; [|done].
    cbn. intros [->|Hin]; done.
  - intros h' [<-|Hin]; [|by apply Hr]. split; [done|]. by exists p, e.
Qed.

Lemma step_inv s s' : orch_inv s -> step s s' -> orch_inv s'.
Proof.
  intros Hi Hs. destruct Hs as [parent d s Hn|id a s Hn|id a s Hn Ha|session s Hn
    |h slot B o k b s E Ep Ha|h slot s E Ep|h slot s Hin E|status s].
  - by apply spawn_inv.
  - exact Hi.
  - exact Hi.
  - exact Hi.
  - by apply op_inv.
  - by apply return_inv.
  - by apply end_task_inv.
  - exact Hi.
Qed.

Lemma steps_inv s s' : orch_inv s -> rtc step s s' -> orch_inv s'.
Proof. intros Hi Hs. induction Hs; eauto using step_inv. Qed.

Lemma new_inv status : orch_inv (orch_new max_parallel status).
Proof.
  split; [|split; [|split]]; cbn; done.
Qed.

(** A task that is gone stays gone, and its part of the history is closed. *)
Lemma gone_stays h s s' :
  orch_inv s -> step s s' -> (h < os_next s)%nat -> os_tasks s !! h = None ->
  (h < os_next s')%nat /\ os_tasks s' !! h = None /\ scan_log h (os_log s') = scan_log h (os_log s).
Proof.
  intros Hi Hs Hlt Hg. destruct Hs as [parent d s Hn|id a s Hn|id a s Hn Ha|session s Hn
    |h' slot B o k b s E Ep Ha|h' slot s E Ep|h' slot s Hin E|status s]; try done; cbn.
  - rewrite lookup_insert_ne by lia. split; [lia|done].
  - assert (h' <> h) as Hne by (intros ->; congruence).
    unfold do_op. cbn. rewrite lookup_insert_ne by done. rewrite scan_log_snoc.
    assert ((h' =? h)%nat = false) as -> by by apply Nat.eqb_neq.
    destruct o; try done; cbn; destruct b; done.
  - split; [done|]. split; [|done]. apply lookup_delete_None. by right.
  - split; [done|]. split; [|done]. apply lookup_delete_None. by right.
Qed.

Lemma gone_forever h s s' :
  orch_inv s -> rtc step s s' -> (h < os_next s)%nat -> os_tasks s !! h = None ->
  os_tasks s' !! h = None /\ scan_log h (os_log s') = scan_log h (os_log s).
Proof.
  intros Hi Hs. revert Hi. induction Hs as [s|s s1 s2 H1 _ IH]; intros Hi Hlt Hg; [done|].
  destruct (gone_stays h s s1 Hi H1 Hlt Hg) as (Hlt1 & Hg1 & El).
  destruct (IH (step_inv _ _ Hi H1) Hlt1 Hg1) as [Hg2 El2]. split; [done|]. congruence.
Qed.

Lemma held_count m :
  (length (List.filter (fun kv : nat * TaskSlot => 0 <? ts_permits kv.2) (map_to_list m))
   <= held m)%nat.
Proof.
  unfold held. induction (map_to_list m) as [|[h slot] l IH]; [done|].
  cbn [List.filter map sum_list_with length snd].
  destruct (0 <? ts_permits slot)%nat eqn:E; cbn [length]; [apply Nat.ltb_lt in E|].
  all: lia.
Qed.

End invariant.
End spec.
