(* ===== verification/DelegationProps.v ===== *)
(** Properties of the delegation orchestrator: over every interleaving of
    delegations, events and aborts, a delegation that runs to its end has one
    outcome, at most the configured number run at a time, and what is cancelled
    in the queue is never reported. *)
From S2P Require Import Prelude Numbers Text Json Chat Domain Events Model Hooks AgentConfig.
From S2P Require Import Wait Delegations DelegationSpec.

Local Open Scope Z_scope.
#[local] Existing Instance toy_json.

Definition fix_it (id agent : string) : Delegation :=
  {| del_id := 1; del_public_id := id; del_session_id := 1; del_task_id := None;
     del_target_agent_id := agent; del_objective := "fix"; del_objective_hash := 3;
     del_context := None; del_constraints := None; del_expected_output := None;
     del_verification_spec := None; del_planning_summary := None; del_status := DsRequested;
     del_retry_count := 0; del_created_at := 0; del_completed_at := None |}.

Definition plain_config : DelegationOrchestratorConfig := delegation_orchestrator_config_new None.

(** The orchestrator with one permit and one agent with a handle, "coder". *)
Definition plain_step : OrchState -> OrchState -> Prop :=
  orch_step plain_config false false (fun _ => "stop") (fun _ => "done")
    (fun agent => String.eqb agent "coder").

Definition one_permit : OrchState := orch_new 1 {["d1" := DsRequested]}.

(** A run of one task under an environment that answers every operation. *)
Definition allowed_now (h : nat) {J : Json} {B} (o : DOp B) : B -> OrchState -> bool :=
  match o with
  | OAcquire => fun b s => b && (0 <? os_permits s)%nat
  | OPrompt _ _ => fun b s =>
      match b with None => bool_decide (h ∈ os_cancelled s) | Some _ => true end
  | _ => fun _ _ => true
  end.

Fixpoint run_task {J : Json} (answers : forall B, DOp B -> B) (n : nat) (h : nat)
    (s : OrchState) : OrchState :=
  match n with
  | O => s
  | S n' =>
      match os_tasks s !! h with
      | None => s
      | Some slot =>
          match ts_prog slot with
          | Ret _ => os_set_returned (cons h) (end_task h slot s)
          | Vis o k =>
              if allowed_now h o (answers _ o) s
              then run_task answers n' h (do_op h slot o k (answers _ o) s) else s
          end
      end
  end.

Lemma allowed_now_sound {J : Json} h B (o : DOp B) b s :
  allowed_now h o b s = true -> op_allowed h o b s.
Proof.
  destruct o; try done; cbn.
  - intros [-> H]%andb_true_iff. split; [done|]. by apply Nat.ltb_lt.
  - intros H ->. by apply bool_decide_eq_true in H.
Qed.

Lemma run_task_steps {J : Json} answers n h config hs hr dbg ext reg s :
  rtc (orch_step config hs hr dbg ext reg) s (run_task answers n h s).
Proof.
  revert s. induction n as [|n IH]; intros s; cbn [run_task]; [apply rtc_refl|].
  destruct (os_tasks s !! h) as [slot|] eqn:E; [|apply rtc_refl].
  destruct (ts_prog slot) as [[]|B o k] eqn:Ep; [apply rtc_once; by apply OsReturn|].
  destruct (allowed_now h o (answers B o) s) eqn:Ea; [|apply rtc_refl].
  eapply rtc_l; [eapply OsOp; [done|done|by apply allowed_now_sound]|]. apply IH.
Qed.

(** Every call works, and the child ends its turn. *)
Definition all_well (B : Type) (o : DOp B) : B :=
  match o with
  | OAcquire => true
  | ODelegationStart _ | OPostDelegation _ | ODelegationFailure _ => Err "no hook"
  | OSetStatus _ _ | OUpdateDelegation _ | OSetProviderNode _ _ | OSetModel _ _ _
  | OSetEffort _ _ | OSetPlanning _ _ | OVerify _ _ _ _ _ | OPromptParent _ _ => None
  | OGetLlmConfig _ => Ok (Some {| plc_params := None |})
  | OParseEffort _ => Ok None
  | OGetSessionCwd _ => Ok None
  | OCreateSession _ _ => Ok "child"
  | ORoute _ | OModelOverride _ _ => None
  | OParseNode n => Ok n
  | OShutdownChild _ | OEmit _ _ | OCancelChild _ | ORemoveActive _ => tt
  | OEffectiveHistory _ | OGetHistory _ => Ok []
  | OSummarize _ _ => Err "no summary"
  | OPrompt _ _ => Some (Ok EndTurn)
  end.

(** A request for a delegation to an agent, registered by the listener. *)
Definition requested (parent : string) (d : Delegation) (s : OrchState) : OrchState :=
  let s1 := spawn_delegation plain_config false false (fun _ => "stop") (fun _ => "done")
              (fun agent => String.eqb agent "coder") parent d s in
  match os_pending s1 with
  | Some (id, a) => os_set_active (insert id a) (os_set_pending (fun _ => None) s1)
  | None => s1
  end.

Lemma requested_steps parent d s :
  os_pending s = None -> rtc plain_step s (requested parent d s).
Proof.
  intros H. eapply rtc_l; [by apply (OsRequested _ _ _ _ _ _ parent d)|].
  apply rtc_once, OsInsert. reflexivity.
Qed.

Definition ran : OrchState := run_task all_well 20 0 (requested "p" (fix_it "d1" "coder") one_permit).

Example ran_events :
  (os_events ran, os_status ran !! "d1", os_active ran !! "d1", os_permits ran) =
  ([("p", SessionForked "p" "child" "coder" FoDelegation FpProgressEntry "d1" None);
    ("p", DelegationCompleted "d1" (Some "done"))], Some DsComplete, None, 1%nat).
Proof. vm_compute. reflexivity. Qed.

Lemma ran_steps : rtc plain_step one_permit ran.
Proof.
  eapply rtc_trans; [by apply (requested_steps "p" (fix_it "d1" "coder"))|]. apply run_task_steps.
Qed.

(** An agent without a handle: the failed delegation stays in the map of
    active delegations. *)
Example unregistered_stays_active :
  let s := run_task all_well 20 0 (requested "p" (fix_it "d1" "ghost") one_permit) in
  (os_returned s, os_status s !! "d1", ad_parent <$> os_active s !! "d1") =
  ([0%nat], Some DsFailed, Some "p").
Proof. vm_compute. reflexivity. Qed.

(** C7: From any start and over every interleaving of requests, cancellations,
    aborts and the operations of all tasks, whatever these answer: a delegation
    task that runs to its end has told its parent exactly one outcome, the
    status it wrote last agrees with it, and the outcome is the one of its
    child: cancelled when the prompt was cancelled, completed only when the
    child ended its turn, failed otherwise; and the child was not prompted
    before it had its reasoning effort. *)
Theorem delegation_settles_once {J : Json} config has_summarizer has_routing debug_stop_reason
    extract_summary registered max_parallel status s h :
  rtc (orch_step config has_summarizer has_routing debug_stop_reason extract_summary registered)
    (orch_new max_parallel status) s ->
  In h (os_returned s) ->
  exists parent d, os_requests s !! h = Some (parent, d) /\
    settled parent d (scan_log h (os_log s)).
Proof.
  intros Hs Hin. eapply steps_inv in Hs; [|apply new_inv].
  destruct Hs as (_ & Hr & _). by apply Hr.
Qed.

Lemma delegation_settles_once_witness :
  exists parent d, os_requests ran !! 0%nat = Some (parent, d) /\
    settled parent d (scan_log 0 (os_log ran)).
Proof.
  apply (delegation_settles_once plain_config false false (fun _ => "stop") (fun _ => "done")
           (fun agent => String.eqb agent "coder") 1 {["d1" := DsRequested]} ran 0).
  - exact ran_steps.
  - vm_compute. by left.
Defined.

(** Over every interleaving, the delegation tasks that have done anything
    but wait for the semaphore are at most the configured number: each holds a
    permit, and the permits held and the permits left are as many as configured. *)
Theorem parallel_delegations_bounded {J : Json} config has_summarizer has_routing
    debug_stop_reason extract_summary registered max_parallel status s :
  rtc (orch_step config has_summarizer has_routing debug_stop_reason extract_summary registered)
    (orch_new max_parallel status) s ->
  (length (List.filter (fun kv : nat * TaskSlot => 0 <? ts_permits kv.2) (map_to_list (os_tasks s)))
   <= max_parallel)%nat /\
  (os_permits s + held (os_tasks s) = max_parallel)%nat /\
  forall h slot, os_tasks s !! h = Some slot -> ts_permits slot = 0%nat ->
    scan_log h (os_log s) = scan_empty.
Proof.
  intros Hs. eapply steps_inv in Hs; [|apply new_inv]. destruct Hs as (Ht & _ & _ & Hp).
  split; [|split; [exact Hp|]].
  - pose proof (held_count (os_tasks s)). lia.
  - intros h slot E Ez. destruct (Ht _ _ E) as (_ & _ & H3 & _). by apply H3.
Qed.

Lemma parallel_delegations_bounded_witness :
  let s := run_task all_well 5 0 (requested "p" (fix_it "d1" "coder") one_permit) in
  (length (List.filter (fun kv : nat * TaskSlot => 0 <? ts_permits kv.2) (map_to_list (os_tasks s)))
   <= 1)%nat /\
  (os_permits s + held (os_tasks s) = 1)%nat /\
  forall h slot, os_tasks s !! h = Some slot -> ts_permits slot = 0%nat ->
    scan_log h (os_log s) = scan_empty.
Proof.
  intros s.
  apply (parallel_delegations_bounded plain_config false false (fun _ => "stop")
           (fun _ => "done") (fun agent => String.eqb agent "coder") 1 {["d1" := DsRequested]} s).
  eapply rtc_trans; [by apply (requested_steps "p" (fix_it "d1" "coder"))|]. apply run_task_steps.
Defined.

(** A delegation that is cancelled while it waits in the queue and is
    aborted at the end of the grace period is never reported: it writes no
    status and tells its parent no outcome, then or ever after. *)
Theorem queued_cancellation_is_silent {J : Json} config has_summarizer has_routing
    debug_stop_reason extract_summary registered max_parallel status s s' h slot :
  let step :=
    orch_step config has_summarizer has_routing debug_stop_reason extract_summary registered in
  rtc step (orch_new max_parallel status) s ->
  os_tasks s !! h = Some slot -> ts_permits slot = 0%nat -> In h (os_reapers s) ->
  rtc step (end_task h slot s) s' ->
  step s (end_task h slot s) /\
  sc_outcomes (scan_log h (os_log s')) = [] /\ sc_status (scan_log h (os_log s')) = None.
Proof.
  intros step Hs E Ez Hr Hs'. split; [by apply OsAbort|].
  eapply steps_inv in Hs; [|apply new_inv].
  pose proof (end_task_inv _ h slot s Hs E) as Hi.
  destruct Hs as (Ht & _ & _ & _). destruct (Ht _ _ E) as (Hlt & _ & H3 & _).
  destruct (H3 Ez) as [Hl _].
  destruct (gone_forever _ _ _ _ _ _ _ h _ s' Hi Hs' Hlt) as [_ El].
  { cbn. apply lookup_delete_eq. }
  rewrite El. change (os_log (end_task h slot s)) with (os_log s). by rewrite Hl.
Qed.

(** Two delegations for one permit; the second is cancelled with its session
    while it waits. *)
Definition queued : OrchState :=
  session_cancelled "p" (requested "p" (fix_it "d2" "coder")
    (run_task all_well 5 0 (requested "p" (fix_it "d1" "coder") one_permit))).

Lemma queued_cancellation_is_silent_witness :
  let slot := default {| ts_permits := 1; ts_prog := Ret tt |} (os_tasks queued !! 1%nat) in
  plain_step queued (end_task 1 slot queued) /\
  sc_outcomes (scan_log 1 (os_log (end_task 1 slot queued))) = [] /\
  sc_status (scan_log 1 (os_log (end_task 1 slot queued))) = None.
Proof.
  intros slot.
  apply (queued_cancellation_is_silent plain_config false false (fun _ => "stop")
           (fun _ => "done") (fun agent => String.eqb agent "coder") 1 {["d1" := DsRequested]}
           queued (end_task 1 slot queued) 1 slot).
  - eapply rtc_r; [|apply OsSessionCancelled; reflexivity].
    eapply rtc_trans; [|by apply (requested_steps "p" (fix_it "d2" "coder"))].
    eapply rtc_trans; [by apply (requested_steps "p" (fix_it "d1" "coder"))|]. apply run_task_steps.
  - reflexivity.
  - reflexivity.
  - vm_compute. tauto.
  - apply rtc_refl.
Defined.
