(* ===== verification/HookWire.v ===== *)
(** What a hook command reads and writes: the wire types of hooks/schema.rs,
    the parsers of hooks/output_parser.rs and the configuration of
    hooks/config.rs.  Serde's derived readers are parameters. *)
From S2P Require Import Prelude Numbers Text Json Chat Domain Hooks.

Local Open Scope Z_scope.

(** ** Configuration *)

Inductive HookEventConfig :=
| SessionStart | UserPromptSubmit | PreToolUse | PermissionRequest | PostToolUse | Stop
| PreCompaction | PostCompaction | PreDelegation | DelegationStart | PostDelegation
| DelegationFailure.

#[export] Instance HookEventConfig_eq_dec : EqDecision HookEventConfig.
Proof. solve_decision. Defined.

Definition label (e : HookEventConfig) : string :=
  match e with
  | SessionStart => "session_start"
  | UserPromptSubmit => "user_prompt_submit"
  | PreToolUse => "pre_tool_use"
  | PermissionRequest => "permission_request"
  | PostToolUse => "post_tool_use"
  | Stop => "stop"
  | PreCompaction => "pre_compaction"
  | PostCompaction => "post_compaction"
  | PreDelegation => "pre_delegation"
  | DelegationStart => "delegation_start"
  | PostDelegation => "post_delegation"
  | DelegationFailure => "delegation_failure"
  end.

Record HookCommandConfig := {
  hcc_command : string;
  hcc_timeout_sec : option Z;
  hcc_status_message : option string;
  hcc_env : list (string * string);
}.

Inductive HookHandlerConfig := Command (c : HookCommandConfig).

Record MatcherGroupConfig := {
  mgc_matcher : option string;
  mgc_hooks : list HookHandlerConfig;
}.

(** [hc_extra]: the keys of the fields that are no event, in the order of the
    [BTreeMap]. *)
Record HooksConfig := {
  hc_enabled : bool;
  hc_bypass_trust : bool;
  hc_session_start : list MatcherGroupConfig;
  hc_user_prompt_submit : list MatcherGroupConfig;
  hc_pre_tool_use : list MatcherGroupConfig;
  hc_permission_request : list MatcherGroupConfig;
  hc_post_tool_use : list MatcherGroupConfig;
  hc_stop : list MatcherGroupConfig;
  hc_pre_compaction : list MatcherGroupConfig;
  hc_post_compaction : list MatcherGroupConfig;
  hc_pre_delegation : list MatcherGroupConfig;
  hc_delegation_start : list MatcherGroupConfig;
  hc_post_delegation : list MatcherGroupConfig;
  hc_delegation_failure : list MatcherGroupConfig;
  hc_extra : list string;
}.

Definition hooks_config_default : HooksConfig :=
  {| hc_enabled := false; hc_bypass_trust := false; hc_session_start := [];
     hc_user_prompt_submit := []; hc_pre_tool_use := []; hc_permission_request := [];
     hc_post_tool_use := []; hc_stop := []; hc_pre_compaction := []; hc_post_compaction := [];
     hc_pre_delegation := []; hc_delegation_start := []; hc_post_delegation := [];
     hc_delegation_failure := []; hc_extra := [] |}.

Definition groups_for (c : HooksConfig) (e : HookEventConfig) : list MatcherGroupConfig :=
  match e with
  | SessionStart => hc_session_start c
  | UserPromptSubmit => hc_user_prompt_submit c
  | PreToolUse => hc_pre_tool_use c
  | PermissionRequest => hc_permission_request c
  | PostToolUse => hc_post_tool_use c
  | Stop => hc_stop c
  | PreCompaction => hc_pre_compaction c
  | PostCompaction => hc_post_compaction c
  | PreDelegation => hc_pre_delegation c
  | DelegationStart => hc_delegation_start c
  | PostDelegation => hc_post_delegation c
  | DelegationFailure => hc_delegation_failure c
  end.

(** The events, in the order [validate] goes through them. *)
Definition all_events : list HookEventConfig :=
  [SessionStart; UserPromptSubmit; PreToolUse; PermissionRequest; PostToolUse; Stop;
   PreCompaction; PostCompaction; PreDelegation; DelegationStart; PostDelegation;
   DelegationFailure].

Definition validate_hook (e : HookEventConfig) (h : HookHandlerConfig) : option string :=
  match h with
  | Command cmd =>
      if is_empty_str (trim (hcc_command cmd))
      then Some (label e +:+ " hook command must not be empty") else None
  end.

(** The first error of a list of checks. *)
Definition first_error {A} (f : A -> option string) (l : list A) : option string :=
  head (omap f l).

Definition validate_group (e : HookEventConfig) (ig : nat * MatcherGroupConfig) : option string :=
  match mgc_hooks ig.2 with
  | [] => Some (label e +:+ " matcher group " +:+ nat_dec ig.1 +:+
                " must contain at least one hook")
  | hooks => first_error (validate_hook e) hooks
  end.

Definition validate_event (c : HooksConfig) (e : HookEventConfig) : option string :=
  first_error (validate_group e) (imap pair (groups_for c e)).

(** [HooksConfig::validate]: the error, if there is one. *)
Definition validate (c : HooksConfig) : option string :=
  match hc_extra c with
  | [] => first_error (validate_event c) all_events
  | keys => Some ("unsupported hook event(s): " +:+ join ", " keys)
  end.

(** ** Inputs *)

(** The value of a field of an input, as serde writes it. *)
Inductive Field {J : Json} :=
| FStr (s : string)
| FNullable (s : option string)
| FU32 (n : Z)
| FBool (b : bool)
| FValue (v : Value).

(** The fields of an input, in the order of its declaration. *)
Definition Input {J : Json} : Type := list (string * Field).

(** ** Outputs *)

Record HookUniversalOutputWire := {
  huw_continue : bool;
  huw_stop_reason : option string;
  huw_system_message : option string;
}.

Inductive PreToolUseDecisionWire := PtdApprove | PtdBlock.
Inductive PreToolUsePermissionDecisionWire := PpdAllow | PpdDeny | PpdAsk.
Inductive PermissionRequestBehaviorWire := PrbAllow | PrbDeny.
Inductive BlockDecisionWire := BdBlock.

Record UpdatedDelegationWire := {
  udw_target_agent_id : option string;
  udw_objective : option string;
  udw_context : option string;
  udw_constraints : option string;
  udw_expected_output : option string;
}.

(** The specific outputs that hold a context only: those of [post_tool_use],
    [user_prompt_submit], [session_start], [stop], [pre_compaction],
    [post_compaction] and the observed delegation events. *)
Record ContextOutputWire := {
  cow_hook_event_name : string;
  cow_additional_context : option string;
}.

Record PermissionRequestDecisionWire := {
  prw_behavior : PermissionRequestBehaviorWire;
  prw_message : option string;
}.

Record PermissionRequestHookSpecificOutputWire := {
  prw_hook_event_name : string;
  prw_decision : option PermissionRequestDecisionWire;
}.

Record PreDelegationHookSpecificOutputWire := {
  pdw_hook_event_name : string;
  pdw_updated_delegation : option UpdatedDelegationWire;
  pdw_additional_context : option string;
}.

Record PreToolUseHookSpecificOutputWire {J : Json} := {
  ptw_hook_event_name : string;
  ptw_permission_decision : option PreToolUsePermissionDecisionWire;
  ptw_permission_decision_reason : option string;
  ptw_updated_input : option Value;
  ptw_additional_context : option string;
}.

(** An output with a decision of type [D] and the event's specific output. *)
Record DecisionOutputWire (D S : Type) := {
  dow_universal : HookUniversalOutputWire;
  dow_decision : option D;
  dow_reason : option string;
  dow_hook_specific_output : option S;
}.
Arguments dow_universal {D S} _.
Arguments dow_decision {D S} _.
Arguments dow_reason {D S} _.
Arguments dow_hook_specific_output {D S} _.

(** An output without a decision. *)
Record PlainOutputWire (S : Type) := {
  pow_universal : HookUniversalOutputWire;
  pow_hook_specific_output : option S;
}.
Arguments pow_universal {S} _.
Arguments pow_hook_specific_output {S} _.

Definition PreToolUseCommandOutputWire {J : Json} : Type :=
  DecisionOutputWire PreToolUseDecisionWire PreToolUseHookSpecificOutputWire.
Definition PermissionRequestCommandOutputWire : Type :=
  PlainOutputWire PermissionRequestHookSpecificOutputWire.
Definition PostToolUseCommandOutputWire : Type :=
  DecisionOutputWire BlockDecisionWire ContextOutputWire.
Definition UserPromptSubmitCommandOutputWire : Type :=
  DecisionOutputWire BlockDecisionWire ContextOutputWire.
Definition SessionStartCommandOutputWire : Type := PlainOutputWire ContextOutputWire.
Definition StopCommandOutputWire : Type := DecisionOutputWire BlockDecisionWire ContextOutputWire.
Definition PreCompactionCommandOutputWire : Type :=
  DecisionOutputWire BlockDecisionWire ContextOutputWire.
Definition PostCompactionCommandOutputWire : Type := PlainOutputWire ContextOutputWire.
Definition PreDelegationCommandOutputWire : Type :=
  DecisionOutputWire BlockDecisionWire PreDelegationHookSpecificOutputWire.
Definition DelegationLifecycleCommandOutputWire : Type := PlainOutputWire ContextOutputWire.

(** What the library reads and writes: [serde_json::to_string] of an input,
    and [serde_json::from_str] at each output type, with the error's text. *)
Class HookSerde {J : Json} := {
  to_string_input : Input -> result string string;
  read_pre_tool_use : string -> result string PreToolUseCommandOutputWire;
  read_permission_request : string -> result string PermissionRequestCommandOutputWire;
  read_post_tool_use : string -> result string PostToolUseCommandOutputWire;
  read_user_prompt_submit : string -> result string UserPromptSubmitCommandOutputWire;
  read_session_start : string -> result string SessionStartCommandOutputWire;
  read_stop : string -> result string StopCommandOutputWire;
  read_pre_compaction : string -> result string PreCompactionCommandOutputWire;
  read_post_compaction : string -> result string PostCompactionCommandOutputWire;
  read_pre_delegation : string -> result string PreDelegationCommandOutputWire;
  read_delegation_lifecycle :
    HookEventConfig -> string -> result string DelegationLifecycleCommandOutputWire;
}.

(** ** Parsed outputs *)

Inductive ParsedDecision := Block.
Inductive ParsedPermissionDecision := PpAllow | PpDeny (message : string).

(** [ParsedUserPromptSubmit], [ParsedPreCompaction] *)
Record ParsedBlocking := {
  pb_decision : option ParsedDecision;
  pb_reason : option string;
  pb_additional_context : option string;
}.

Record ParsedPreToolUse {J : Json} := {
  ppt_decision : option ParsedDecision;
  ppt_reason : option string;
  ppt_permission_decision : option ParsedPermissionDecision;
  ppt_updated_input : option Value;
  ppt_additional_context : option string;
}.

(** [ParsedPostToolUse], [ParsedStop] *)
Record ParsedControl := {
  pc_decision : option ParsedDecision;
  pc_reason : option string;
  pc_continue_processing : bool;
  pc_stop_reason : option string;
  pc_additional_context : option string;
}.

(** [ParsedSessionStart], [ParsedDelegationLifecycle] *)
Record ParsedLifecycle := {
  pl_continue_processing : bool;
  pl_stop_reason : option string;
  pl_additional_context : option string;
}.

Record ParsedPreDelegation := {
  ppd_decision : option ParsedDecision;
  ppd_reason : option string;
  ppd_updated_delegation : option UpdatedDelegation;
  ppd_additional_context : option string;
}.

(** ** Parsers *)

Definition trim_start (s : string) : string := sconcat (drop_ws (chars s)).

Definition looks_like_json (stdout : string) : bool :=
  let trimmed := trim_start stdout in is_prefix_of "{" trimmed || is_prefix_of "[" trimmed.

(** [output.replace('\n', "\\n")] *)
Fixpoint escape_newlines (s : string) : string :=
  match s with
  | EmptyString => ""
  | String c s' => if is_nl c then "\n" +:+ escape_newlines s' else String c (escape_newlines s')
  end.

Definition SUMMARY_MAX_CHARS : nat := 160.

Definition summarize_output (output : string) : string :=
  let compact := escape_newlines output in
  if (char_count compact <=? SUMMARY_MAX_CHARS)%nat then compact
  else take_chars SUMMARY_MAX_CHARS compact +:+ "...".

Definition parse_json {A} (read : string -> result string A) (stdout : string)
  : result string (option A) :=
  let trimmed := trim stdout in
  if is_empty_str trimmed then Ok None
  else if negb (looks_like_json trimmed)
  then Err ("hook output must be JSON; got: " +:+ summarize_output trimmed)
  else match read trimmed with
       | Ok a => Ok (Some a)
       | Err err => Err ("invalid hook JSON output: " +:+ err +:+ "; stdout: " +:+
                         summarize_output trimmed)
       end.

(** [let Some(output) = parse_json(stdout)? else { return Ok(None) }; Ok(Some(f(output)))] *)
Definition parse_with {A B} (read : string -> result string A) (f : A -> B) (stdout : string)
  : result string (option B) :=
  match parse_json read stdout with
  | Ok (Some a) => Ok (Some (f a))
  | Ok None => Ok None
  | Err e => Err e
  end.

Definition block_of (d : BlockDecisionWire) : ParsedDecision := Block.

Definition specific_context (s : option ContextOutputWire) : option string :=
  hook ← s; cow_additional_context hook.

Definition parsed_blocking (o : DecisionOutputWire BlockDecisionWire ContextOutputWire)
  : ParsedBlocking :=
  {| pb_decision := block_of <$> dow_decision o; pb_reason := dow_reason o;
     pb_additional_context := specific_context (dow_hook_specific_output o) |}.

Definition parsed_control (o : DecisionOutputWire BlockDecisionWire ContextOutputWire)
  : ParsedControl :=
  {| pc_decision := block_of <$> dow_decision o; pc_reason := dow_reason o;
     pc_continue_processing := huw_continue (dow_universal o);
     pc_stop_reason := huw_stop_reason (dow_universal o);
     pc_additional_context := specific_context (dow_hook_specific_output o) |}.

Definition parsed_lifecycle (o : PlainOutputWire ContextOutputWire) : ParsedLifecycle :=
  {| pl_continue_processing := huw_continue (pow_universal o);
     pl_stop_reason := huw_stop_reason (pow_universal o);
     pl_additional_context := specific_context (pow_hook_specific_output o) |}.

Definition parsed_updated_delegation (w : UpdatedDelegationWire) : UpdatedDelegation :=
  {| ud_target_agent_id := udw_target_agent_id w; ud_objective := udw_objective w;
     ud_context := udw_context w; ud_constraints := udw_constraints w;
     ud_expected_output := udw_expected_output w |}.

Section parsers.
Context {J : Json}.

Definition permission_decision (h : PreToolUseHookSpecificOutputWire)
  (d : PreToolUsePermissionDecisionWire) : ParsedPermissionDecision :=
  match d with
  | PpdAllow => PpAllow
  | PpdDeny => PpDeny (default "blocked by hook" (ptw_permission_decision_reason h))
  | PpdAsk => PpDeny (default "hook requested confirmation" (ptw_permission_decision_reason h))
  end.

Definition parsed_pre_tool_use (o : PreToolUseCommandOutputWire) : ParsedPreToolUse :=
  let specific := dow_hook_specific_output o in
  {| ppt_decision := match dow_decision o with Some PtdBlock => Some Block | _ => None end;
     ppt_reason := or_else (dow_reason o) (h ← specific; ptw_permission_decision_reason h);
     ppt_permission_decision :=
       h ← specific; d ← ptw_permission_decision h; Some (permission_decision h d);
     ppt_updated_input := h ← specific; ptw_updated_input h;
     ppt_additional_context := h ← specific; ptw_additional_context h |}.

Definition parsed_permission_request (o : PermissionRequestCommandOutputWire)
  : option ParsedPermissionDecision :=
  h ← pow_hook_specific_output o;
  d ← prw_decision h;
  Some (match prw_behavior d with
        | PrbAllow => PpAllow
        | PrbDeny => PpDeny (default "blocked by hook" (prw_message d))
        end).

Definition parsed_pre_delegation (o : PreDelegationCommandOutputWire) : ParsedPreDelegation :=
  let specific := dow_hook_specific_output o in
  {| ppd_decision := block_of <$> dow_decision o; ppd_reason := dow_reason o;
     ppd_updated_delegation :=
       h ← specific; w ← pdw_updated_delegation h; Some (parsed_updated_delegation w);
     ppd_additional_context := h ← specific; pdw_additional_context h |}.

Context {HS : HookSerde}.

Definition parse_user_prompt_submit : string -> result string (option ParsedBlocking) :=
  parse_with read_user_prompt_submit parsed_blocking.
Definition parse_pre_tool_use : string -> result string (option ParsedPreToolUse) :=
  parse_with read_pre_tool_use parsed_pre_tool_use.
Definition parse_permission_request
  : string -> result string (option (option ParsedPermissionDecision)) :=
  parse_with read_permission_request parsed_permission_request.
Definition parse_post_tool_use : string -> result string (option ParsedControl) :=
  parse_with read_post_tool_use parsed_control.
Definition parse_session_start : string -> result string (option ParsedLifecycle) :=
  parse_with read_session_start parsed_lifecycle.
Definition parse_stop : string -> result string (option ParsedControl) :=
  parse_with read_stop parsed_control.
Definition parse_pre_compaction : string -> result string (option ParsedBlocking) :=
  parse_with read_pre_compaction parsed_blocking.
Definition parse_post_compaction : string -> result string (option (option string)) :=
  parse_with read_post_compaction (fun o => specific_context (pow_hook_specific_output o)).
Definition parse_pre_delegation : string -> result string (option ParsedPreDelegation) :=
  parse_with read_pre_delegation parsed_pre_delegation.
Definition parse_delegation_lifecycle (e : HookEventConfig)
  : string -> result string (option ParsedLifecycle) :=
  parse_with (read_delegation_lifecycle e) parsed_lifecycle.
End parsers.

(** A configuration is accepted exactly when it has no unknown event, no empty
    group and no blank command. *)
Definition well_configured (c : HooksConfig) : Prop :=
  hc_extra c = [] /\
  forall e g, In g (groups_for c e) ->
    mgc_hooks g <> [] /\
    forall cmd, In (Command cmd) (mgc_hooks g) -> trim (hcc_command cmd) <> "".

Lemma first_error_none {A} (f : A -> option string) l :
  first_error f l = None <-> forall x, In x l -> f x = None.
Proof.
  unfold first_error. induction l as [|x l IH]; cbn [omap list_omap head]; [by split|].
  destruct (f x) eqn:E; cbn [head].
  - split; [discriminate|]. intros H. rewrite H in E by (by left). discriminate.
  - rewrite IH. split; [intros H y [<-|Hy]; auto|intros H y Hy; apply H; by right].
Qed.

Lemma validate_ok c : validate c = None <-> well_configured c.
Proof.
  unfold validate, well_configured. destruct (hc_extra c); [|by split; [|intros []]].
  rewrite first_error_none.
  assert (forall e g, (forall ig, In ig (imap pair (groups_for c e)) -> validate_group e ig = None)
    -> In g (groups_for c e) -> exists i, validate_group e (i, g) = None) as Hin.
  { intros e g H Hg. apply list_elem_of_In, list_elem_of_lookup in Hg as [i Hi]. exists i.
    apply H, list_elem_of_In, list_elem_of_lookup. exists i. by rewrite list_lookup_imap, Hi. }
  assert (forall e i g, validate_group e (i, g) = None <-> mgc_hooks g <> [] /\
    forall cmd, In (Command cmd) (mgc_hooks g) -> trim (hcc_command cmd) <> "") as Hg.
  { intros e i g. unfold validate_group. cbn. destruct (mgc_hooks g) as [|h l]; [by split; [|intros []]|].
    rewrite first_error_none. split.
    - intros H. split; [done|]. intros cmd Hc. specialize (H _ Hc). cbn in H.
      intros E. by rewrite E in H.
    - intros [_ H] [cmd] Hc. cbn. specialize (H cmd Hc). unfold is_empty_str.
      destruct (trim (hcc_command cmd)); done. }
  split.
  - intros H. split; [done|]. intros e g He.
    assert (validate_event c e = None) as Hv by (apply H; destruct e; cbn; auto 15).
    unfold validate_event in Hv. rewrite first_error_none in Hv.
    destruct (Hin e g Hv He) as [i Hi]. by apply Hg in Hi.
  - intros [_ H] e _. unfold validate_event. apply first_error_none. intros [i g] Hi.
    apply list_elem_of_In, elem_of_lookup_imap in Hi as (j & g' & [= -> ->] & Hj).
    apply Hg, H with e. apply list_elem_of_In. eauto using list_elem_of_lookup_2.
Qed.
