(* ===== verification/HookEngine.v ===== *)
(** The hook engine (hooks/engine.rs): which commands an event runs, and how
    their outputs are merged into the event's result.  Running a command
    (hooks/runner.rs) and matching a regular expression are parameters. *)
From S2P Require Import Prelude Numbers Text Json Chat Domain Events Hooks Delegations.
From S2P Require Import HookWire.

Local Open Scope Z_scope.

Record CommandHookSpec := {
  chs_command : string;
  chs_timeout : Z;
  chs_env : list (string * string);
}.

Record CommandOutput := {
  co_exit_code : option Z;
  co_stdout : string;
  co_stderr : string;
}.

(** A command that has been started: its specification, working directory and input. *)
Record HookRun := {
  hr_spec : CommandHookSpec;
  hr_cwd : string;
  hr_stdin : string;
}.

(** [run_command_hook] can depend on what has run before; [Regex::new(p)] and
    [is_match], [None] for a pattern that does not compile. *)
Class HookRuntime := {
  run_command_hook : list HookRun -> HookRun -> result string CommandOutput;
  regex_is_match : string -> string -> option bool;
}.

(** The commands started, and the error of the engine. *)
Definition H (A : Type) : Type := M (list HookRun) string A.

(** ** Running the commands of an event *)

Definition spec_from_command (c : HookCommandConfig) : CommandHookSpec :=
  {| chs_command := hcc_command c; chs_timeout := default 30 (hcc_timeout_sec c);
     chs_env := hcc_env c |}.

Definition cwd_string (cwd : option string) : string := default "." cwd.

Definition invalid_notice (event : HookEventConfig) (err : string) : HookNotice :=
  {| hn_event_name := label event;
     hn_message := "Ignoring invalid " +:+ label event +:+ " hook output: " +:+ err;
     hn_is_error := true |}.

Definition ignored_control_notice (event : HookEventConfig) : HookNotice :=
  {| hn_event_name := label event;
     hn_message := "Ignoring control fields from " +:+ label event +:+
                   " hook output; this hook is observe-only";
     hn_is_error := false |}.

Section engine.
Context {J : Json} {HS : HookSerde} {HR : HookRuntime}.
Variable config : HooksConfig.

Definition matches_group (matcher value : option string) : bool :=
  match matcher with
  | None => true
  | Some matcher =>
      if is_empty_str (trim matcher) then true
      else match value with
           | None => false
           | Some value => default false (regex_is_match matcher value)
           end
  end.

Definition start_command (spec : CommandHookSpec) (cwd stdin : string) : H CommandOutput :=
  fun runs =>
    let r := {| hr_spec := spec; hr_cwd := cwd; hr_stdin := stdin |} in
    (run_command_hook runs r, runs ++ [r]).

Definition failed_command (event : HookEventConfig) (code : Z) (stderr : string) : string :=
  label event +:+ " hook command failed with exit code " +:+ dec_of_Z code +:+ ": " +:+ trim stderr.

Fixpoint run_hooks (event : HookEventConfig) (cwd stdin : string)
    (hooks : list HookHandlerConfig) (outputs : list string) : H (list string) :=
  match hooks with
  | [] => mret outputs
  | Command command :: rest =>
      output ← start_command (spec_from_command command) cwd stdin;
      match co_exit_code output with
      | Some 0 | None => run_hooks event cwd stdin rest (outputs ++ [co_stdout output])
      | Some 2 => run_hooks event cwd stdin rest (outputs ++ [co_stdout output])
      | Some code => fail (failed_command event code (co_stderr output))
      end
  end.

Fixpoint run_groups (event : HookEventConfig) (matcher : option string) (cwd stdin : string)
    (groups : list MatcherGroupConfig) (outputs : list string) : H (list string) :=
  match groups with
  | [] => mret outputs
  | group :: rest =>
      if negb (matches_group (mgc_matcher group) matcher)
      then run_groups event matcher cwd stdin rest outputs
      else
        outputs ← run_hooks event cwd stdin (mgc_hooks group) outputs;
        run_groups event matcher cwd stdin rest outputs
  end.

Definition run_event (event : HookEventConfig) (matcher : option string) (input : Input)
    (cwd : option string) : H (list string) :=
  stdin ← lift_result (to_string_input input);
  run_groups event matcher (cwd_string cwd) stdin (groups_for config event) [].

(** ** Inputs *)

Definition turn_input (event : HookEventConfig) (c : HookContext) (rest : Input) : Input :=
  [("session_id", FStr (hc_session_id c)); ("turn_id", FStr (hc_turn_id c));
   ("transcript_path", FNullable None); ("cwd", FStr (cwd_string (hc_cwd c)));
   ("hook_event_name", FStr (label event)); ("model", FStr (hc_model c));
   ("permission_mode", FStr (hc_permission_mode c))] ++ rest.

Definition pre_tool_use_input (r : PreToolUseRequest) : Input :=
  turn_input PreToolUse (ptr_context r)
    [("tool_name", FStr (ptr_tool_name r)); ("tool_input", FValue (ptr_tool_input r));
     ("tool_use_id", FStr (ptr_tool_use_id r))].

Definition permission_request_input (r : PermissionRequestRequest) : Input :=
  turn_input PermissionRequest (prr_context r)
    [("tool_name", FStr (prr_tool_name r)); ("tool_input", FValue (prr_tool_input r))].

Definition post_tool_use_input (r : PostToolUseRequest) : Input :=
  turn_input PostToolUse (por_context r)
    [("tool_name", FStr (por_tool_name r)); ("tool_input", FValue (por_tool_input r));
     ("tool_response", FValue (por_tool_response r)); ("tool_use_id", FStr (por_tool_use_id r))].

Definition stop_input (r : StopRequest) : Input :=
  turn_input Stop (srq_context r) [("stop_reason", FStr (srq_stop_reason r))].

Definition pre_compaction_input (r : PreCompactionRequest) : Input :=
  turn_input PreCompaction (pcq_context r)
    [("trigger", FStr (pcq_trigger r)); ("token_estimate", FU32 (pcq_token_estimate r));
     ("message_count", FU32 (pcq_message_count r))].

Definition post_compaction_input (r : PostCompactionRequest) : Input :=
  turn_input PostCompaction (pcq'_context r)
    [("trigger", FStr (pcq'_trigger r)); ("summary", FStr (pcq'_summary r));
     ("original_token_count", FU32 (pcq'_original_token_count r));
     ("summary_token_count", FU32 (pcq'_summary_token_count r));
     ("message_count", FU32 (pcq'_message_count r))].

Definition pre_delegation_input (r : PreDelegationRequest) : Input :=
  turn_input PreDelegation (pdq_context r)
    [("tool_use_id", FStr (pdq_tool_use_id r)); ("target_agent_id", FStr (pdq_target_agent_id r));
     ("objective", FStr (pdq_objective r)); ("context", FNullable (pdq_delegation_context r));
     ("constraints", FNullable (pdq_constraints r));
     ("expected_output", FNullable (pdq_expected_output r))].

Definition delegation_start_input (r : DelegationStartRequest) : Input :=
  turn_input DelegationStart (dsr_context r)
    [("delegation_id", FStr (dsr_delegation_id r));
     ("target_agent_id", FStr (dsr_target_agent_id r)); ("objective", FStr (dsr_objective r));
     ("context", FNullable (dsr_delegation_context r));
     ("constraints", FNullable (dsr_constraints r));
     ("expected_output", FNullable (dsr_expected_output r)); ("status", FStr (dsr_status r))].

Definition post_delegation_input (r : PostDelegationRequest) : Input :=
  turn_input PostDelegation (pdr'_context r)
    [("delegation_id", FStr (pdr'_delegation_id r));
     ("target_agent_id", FStr (pdr'_target_agent_id r));
     ("child_session_id", FStr (pdr'_child_session_id r)); ("objective", FStr (pdr'_objective r));
     ("status", FStr (pdr'_status r)); ("summary", FStr (pdr'_summary r));
     ("verification_passed", FBool (pdr'_verification_passed r))].

Definition delegation_failure_input (r : DelegationFailureRequest) : Input :=
  turn_input DelegationFailure (dfr_context r)
    [("delegation_id", FStr (dfr_delegation_id r));
     ("target_agent_id", FStr (dfr_target_agent_id r)); ("objective", FStr (dfr_objective r));
     ("status", FStr (dfr_status r)); ("error", FStr (dfr_error r));
     ("error_type", FStr (dfr_error_type r))].

(** ** Session start and prompt submission *)

Record SessionStartRequest := {
  ssq_session_id : string;
  ssq_cwd : option string;
  ssq_model : string;
  ssq_permission_mode : string;
  ssq_source : string;
}.
Record SessionStartResult := {
  ssr_additional_contexts : list string;
  ssr_stop_reason : option string;
  ssr_notices : list HookNotice;
}.

Record UserPromptSubmitRequest := {
  upq_context : HookContext;
  upq_prompt : string;
}.
Record UserPromptSubmitResult := {
  upr_should_block : bool;
  upr_block_reason : option string;
  upr_additional_contexts : list string;
  upr_notices : list HookNotice;
}.

Definition session_start_default : SessionStartResult :=
  {| ssr_additional_contexts := []; ssr_stop_reason := None; ssr_notices := [] |}.
Definition user_prompt_submit_default : UserPromptSubmitResult :=
  {| upr_should_block := false; upr_block_reason := None; upr_additional_contexts := [];
     upr_notices := [] |}.

Definition session_start_input (r : SessionStartRequest) : Input :=
  [("session_id", FStr (ssq_session_id r)); ("transcript_path", FNullable None);
   ("cwd", FStr (cwd_string (ssq_cwd r))); ("hook_event_name", FStr (label SessionStart));
   ("model", FStr (ssq_model r)); ("permission_mode", FStr (ssq_permission_mode r));
   ("source", FStr (ssq_source r))].

Definition user_prompt_submit_input (r : UserPromptSubmitRequest) : Input :=
  turn_input UserPromptSubmit (upq_context r) [("prompt", FStr (upq_prompt r))].

(** ** Merging the outputs *)

Definition push_context (contexts : list string) (c : option string) : list string :=
  match c with Some c => contexts ++ [c] | None => contexts end.

Definition is_block (d : option ParsedDecision) : bool :=
  match d with Some Block => true | None => false end.

(** [if result.block_reason.is_none() { result.block_reason = reason.or_else(|| default) }],
    when the output blocks. *)
Definition block_reason (d : option ParsedDecision) (reason : option string) (dflt : string)
    (current : option string) : option string :=
  if is_block d then or_else current (or_else reason (Some dflt)) else current.

Definition session_start_output (a : SessionStartResult) (stdout : string) : SessionStartResult :=
  match parse_session_start stdout with
  | Ok (Some p) =>
      {| ssr_additional_contexts :=
           push_context (ssr_additional_contexts a) (pl_additional_context p);
         ssr_stop_reason :=
           if negb (pl_continue_processing p)
           then or_else (ssr_stop_reason a)
                  (or_else (pl_stop_reason p) (Some "session start blocked by hook"))
           else ssr_stop_reason a;
         ssr_notices := ssr_notices a |}
  | Ok None => a
  | Err err =>
      {| ssr_additional_contexts := ssr_additional_contexts a;
         ssr_stop_reason := ssr_stop_reason a;
         ssr_notices := ssr_notices a ++ [invalid_notice SessionStart err] |}
  end.

Definition run_session_start (r : SessionStartRequest) : H SessionStartResult :=
  if negb (hc_enabled config) then mret session_start_default else
  outputs ← run_event SessionStart None (session_start_input r) (ssq_cwd r);
  mret (fold_left session_start_output outputs session_start_default).

Definition user_prompt_submit_output (a : UserPromptSubmitResult) (stdout : string)
  : UserPromptSubmitResult :=
  match parse_user_prompt_submit stdout with
  | Ok (Some p) =>
      {| upr_should_block := upr_should_block a || is_block (pb_decision p);
         upr_block_reason :=
           block_reason (pb_decision p) (pb_reason p) "blocked by hook" (upr_block_reason a);
         upr_additional_contexts :=
           push_context (upr_additional_contexts a) (pb_additional_context p);
         upr_notices := upr_notices a |}
  | Ok None => a
  | Err err =>
      {| upr_should_block := upr_should_block a; upr_block_reason := upr_block_reason a;
         upr_additional_contexts := upr_additional_contexts a;
         upr_notices := upr_notices a ++ [invalid_notice UserPromptSubmit err] |}
  end.

Definition run_user_prompt_submit (r : UserPromptSubmitRequest) : H UserPromptSubmitResult :=
  if negb (hc_enabled config) then mret user_prompt_submit_default else
  outputs ← run_event UserPromptSubmit None (user_prompt_submit_input r)
              (hc_cwd (upq_context r));
  mret (fold_left user_prompt_submit_output outputs user_prompt_submit_default).

(** A denial counts as a block, before the decision of the same output. *)
Definition denial (d : option ParsedPermissionDecision) : option string :=
  match d with Some (PpDeny message) => Some message | _ => None end.

Definition pre_tool_use_output (a : PreToolUseResult) (stdout : string) : PreToolUseResult :=
  match parse_pre_tool_use stdout with
  | Ok (Some p) =>
      let denied := denial (ppt_permission_decision p) in
      {| ptu_should_block :=
           ptu_should_block a || match denied with Some _ => true | None => false end
           || is_block (ppt_decision p);
         ptu_block_reason :=
           block_reason (ppt_decision p) (ppt_reason p) "blocked by hook"
             (or_else (ptu_block_reason a) denied);
         ptu_updated_input := or_else (ppt_updated_input p) (ptu_updated_input a);
         ptu_additional_contexts :=
           push_context (ptu_additional_contexts a) (ppt_additional_context p);
         ptu_notices := ptu_notices a |}
  | Ok None => a
  | Err err =>
      {| ptu_should_block := ptu_should_block a; ptu_block_reason := ptu_block_reason a;
         ptu_updated_input := ptu_updated_input a;
         ptu_additional_contexts := ptu_additional_contexts a;
         ptu_notices := ptu_notices a ++ [invalid_notice PreToolUse err] |}
  end.

Definition run_pre_tool_use (r : PreToolUseRequest) : H PreToolUseResult :=
  if negb (hc_enabled config) then mret pre_tool_use_default else
  outputs ← run_event PreToolUse (Some (ptr_tool_name r)) (pre_tool_use_input r)
              (hc_cwd (ptr_context r));
  mret (fold_left pre_tool_use_output outputs pre_tool_use_default).

(** The first denial ends the merging. *)
Fixpoint merge_permission (outputs : list string) (a : PermissionRequestResult)
  : PermissionRequestResult :=
  match outputs with
  | [] => a
  | stdout :: rest =>
      match parse_permission_request stdout with
      | Ok (Some (Some (PpDeny message))) =>
          {| prs_decision := Some (PrdDeny message); prs_notices := prs_notices a |}
      | Ok (Some (Some PpAllow)) =>
          merge_permission rest
            {| prs_decision := Some PrdAllow; prs_notices := prs_notices a |}
      | Ok (Some None) | Ok None => merge_permission rest a
      | Err err =>
          merge_permission rest
            {| prs_decision := prs_decision a;
               prs_notices := prs_notices a ++ [invalid_notice PermissionRequest err] |}
      end
  end.

Definition run_permission_request (r : PermissionRequestRequest) : H PermissionRequestResult :=
  if negb (hc_enabled config) then mret permission_request_default else
  outputs ← run_event PermissionRequest (Some (prr_tool_name r)) (permission_request_input r)
              (hc_cwd (prr_context r));
  mret (merge_permission outputs permission_request_default).

Definition post_tool_use_output (a : PostToolUseResult) (stdout : string) : PostToolUseResult :=
  match parse_post_tool_use stdout with
  | Ok (Some p) =>
      {| pou_should_block := pou_should_block a || is_block (pc_decision p);
         pou_block_reason :=
           block_reason (pc_decision p) (pc_reason p) "blocked by hook" (pou_block_reason a);
         pou_stop_reason :=
           if negb (pc_continue_processing p)
           then or_else (pou_stop_reason a) (or_else (pc_stop_reason p) (pc_reason p))
           else pou_stop_reason a;
         pou_additional_contexts :=
           push_context (pou_additional_contexts a) (pc_additional_context p);
         pou_notices := pou_notices a |}
  | Ok None => a
  | Err err =>
      {| pou_should_block := pou_should_block a; pou_block_reason := pou_block_reason a;
         pou_stop_reason := pou_stop_reason a;
         pou_additional_contexts := pou_additional_contexts a;
         pou_notices := pou_notices a ++ [invalid_notice PostToolUse err] |}
  end.

Definition run_post_tool_use (r : PostToolUseRequest) : H PostToolUseResult :=
  if negb (hc_enabled config) then mret post_tool_use_default else
  outputs ← run_event PostToolUse (Some (por_tool_name r)) (post_tool_use_input r)
              (hc_cwd (por_context r));
  mret (fold_left post_tool_use_output outputs post_tool_use_default).

Definition stop_output (a : StopResult) (stdout : string) : StopResult :=
  match parse_stop stdout with
  | Ok (Some p) =>
      {| srs_should_continue :=
           srs_should_continue a || is_block (pc_decision p) || negb (pc_continue_processing p);
         srs_block_reason :=
           block_reason (pc_decision p) (pc_reason p) "continue requested by stop hook"
             (srs_block_reason a);
         srs_stop_reason :=
           if negb (pc_continue_processing p)
           then or_else (srs_stop_reason a) (or_else (pc_stop_reason p) (pc_reason p))
           else srs_stop_reason a;
         srs_additional_contexts :=
           push_context (srs_additional_contexts a) (pc_additional_context p);
         srs_notices := srs_notices a |}
  | Ok None => a
  | Err err =>
      {| srs_should_continue := srs_should_continue a; srs_block_reason := srs_block_reason a;
         srs_stop_reason := srs_stop_reason a;
         srs_additional_contexts := srs_additional_contexts a;
         srs_notices := srs_notices a ++ [invalid_notice Stop err] |}
  end.

Definition run_stop (r : StopRequest) : H StopResult :=
  if negb (hc_enabled config) then mret stop_default else
  outputs ← run_event Stop None (stop_input r) (hc_cwd (srq_context r));
  mret (fold_left stop_output outputs stop_default).

Definition pre_compaction_output (a : PreCompactionResult) (stdout : string)
  : PreCompactionResult :=
  match parse_pre_compaction stdout with
  | Ok (Some p) =>
      {| pcr_should_block := pcr_should_block a || is_block (pb_decision p);
         pcr_block_reason :=
           block_reason (pb_decision p) (pb_reason p) "compaction blocked by hook"
             (pcr_block_reason a);
         pcr_additional_contexts :=
           push_context (pcr_additional_contexts a) (pb_additional_context p);
         pcr_notices := pcr_notices a |}
  | Ok None => a
  | Err err =>
      {| pcr_should_block := pcr_should_block a; pcr_block_reason := pcr_block_reason a;
         pcr_additional_contexts := pcr_additional_contexts a;
         pcr_notices := pcr_notices a ++ [invalid_notice PreCompaction err] |}
  end.

Definition run_pre_compaction (r : PreCompactionRequest) : H PreCompactionResult :=
  if negb (hc_enabled config) then mret pre_compaction_default else
  outputs ← run_event PreCompaction None (pre_compaction_input r) (hc_cwd (pcq_context r));
  mret (fold_left pre_compaction_output outputs pre_compaction_default).

Definition post_compaction_output (a : PostCompactionResult) (stdout : string)
  : PostCompactionResult :=
  match parse_post_compaction stdout with
  | Ok (Some context) =>
      {| pcr'_additional_contexts := push_context (pcr'_additional_contexts a) context;
         pcr'_notices := pcr'_notices a |}
  | Ok None => a
  | Err err =>
      {| pcr'_additional_contexts := pcr'_additional_contexts a;
         pcr'_notices := pcr'_notices a ++ [invalid_notice PostCompaction err] |}
  end.

Definition run_post_compaction (r : PostCompactionRequest) : H PostCompactionResult :=
  if negb (hc_enabled config) then mret post_compaction_default else
  outputs ← run_event PostCompaction None (post_compaction_input r) (hc_cwd (pcq'_context r));
  mret (fold_left post_compaction_output outputs post_compaction_default).

Definition pre_delegation_output (a : PreDelegationResult) (stdout : string)
  : PreDelegationResult :=
  match parse_pre_delegation stdout with
  | Ok (Some p) =>
      {| pdr_should_block := pdr_should_block a || is_block (ppd_decision p);
         pdr_block_reason :=
           block_reason (ppd_decision p) (ppd_reason p) "delegation blocked by hook"
             (pdr_block_reason a);
         pdr_updated_delegation :=
           or_else (ppd_updated_delegation p) (pdr_updated_delegation a);
         pdr_additional_contexts :=
           push_context (pdr_additional_contexts a) (ppd_additional_context p);
         pdr_notices := pdr_notices a |}
  | Ok None => a
  | Err err =>
      {| pdr_should_block := pdr_should_block a; pdr_block_reason := pdr_block_reason a;
         pdr_updated_delegation := pdr_updated_delegation a;
         pdr_additional_contexts := pdr_additional_contexts a;
         pdr_notices := pdr_notices a ++ [invalid_notice PreDelegation err] |}
  end.

Definition run_pre_delegation (r : PreDelegationRequest) : H PreDelegationResult :=
  if negb (hc_enabled config) then mret pre_delegation_default else
  outputs ← run_event PreDelegation (Some (pdq_target_agent_id r)) (pre_delegation_input r)
              (hc_cwd (pdq_context r));
  mret (fold_left pre_delegation_output outputs pre_delegation_default).

(** ** The observing events of a delegation *)

Definition observing_default : DelegationHookResult :=
  {| dhr_additional_contexts := []; dhr_notices := [] |}.

Definition observing_output (event : HookEventConfig) (a : DelegationHookResult) (stdout : string)
  : DelegationHookResult :=
  match parse_delegation_lifecycle event stdout with
  | Ok (Some p) =>
      {| dhr_additional_contexts :=
           push_context (dhr_additional_contexts a) (pl_additional_context p);
         dhr_notices :=
           if negb (pl_continue_processing p) ||
              match pl_stop_reason p with Some _ => true | None => false end
           then dhr_notices a ++ [ignored_control_notice event] else dhr_notices a |}
  | Ok None => a
  | Err err =>
      {| dhr_additional_contexts := dhr_additional_contexts a;
         dhr_notices := dhr_notices a ++ [invalid_notice event err] |}
  end.

Definition run_observing_delegation_event (event : HookEventConfig) (target_agent_id : string)
    (input : Input) (cwd : option string) : H DelegationHookResult :=
  outputs ← run_event event (Some target_agent_id) input cwd;
  mret (fold_left (observing_output event) outputs observing_default).

Definition run_delegation_start (r : DelegationStartRequest) : H DelegationHookResult :=
  if negb (hc_enabled config) then mret observing_default else
  run_observing_delegation_event DelegationStart (dsr_target_agent_id r)
    (delegation_start_input r) (hc_cwd (dsr_context r)).

Definition run_post_delegation (r : PostDelegationRequest) : H DelegationHookResult :=
  if negb (hc_enabled config) then mret observing_default else
  run_observing_delegation_event PostDelegation (pdr'_target_agent_id r)
    (post_delegation_input r) (hc_cwd (pdr'_context r)).

Definition run_delegation_failure (r : DelegationFailureRequest) : H DelegationHookResult :=
  if negb (hc_enabled config) then mret observing_default else
  run_observing_delegation_event DelegationFailure (dfr_target_agent_id r)
    (delegation_failure_input r) (hc_cwd (dfr_context r)).
End engine.

(** [Hooks::new] *)
Definition hooks_new (config : HooksConfig) : result string HooksConfig :=
  match validate config with Some e => Err e | None => Ok config end.
