(* ===== verification/HookProps.v ===== *)
(** Theorems about the hook engine: which commands an event runs and what a
    failing one does, how the outputs of several hooks are merged, and that a
    tool a hook denies is not run. *)
From S2P Require Import Prelude Numbers Text Json Chat Domain Events Model ExecState Hooks.
From S2P Require Import World AgentConfig Retry CallLlm ToolCalls Fixtures Delegations.
From S2P Require Import HookWire HookEngine.

Local Open Scope Z_scope.

Section props.
Context {J : Json} {HS : HookSerde} {HR : HookRuntime}.
Variable config : HooksConfig.

(** ** The commands of an event *)

(** The hooks of the groups whose matcher takes the value. *)
Definition event_hooks (event : HookEventConfig) (matcher : option string)
  : list HookHandlerConfig :=
  flat_map mgc_hooks
    (List.filter (fun g => matches_group (mgc_matcher g) matcher) (groups_for config event)).

(** A hook as a command to start. *)
Definition as_run (cwd stdin : string) (h : HookHandlerConfig) : HookRun :=
  match h with
  | Command c => {| hr_spec := spec_from_command c; hr_cwd := cwd; hr_stdin := stdin |}
  end.

(** An exit code that keeps an output: success, a block (2), or no code. *)
Definition completed (o : CommandOutput) : bool :=
  match co_exit_code o with Some 0 | Some 2 | None => true | Some _ => false end.

(** The answers of commands that are started one after the other. *)
Fixpoint answers (runs cmds : list HookRun) : list (result string CommandOutput) :=
  match cmds with
  | [] => []
  | c :: rest => run_command_hook runs c :: answers (runs ++ [c]) rest
  end.

Definition good_answer (r : result string CommandOutput) : bool :=
  match r with Ok o => completed o | Err _ => false end.

(** The error of an answer that is not good. *)
Definition answer_error (event : HookEventConfig) (r : result string CommandOutput) : string :=
  match r with
  | Ok o => failed_command event (default 0 (co_exit_code o)) (co_stderr o)
  | Err e => e
  end.

Definition answer_stdout (r : result string CommandOutput) : option string :=
  match r with Ok o => Some (co_stdout o) | Err _ => None end.

Lemma run_hooks_cons event cwd stdin c rest outputs runs :
  run_hooks event cwd stdin (Command c :: rest) outputs runs =
  let r := as_run cwd stdin (Command c) in
  let answer := run_command_hook runs r in
  if good_answer answer
  then run_hooks event cwd stdin rest (outputs ++ omap answer_stdout [answer]) (runs ++ [r])
  else (Err (answer_error event answer), runs ++ [r]).
Proof.
  cbn [run_hooks]. unfold mbind, M_bind, start_command, as_run. cbv zeta.
  destruct (run_command_hook runs _) as [o|e]; [|done]. cbn. unfold completed.
  by destruct (co_exit_code o) as [[|[[]|[]|]|]|].
Qed.

Lemma run_hooks_app event cwd stdin h1 h2 outputs runs :
  run_hooks event cwd stdin (h1 ++ h2) outputs runs =
  (run_hooks event cwd stdin h1 outputs ≫= run_hooks event cwd stdin h2) runs.
Proof.
  revert outputs runs. induction h1 as [|[c] h1 IH]; intros outputs runs; [done|].
  change ((Command c :: h1) ++ h2) with (Command c :: (h1 ++ h2)).
  rewrite run_hooks_cons. unfold mbind, M_bind. rewrite run_hooks_cons. cbv zeta.
  destruct (good_answer _); [|done]. rewrite IH. done.
Qed.

Lemma run_groups_hooks event matcher cwd stdin groups outputs runs :
  run_groups event matcher cwd stdin groups outputs runs =
  run_hooks event cwd stdin
    (flat_map mgc_hooks (List.filter (fun g => matches_group (mgc_matcher g) matcher) groups))
    outputs runs.
Proof.
  revert outputs runs. induction groups as [|g groups IH]; intros outputs runs; [done|].
  cbn [run_groups List.filter]. destruct (matches_group _ _); cbn [negb]; [|apply IH].
  cbn [flat_map]. rewrite run_hooks_app. unfold mbind, M_bind.
  destruct (run_hooks _ _ _ (mgc_hooks g) outputs runs) as [[os|e] runs']; [apply IH|done].
Qed.

(** All commands complete, or the first that does not ends the event. *)
Lemma run_hooks_spec event cwd stdin hooks outputs runs :
  let cmds := map (as_run cwd stdin) hooks in
  let l := answers runs cmds in
  run_hooks event cwd stdin hooks outputs runs =
  match list_find (fun a => good_answer a = false) l with
  | None => (Ok (outputs ++ omap answer_stdout l), runs ++ cmds)
  | Some (i, a) => (Err (answer_error event a), runs ++ take (S i) cmds)
  end.
Proof.
  revert outputs runs. induction hooks as [|[c] hooks IH]; intros outputs runs.
  { cbn. by rewrite !app_nil_r. }
  rewrite run_hooks_cons. cbn [map answers list_find]. cbv zeta.
  set (r := as_run cwd stdin (Command c)). set (a := run_command_hook runs r).
  destruct (decide (good_answer a = false)) as [Hg|Hg]; [by rewrite Hg|].
  apply not_false_is_true in Hg. rewrite Hg, IH. cbn [omap list_omap].
  destruct (list_find _ _) as [[i b]|] eqn:Hf; cbn.
  - by rewrite <- app_assoc.
  - rewrite <- !app_assoc. destruct (answer_stdout a); cbn; done.
Qed.

(** C25: An event starts the commands of the matching groups one after the
    other, in the order of the configuration and with the same input and
    working directory, until one cannot be run or exits with a code other than
    0 and 2: that one's error is the event's, no command after it is started,
    and the outputs of those before it are lost.  When all complete, the
    outputs are theirs, in order. *)
Theorem event_runs_in_order event matcher input cwd runs :
  let cmds stdin := map (as_run (cwd_string cwd) stdin) (event_hooks event matcher) in
  run_event config event matcher input cwd runs =
  match to_string_input input with
  | Err e => (Err e, runs)
  | Ok stdin =>
      match list_find (fun a => good_answer a = false) (answers runs (cmds stdin)) with
      | None => (Ok (omap answer_stdout (answers runs (cmds stdin))), runs ++ cmds stdin)
      | Some (i, a) => (Err (answer_error event a), runs ++ take (S i) (cmds stdin))
      end
  end.
Proof.
  cbv zeta. unfold run_event, mbind, M_bind, lift_result.
  destruct (to_string_input input) as [stdin|e]; [|done].
  rewrite run_groups_hooks, run_hooks_spec. done.
Qed.

(** ** Merging *)

(** The parsed outputs, and the notices of those that do not parse. *)
Definition parsed_outputs {A} (parse : string -> result string (option A)) (outputs : list string)
  : list A := omap (fun o => match parse o with Ok p => p | Err _ => None end) outputs.
Definition output_notices {A} (parse : string -> result string (option A))
    (event : HookEventConfig) (outputs : list string) : list HookNotice :=
  omap (fun o => match parse o with Ok _ => None | Err e => Some (invalid_notice event e) end)
    outputs.

(** Why an output of [pre_tool_use] blocks, when it does. *)
Definition blocks_because (p : ParsedPreToolUse) : option string :=
  or_else (denial (ppt_permission_decision p))
    (if is_block (ppt_decision p) then or_else (ppt_reason p) (Some "blocked by hook") else None).

Lemma last_omap_snoc {A B} (f : A -> option B) l x :
  last (omap f (l ++ [x])) = or_else (f x) (last (omap f l)).
Proof. rewrite omap_app. cbn. destruct (f x); [by rewrite last_snoc|by rewrite app_nil_r]. Qed.

Lemma head_omap_snoc {A B} (f : A -> option B) l x :
  head (omap f (l ++ [x])) = or_else (head (omap f l)) (f x).
Proof. rewrite omap_app. cbn. destruct (omap f l); [by destruct (f x)|done]. Qed.

Lemma parsed_snoc {A} (parse : string -> result string (option A)) outputs o :
  parsed_outputs parse (outputs ++ [o]) =
  parsed_outputs parse outputs ++ match parse o with Ok (Some p) => [p] | _ => [] end.
Proof. unfold parsed_outputs. rewrite omap_app. cbn. by destruct (parse o) as [[p|]|e]. Qed.

Lemma notices_snoc {A} (parse : string -> result string (option A)) event outputs o :
  output_notices parse event (outputs ++ [o]) =
  output_notices parse event outputs ++
  match parse o with Err e => [invalid_notice event e] | Ok _ => [] end.
Proof. unfold output_notices. rewrite omap_app. cbn. by destruct (parse o). Qed.

Lemma contexts_snoc {A} (f : A -> option string) l x :
  omap f (l ++ [x]) = push_context (omap f l) (f x).
Proof. rewrite omap_app. cbn. destruct (f x); [done|by rewrite app_nil_r]. Qed.

Lemma pre_tool_use_merged outputs :
  let ps := parsed_outputs parse_pre_tool_use outputs in
  fold_left pre_tool_use_output outputs pre_tool_use_default =
  {| ptu_should_block := match head (omap blocks_because ps) with Some _ => true | None => false end;
     ptu_block_reason := head (omap blocks_because ps);
     ptu_updated_input := last (omap ppt_updated_input ps);
     ptu_additional_contexts := omap ppt_additional_context ps;
     ptu_notices := output_notices parse_pre_tool_use PreToolUse outputs |}.
Proof.
  induction outputs as [|o outputs IH] using rev_ind; [done|]. cbv zeta in *.
  rewrite fold_left_app. cbn [fold_left]. rewrite IH, parsed_snoc, notices_snoc.
  unfold pre_tool_use_output. destruct (parse_pre_tool_use o) as [[p|]|e].
  - rewrite head_omap_snoc, last_omap_snoc, contexts_snoc, app_nil_r. cbn. f_equal.
    + unfold blocks_because. destruct (head _); cbn; [done|].
      destruct (denial _); cbn; [done|]. by destruct (is_block _), (ppt_reason p).
    + unfold block_reason, blocks_because. destruct (head _); cbn.
      * by destruct (is_block _).
      * by destruct (denial _), (is_block _).
  - by rewrite !app_nil_r.
  - by rewrite !app_nil_r.
Qed.

(** When the commands of a [pre_tool_use] event complete, the tool is
    blocked exactly when one of their outputs denies it, asks for confirmation
    or blocks it; the reason is the first such output's, the denial before the
    decision; the input becomes the one the last output that gives one gives;
    the contexts are collected in order, and an output that cannot be read
    gives a notice and decides nothing. *)
Theorem pre_tool_use_verdict request runs runs' outputs :
  hc_enabled config = true ->
  run_event config PreToolUse (Some (ptr_tool_name request)) (pre_tool_use_input request)
    (hc_cwd (ptr_context request)) runs = (Ok outputs, runs') ->
  exists res, run_pre_tool_use config request runs = (Ok res, runs') /\
    let ps := parsed_outputs parse_pre_tool_use outputs in
    (ptu_should_block res = true <->
     exists p, In p ps /\ (denial (ppt_permission_decision p) <> None \/
                           ppt_decision p = Some Block)) /\
    ptu_block_reason res = head (omap blocks_because ps) /\
    ptu_updated_input res = last (omap ppt_updated_input ps) /\
    ptu_additional_contexts res = omap ppt_additional_context ps /\
    ptu_notices res = output_notices parse_pre_tool_use PreToolUse outputs.
Proof.
  intros He Hr. unfold run_pre_tool_use. rewrite He. cbn [negb].
  eexists. split; [by rewrite (bind_ok _ _ _ _ _ Hr)|]. cbv zeta.
  rewrite pre_tool_use_merged. cbn [ptu_should_block ptu_block_reason ptu_updated_input
    ptu_additional_contexts ptu_notices]. split; [|done].
  generalize (parsed_outputs parse_pre_tool_use outputs) as ps. intros ps.
  assert (forall p, blocks_because p <> None <->
    (denial (ppt_permission_decision p) <> None \/ ppt_decision p = Some Block)) as Hb.
  { intros p. unfold blocks_because, is_block.
    destruct (denial _), (ppt_decision p) as [[]|], (ppt_reason p); cbn;
      split; intros Hx; try done; auto; by destruct Hx. }
  induction ps as [|p ps IH]; cbn [omap list_omap head]; [by split; [|intros (? & [] & _)]|].
  destruct (blocks_because p) as [m|] eqn:Hp; cbn [head].
  - split; [intros _|done]. exists p. split; [by left|]. apply Hb. by rewrite Hp.
  - rewrite IH. split; [intros (q & Hq & Hd); eauto using in_cons|].
    intros (q & [<-|Hq] & Hd); [|eauto]. apply Hb in Hd. by rewrite Hp in Hd.
Qed.

(** The decisions of [permission_request] outputs, in order. *)
Definition permission_decisions (outputs : list string) : list ParsedPermissionDecision :=
  omap (fun p => p) (parsed_outputs parse_permission_request outputs).

Lemma merge_permission_decision outputs a :
  prs_decision (merge_permission outputs a) =
  match head (omap (fun d => denial (Some d)) (permission_decisions outputs)) with
  | Some m => Some (PrdDeny m)
  | None => match permission_decisions outputs with [] => prs_decision a | _ => Some PrdAllow end
  end.
Proof.
  revert a. induction outputs as [|o outputs IH]; intros a; [done|]. cbn [merge_permission].
  unfold permission_decisions, parsed_outputs in *. cbn [omap list_omap].
  destruct (parse_permission_request o) as [[[[|m]|]|]|e]; cbn; rewrite ?IH; cbn; try done.
  destruct (head _); [done|]. by destruct (omap _ _).
Qed.

(** When the commands of a [permission_request] event complete, a denial
    overrides every approval, before it or after it: the decision is the first
    denial, an approval only when there is one and no denial, and left to the
    user otherwise. *)
Theorem permission_denial_overrides request runs runs' outputs :
  hc_enabled config = true ->
  run_event config PermissionRequest (Some (prr_tool_name request))
    (permission_request_input request) (hc_cwd (prr_context request)) runs = (Ok outputs, runs') ->
  exists res, run_permission_request config request runs = (Ok res, runs') /\
    prs_decision res =
    match head (omap (fun d => denial (Some d)) (permission_decisions outputs)) with
    | Some m => Some (PrdDeny m)
    | None => match permission_decisions outputs with [] => None | _ => Some PrdAllow end
    end.
Proof.
  intros He Hr. unfold run_permission_request. rewrite He. cbn [negb].
  eexists. split; [by rewrite (bind_ok _ _ _ _ _ Hr)|]. by rewrite merge_permission_decision.
Qed.

(** ** The engine behind a tool call *)

(** What an engine's events of a result are. *)
Definition notice_event (n : HookNotice) : AgentEventKind :=
  EvHookNotice (hn_event_name n) (hn_message n) (hn_is_error n).

Lemma emit_notices_events l w :
  emit_notices l w = (Ok tt, set_events (fun es => es ++ map notice_event l) w).
Proof.
  revert w. induction l as [|n l IH]; intros w; cbn [emit_notices mapM_ map].
  - unfold set_events. rewrite app_nil_r. by destruct w.
  - unfold mbind, M_bind. cbn [emit_event modify]. unfold emit_notices in IH. rewrite IH.
    unfold set_events. cbn. by rewrite <- app_assoc.
Qed.

(** C12: With the engine behind the environment's [pre_tool_use] hook, a call
    that one of its commands denies, when all complete, is answered with the
    first reason as an error and is not run: the call reports no start and no
    end, only the engine's notices, and stores nothing. *)
Theorem denied_tool_is_not_run {Ev : Env} ac ctx call w runs runs' outputs reason :
  let request :=
    {| ptr_context := AgentConfig.hook_context ctx; ptr_tool_name := tf_name (mtc_function call);
       ptr_tool_input := parse_arguments (tf_arguments (mtc_function call));
       ptr_tool_use_id := mtc_id call |} in
  env_cancel_at = None ->
  hc_enabled config = true ->
  env_pre_tool_use (S (w_now w)) request = (run_pre_tool_use config request runs).1 ->
  run_event config PreToolUse (Some (ptr_tool_name request)) (pre_tool_use_input request)
    (hc_cwd (ptr_context request)) runs = (Ok outputs, runs') ->
  head (omap blocks_because (parsed_outputs parse_pre_tool_use outputs)) = Some reason ->
  exists args w',
    execute_tool_call ac ctx call w =
      (Ok (tool_result_new (mtc_id call) (error_text reason) true
             (Some (tf_name (mtc_function call))) (Some args)), w') /\
    w_history w' = w_history w /\
    w_events w' =
      w_events w ++ map notice_event (output_notices parse_pre_tool_use PreToolUse outputs).
Proof.
  intros request Hc He Henv Hr Hd. unfold execute_tool_call. unfold mbind at 1, M_bind at 1.
  rewrite awaiting_ask_run by done. fold request. rewrite Henv. unfold run_pre_tool_use.
  rewrite He. cbn [negb]. rewrite (bind_ok _ _ _ _ _ Hr). cbn [fst mret M_ret].
  rewrite pre_tool_use_merged, Hd. unfold mbind at 1, M_bind at 1. cbn [or_throw ptu_notices].
  unfold mbind at 1, M_bind at 1. cbn [mret M_ret ptu_notices].
  rewrite emit_notices_events. cbn [ptu_should_block ptu_block_reason].
  eexists _, _. split; [reflexivity|]. done.
Qed.
End props.

(** ** A concrete engine *)

Section example.
#[local] Existing Instance toy_json.

Definition silent_universal : HookUniversalOutputWire :=
  {| huw_continue := true; huw_stop_reason := None; huw_system_message := None |}.

Definition denying_output : PreToolUseCommandOutputWire :=
  {| dow_universal := silent_universal; dow_decision := None; dow_reason := None;
     dow_hook_specific_output := Some
       {| ptw_hook_event_name := "pre_tool_use"; ptw_permission_decision := Some PpdDeny;
          ptw_permission_decision_reason := Some "not today"; ptw_updated_input := None;
          ptw_additional_context := None |} |}.

Definition permission_output (allow : bool) : PermissionRequestCommandOutputWire :=
  {| pow_universal := silent_universal;
     pow_hook_specific_output := Some
       {| prw_hook_event_name := "permission_request";
          prw_decision := Some {| prw_behavior := if allow then PrbAllow else PrbDeny;
                                  prw_message := None |} |} |}.

Definition no_output {A} (s : string) : result string A := Err "unexpected".

(** Outputs are written [{deny}] and [{allow}]. *)
#[local] Instance toy_serde : HookSerde := {|
  to_string_input fields := Ok (join "," (map fst fields));
  read_pre_tool_use s := if String.eqb s "{deny}" then Ok denying_output else Err "bad";
  read_permission_request s :=
    if String.eqb s "{deny}" then Ok (permission_output false)
    else if String.eqb s "{allow}" then Ok (permission_output true) else Err "bad";
  read_post_tool_use := no_output; read_user_prompt_submit := no_output;
  read_session_start := no_output; read_stop := no_output; read_pre_compaction := no_output;
  read_post_compaction := no_output; read_pre_delegation := no_output;
  read_delegation_lifecycle _ := no_output |}.

(** Commands print their own text, and [fail] exits with 1. *)
#[local] Instance toy_runtime : HookRuntime := {|
  run_command_hook _ r :=
    if String.eqb (chs_command (hr_spec r)) "fail"
    then Ok {| co_exit_code := Some 1; co_stdout := ""; co_stderr := "no" |}
    else Ok {| co_exit_code := Some 0; co_stdout := chs_command (hr_spec r); co_stderr := "" |};
  regex_is_match p s := Some (String.eqb p s) |}.

Definition toy_hook (command : string) : HookHandlerConfig :=
  Command {| hcc_command := command; hcc_timeout_sec := None; hcc_status_message := None;
             hcc_env := [] |}.

Definition toy_config (matcher : option string) (commands : list string) : HooksConfig :=
  let groups := [{| mgc_matcher := matcher; mgc_hooks := map toy_hook commands |}] in
  {| hc_enabled := true; hc_bypass_trust := false; hc_session_start := [];
     hc_user_prompt_submit := []; hc_pre_tool_use := groups; hc_permission_request := groups;
     hc_post_tool_use := []; hc_stop := []; hc_pre_compaction := []; hc_post_compaction := [];
     hc_pre_delegation := []; hc_delegation_start := []; hc_post_delegation := [];
     hc_delegation_failure := []; hc_extra := [] |}.

Definition shell_call : MwToolCall := a_call "c1" "shell" "{}".
Definition shell_request : PreToolUseRequest :=
  {| ptr_context := AgentConfig.hook_context ctx0; ptr_tool_name := "shell";
     ptr_tool_input := parse_arguments "{}"; ptr_tool_use_id := "c1" |}.
Definition shell_permission : PermissionRequestRequest :=
  {| prr_context := AgentConfig.hook_context ctx0; prr_tool_name := "shell";
     prr_tool_input := parse_arguments "{}" |}.

(** A hook that crashes hides the denial of the one before it. *)
Example crash_hides_denial :
  (run_pre_tool_use (toy_config None ["{deny}"; "fail"]) shell_request []).1 =
  Err "pre_tool_use hook command failed with exit code 1: no".
Proof. vm_compute. reflexivity. Qed.

Definition denied_outputs : list string := ["{deny}"; " "; "nonsense"].

Lemma toy_event (e : HookEventConfig) :
  groups_for (toy_config (Some "shell") denied_outputs) e <> [] ->
  forall input, run_event (toy_config (Some "shell") denied_outputs) e (Some "shell") input None [] =
    (Ok denied_outputs, map (as_run "." (join "," (map fst input))) (map toy_hook denied_outputs)).
Proof. intros He input. destruct e; try (by destruct He); reflexivity. Qed.

Lemma pre_tool_use_verdict_witness :
  exists res runs',
    run_pre_tool_use (toy_config (Some "shell") denied_outputs) shell_request [] = (Ok res, runs')
    /\ ptu_block_reason res = Some "not today" /\ length (ptu_notices res) = 1%nat.
Proof.
  destruct (pre_tool_use_verdict (toy_config (Some "shell") denied_outputs) shell_request []
              _ _ eq_refl (toy_event PreToolUse ltac:(discriminate) _))
    as (res & Hres & _ & Hr & _ & _ & Hn).
  eexists res, _. split; [exact Hres|]. rewrite Hr, Hn. vm_compute. done.
Defined.

Lemma permission_denial_overrides_witness :
  exists res runs',
    run_permission_request (toy_config None ["{allow}"; "{deny}"; "{allow}"]) shell_permission []
      = (Ok res, runs') /\ prs_decision res = Some (PrdDeny "blocked by hook").
Proof.
  destruct (permission_denial_overrides (HS := toy_serde) (HR := toy_runtime) (toy_config None ["{allow}"; "{deny}"; "{allow}"])
    shell_permission []
    (map (as_run "." (join "," (map fst (permission_request_input shell_permission))))
      (map toy_hook ["{allow}"; "{deny}"; "{allow}"]))
    ["{allow}"; "{deny}"; "{allow}"] eq_refl ltac:(vm_compute; reflexivity)) as (res & Hres & Hd).
  eexists res, _. split; [exact Hres|]. rewrite Hd. vm_compute. done.
Defined.

Definition hooked : Scenario :=
  with_pre_tool_use
    (fun r => (run_pre_tool_use (toy_config (Some "shell") denied_outputs) r []).1) quiet.

Lemma denied_tool_is_not_run_witness :
  exists args w',
    execute_tool_call (Ev := env_of hooked) config0 ctx0 shell_call world0 =
      (Ok (tool_result_new "c1" (error_text "not today") true (Some "shell") (Some args)), w').
Proof.
  destruct (denied_tool_is_not_run (Ev := env_of hooked) (toy_config (Some "shell") denied_outputs)
    config0 ctx0 shell_call world0 [] _ denied_outputs "not today" eq_refl eq_refl eq_refl
    (toy_event PreToolUse ltac:(discriminate) _) ltac:(vm_compute; reflexivity))
    as (args & w' & Hrun & _).
  exists args, w'. exact Hrun.
Defined.
End example.
