(* ===== verification/SessionRows.v ===== *)
(** The rows of the session database that undo, redo and forks work on, and the
    statements of the SQLite store over them (session/sqlite_storage/
    session_store.rs, event_journal.rs, mod.rs; session/repo_session.rs),
    with the transaction of a fork; and the agent's errors and their codes in
    the client protocol (error.rs). *)
From S2P Require Import Prelude Numbers Json Chat LlmErrors Domain Events Model ScheduleRepo.

Local Open Scope Z_scope.

(** The [Display] of a store's error. *)
Definition session_error_display (e : SessionError) : string :=
  match e with
  | SessionNotFound s => "Session not found: " +:+ s
  | TaskNotFound s => "Task not found: " +:+ s
  | IntentSnapshotNotFound s => "Intent snapshot not found: " +:+ s
  | DecisionNotFound s => "Decision not found: " +:+ s
  | AlternativeNotFound s => "Alternative not found: " +:+ s
  | ProgressEntryNotFound s => "Progress entry not found: " +:+ s
  | ArtifactNotFound s => "Artifact not found: " +:+ s
  | DelegationNotFound s => "Delegation not found: " +:+ s
  | InvalidForkPoint s => "Invalid fork point reference: " +:+ s
  | ForkPointTypeMismatch expected actual =>
      "Fork point type mismatch: expected " +:+ expected +:+ ", got " +:+ actual
  | InvalidMessageIndex s => "Invalid message index: " +:+ s
  | DatabaseError s => "Database error: " +:+ s
  | SerializationError s => "Serialization error: " +:+ s
  | InvalidOperation s => "Invalid operation: " +:+ s
  | SeProviderError e => "Provider error: " +:+ llm_error_display e
  | SeOther s => s
  end.

(** [session::domain::RevertState] *)
Record RevertState := {
  rv_public_id : string;
  rv_session_id : string;
  rv_message_id : string;
  rv_snapshot_id : string;
  rv_backend_id : string;
  rv_created_at : Z;
}.

(** A row of [sessions]: what the statements here read of it. *)
Record SessionRow := {
  se_public_id : string;
  se_parent : option string;
  se_created_at : string;
}.

Record RevertRow := { rr_id : Z; rr_state : RevertState }.

Section rows.
Context {J : Json}.

(** A row of [messages] with its parts; [mr_id] is the internal id. *)
Record MessageRow := {
  mr_id : Z;
  mr_session : string;
  mr_message : AgentMessage;
}.

(** The tables, each in the order of its row ids. *)
Record SessionDb := {
  sd_sessions : list SessionRow;
  sd_messages : list MessageRow;
  sd_reverts : list RevertRow;
  sd_journal : list DurableEvent;
}.

Definition set_sd_messages (f : list MessageRow -> list MessageRow) (db : SessionDb) : SessionDb :=
  {| sd_sessions := sd_sessions db; sd_messages := f (sd_messages db);
     sd_reverts := sd_reverts db; sd_journal := sd_journal db |}.
Definition set_sd_reverts (f : list RevertRow -> list RevertRow) (db : SessionDb) : SessionDb :=
  {| sd_sessions := sd_sessions db; sd_messages := sd_messages db;
     sd_reverts := f (sd_reverts db); sd_journal := sd_journal db |}.
Definition set_sd_journal (f : list DurableEvent -> list DurableEvent) (db : SessionDb) : SessionDb :=
  {| sd_sessions := sd_sessions db; sd_messages := sd_messages db;
     sd_reverts := sd_reverts db; sd_journal := f (sd_journal db) |}.

(** ** Queries *)

Definition session_exists (session : string) (db : SessionDb) : bool :=
  existsb (fun s => String.eqb (se_public_id s) session) (sd_sessions db).

(** [resolve_session_internal_id]: the session's rows are those of its public id. *)
Definition resolve_session (session : string) (db : SessionDb) : result SessionError unit :=
  if session_exists session db then Ok tt else Err (SessionNotFound session).

Definition of_session_row (session : string) (r : MessageRow) : bool :=
  String.eqb (mr_session r) session.

Definition get_history (session : string) (db : SessionDb)
  : result SessionError (list AgentMessage) :=
  match resolve_session session db with
  | Err e => Err e
  | Ok _ =>
      Ok (map mr_message
            (sort_on (fun a b => am_created_at (mr_message a) <=? am_created_at (mr_message b))
               (List.filter (of_session_row session) (sd_messages db))))
  end.

Definition list_child_sessions (parent : string) (db : SessionDb)
  : result SessionError (list string) :=
  match resolve_session parent db with
  | Err e => Err e
  | Ok _ =>
      Ok (map se_public_id
            (sort_on (fun a b => String.leb (se_created_at a) (se_created_at b))
               (List.filter (fun s => bool_decide (se_parent s = Some parent)) (sd_sessions db))))
  end.

(** [resolve_message_internal_id]: the message is looked up in every session. *)
Definition resolve_message (message_id : string) (db : SessionDb) : result SessionError Z :=
  match List.find (fun r => String.eqb (am_id (mr_message r)) message_id) (sd_messages db) with
  | Some r => Ok (mr_id r)
  | None => Err (InvalidOperation ("Message not found: " +:+ message_id))
  end.

Definition of_session_revert (session : string) (r : RevertRow) : bool :=
  String.eqb (rv_session_id (rr_state r)) session.

(** [ORDER BY id DESC LIMIT 1] *)
Definition last_revert (session : string) (db : SessionDb) : option RevertRow :=
  last (List.filter (of_session_revert session) (sd_reverts db)).

Definition peek_revert_state (session : string) (db : SessionDb)
  : result SessionError (option RevertState) :=
  match resolve_session session db with
  | Err e => Err e
  | Ok _ => Ok (rr_state <$> last_revert session db)
  end.

Definition list_revert_states (session : string) (db : SessionDb)
  : result SessionError (list RevertState) :=
  match resolve_session session db with
  | Err e => Err e
  | Ok _ => Ok (map rr_state (List.filter (of_session_revert session) (sd_reverts db)))
  end.

(** The limit of [load_session_stream] when none is given. *)
Definition STREAM_LIMIT : nat := Z.to_nat 10000.

Definition load_session_stream (session : string) (after_seq : option Z) (limit : option nat)
    (db : SessionDb) : list DurableEvent :=
  take (default STREAM_LIMIT limit)
    (List.filter (fun e => String.eqb (de_session_id e) session &&
                           (default 0 after_seq <? de_stream_seq e)) (sd_journal db)).

(** ** Updates *)

Definition next_revert_id (db : SessionDb) : Z := 1 + foldr Z.max 0 (map rr_id (sd_reverts db)).

(** The row's date is the time of the insertion. *)
Definition push_revert_state (session : string) (now : Z) (state : RevertState) (db : SessionDb)
  : result SessionError unit * SessionDb :=
  match resolve_session session db with
  | Err e => (Err e, db)
  | Ok _ =>
      let row := {| rr_id := next_revert_id db;
                    rr_state := {| rv_public_id := rv_public_id state; rv_session_id := session;
                                   rv_message_id := rv_message_id state;
                                   rv_snapshot_id := rv_snapshot_id state;
                                   rv_backend_id := rv_backend_id state;
                                   rv_created_at := now |} |} in
      (Ok tt, set_sd_reverts (fun l => l ++ [row]) db)
  end.

Definition pop_revert_state (session : string) (db : SessionDb)
  : result SessionError (option RevertState) * SessionDb :=
  match resolve_session session db with
  | Err e => (Err e, db)
  | Ok _ =>
      match last_revert session db with
      | Some r =>
          (Ok (Some (rr_state r)),
           set_sd_reverts (List.filter (fun r' => negb (Z.eqb (rr_id r') (rr_id r)))) db)
      | None => (Ok None, db)
      end
  end.

Definition clear_revert_states (session : string) (db : SessionDb)
  : result SessionError unit * SessionDb :=
  match resolve_session session db with
  | Err e => (Err e, db)
  | Ok _ => (Ok tt, set_sd_reverts (List.filter (fun r => negb (of_session_revert session r))) db)
  end.

(** The message and the session's messages with a later internal id; the
    number of rows deleted. *)
Definition delete_messages_after (session message_id : string) (db : SessionDb)
  : result SessionError nat * SessionDb :=
  match resolve_session session db with
  | Err e => (Err e, db)
  | Ok _ =>
      match resolve_message message_id db with
      | Err e => (Err e, db)
      | Ok id =>
          let gone r := of_session_row session r && (id <=? mr_id r) in
          (Ok (length (List.filter gone (sd_messages db))),
           set_sd_messages (List.filter (fun r => negb (gone r))) db)
      end
  end.

Definition delete_session_events_from (session : string) (from_seq : Z) (db : SessionDb)
  : nat * SessionDb :=
  let gone e := String.eqb (de_session_id e) session && (from_seq <=? de_stream_seq e) in
  (length (List.filter gone (sd_journal db)),
   set_sd_journal (List.filter (fun e => negb (gone e))) db).
End rows.

(** ** Forks: the new session's row, the messages up to the target and the
    conversational events about them, in one transaction. *)


(** The columns of [sessions] that a fork inherits or sets. *)
Record SessionDetails := {
  sdt_name : option string;
  sdt_cwd : option string;
  sdt_llm_config_id : option Z;
  sdt_fork_origin : option ForkOrigin;
  sdt_fork_point_type : option ForkPointType;
  (** the internal id of the message *)
  sdt_fork_point_ref : option Z;
}.

Section fork.
Context {J : Json}.

(** The tables, the details of the sessions, and [event_journal_seq]. *)
Record ForkDb := {
  fd_db : SessionDb;
  fd_details : gmap string SessionDetails;
  fd_next_seq : Z;
}.

(** [now_v7] uuids, in the order in which they are made; the time as text;
    the failure of the transaction, if there is one. *)
Record ForkInput := {
  fi_uuid : nat -> string;
  fi_now : string;
  fi_failure : option SessionError;
}.

(** The rows up to the one with the target's internal id, or all of them. *)
Fixpoint messages_to_copy (target : Z) (rows : list MessageRow) : list MessageRow :=
  match rows with
  | [] => []
  | r :: rest => r :: (if mr_id r =? target then [] else messages_to_copy target rest)
  end.

Definition next_message_id (db : SessionDb) : Z := 1 + foldr Z.max 0 (map mr_id (sd_messages db)).

(** The message under a new name, in the new session, without a parent. *)
Definition copy_message (new_id new_session : string) (m : AgentMessage) : AgentMessage :=
  {| am_id := new_id; am_session_id := new_session; am_role := am_role m; am_parts := am_parts m;
     am_created_at := am_created_at m; am_parent_message_id := None;
     am_source_provider := am_source_provider m; am_source_model := am_source_model m |}.

(** The [k]th copy takes the uuid after those of the session and of the copies before it. *)
Fixpoint copy_rows (uuid : nat -> string) (new_session : string) (k : nat) (next_id : Z)
    (rows : list MessageRow) : list MessageRow :=
  match rows with
  | [] => []
  | r :: rest =>
      {| mr_id := next_id; mr_session := new_session;
         mr_message := copy_message (uuid k) new_session (mr_message r) |}
      :: copy_rows uuid new_session (S k) (next_id + 1) rest
  end.

(** [prompt_received] and [assistant_message_stored] of a copied message. *)
Definition conversational (copied : gset string) (e : DurableEvent) : bool :=
  match de_kind e with
  | PromptReceived _ (Some id) => bool_decide (id ∈ copied)
  | AssistantMessageStored _ _ (Some id) => bool_decide (id ∈ copied)
  | _ => false
  end.

(** The payload is copied as it is. *)
Fixpoint copy_events (uuid : nat -> string) (new_session : string) (k : nat) (seq : Z)
    (events : list DurableEvent) : list DurableEvent :=
  match events with
  | [] => []
  | e :: rest =>
      {| de_event_id := uuid k; de_stream_seq := seq; de_session_id := new_session;
         de_timestamp := de_timestamp e; de_origin := de_origin e;
         de_source_node := de_source_node e; de_kind := de_kind e |}
      :: copy_events uuid new_session (S k) (seq + 1) rest
  end.

Definition forked_details (details : gmap string SessionDetails) (source : string)
    (origin : ForkOrigin) (target : Z) : SessionDetails :=
  {| sdt_name := Some "Fork of session";
     sdt_cwd := d ← details !! source; sdt_cwd d;
     sdt_llm_config_id := d ← details !! source; sdt_llm_config_id d;
     sdt_fork_origin := Some origin; sdt_fork_point_type := Some FpMessageIndex;
     sdt_fork_point_ref := Some target |}.

(** The transaction's effect. *)
Definition fork_rows (input : ForkInput) (source : string) (target : Z) (origin : ForkOrigin)
    (fdb : ForkDb) : ForkDb :=
  let db := fd_db fdb in
  let new_session := fi_uuid input 0 in
  let rows := messages_to_copy target (List.filter (of_session_row source) (sd_messages db)) in
  let copied : gset string := list_to_set (map (fun r => am_id (mr_message r)) rows) in
  let events :=
    List.filter (conversational copied)
      (List.filter (fun e => String.eqb (de_session_id e) source) (sd_journal db)) in
  {| fd_db :=
       {| sd_sessions := sd_sessions db ++
            [{| se_public_id := new_session; se_parent := Some source; se_created_at := fi_now input |}];
          sd_messages := sd_messages db ++
            copy_rows (fi_uuid input) new_session 1 (next_message_id db) rows;
          sd_reverts := sd_reverts db;
          sd_journal := sd_journal db ++
            copy_events (fi_uuid input) new_session (1 + length rows) (fd_next_seq fdb) events |};
     fd_details := <[new_session := forked_details (fd_details fdb) source origin target]>
                     (fd_details fdb);
     fd_next_seq := fd_next_seq fdb + Z.of_nat (length events) |}.

Definition fork_session (input : ForkInput) (source target_message_id : string)
    (origin : ForkOrigin) (fdb : ForkDb) : result SessionError string * ForkDb :=
  match resolve_session source (fd_db fdb) with
  | Err e => (Err e, fdb)
  | Ok _ =>
      match resolve_message target_message_id (fd_db fdb) with
      | Err e => (Err e, fdb)
      | Ok target =>
          match fi_failure input with
          | Some e => (Err e, fdb)
          | None => (Ok (fi_uuid input 0), fork_rows input source target origin fdb)
          end
      end
  end.
End fork.

(** ** The agent's errors *)



Inductive AgentError :=
| ProviderRequired
| UnknownProvider (name : string)
| MeshNotBootstrapped
| AeSessionNotFound (session_id : string)
| EmptySessionFork
| SessionSemaphoreClosed
| SessionTimeout (details : string)
| ScheduleNotFound (schedule_public_id : string)
| McpServerFailed (transport reason : string)
| MethodNotImplemented (method : string)
| AeProvider (s : string)
| ProviderChat (operation reason : string)
| ClientBridgeClosed
| PermissionCancelled
| PermissionChannelDropped
| WorkspaceQueryChannelDropped
| RemoteActor (s : string)
| SwarmLookupFailed (key reason : string)
| RemoteSessionNotFound (details : string)
| AdmissionRejected (reason : string)
| Serialization (s : string)
| Internal (s : string).

Definition agent_error_display (e : AgentError) : string :=
  match e with
  | ProviderRequired => "provider is required in config"
  | UnknownProvider name => "unknown provider: " +:+ name
  | MeshNotBootstrapped => "mesh not bootstrapped -- start with --mesh"
  | AeSessionNotFound id => "session not found: " +:+ id
  | EmptySessionFork => "cannot fork empty session"
  | SessionSemaphoreClosed => "session semaphore closed"
  | SessionTimeout details => "session execution timeout: " +:+ details
  | ScheduleNotFound id => "schedule not found: " +:+ id
  | McpServerFailed transport reason => "MCP " +:+ transport +:+ " server failed: " +:+ reason
  | MethodNotImplemented method => "method not implemented: " +:+ method
  | AeProvider s => "provider error: " +:+ s
  | ProviderChat operation reason =>
      "provider chat failed (" +:+ operation +:+ "): " +:+ reason
  | ClientBridgeClosed => "client bridge closed"
  | PermissionCancelled => "permission request cancelled"
  | PermissionChannelDropped => "permission response channel dropped"
  | WorkspaceQueryChannelDropped => "workspace query response channel dropped"
  | RemoteActor s => "remote actor error: " +:+ s
  | SwarmLookupFailed key reason => "swarm lookup failed for '" +:+ key +:+ "': " +:+ reason
  | RemoteSessionNotFound details => "remote session not found: " +:+ details
  | AdmissionRejected reason => "mesh admission rejected: " +:+ reason
  | Serialization s => "serialization error: " +:+ s
  | Internal s => "internal error: " +:+ s
  end.

(** [AcpError]: the code of the client protocol and the message. *)
Record AcpError := { acp_code : Z; acp_message : string }.

Definition acp_error_of (e : AgentError) : AcpError :=
  {| acp_code := match e with
                 | MethodNotImplemented _ => -32601
                 | AeSessionNotFound _ | RemoteSessionNotFound _ | ScheduleNotFound _ => -32002
                 | _ => -32603
                 end;
     acp_message := agent_error_display e |}.

(** [From<SessionError> for AgentError] *)
Definition agent_error_of_session (e : SessionError) : AgentError :=
  match e with
  | SessionNotFound id => AeSessionNotFound id
  | other => Internal (session_error_display other)
  end.

(** The explicit [map_err(|e| AgentError::Internal(e.to_string()))]. *)
Definition internal_of_session (e : SessionError) : AgentError := Internal (session_error_display e).
