(* ===== verification/Undo.v ===== *)
(** The git snapshot backend (snapshot/backend.rs, snapshot/git.rs): snapshots
    are commits of the visible files of a worktree, kept in a repository of
    their own.  Objects and trees of the repository are a library's (gix):
    here a commit holds the map from paths to blobs that its tree stands for.
    And undo and redo over it (agent/undo.rs). *)
From S2P Require Import Prelude Numbers Text Json Chat LlmErrors Domain Events Model.
From S2P Require Import ScheduleRepo SessionRows.

Local Open Scope Z_scope.

Inductive SnapshotError :=
| Repository (s : string)
| InvalidSnapshotId (s : string)
| NotFound (s : string)
| Filesystem (s : string)
| TaskPanicked
| SnOther (s : string).

Definition snapshot_error_display (e : SnapshotError) : string :=
  match e with
  | Repository s => "Snapshot repository error: " +:+ s
  | InvalidSnapshotId s => "Invalid snapshot ID: " +:+ s
  | NotFound s => "Snapshot not found: " +:+ s
  | Filesystem s => "Filesystem error: " +:+ s
  | TaskPanicked => "Snapshot task panicked"
  | SnOther s => s
  end.

Definition SnapshotId : Type := string.

(** A file of the worktree, and an entry of a tree: its bytes and mode. *)
Record FileEntry := { fe_data : string; fe_executable : bool }.

#[export] Instance FileEntry_eq_dec : EqDecision FileEntry.
Proof. solve_decision. Defined.

(** Files by their path relative to the worktree. *)
Abbreviation Files := (gmap string FileEntry).

Record Commit := {
  cm_tree : Files;
  cm_parent : option SnapshotId;
  cm_time : Z;
}.

Record Repo := {
  rp_commits : gmap SnapshotId Commit;
  rp_head : option SnapshotId;
}.

Record GcConfig := { gc_max_snapshots : option nat; gc_max_age_days : option Z }.
Definition gc_config_default : GcConfig :=
  {| gc_max_snapshots := Some 100%nat; gc_max_age_days := Some 30 |}.
Record GcResult := { gc_removed_count : nat; gc_remaining_count : nat }.

(** The worktree, the snapshot repository and the session database. *)
Record UndoWorld {J : Json} := {
  uw_now : nat;
  uw_files : Files;
  uw_repo : Repo;
  uw_db : SessionDb;
}.

Section world.
Context {J : Json}.

Definition set_uw_now (f : nat -> nat) (w : UndoWorld) : UndoWorld :=
  {| uw_now := f (uw_now w); uw_files := uw_files w; uw_repo := uw_repo w; uw_db := uw_db w |}.
Definition set_uw_files (f : Files -> Files) (w : UndoWorld) : UndoWorld :=
  {| uw_now := uw_now w; uw_files := f (uw_files w); uw_repo := uw_repo w; uw_db := uw_db w |}.
Definition set_uw_repo (f : Repo -> Repo) (w : UndoWorld) : UndoWorld :=
  {| uw_now := uw_now w; uw_files := uw_files w; uw_repo := f (uw_repo w); uw_db := uw_db w |}.
Definition set_uw_db (f : SessionDb -> SessionDb) (w : UndoWorld) : UndoWorld :=
  {| uw_now := uw_now w; uw_files := uw_files w; uw_repo := uw_repo w; uw_db := f (uw_db w) |}.
End world.

(** What the outside decides, at each operation: the failure of the
    repository, of a write or of a removal; the id of a commit; the files the
    walk leaves out (.gitignore) and whether an id is hexadecimal; the
    renames gix finds between two trees, as pairs of the old and the new path
    (by default it tracks them: a file that is gone and one that is new are
    paired when they are similar enough); the failures of the database, the clock and fresh ids. *)
Class UndoEnv {J : Json} := {
  ue_repo_error : nat -> option SnapshotError;
  ue_write_error : nat -> string -> option string;
  ue_remove_fails : nat -> string -> bool;
  ue_commit_id : nat -> Files -> option SnapshotId -> SnapshotId;
  ue_gix_text : string -> string;
  ue_is_hex : string -> bool;
  ue_ignored : string -> bool;
  ue_renames : Files -> Files -> list (string * string);
  ue_db_error : nat -> option SessionError;
  ue_unix_time : nat -> Z;
  ue_uuid : nat -> string;
}.

Section git.
Context {J : Json} {UE : UndoEnv}.

Definition G (A : Type) : Type := M UndoWorld SnapshotError A.

Definition g_tick : G nat := t ← gets uw_now; modify (set_uw_now S) ≫= fun _ => mret t.

(** [open_or_init] and the repository's own calls. *)
Definition open_or_init : G unit :=
  t ← g_tick;
  match ue_repo_error t with Some e => fail e | None => mret tt end.

(** ** Creating a snapshot *)

(** The hidden paths: [rel.starts_with('.') || rel.contains("/.")]. *)
Definition hidden (path : string) : bool := is_prefix_of "." path || contains path "/.".

Definition visible (path : string) : bool := negb (ue_ignored path) && negb (hidden path).

(** The entries of the visible files. *)
Definition snapshot_tree (files : Files) : Files := filter (fun kv => visible kv.1 = true) files.

Definition create_snapshot : G SnapshotId :=
  open_or_init ≫= fun _ =>
  t ← g_tick;
  tree ← gets (fun w => snapshot_tree (uw_files w));
  head ← gets (fun w => rp_head (uw_repo w));
  let id := ue_commit_id t tree head in
  modify (set_uw_repo (fun r =>
    {| rp_commits := <[id := {| cm_tree := tree; cm_parent := head; cm_time := ue_unix_time t |}]>
                       (rp_commits r);
       rp_head := Some id |})) ≫= fun _ =>
  mret id.

Definition track : G SnapshotId := create_snapshot.

(** ** Reading snapshots *)

Definition find_commit (what : string) (id : SnapshotId) : G Commit :=
  if negb (ue_is_hex id) then fail (InvalidSnapshotId id) else
  commit ← gets (fun w => rp_commits (uw_repo w) !! id);
  match commit with
  | Some c => mret c
  | None => fail (NotFound (what +:+ " " +:+ id +:+ ": " +:+ ue_gix_text id))
  end.

(** The old path of a renamed file. *)
Definition renamed_away (a b : Files) (p : string) : bool :=
  bool_decide (a !! p <> None) && bool_decide (b !! p = None)
  && existsb (fun r => String.eqb r.1 p) (ue_renames a b).

(** [diff_tree_to_tree] with its default options, without the directories: the
    [location()] of each change.  For a rename, which is one change, that is the
    new path; so what is listed are the paths whose entries differ, without
    the old paths of renamed files. *)
Definition diff_trees (a b : Files) : list string :=
  List.filter (fun p => negb (bool_decide (a !! p = b !! p)) && negb (renamed_away a b p))
    (elements (dom a ∪ dom b)).

Definition diff (pre post : SnapshotId) : G (list string) :=
  open_or_init ≫= fun _ =>
  from ← find_commit "'from' commit" pre;
  to ← find_commit "'to' commit" post;
  mret (diff_trees (cm_tree from) (cm_tree to)).

(** ** Restoring *)

(** The path of a directory of the tree. *)
Definition is_tree_dir (tree : Files) (path : string) : bool :=
  existsb (fun p => is_prefix_of (path +:+ "/") p) (elements (dom tree)).

(** [fs::write]: an existing file keeps its mode, a new one is not executable. *)
Definition write_file (path data : string) (files : Files) : Files :=
  <[path := {| fe_data := data;
               fe_executable := match files !! path with
                                | Some f => fe_executable f | None => false end |}]> files.

Definition checkout_path (tree : Files) (path : string) : G unit :=
  t ← g_tick;
  match tree !! path with
  | Some entry =>
      match ue_write_error t path with
      | Some e => fail (Filesystem e)
      | None => modify (set_uw_files (write_file path (fe_data entry)))
      end
  | None =>
      if is_tree_dir tree path || ue_remove_fails t path then mret tt
      else modify (set_uw_files (delete path))
  end.

Definition checkout_paths (id : SnapshotId) (paths : list string) : G unit :=
  commit ← find_commit "commit" id;
  mapM_ (checkout_path (cm_tree commit)) paths.

Definition restore_paths (id : SnapshotId) (paths : list string) : G unit :=
  open_or_init ≫= fun _ => checkout_paths id paths.

(** [checkout_all]: every file of the tree is written, a failure to write is
    ignored and no file is removed. *)
Definition checkout_entry (entry : string * FileEntry) : G unit :=
  t ← g_tick;
  match ue_write_error t entry.1 with
  | Some _ => mret tt
  | None => modify (set_uw_files (write_file entry.1 (fe_data entry.2)))
  end.

Definition restore (id : SnapshotId) : G unit :=
  open_or_init ≫= fun _ =>
  commit ← find_commit "commit" id;
  mapM_ checkout_entry (map_to_list (cm_tree commit)).

(** ** Collection *)

(** The first-parent chain from [HEAD]; at most as long as there are commits. *)
Fixpoint commit_chain (fuel : nat) (repo : Repo) (id : option SnapshotId)
  : list (SnapshotId * Z) :=
  match fuel, id with
  | S fuel', Some id =>
      match rp_commits repo !! id with
      | Some c => (id, cm_time c) :: commit_chain fuel' repo (cm_parent c)
      | None => []
      end
  | _, _ => []
  end.

Definition list_commits (repo : Repo) : list (SnapshotId * Z) :=
  commit_chain (size (rp_commits repo)) repo (rp_head repo).

(** What [gc] would keep; nothing is removed from the repository. *)
Definition gc (config : GcConfig) : G GcResult :=
  open_or_init ≫= fun _ =>
  t ← g_tick;
  commits ← gets (fun w => list_commits (uw_repo w));
  let kept := match gc_max_age_days config with
              | Some days =>
                  let cutoff := ue_unix_time t - days * 86400 in
                  List.filter (fun c => cutoff <=? c.2) commits
              | None => commits
              end in
  let kept := match gc_max_snapshots config with Some n => take n kept | None => kept end in
  mret {| gc_removed_count := (length commits - length kept)%nat;
          gc_remaining_count := length kept |}.
End git.

(** ** Undo and redo of the files a session has changed, and the clean-up of the
    undone turns by the next prompt (agent/undo.rs) *)


Inductive UndoError :=
| NoSnapshotBackend
| NoWorkingDirectory
| Snapshot (s : string)
| Store (s : string)
| MessageNotFound (s : string)
| NothingToRedo
| ActorSend (s : string)
| UeOther (s : string).

Record UndoResult := { un_reverted_files : list string; un_message_id : string }.
Record RedoResult := { re_restored : bool }.

Section undo.
Context {J : Json} {UE : UndoEnv}.

Definition U (A : Type) : Type := M UndoWorld UndoError A.

(** [?] on a call of the backend *)
Definition backend {A} (m : G A) : U A := map_err (fun e => Snapshot (snapshot_error_display e)) m.

Definition u_tick : U nat := t ← gets uw_now; modify (set_uw_now S) ≫= fun _ => mret t.

(** A call of the store: the failure of the database, or its effect. *)
Definition store {A} (f : SessionDb -> result SessionError A * SessionDb)
  : U (result SessionError A) :=
  t ← u_tick;
  match ue_db_error t with
  | Some e => mret (Err e)
  | None => updating (fun w => let '(r, db) := f (uw_db w) in (r, set_uw_db (fun _ => db) w))
  end.

Definition query {A} (f : SessionDb -> result SessionError A) : U (result SessionError A) :=
  store (fun db => (f db, db)).

(** [.map_err(|e| UndoError::Store(format!("{prefix}{e}")))?] *)
Definition or_store {A} (prefix : string) (r : result SessionError A) : U A :=
  match r with
  | Ok a => mret a
  | Err e => fail (Store (prefix +:+ session_error_display e))
  end.

(** ** The patches of a history *)

(** A turn's patch: its id, the snapshot before it and the paths it changed. *)
Record TurnPatch := { tp_turn_id : string; tp_pre_snapshot : string; tp_paths : list string }.

Definition start_of (p : MessagePart) : option (string * string) :=
  match p with MpTurnSnapshotStart turn snapshot => Some (turn, snapshot) | _ => None end.

Definition patch_of (pre : gmap string string) (p : MessagePart) : option TurnPatch :=
  match p with
  | MpTurnSnapshotPatch turn _ paths =>
      snapshot ← pre !! turn;
      Some {| tp_turn_id := turn; tp_pre_snapshot := snapshot; tp_paths := paths |}
  | _ => None
  end.

Definition all_parts (history : list AgentMessage) : list MessagePart := flat_map am_parts history.

(** The snapshots the turns of a history started from, added to those known. *)
Definition add_starts (history : list AgentMessage) (pre : gmap string string)
  : gmap string string :=
  fold_left (fun m ts => <[ts.1 := ts.2]> m) (omap start_of (all_parts history)) pre.

Definition patches (pre : gmap string string) (history : list AgentMessage) : list TurnPatch :=
  omap (patch_of pre) (all_parts history).

(** The state of the scan: the known snapshots and the patches found. *)
Definition Scan : Type := gmap string string * list TurnPatch.

Definition scan_history (history : list AgentMessage) (s : Scan) : Scan :=
  let pre := add_starts history s.1 in (pre, s.2 ++ patches pre history).

(** A child session is scanned from its start; one that cannot be read is skipped. *)
Fixpoint scan_children (children : list string) (s : Scan) : U Scan :=
  match children with
  | [] => mret s
  | child :: rest =>
      history ← query (get_history child);
      scan_children rest (match history with Ok h => scan_history h s | Err _ => s end)
  end.

(** ** Undo *)

(** One patch, undone: the paths it reports as reverted. *)
Definition undo_patch (p : TurnPatch) : U (list string) :=
  r ← attempt (backend (restore_paths (tp_pre_snapshot p) (tp_paths p)));
  mret (match r with Ok _ => tp_paths p | Err _ => [] end).

Fixpoint undo_patches (ps : list TurnPatch) (reverted : list string) : U (list string) :=
  match ps with
  | [] => mret reverted
  | p :: rest => files ← undo_patch p; undo_patches rest (reverted ++ files)
  end.

Definition snapshot_of (p : MessagePart) : option string :=
  match p with MpTurnSnapshotPatch _ snapshot _ => Some snapshot | _ => None end.

(** Without patches: the files of the snapshot the target message holds. *)
Definition undo_fallback (target : AgentMessage) : U (list string) :=
  match head (omap snapshot_of (am_parts target)) with
  | None => mret []
  | Some snapshot =>
      current ← backend track;
      changed ← backend (diff current snapshot);
      match changed with
      | [] => mret []
      | _ => backend (restore_paths snapshot changed) ≫= fun _ => mret changed
      end
  end.

(** The position of a message, and the message. *)
Definition find_message (message_id : string) (history : list AgentMessage)
  : option (nat * AgentMessage) := list_find (fun m => am_id m = message_id) history.

Definition undo_impl (session_id message_id : string) : U UndoResult :=
  pre_revert_snapshot ← backend track;
  history ← query (get_history session_id);
  history ← or_store "Failed to get history: " history;
  match find_message message_id history with
  | None => fail (MessageNotFound message_id)
  | Some (target_idx, target) =>
      children ← query (list_child_sessions session_id);
      let children := match children with Ok l => l | Err _ => [] end in
      scan ← scan_children children (scan_history (drop (S target_idx) history) (∅, []));
      reverted ← undo_patches (rev scan.2) [];
      fallback ← match scan.2 with [] => undo_fallback target | _ => mret [] end;
      t ← u_tick;
      pushed ← store (push_revert_state session_id (ue_unix_time t)
        {| rv_public_id := ue_uuid t; rv_session_id := session_id; rv_message_id := message_id;
           rv_snapshot_id := pre_revert_snapshot; rv_backend_id := "git";
           rv_created_at := ue_unix_time t |});
      or_store "Failed to store revert state: " pushed ≫= fun _ =>
      mret {| un_reverted_files := reverted ++ fallback; un_message_id := message_id |}
  end.

(** ** Redo *)

Definition redo_impl (session_id : string) : U RedoResult :=
  state ← query (peek_revert_state session_id);
  state ← or_store "Failed to get revert state: " state;
  match state with
  | None => fail NothingToRedo
  | Some revert_state =>
      current ← backend track;
      changed ← backend (diff current (rv_snapshot_id revert_state));
      (match changed with
       | [] => mret tt
       | _ => backend (restore_paths (rv_snapshot_id revert_state) changed)
       end) ≫= fun _ =>
      popped ← store (pop_revert_state session_id);
      or_store "Failed to update revert state: " popped ≫= fun _ =>
      mret {| re_restored := true |}
  end.

(** ** The next prompt *)

Definition frontier_event (message_id : string) (e : DurableEvent) : option Z :=
  match de_kind e with
  | PromptReceived _ (Some mid) => if String.eqb mid message_id then Some (de_stream_seq e) else None
  | _ => None
  end.

(** The events of the undone turns, when the journal can be read. *)
Definition prune_journal (session_id message_id : string) : U unit :=
  events ← query (fun db => Ok (load_session_stream session_id None None db));
  match events with
  | Err _ => mret tt
  | Ok events =>
      match head (omap (frontier_event message_id) events) with
      | None => mret tt
      | Some seq =>
          _ ← store (fun db => let '(n, db) := delete_session_events_from session_id seq db in
                               (Ok n, db));
          mret tt
      end
  end.

Definition cleanup_revert_on_prompt (session_id : string) : U unit :=
  state ← query (peek_revert_state session_id);
  state ← or_store "Failed to get revert state: " state;
  match state with
  | None => mret tt
  | Some revert_state =>
      deleted ← store (delete_messages_after session_id (rv_message_id revert_state));
      or_store "Failed to delete messages: " deleted ≫= fun _ =>
      prune_journal session_id (rv_message_id revert_state) ≫= fun _ =>
      cleared ← store (clear_revert_states session_id);
      or_store "Failed to clear revert state: " cleared
  end.
End undo.
