(* ===== verification/UndoSpec.v ===== *)
(** What undo and redo promise, and the lemmas that lead there: the contents of
    a worktree after patches are undone, as a function of the repository; and
    the operations of the backend and of undo, run without failures. *)
From S2P Require Import Prelude Numbers Text Json Chat LlmErrors Domain Events Model.
From S2P Require Import ScheduleRepo SessionRows Undo.

Local Open Scope Z_scope.

(** ** Contents *)

(** The bytes at a path. *)
Definition contents (files : Files) (path : string) : option string := fe_data <$> files !! path.

(** A checkout of [path] decides its contents, unless the tree has a directory there. *)
Definition decides (tree : Files) (path : string) : bool :=
  bool_decide (is_Some (tree !! path)) || negb (is_tree_dir tree path).

Definition restore_file (tree : Files) (files : Files) (path : string) : Files :=
  match tree !! path with
  | Some entry => write_file path (fe_data entry) files
  | None => if is_tree_dir tree path then files else delete path files
  end.

Definition restore_files (tree : Files) (paths : list string) (files : Files) : Files :=
  fold_left (restore_file tree) paths files.

Lemma contents_restore_file tree files path p :
  contents (restore_file tree files path) p =
  if decide (p = path) then (if decides tree p then contents tree p else contents files p)
  else contents files p.
Proof.
  unfold restore_file, contents, decides, write_file.
  destruct (decide (p = path)) as [->|Hne].
  - destruct (tree !! path) as [e|] eqn:Ht.
    + rewrite lookup_insert_eq. done.
    + destruct (is_tree_dir tree path); cbn [negb orb]; [done|]. by rewrite lookup_delete_eq.
  - destruct (tree !! path) as [e|]; [by rewrite lookup_insert_ne|].
    destruct (is_tree_dir tree path); [done|]. by rewrite lookup_delete_ne.
Qed.

Lemma contents_restore_files tree paths files p :
  contents (restore_files tree paths files) p =
  if bool_decide (p ∈ paths) && decides tree p then contents tree p else contents files p.
Proof.
  revert files. induction paths as [|q paths IH]; intros files; cbn; [done|].
  fold (restore_files tree paths (restore_file tree files q)).
  rewrite IH, contents_restore_file.
  repeat case_bool_decide; destruct (decide (p = q)) as [->|]; cbn;
    destruct (decides tree _) eqn:?; cbn; set_solver.
Qed.

(** A file of the worktree is decided by the worktree's own tree. *)
Lemma decides_file tree path : is_Some (tree !! path) -> decides tree path = true.
Proof. intros H. unfold decides. by rewrite bool_decide_true. Qed.

Section tree_of.
Context {J : Json} {UE : UndoEnv}.

(** The tree of a snapshot that can be read. *)
Definition tree_of (repo : Repo) (id : SnapshotId) : option Files :=
  if ue_is_hex id then cm_tree <$> rp_commits repo !! id else None.

(** ** Undone patches *)

Definition undo_files (repo : Repo) (files : Files) (p : TurnPatch) : Files :=
  match tree_of repo (tp_pre_snapshot p) with
  | Some tree => restore_files tree (tp_paths p) files
  | None => files
  end.

(** The patch settles the contents of [path] when it is undone. *)
Definition settles (repo : Repo) (path : string) (p : TurnPatch) : bool :=
  match tree_of repo (tp_pre_snapshot p) with
  | Some tree => bool_decide (path ∈ tp_paths p) && decides tree path
  | None => false
  end.

Definition before_patch (repo : Repo) (path : string) (p : TurnPatch) : option string :=
  match tree_of repo (tp_pre_snapshot p) with
  | Some tree => contents tree path
  | None => None
  end.

Lemma contents_undo_files repo files p path :
  contents (undo_files repo files p) path =
  if settles repo path p then before_patch repo path p else contents files path.
Proof.
  unfold undo_files, settles, before_patch. destruct (tree_of repo _) as [tree|]; [|done].
  apply contents_restore_files.
Qed.

(** The last patch undone is the earliest one: its snapshot is what stays. *)
Lemma contents_undone repo ps files path :
  contents (fold_left (undo_files repo) (rev ps) files) path =
  match List.find (settles repo path) ps with
  | Some p => before_patch repo path p
  | None => contents files path
  end.
Proof.
  induction ps as [|p ps IH]; [done|]. cbn [rev List.find].
  rewrite fold_left_app. cbn [fold_left]. rewrite contents_undo_files.
  by destruct (settles repo path p).
Qed.

Definition readable (repo : Repo) (p : TurnPatch) : bool :=
  bool_decide (is_Some (tree_of repo (tp_pre_snapshot p))).

(** ** The patches in scope of an undo *)

(** The children whose history can be read, all of their turns. *)
Definition scan_all (db : SessionDb) (children : list string) (s : Scan) : Scan :=
  fold_left (fun s child =>
    match get_history child db with Ok h => scan_history h s | Err _ => s end) children s.

(** The patches of the session after the target and of its children from
    their start. *)
Definition undo_scope (db : SessionDb) (children : list string) (later : list AgentMessage)
  : list TurnPatch := (scan_all db children (scan_history later (∅, []))).2.

(** ** An environment without failures *)

Record Quiet : Prop := {
  q_repo : forall t, ue_repo_error t = None;
  q_write : forall t p, ue_write_error t p = None;
  q_remove : forall t p, ue_remove_fails t p = false;
  q_db : forall t, ue_db_error t = None;
  (** commit ids are hexadecimal hashes of what they name *)
  q_hex : forall t tree parent, ue_is_hex (ue_commit_id t tree parent) = true;
  q_inj : forall t tree parent t' tree' parent',
    ue_commit_id t tree parent = ue_commit_id t' tree' parent' -> tree = tree';
}.

(** Every commit of the repository has the id of its content. *)
Definition addressed (repo : Repo) : Prop :=
  forall id c, rp_commits repo !! id = Some c ->
  exists t parent, id = ue_commit_id t (cm_tree c) parent.

(** The later repository still has the snapshots of the earlier one. *)
Definition has_snapshots (repo repo' : Repo) : Prop :=
  forall id tree, tree_of repo id = Some tree -> tree_of repo' id = Some tree.

Lemma has_snapshots_refl repo : has_snapshots repo repo.
Proof. by intros id tree. Qed.

Lemma has_snapshots_trans r1 r2 r3 :
  has_snapshots r1 r2 -> has_snapshots r2 r3 -> has_snapshots r1 r3.
Proof. intros H1 H2 id tree H. by apply H2, H1. Qed.

(** ** The backend, run *)

Context (HQ : Quiet).

Definition at_time (n : nat) (w : UndoWorld) : UndoWorld := set_uw_now (fun _ => n) w.

Lemma at_time_at_time n m w : at_time n (at_time m w) = at_time n w.
Proof. done. Qed.

Lemma wp_g_tick (Q : result SnapshotError nat -> UndoWorld -> Prop) w :
  Q (Ok (uw_now w)) (at_time (S (uw_now w)) w) -> wp g_tick Q w.
Proof. auto. Qed.

Lemma wp_open (Q : result SnapshotError unit -> UndoWorld -> Prop) w :
  (forall n, Q (Ok tt) (at_time n w)) -> wp open_or_init Q w.
Proof.
  intros H. unfold open_or_init. apply wp_bind, wp_g_tick. rewrite (q_repo HQ). apply H.
Qed.

Lemma wp_find_commit what id (Q : result SnapshotError Commit -> UndoWorld -> Prop) w :
  match tree_of (uw_repo w) id with
  | Some tree => forall c, cm_tree c = tree -> Q (Ok c) w
  | None => forall e, Q (Err e) w
  end -> wp (find_commit what id) Q w.
Proof.
  unfold tree_of, find_commit. destruct (ue_is_hex id); cbn [negb].
  - intros H. apply wp_bind, wp_gets.
    destruct (rp_commits (uw_repo w) !! id) as [c|];
      [apply wp_ret; by apply H|apply wp_fail; apply H].
  - intros H. apply wp_fail, H.
Qed.

Lemma wp_checkout_paths tree paths (Q : result SnapshotError unit -> UndoWorld -> Prop) w :
  (forall n, Q (Ok tt) (at_time n (set_uw_files (restore_files tree paths) w))) ->
  wp (mapM_ (checkout_path tree) paths) Q w.
Proof.
  revert w. induction paths as [|p paths IH]; intros w H; cbn [mapM_].
  { specialize (H (uw_now w)). destruct w. exact H. }
  apply wp_bind. unfold checkout_path. apply wp_bind, wp_g_tick.
  destruct (tree !! p) as [entry|] eqn:Ht;
    [rewrite (q_write HQ); apply wp_modify; apply IH; intros n|
     rewrite (q_remove HQ), orb_false_r; destruct (is_tree_dir tree p) eqn:Hd;
     [apply wp_ret; apply IH; intros n|apply wp_modify; apply IH; intros n]];
  specialize (H n); unfold restore_files in H; cbn [fold_left] in H;
    unfold restore_file at 2 in H; rewrite Ht in H; try rewrite Hd in H; exact H.
Qed.

Lemma wp_restore_paths id paths (Q : result SnapshotError unit -> UndoWorld -> Prop) w :
  (forall n, match tree_of (uw_repo w) id with
             | Some tree => Q (Ok tt) (at_time n (set_uw_files (restore_files tree paths) w))
             | None => forall e, Q (Err e) (at_time n w)
             end) ->
  wp (restore_paths id paths) Q w.
Proof.
  intros H. unfold restore_paths. apply wp_bind, wp_open. intros n.
  unfold checkout_paths. apply wp_bind, wp_find_commit.
  change (uw_repo (at_time n w)) with (uw_repo w).
  destruct (tree_of (uw_repo w) id) as [tree|] eqn:Ht.
  - intros c Hc. apply wp_checkout_paths. intros n'. specialize (H n'). by rewrite Hc.
  - apply H.
Qed.

(** The worktree's snapshot, and the commits there were. *)
Definition tracked (w : UndoWorld) (id : SnapshotId) (w' : UndoWorld) : Prop :=
  tree_of (uw_repo w') id = Some (snapshot_tree (uw_files w)) /\
  has_snapshots (uw_repo w) (uw_repo w') /\ addressed (uw_repo w') /\
  uw_files w' = uw_files w /\ uw_db w' = uw_db w.

Lemma wp_track (Q : result SnapshotError SnapshotId -> UndoWorld -> Prop) w :
  addressed (uw_repo w) -> (forall id w', tracked w id w' -> Q (Ok id) w') -> wp track Q w.
Proof.
  intros Ha H. unfold track, create_snapshot. apply wp_bind, wp_open. intros n.
  apply wp_bind, wp_g_tick. apply wp_bind, wp_gets, wp_bind, wp_gets, wp_bind, wp_modify, wp_ret.
  apply H. unfold tracked, has_snapshots, tree_of. cbn.
  split; [by rewrite (q_hex HQ), lookup_insert, decide_True|].
  split; [|split; [|done]].
  - intros id tree. destruct (ue_is_hex id); [|done].
    intros (c & Hc & ->)%fmap_Some. rewrite lookup_insert.
    destruct (decide _) as [<-|]; [|by rewrite Hc]. cbn.
    destruct (Ha _ _ Hc) as (t & parent & Hid). apply (q_inj HQ) in Hid. f_equal. exact Hid.
  - intros id c. cbn. rewrite lookup_insert. destruct (decide _) as [<-|]; [|apply Ha].
    intros [= <-]. cbn. eauto.
Qed.

Lemma wp_diff pre post t1 t2 (Q : result SnapshotError (list string) -> UndoWorld -> Prop) w :
  tree_of (uw_repo w) pre = Some t1 -> tree_of (uw_repo w) post = Some t2 ->
  (forall n, Q (Ok (diff_trees t1 t2)) (at_time n w)) -> wp (diff pre post) Q w.
Proof.
  intros H1 H2 H. unfold diff. apply wp_bind, wp_open. intros n.
  apply wp_bind, wp_find_commit. change (uw_repo (at_time n w)) with (uw_repo w).
  rewrite H1. intros c1 <-.
  apply wp_bind, wp_find_commit. change (uw_repo (at_time n w)) with (uw_repo w).
  rewrite H2. intros c2 <-. apply wp_ret, H.
Qed.

(** ** Undo, run *)

Lemma wp_u_tick (Q : result UndoError nat -> UndoWorld -> Prop) w :
  Q (Ok (uw_now w)) (at_time (S (uw_now w)) w) -> wp u_tick Q w.
Proof. auto. Qed.

Lemma wp_store {A} f (Q : result UndoError (result SessionError A) -> UndoWorld -> Prop) w :
  (forall n, Q (Ok (f (uw_db w)).1) (at_time n (set_uw_db (fun _ => (f (uw_db w)).2) w))) ->
  wp (store f) Q w.
Proof.
  intros H. unfold store. apply wp_bind, wp_u_tick. rewrite (q_db HQ).
  apply wp_updating. cbn. specialize (H (S (uw_now w))). by destruct (f (uw_db w)).
Qed.

Lemma wp_db_query {A} f (Q : result UndoError (result SessionError A) -> UndoWorld -> Prop) w :
  (forall n, Q (Ok (f (uw_db w))) (at_time n w)) -> wp (query f) Q w.
Proof. intros H. apply wp_store. intros n. cbn. specialize (H n). by destruct w. Qed.

Lemma wp_or_store {A} prefix r (Q : result UndoError A -> UndoWorld -> Prop) w :
  match r with
  | Ok a => Q (Ok a) w
  | Err e => Q (Err (Store (prefix +:+ session_error_display e))) w
  end -> wp (or_store prefix r) Q w.
Proof. by destruct r. Qed.

Lemma wp_backend {A} (m : G A) (Q : result UndoError A -> UndoWorld -> Prop) w :
  wp m (fun r w' => Q (match r with
                       | Ok a => Ok a | Err e => Err (Snapshot (snapshot_error_display e)) end) w') w ->
  wp (backend m) Q w.
Proof. apply wp_map_err. Qed.

Lemma wp_scan_children children s (Q : result UndoError Scan -> UndoWorld -> Prop) w :
  (forall n, Q (Ok (scan_all (uw_db w) children s)) (at_time n w)) ->
  wp (scan_children children s) Q w.
Proof.
  revert s w. induction children as [|c children IH]; intros s w H; cbn [scan_children].
  { specialize (H (uw_now w)). by destruct w. }
  apply wp_bind, wp_db_query. intros n. apply IH. intros n'. exact (H n').
Qed.

Definition reported (repo : Repo) (ps : list TurnPatch) : list string :=
  flat_map tp_paths (List.filter (readable repo) ps).

Lemma wp_undo_patches ps reverted (Q : result UndoError (list string) -> UndoWorld -> Prop) w :
  (forall n, Q (Ok (reverted ++ reported (uw_repo w) ps))
               (at_time n (set_uw_files (fun fs => fold_left (undo_files (uw_repo w)) ps fs) w))) ->
  wp (undo_patches ps reverted) Q w.
Proof.
  revert reverted w. induction ps as [|p ps IH]; intros reverted w H; cbn [undo_patches].
  { specialize (H (uw_now w)). cbn in H. rewrite app_nil_r in H. by destruct w. }
  apply wp_bind. unfold undo_patch.
  apply wp_bind, wp_attempt, wp_backend, (wp_restore_paths _ _ _). intros n.
  cbn [fold_left] in H. unfold reported, readable, undo_files in H. cbn [List.filter flat_map] in H.
  destruct (tree_of (uw_repo w) (tp_pre_snapshot p)) as [tree|] eqn:Ht.
  - rewrite bool_decide_true in H by done. cbn [flat_map] in H.
    apply wp_ret, IH. intros n'. specialize (H n'). rewrite app_assoc in H. exact H.
  - rewrite bool_decide_false in H by (by intros []).
    intros e. apply wp_ret, IH. intros n'. specialize (H n'). rewrite app_nil_r. exact H.
Qed.

(** The repository keeps its snapshots and the database is untouched. *)
Definition safe_for (w w' : UndoWorld) : Prop :=
  has_snapshots (uw_repo w) (uw_repo w') /\ addressed (uw_repo w') /\ uw_db w' = uw_db w.

Lemma safe_for_refl w n files :
  addressed (uw_repo w) -> safe_for w (at_time n (set_uw_files files w)).
Proof. intros H. by split; [apply has_snapshots_refl|]. Qed.

Lemma safe_for_trans w1 w2 w3 : safe_for w1 w2 -> safe_for w2 w3 -> safe_for w1 w3.
Proof.
  intros (H1 & H2 & H3) (H4 & H5 & H6).
  split; [by eapply has_snapshots_trans|]. split; [done|congruence].
Qed.

Lemma tracked_safe w id w' : tracked w id w' -> safe_for w w'.
Proof. intros (H1 & H2 & H3 & H4 & H5). by split. Qed.

(** The files [restore_paths] changes, or none. *)
Lemma wp_restore_safe id paths w0 (Q : result SnapshotError unit -> UndoWorld -> Prop) w :
  safe_for w0 w -> (forall r w', safe_for w0 w' -> Q r w') -> wp (restore_paths id paths) Q w.
Proof.
  intros Hs H. apply wp_restore_paths. intros n. destruct Hs as (H1 & H2 & H3).
  destruct (tree_of _ _); [|intros e]; apply H; by split.
Qed.

Lemma wp_undo_fallback target (Q : result UndoError (list string) -> UndoWorld -> Prop) w :
  addressed (uw_repo w) -> (forall r w', safe_for w w' -> Q r w') -> wp (undo_fallback target) Q w.
Proof.
  intros Ha H. unfold undo_fallback.
  destruct (head _) as [snapshot|]; [|by apply wp_ret, H; split; [apply has_snapshots_refl|]].
  apply wp_bind, wp_backend, wp_track; [done|]. intros id w' Htr.
  pose proof (tracked_safe _ _ _ Htr) as Hs.
  apply wp_bind, wp_backend. unfold diff. apply wp_bind, wp_open. intros n.
  apply wp_bind, wp_find_commit.
  change (uw_repo (at_time n w')) with (uw_repo w'). destruct Htr as (Ht & _). rewrite Ht.
  intros c Hc. apply wp_bind, wp_find_commit. change (uw_repo (at_time n w')) with (uw_repo w').
  destruct (tree_of (uw_repo w') snapshot); [|intros e; apply H; by destruct Hs].
  intros c' Hc'. apply wp_ret. destruct (diff_trees _ _) as [|p ps].
  - apply wp_ret, H. by destruct Hs.
  - apply wp_bind, wp_backend, (wp_restore_safe _ _ w); [by destruct Hs|].
    intros [[]|e] w'' Hs''; [apply wp_ret|]; by apply H.
Qed.

End tree_of.
