(* ===== verification/UndoProps.v ===== *)
(** Properties of undo, redo and of the clean-up by the next prompt. *)
From S2P Require Import Prelude Numbers Text Json Chat LlmErrors Domain Events Model Fixtures.
From S2P Require Import ScheduleRepo SessionRows Undo UndoSpec.
From Stdlib Require Import Sorted.

Local Open Scope Z_scope.

Section undo_run.
Context {J : Json} {UE : UndoEnv} (HQ : Quiet).

Lemma history_resolves session db h : get_history session db = Ok h -> resolve_session session db = Ok tt.
Proof. unfold get_history. by destruct (resolve_session session db) as [[]|]. Qed.

(** The revert frame of an undo. *)
Definition frame (session message_id pre : string) (t : nat) : RevertState :=
  {| rv_public_id := ue_uuid t; rv_session_id := session; rv_message_id := message_id;
     rv_snapshot_id := pre; rv_backend_id := "git"; rv_created_at := ue_unix_time t |}.

Definition push_frame (session : string) (f : RevertState) (db : SessionDb) : SessionDb :=
  set_sd_reverts (fun l => l ++ [{| rr_id := next_revert_id db; rr_state := f |}]) db.

(** The worlds an undo of [session] to a message leaves, from [w]. *)
Definition undone (session message_id : string) (w w' : UndoWorld) : Prop :=
  exists pre t,
    tree_of (uw_repo w') pre = Some (snapshot_tree (uw_files w)) /\
    addressed (uw_repo w') /\
    uw_db w' = push_frame session (frame session message_id pre t) (uw_db w).

Lemma wp_push session message_id pre reverted w0 w
    (Q : result UndoError UndoResult -> UndoWorld -> Prop) :
  resolve_session session (uw_db w) = Ok tt -> uw_db w = uw_db w0 ->
  tree_of (uw_repo w) pre = Some (snapshot_tree (uw_files w0)) -> addressed (uw_repo w) ->
  (forall w', undone session message_id w0 w' -> uw_files w' = uw_files w -> uw_repo w' = uw_repo w ->
              Q (Ok {| un_reverted_files := reverted; un_message_id := message_id |}) w') ->
  wp (t ← u_tick;
      pushed ← store (push_revert_state session (ue_unix_time t) (frame session message_id pre t));
      or_store "Failed to store revert state: " pushed ≫= fun _ =>
      mret {| un_reverted_files := reverted; un_message_id := message_id |}) Q w.
Proof.
  intros Hs Hdb Ht Ha H. apply wp_bind, wp_u_tick, wp_bind, wp_store; [done|]. intros n.
  unfold push_revert_state. change (uw_db (at_time _ w)) with (uw_db w). rewrite Hs. cbn [fst snd].
  apply wp_bind, wp_or_store, wp_ret. apply H; [|done..].
  exists pre, (uw_now w). split; [done|]. split; [done|]. cbn. by rewrite Hdb.
Qed.

Lemma wp_undo session message_id w history idx target children :
  addressed (uw_repo w) ->
  get_history session (uw_db w) = Ok history ->
  find_message message_id history = Some (idx, target) ->
  list_child_sessions session (uw_db w) = Ok children ->
  let ps := undo_scope (uw_db w) children (drop (S idx) history) in
  wp (undo_impl session message_id)
    (fun r w' =>
       (is_ok r = true -> undone session message_id w w') /\
       (ps <> [] ->
        r = Ok {| un_reverted_files := reported (uw_repo w') (rev ps); un_message_id := message_id |} /\
        uw_files w' = fold_left (undo_files (uw_repo w')) (rev ps) (uw_files w))) w.
Proof.
  intros Ha Hh Hf Hc ps. unfold undo_impl.
  apply wp_bind, wp_backend, wp_track; [done..|]. intros pre w1 Htr.
  destruct Htr as (Ht & Hs & Ha1 & Hfi & Hdb).
  apply wp_bind, wp_db_query; [done|]. intros n1. rewrite Hdb, Hh.
  apply wp_bind, wp_or_store. rewrite Hf.
  apply wp_bind, wp_db_query; [done|]. intros n2.
  change (uw_db (at_time n1 w1)) with (uw_db w1). rewrite Hdb, Hc.
  apply wp_bind, wp_scan_children; [done|]. intros n3.
  change (uw_db (at_time _ _)) with (uw_db w1). rewrite Hdb. fold ps.
  apply wp_bind. apply wp_undo_patches; [done|]. intros n4.
  change (uw_repo (at_time _ _)) with (uw_repo w1).
  assert (Hres : resolve_session session (uw_db w1) = Ok tt)
    by (rewrite Hdb; by eapply history_resolves).
  unfold undo_scope in ps. fold ps. clearbody ps. destruct ps as [|p ps].
  - apply wp_bind, wp_undo_fallback; [done..|]. intros [fallback|e] w' (Hs' & Ha' & Hdb'); [|done].
    cbn in Hdb'. eapply (wp_push _ _ _ _ w); [by rewrite Hdb'|by rewrite Hdb'|by apply Hs'|done|].
    intros w'' Hu _ _. by split.
  - apply wp_bind, wp_ret. rewrite app_nil_r.
    eapply (wp_push _ _ _ _ w); [done..|]. intros w' Hu Hfi' Hr'. split; [done|]. intros _.
    rewrite Hr', Hfi'. cbn. by rewrite Hfi.
Qed.

Lemma children_resolve session db :
  resolve_session session db = Ok tt -> exists children, list_child_sessions session db = Ok children.
Proof. unfold list_child_sessions. intros ->. eauto. Qed.

(** An undo that succeeds found the session and the message. *)
Lemma undo_ok session message_id w u w' :
  addressed (uw_repo w) -> undo_impl session message_id w = (Ok u, w') ->
  resolve_session session (uw_db w) = Ok tt /\ undone session message_id w w'.
Proof.
  intros Ha Hrun.
  destruct (get_history session (uw_db w)) as [history|e] eqn:Hh;
    [destruct (find_message message_id history) as [[idx target]|] eqn:Hf|].
  - destruct (children_resolve session (uw_db w)) as [children Hc];
      [by eapply history_resolves|].
    pose proof (wp_undo session message_id w history idx target children Ha Hh Hf Hc) as Hwp.
    split; [by eapply history_resolves|].
    by destruct (wp_run _ _ _ _ _ Hwp Hrun) as [H _]; apply H.
  - exfalso. assert (Hwp : wp (undo_impl session message_id) (fun r _ => is_ok r = false) w).
    { unfold undo_impl. apply wp_bind, wp_backend, wp_track; [done..|].
      intros pre w1 (_ & _ & _ & _ & Hdb). apply wp_bind, wp_db_query; [done|]. intros n1.
      rewrite Hdb, Hh. apply wp_bind, wp_or_store. by rewrite Hf. }
    by pose proof (wp_run _ _ _ _ _ Hwp Hrun).
  - exfalso. assert (Hwp : wp (undo_impl session message_id) (fun r _ => is_ok r = false) w).
    { unfold undo_impl. apply wp_bind, wp_backend, wp_track; [done..|].
      intros pre w1 (_ & _ & _ & _ & Hdb). apply wp_bind, wp_db_query; [done|]. intros n1.
      rewrite Hdb, Hh. by apply wp_bind, wp_or_store. }
    by pose proof (wp_run _ _ _ _ _ Hwp Hrun).
Qed.

(** ** The stack of revert frames *)

Lemma next_revert_id_fresh db r : r ∈ sd_reverts db -> rr_id r < next_revert_id db.
Proof.
  unfold next_revert_id. induction (sd_reverts db) as [|r' l IH]; [by intros ?%elem_of_nil|].
  intros [->|Hr]%elem_of_cons; cbn; [lia|]. specialize (IH Hr). lia.
Qed.

Lemma filter_all {A} (f : A -> bool) l : (forall x, x ∈ l -> f x = true) -> List.filter f l = l.
Proof.
  induction l as [|x l IH]; [done|]. intros H. cbn. rewrite H by left.
  f_equal. apply IH. intros y Hy. apply H. by right.
Qed.

Lemma last_revert_push session f db :
  rv_session_id f = session ->
  last_revert session (push_frame session f db) = Some {| rr_id := next_revert_id db; rr_state := f |}.
Proof.
  intros Hf. unfold last_revert, push_frame. cbn. rewrite List.filter_app. cbn.
  unfold of_session_revert at 2. cbn. rewrite Hf, String.eqb_refl. apply last_snoc.
Qed.

Lemma resolve_push session s f db :
  resolve_session s (push_frame session f db) = resolve_session s db.
Proof. done. Qed.

Lemma pop_push session f db :
  resolve_session session db = Ok tt -> rv_session_id f = session ->
  pop_revert_state session (push_frame session f db) = (Ok (Some f), db).
Proof.
  intros Hs Hf. unfold pop_revert_state. rewrite resolve_push, Hs, last_revert_push by done. cbn.
  f_equal. unfold push_frame, set_sd_reverts. cbn. rewrite List.filter_app. cbn.
  rewrite Z.eqb_refl. cbn. rewrite app_nil_r, filter_all; [by destruct db|].
  intros r Hr%next_revert_id_fresh. apply negb_true_iff, Z.eqb_neq. lia.
Qed.

(** ** The files a redo restores *)

Lemma diff_trees_spec a b p : p ∈ diff_trees a b <-> a !! p <> b !! p /\ renamed_away a b p = false.
Proof.
  unfold diff_trees. rewrite list_elem_of_In, List.filter_In, <- list_elem_of_In, elem_of_elements.
  rewrite andb_true_iff, !negb_true_iff, bool_decide_eq_false. split; [by intros []|].
  intros [H Hr]. split; [|done]. rewrite elem_of_union, !elem_of_dom.
  destruct (a !! p) eqn:?, (b !! p) eqn:?; try (by left); by right.
Qed.

Lemma snapshot_tree_visible files p :
  visible p = true -> snapshot_tree files !! p = files !! p.
Proof.
  intros Hv. unfold snapshot_tree. rewrite map_lookup_filter.
  destruct (files !! p); [|done]. cbn. by rewrite option_guard_True.
Qed.

(** Restoring what differs from a snapshot brings the worktree back to it. *)
Lemma contents_redone files tree p :
  visible p = true -> decides tree p = true ->
  contents (restore_files tree (diff_trees (snapshot_tree files) tree) files) p
  = (if renamed_away (snapshot_tree files) tree p then contents files else contents tree) p.
Proof.
  intros Hv Hd. rewrite contents_restore_files, Hd, andb_true_r.
  case_bool_decide as Hin; rewrite diff_trees_spec in Hin; [by destruct Hin as [_ ->]|].
  destruct (renamed_away _ _ p); [done|].
  destruct (decide (snapshot_tree files !! p = tree !! p)) as [He|]; [|by destruct Hin].
  unfold contents. by rewrite <- He, snapshot_tree_visible.
Qed.

Lemma wp_redo session message_id w w1 :
  resolve_session session (uw_db w) = Ok tt -> undone session message_id w w1 ->
  wp (redo_impl session) (fun r w2 =>
    r = Ok {| re_restored := true |} /\ uw_db w2 = uw_db w /\
    let tree := snapshot_tree (uw_files w) in
    uw_files w2 =
      restore_files tree (diff_trees (snapshot_tree (uw_files w1)) tree) (uw_files w1)) w1.
Proof.
  intros Hs (pre & t & Ht & Ha & Hdb). unfold redo_impl.
  assert (Hpeek : peek_revert_state session (uw_db w1) = Ok (Some (frame session message_id pre t))).
  { unfold peek_revert_state. by rewrite Hdb, resolve_push, Hs, last_revert_push. }
  apply wp_bind, wp_db_query; [done|]. intros n1. rewrite Hpeek.
  apply wp_bind, wp_or_store. apply wp_bind, wp_backend, wp_track; [done..|].
  intros id w2 (Ht2 & Hs2 & Ha2 & Hf2 & Hdb2). cbn in Ht2, Hf2, Hdb2. apply Hs2 in Ht.
  apply wp_bind, wp_backend. eapply wp_diff; [done..|]. intros n2.
  set (tree := snapshot_tree (uw_files w)) in *.
  set (changed := diff_trees (snapshot_tree (uw_files w1)) tree).
  assert (Hpop : forall n files, wp (popped ← store (pop_revert_state session);
      or_store "Failed to update revert state: " popped ≫= fun _ => mret {| re_restored := true |})
    (fun r w3 => r = Ok {| re_restored := true |} /\ uw_db w3 = uw_db w /\ uw_files w3 = files)
    (at_time n (set_uw_files (fun _ => files) w2))).
  { intros n files. apply wp_bind, wp_store; [done|]. intros n3. cbn. rewrite Hdb2, Hdb.
    rewrite pop_push by done. by apply wp_bind, wp_or_store. }
  apply wp_bind. destruct changed as [|p ps] eqn:Hc.
  - apply wp_ret. cbn [frame rv_snapshot_id]. specialize (Hpop n2 (uw_files w1)).
    eapply wp_mono; [|intros r w3 H; exact H].
    unfold at_time, set_uw_files, set_uw_now in Hpop |- *. cbn in Hpop |- *.
    by rewrite <- Hf2 in Hpop |- *.
  - rewrite <- Hc. clear Hc. apply wp_backend, wp_restore_paths; [done|]. intros n3.
    cbn [frame rv_snapshot_id uw_repo at_time set_uw_now]. rewrite Ht.
    specialize (Hpop n3 (restore_files tree changed (uw_files w1))).
    unfold at_time, set_uw_files, set_uw_now in Hpop |- *. cbn in Hpop |- *.
    by rewrite Hf2.
Qed.

(** ** The history the next prompt leaves *)

Lemma sort_on_sorted {A} (le : A -> A -> bool) l :
  StronglySorted (fun a b => le a b = true) l -> sort_on le l = l.
Proof.
  unfold sort_on. induction 1 as [|x l Hs IH Hx]; [done|]. cbn. rewrite IH.
  destruct Hx as [|y l Hy _]; cbn; [done|]. by rewrite Hy.
Qed.

Lemma StronglySorted_filter_b {A} (R : A -> A -> Prop) (f : A -> bool) l :
  StronglySorted R l -> StronglySorted R (List.filter f l).
Proof.
  induction 1 as [|x l Hs IH Hx]; cbn; [constructor|]. destruct (f x); [|done].
  constructor; [done|]. rewrite Forall_forall in Hx |- *. intros y Hy. apply Hx.
  rewrite list_elem_of_In, List.filter_In, <- list_elem_of_In in Hy. by destruct Hy.
Qed.

Lemma filter_below l i (r : MessageRow) :
  StronglySorted (fun a b => mr_id a < mr_id b) l -> l !! i = Some r ->
  List.filter (fun r' => negb (mr_id r <=? mr_id r')) l = take i l.
Proof.
  intros Hl. revert i. induction Hl as [|x l Hs IH Hx]; intros i Hi; [done|].
  rewrite Forall_forall in Hx. destruct i as [|i]; cbn in Hi |- *.
  - simplify_eq. rewrite (proj2 (Z.leb_le _ _)) by lia. cbn.
    assert (H : forall y, y ∈ l -> (mr_id r <=? mr_id y) = true).
    { intros y Hy%Hx. apply Z.leb_le. lia. }
    clear -H. induction l as [|y l IH]; [done|]. cbn. rewrite H by left. cbn.
    apply IH. intros z Hz. apply H. by right.
  - assert (H : mr_id x < mr_id r) by by eapply Hx, list_elem_of_lookup_2.
    rewrite (proj2 (Z.leb_gt _ _)) by lia. cbn. f_equal. by apply IH.
Qed.

Lemma filter_filter_b {A} (f g : A -> bool) l :
  List.filter f (List.filter g l) = List.filter (fun x => g x && f x) l.
Proof.
  induction l as [|x l IH]; [done|]. cbn. destruct (g x); cbn; [|done].
  destruct (f x); by rewrite IH.
Qed.

Lemma filter_ext_b {A} (f g : A -> bool) l : (forall x, f x = g x) -> List.filter f l = List.filter g l.
Proof. intros H. induction l as [|x l IH]; [done|]. cbn. by rewrite H, IH. Qed.

(** The rows of the messages have distinct ids in both senses, in the order
    of their internal ids, and a session's dates follow that order. *)
Record ordered_rows (session : string) (db : SessionDb) : Prop := {
  or_ids : StronglySorted (fun a b => mr_id a < mr_id b) (sd_messages db);
  or_names : NoDup (map (fun r => am_id (mr_message r)) (sd_messages db));
  or_dates : StronglySorted (fun a b =>
    (am_created_at (mr_message a) <=? am_created_at (mr_message b)) = true)
    (List.filter (of_session_row session) (sd_messages db));
}.

Definition session_rows (session : string) (db : SessionDb) : list MessageRow :=
  List.filter (of_session_row session) (sd_messages db).

Lemma get_history_ordered session db :
  resolve_session session db = Ok tt -> ordered_rows session db ->
  get_history session db = Ok (map mr_message (session_rows session db)).
Proof.
  intros Hs Ho. unfold get_history. rewrite Hs. by rewrite sort_on_sorted by apply Ho.
Qed.

Lemma find_name l name (r : MessageRow) :
  NoDup (map (fun r => am_id (mr_message r)) l) -> r ∈ l -> am_id (mr_message r) = name ->
  List.find (fun r => String.eqb (am_id (mr_message r)) name) l = Some r.
Proof.
  induction l as [|x l IH]; [by intros _ ?%elem_of_nil|]. cbn. intros [Hx Hl]%NoDup_cons Hr Hn.
  apply elem_of_cons in Hr as [->|Hr]; [by rewrite Hn, String.eqb_refl|].
  destruct (String.eqb_spec (am_id (mr_message x)) name) as [He|]; [|by apply IH].
  destruct Hx. rewrite He, <- Hn. by apply (list_elem_of_fmap_2 (fun r => am_id (mr_message r))).
Qed.

(** The rows [delete_messages_after] keeps. *)
Definition keep_before (session : string) (id : Z) (db : SessionDb) : SessionDb :=
  set_sd_messages (List.filter (fun r => negb (of_session_row session r && (id <=? mr_id r)))) db.

Lemma session_rows_before session id db :
  session_rows session (keep_before session id db) =
  List.filter (fun r => negb (id <=? mr_id r)) (session_rows session db).
Proof.
  unfold session_rows, keep_before, set_sd_messages. cbn [sd_messages].
  rewrite !filter_filter_b. apply filter_ext_b. intros r.
  by destruct (of_session_row session r), (id <=? mr_id r).
Qed.

Lemma ordered_before session s id db : ordered_rows s db -> ordered_rows s (keep_before session id db).
Proof.
  intros [H1 H2 H3]. split; cbn.
  - by apply StronglySorted_filter_b.
  - clear -H2. induction (sd_messages db) as [|x l IH]; [done|]. cbn in H2 |- *.
    apply NoDup_cons in H2 as [Hx Hl]. destruct (negb _); [|by apply IH]. cbn.
    apply NoDup_cons. split; [|by apply IH]. contradict Hx.
    apply (list_elem_of_fmap (fun r => am_id (mr_message r))) in Hx as (y & -> & Hy).
    rewrite list_elem_of_In, List.filter_In, <- list_elem_of_In in Hy. destruct Hy.
    by apply (list_elem_of_fmap_2 (fun r => am_id (mr_message r))).
  - rewrite filter_filter_b, (filter_ext_b _ (fun r => of_session_row s r &&
      negb (of_session_row session r && (id <=? mr_id r)))) by (intros r; apply andb_comm).
    rewrite <- filter_filter_b. by apply StronglySorted_filter_b.
Qed.

Lemma find_message_row message_id rows idx m :
  find_message message_id (map mr_message rows) = Some (idx, m) ->
  exists r, rows !! idx = Some r /\ mr_message r = m /\ am_id m = message_id.
Proof.
  intros (Hl & Hm & _)%list_find_Some. change (map mr_message rows) with (mr_message <$> rows) in Hl.
  apply list_lookup_fmap_Some in Hl as (r & Hr & Hm'). eauto.
Qed.

(** The journal without the events from the prompt of [message_id] on. *)
Definition journal_before (session message_id : string) (db : SessionDb) : list DurableEvent :=
  match head (omap (frontier_event message_id) (load_session_stream session None None db)) with
  | Some seq =>
      List.filter (fun e => negb (String.eqb (de_session_id e) session && (seq <=? de_stream_seq e)))
        (sd_journal db)
  | None => sd_journal db
  end.

Definition no_reverts (session : string) (db : SessionDb) : SessionDb :=
  set_sd_reverts (List.filter (fun r => negb (of_session_revert session r))) db.

Lemma wp_prune_journal session message_id (Q : result UndoError unit -> UndoWorld -> Prop) w :
  (forall n, Q (Ok tt) (at_time n (set_uw_db
     (set_sd_journal (fun _ => journal_before session message_id (uw_db w))) w))) ->
  wp (prune_journal session message_id) Q w.
Proof.
  intros H. unfold prune_journal, journal_before in *. apply wp_bind, wp_db_query; [done|]. intros n.
  change (uw_db (at_time n w)) with (uw_db w).
  destruct (head _) as [seq|].
  - apply wp_bind, wp_store; [done|]. intros n'. cbn. apply wp_ret. apply H.
  - apply wp_ret. specialize (H n). unfold set_uw_db in H. by destruct w as [? ? ? []].
Qed.

Lemma wp_cleanup session rv id w :
  resolve_session session (uw_db w) = Ok tt ->
  peek_revert_state session (uw_db w) = Ok (Some rv) ->
  resolve_message (rv_message_id rv) (uw_db w) = Ok id ->
  wp (cleanup_revert_on_prompt session) (fun r w' =>
    r = Ok tt /\ uw_files w' = uw_files w /\ uw_repo w' = uw_repo w /\
    uw_db w' = no_reverts session
                 (set_sd_journal (fun _ => journal_before session (rv_message_id rv) (uw_db w))
                    (keep_before session id (uw_db w)))) w.
Proof.
  intros Hs Hp Hm. unfold cleanup_revert_on_prompt.
  apply wp_bind, wp_db_query; [done|]. intros n. rewrite Hp.
  apply wp_bind, wp_or_store. apply wp_bind, wp_store; [done|]. intros n2.
  change (uw_db (at_time n w)) with (uw_db w). unfold delete_messages_after. rewrite Hs, Hm.
  cbn [fst snd]. apply wp_bind, wp_or_store, wp_bind, wp_prune_journal. intros n3.
  apply wp_bind, wp_store; [done|]. intros n4. unfold clear_revert_states.
  match goal with |- context [resolve_session session ?db] =>
    change (resolve_session session db) with (resolve_session session (uw_db w)) end.
  rewrite Hs. cbn [fst snd]. by apply wp_or_store.
Qed.
End undo_run.

(** ** Theorems *)

(** C11: A redo after a successful undo brings the worktree back, except for the
    old paths of renames: in an environment without failures it succeeds, the
    session database is what it was before the undo (the frame pushed is the
    frame popped), and every visible path has the contents it had, files the
    undo removed included, unless gix takes the way back for a rename from
    that path: then the redo leaves the path as the undo left it, a file that
    the worktree did not have.  (Bytes, not the executable bit; a path that is
    a directory of the snapshot is not spoken of.) *)
Theorem redo_undoes_undo {J : Json} {UE : UndoEnv} (HQ : Quiet) session message_id w u w1
    (Ha : addressed (uw_repo w))
    (Hrun : undo_impl session message_id w = (Ok u, w1)) :
  exists w2, redo_impl session w1 = (Ok {| re_restored := true |}, w2) /\
    uw_db w2 = uw_db w /\
    forall path, visible path = true -> is_tree_dir (snapshot_tree (uw_files w)) path = false ->
      contents (uw_files w2) path =
        if renamed_away (snapshot_tree (uw_files w1)) (snapshot_tree (uw_files w)) path
        then contents (uw_files w1) path else contents (uw_files w) path.
Proof.
  destruct (undo_ok HQ _ _ _ _ _ Ha Hrun) as [Hs Hu].
  pose proof (wp_redo HQ _ _ _ _ Hs Hu) as Hwp. unfold wp in Hwp.
  destruct (redo_impl session w1) as [r w2]. destruct Hwp as (-> & Hdb & Hf).
  exists w2. split; [done|]. split; [done|]. intros path Hv Hd. rewrite Hf.
  rewrite contents_redone; [|done|unfold decides; by rewrite Hd, orb_true_r].
  destruct (renamed_away _ _ path); [done|]. unfold contents. by rewrite snapshot_tree_visible.
Qed.

(** C13: What an undo does to the files.  Take the patches in the order the undo
    scans them: those of the session's turns after the target, as in its
    history, then for each child session, in the order they are listed, those
    of all its turns, also of those before the target.  When there are any,
    then without failures the undo succeeds and gives each path its contents in
    the snapshot before the first of these patches, in this order and not in
    time, that lists the path and whose snapshot can be read and decides it; a
    path that no such patch lists keeps its contents.  The files reported are
    the paths of the patches whose snapshot can be read, last patch first. *)
Theorem undo_restores_first_scanned {J : Json} {UE : UndoEnv} (HQ : Quiet)
    session message_id w history idx target children
    (Ha : addressed (uw_repo w))
    (Hh : get_history session (uw_db w) = Ok history)
    (Hf : find_message message_id history = Some (idx, target))
    (Hc : list_child_sessions session (uw_db w) = Ok children)
    (Hps : undo_scope (uw_db w) children (drop (S idx) history) <> []) :
  let ps := undo_scope (uw_db w) children (drop (S idx) history) in
  exists w',
    undo_impl session message_id w =
      (Ok {| un_reverted_files := reported (uw_repo w') (rev ps); un_message_id := message_id |}, w') /\
    forall path, contents (uw_files w') path =
      match List.find (settles (uw_repo w') path) ps with
      | Some p => before_patch (uw_repo w') path p
      | None => contents (uw_files w) path
      end.
Proof.
  intros ps. pose proof (wp_undo HQ _ _ _ _ _ _ _ Ha Hh Hf Hc) as Hwp. fold ps in Hwp, Hps.
  unfold wp in Hwp. destruct (undo_impl session message_id w) as [r w'].
  destruct Hwp as [_ Hwp]. destruct (Hwp Hps) as [-> Hfi].
  exists w'. split; [done|]. intros path. rewrite Hfi. apply contents_undone.
Qed.


(** ** A concrete worktree *)

#[local] Existing Instance toy_json.

#[export] Instance FileEntry_countable : Countable FileEntry.
Proof.
  refine (inj_countable' (fun e => (fe_data e, fe_executable e))
            (fun p => {| fe_data := p.1; fe_executable := p.2 |}) _).
  by intros [].
Defined.

Fixpoint toy_bits (p : positive) : string :=
  match p with
  | xH => ""
  | xO p' => String (Ascii.ascii_of_nat 48) (toy_bits p')
  | xI p' => String (Ascii.ascii_of_nat 49) (toy_bits p')
  end.

Lemma toy_bits_inj p q : toy_bits p = toy_bits q -> p = q.
Proof.
  revert q. induction p as [p IH|p IH|]; intros [q|q|]; cbn; intros H; simplify_eq; try done;
    by rewrite (IH _ H).
Qed.

(** Ids are digits that code the tree. *)
Definition toy_env (renames : Files -> Files -> list (string * string)) : UndoEnv (J := toy_json) := {|
  ue_repo_error := fun _ => None;
  ue_write_error := fun _ _ => None;
  ue_remove_fails := fun _ _ => false;
  ue_commit_id := fun _ tree _ => toy_bits (encode tree);
  ue_gix_text := fun s => s;
  ue_is_hex := fun _ => true;
  ue_ignored := fun _ => false;
  ue_renames := renames;
  ue_db_error := fun _ => None;
  ue_unix_time := Z.of_nat;
  ue_uuid := fun _ => "u";
|}.

#[local] Instance toy_undo_env : UndoEnv (J := toy_json) := toy_env (fun _ _ => []).

Lemma toy_quiet : Quiet (UE := toy_undo_env).
Proof.
  split; cbn; try done. intros _ tree _ _ tree' _ H.
  by apply toy_bits_inj, (inj encode) in H.
Qed.

Definition toy_file (data : string) : FileEntry := {| fe_data := data; fe_executable := false |}.

Definition toy_message (session id : string) (at_ : Z) (parts : list MessagePart) : AgentMessage :=
  {| am_id := id; am_session_id := session; am_role := User; am_parts := parts; am_created_at := at_;
     am_parent_message_id := None; am_source_provider := None; am_source_model := None |}.

Definition toy_row (session : string) (n : Z) (m : AgentMessage) : MessageRow :=
  {| mr_id := n; mr_session := session; mr_message := m |}.

(** Before the first turn, after it and after the child's turn. *)
Definition toy_tree0 : Files := {[ "a" := toy_file "0" ]}.
Definition toy_tree1 : Files := {[ "a" := toy_file "1" ]}.
Definition toy_tree2 : Files := {[ "a" := toy_file "1"; "c" := toy_file "2" ]}.
Definition toy_id (t : Files) : string := toy_bits (encode t).
Definition toy_commit (t : Files) : Commit := {| cm_tree := t; cm_parent := None; cm_time := 0 |}.

(** The session's turn changed [a], its child's turn added [c]. *)
Definition toy_undo_world : UndoWorld (J := toy_json) := {|
  uw_now := 0;
  uw_files := toy_tree2;
  uw_repo := {| rp_commits := {[ toy_id toy_tree0 := toy_commit toy_tree0;
                                 toy_id toy_tree1 := toy_commit toy_tree1 ]};
                rp_head := None |};
  uw_db := {|
    sd_sessions := [{| se_public_id := "s"; se_parent := None; se_created_at := "1" |};
                    {| se_public_id := "k"; se_parent := Some "s"; se_created_at := "2" |}];
    sd_messages := [toy_row "s" 1 (toy_message "s" "m1" 1 [MpText "hi"]);
                    toy_row "s" 2 (toy_message "s" "m2" 2 [MpTurnSnapshotStart "t1" (toy_id toy_tree0)]);
                    toy_row "s" 3 (toy_message "s" "m3" 3
                      [MpTurnSnapshotPatch "t1" (toy_id toy_tree1) ["a"]]);
                    toy_row "k" 4 (toy_message "k" "k1" 4
                      [MpTurnSnapshotStart "t2" (toy_id toy_tree1);
                       MpTurnSnapshotPatch "t2" (toy_id toy_tree2) ["c"]])];
    sd_reverts := [];
    sd_journal := [] |} |}.

Lemma toy_addressed : addressed (uw_repo toy_undo_world).
Proof.
  intros id c. cbn. rewrite lookup_insert. destruct (decide _) as [<-|].
  - intros [= <-]. exists 0%nat, None. done.
  - intros [<- <-]%lookup_singleton_Some. exists 0%nat, None. done.
Qed.

Definition toy_undone : UndoWorld := (undo_impl "s" "m1" toy_undo_world).2.

Lemma run_split {S E A} (m : M S E A) s r : (m s).1 = r -> m s = (r, (m s).2).
Proof. intros <-. by destruct (m s). Qed.

Lemma toy_undo_run : undo_impl "s" "m1" toy_undo_world =
  (Ok {| un_reverted_files := ["c"; "a"]; un_message_id := "m1" |}, toy_undone).
Proof.
  unfold toy_undone. apply run_split. vm_compute. reflexivity.
Qed.

Lemma redo_undoes_undo_witness :
  exists w2, redo_impl "s" toy_undone = (Ok {| re_restored := true |}, w2) /\
    contents (uw_files toy_undone) "c" = None /\ contents (uw_files w2) "c" = Some "2".
Proof.
  destruct (redo_undoes_undo toy_quiet "s" "m1" toy_undo_world
              {| un_reverted_files := ["c"; "a"]; un_message_id := "m1" |} toy_undone
              toy_addressed toy_undo_run) as (w2 & Hr & _ & Hc).
  exists w2. split; [exact Hr|]. split; [by vm_compute|].
  rewrite (Hc "c" eq_refl ltac:(by vm_compute)). by vm_compute.
Defined.

(** Undone files: the turn's file as before the turn, the child's file gone. *)
Example undo_undoes_both :
  contents (uw_files toy_undone) "a" = Some "0" /\ contents (uw_files toy_undone) "c" = None.
Proof. split; vm_compute; reflexivity. Qed.

Lemma undo_restores_first_scanned_witness :
  exists u w', undo_impl "s" "m1" toy_undo_world = (Ok u, w') /\ un_message_id u = "m1".
Proof.
  destruct (undo_restores_first_scanned toy_quiet "s" "m1" toy_undo_world
              (map mr_message (take 3 (sd_messages (uw_db toy_undo_world)))) 0
              (toy_message "s" "m1" 1 [MpText "hi"]) ["k"] toy_addressed
              eq_refl eq_refl eq_refl ltac:(discriminate)) as (w' & Hr & _).
  eexists _, w'. split; [exact Hr|reflexivity].
Defined.

(** The messages after an undo to [m1], as the next prompt finds them. *)
Definition toy_prompt_world : UndoWorld (J := toy_json) :=
  set_uw_db (push_frame "s" (frame "s" "m1" "" 0)) toy_undo_world.


(** ** What undo and redo do not keep *)

(** The child worked before the target message was sent. *)
Definition toy_child_world : UndoWorld (J := toy_json) :=
  set_uw_db (fun db => set_sd_messages (fun _ =>
    [toy_row "s" 1 (toy_message "s" "m1" 1 [MpText "hi"]);
     toy_row "k" 2 (toy_message "k" "k1" 2 [MpTurnSnapshotStart "t2" (toy_id toy_tree1);
                                             MpTurnSnapshotPatch "t2" (toy_id toy_tree2) ["c"]]);
     toy_row "s" 3 (toy_message "s" "m3" 3 [MpText "next"])]) db) toy_undo_world.

(** An undo to a message undoes what child sessions did before it, too. *)
Example undo_reverts_earlier_child :
  (undo_impl "s" "m3" toy_child_world).1 =
    Ok {| un_reverted_files := ["c"]; un_message_id := "m3" |} /\
  contents (uw_files (undo_impl "s" "m3" toy_child_world).2) "c" = None.
Proof. split; vm_compute; reflexivity. Qed.

(** The child changed [a] before the session did: the undo of both leaves the
    child's change, since the session's patch comes first in the scan. *)
Definition toy_shared_world : UndoWorld (J := toy_json) :=
  set_uw_files (fun _ => {[ "a" := toy_file "2" ]})
    (set_uw_db (fun db => set_sd_messages (fun _ =>
      [toy_row "s" 1 (toy_message "s" "m1" 1 [MpText "hi"]);
       toy_row "k" 2 (toy_message "k" "k1" 2 [MpTurnSnapshotStart "t1" (toy_id toy_tree0);
                                               MpTurnSnapshotPatch "t1" (toy_id toy_tree1) ["a"]]);
       toy_row "s" 3 (toy_message "s" "m3" 3 [MpTurnSnapshotStart "t2" (toy_id toy_tree1);
                                               MpTurnSnapshotPatch "t2" "" ["a"]])]) db) toy_undo_world).

Example undo_keeps_earlier_child_edit :
  contents (uw_files (undo_impl "s" "m1" toy_shared_world).2) "a" = Some "1" /\
  contents toy_tree0 "a" = Some "0".
Proof. split; vm_compute; reflexivity. Qed.

(** A turn that moved [a] to [b]: its patch, the difference of its two snapshots,
    lists [b] alone; an undo removes [b] and does not bring [a] back. *)
Definition toy_rename_env : UndoEnv (J := toy_json) :=
  toy_env (fun a b => if bool_decide (a !! "a" = b !! "b") then [("a", "b")] else []).

Definition toy_moved_tree : Files := {[ "b" := toy_file "0" ]}.

Definition toy_moved_world : UndoWorld (J := toy_json) :=
  set_uw_files (fun _ => toy_moved_tree)
    (set_uw_db (fun db => set_sd_messages (fun _ =>
      [toy_row "s" 1 (toy_message "s" "m1" 1 [MpText "hi"]);
       toy_row "s" 2 (toy_message "s" "m2" 2
         [MpTurnSnapshotStart "t1" (toy_id toy_tree0);
          MpTurnSnapshotPatch "t1" (toy_id toy_moved_tree)
            (diff_trees (UE := toy_rename_env) toy_tree0 toy_moved_tree)])]) db) toy_undo_world).

Example undo_loses_moved_file :
  diff_trees (UE := toy_rename_env) toy_tree0 toy_moved_tree = ["b"] /\
  let r := undo_impl (UE := toy_rename_env) "s" "m1" toy_moved_world in
  r.1 = Ok {| un_reverted_files := ["b"]; un_message_id := "m1" |} /\
  contents (uw_files r.2) "a" = None /\ contents (uw_files r.2) "b" = None /\
  contents toy_tree0 "a" = Some "0".
Proof. vm_compute. repeat split; reflexivity. Qed.

(** A redo writes the bytes of an executable file, not its mode. *)
Definition toy_script_world : UndoWorld (J := toy_json) :=
  set_uw_files (fun _ => <["c" := {| fe_data := "2"; fe_executable := true |}]> toy_tree1)
    toy_undo_world.

Example redo_loses_mode :
  let w1 := (undo_impl "s" "m1" toy_script_world).2 in
  let w2 := (redo_impl "s" w1).2 in
  uw_files toy_script_world !! "c" = Some {| fe_data := "2"; fe_executable := true |} /\
  uw_files w2 !! "c" = Some {| fe_data := "2"; fe_executable := false |}.
Proof. split; vm_compute; reflexivity. Qed.

(** A collection that reports what it removed leaves the repository as it was. *)
Lemma gc_keeps_commits {J : Json} {UE : UndoEnv} config w :
  uw_repo (gc config w).2 = uw_repo w.
Proof.
  assert (Hwp : wp (gc config) (fun _ w' => uw_repo w' = uw_repo w) w).
  { unfold gc, open_or_init. apply wp_bind, wp_bind, wp_g_tick.
    destruct (ue_repo_error _); [by apply wp_fail|]. apply wp_ret.
    by apply wp_bind, wp_g_tick, wp_bind, wp_gets, wp_ret. }
  unfold wp in Hwp. by destruct (gc config w).
Qed.
