(* ===== verification/TextOps.v ===== *)
(** More of Rust's [str] and of [std::path] on UTF-8 text: [trim_start],
    [split_whitespace], [replace], the ASCII character classes, file stems and
    extensions, [truncate_with_ellipsis] (querymt-utils/str_utils.rs); and
    searching and slicing: [find], [rfind], [replace] with any pattern, the
    slice [&s[a..b]] with its panics, and the windows of a list of lines, with
    the laws that tie offsets, occurrences and lines together. *)
From S2P Require Import Prelude Numbers Text.

(** ** [str] *)

(** [s.trim_start()] *)
Definition trim_start (s : string) : string := sconcat (drop_ws (chars s)).

(** The words of a text, each as the list of its characters; [word] is the
    one being read, newest character first. *)
Fixpoint split_words (word : list string) (l : list string) : list (list string) :=
  let flush := match word with [] => [] | _ => [rev word] end in
  match l with
  | [] => flush
  | ch :: l' =>
      if is_ws_char ch then flush ++ split_words [] l' else split_words (ch :: word) l'
  end.

(** [s.split_whitespace()] *)
Definition split_whitespace (s : string) : list string := map sconcat (split_words [] (chars s)).

(** [s.replace(pattern, by)], left to right, for a pattern that is not empty;
    [skip] bytes of the last match are still to be passed over. *)
Fixpoint replace_from (pattern by_ : string) (skip : nat) (s : string) : string :=
  match s with
  | EmptyString => ""
  | String c s' =>
      match skip with
      | S n => replace_from pattern by_ n s'
      | O => if is_prefix_of pattern s
             then by_ +:+ replace_from pattern by_ (pred (slen pattern)) s'
             else String c (replace_from pattern by_ 0 s')
      end
  end.

Definition replace_all (pattern by_ s : string) : string := replace_from pattern by_ 0 s.

Definition in_range (lo hi : N) (c : Ascii.ascii) : bool :=
  N.leb lo (byte_of c) && N.leb (byte_of c) hi.

(** [u8::is_ascii_alphabetic] and [u8::is_ascii_alphanumeric] *)
Definition is_ascii_alphabetic (c : Ascii.ascii) : bool := in_range 65 90 c || in_range 97 122 c.
Definition is_ascii_alphanumeric (c : Ascii.ascii) : bool :=
  is_ascii_alphabetic c || in_range 48 57 c.

(** The longest prefix of bytes that satisfy [f], and the rest. *)
Fixpoint span (f : Ascii.ascii -> bool) (s : string) : string * string :=
  match s with
  | EmptyString => ("", "")
  | String c s' => if f c then let '(a, b) := span f s' in (String c a, b) else ("", s)
  end.

(** ** [Path], for the name of a directory's entry *)

(** The name before and after its last dot. *)
Fixpoint split_last_dot (s : string) : option (string * string) :=
  match s with
  | EmptyString => None
  | String c s' =>
      match split_last_dot s' with
      | Some (a, b) => Some (String c a, b)
      | None => if N.eqb (byte_of c) 46 then Some ("", s') else None
      end
  end.

(** [path.file_stem()] and [path.extension()]: a leading dot is part of the stem. *)
Definition file_stem (name : string) : string :=
  match split_last_dot name with
  | Some (EmptyString, _) | None => name
  | Some (stem, _) => stem
  end.

Definition extension (name : string) : option string :=
  match split_last_dot name with
  | Some (EmptyString, _) | None => None
  | Some (_, ext) => Some ext
  end.

(** [path.join(name)] *)
Definition is_absolute (p : string) : bool := is_prefix_of "/" p.

Definition path_join (base name : string) : string :=
  if is_absolute name then name
  else if is_empty_str base || ends_with base "/" then base +:+ name else base +:+ "/" +:+ name.

(** ** [str_utils] *)

Definition ELLIPSIS : string := "...".

(** Up to three bytes there is no room for the dots: that many characters,
    which may be more bytes. *)
Definition truncate_with_ellipsis (input : string) (max_bytes : nat) : string :=
  if (slen input <=? max_bytes)%nat then input
  else if (max_bytes <=? slen ELLIPSIS)%nat then take_chars max_bytes input
  else str_take (boundary_down input (max_bytes - slen ELLIPSIS)) input +:+ ELLIPSIS.

(** ** Laws *)

Lemma span_app f s : (span f s).1 +:+ (span f s).2 = s.
Proof.
  induction s as [|c s IH]; [done|]. cbn [span]. destruct (f c); [|done].
  destruct (span f s) as [a b]. cbn [fst snd] in IH |- *. by rewrite sapp_cons, IH.
Qed.

Lemma span_all f s : forallb f (String.list_ascii_of_string (span f s).1) = true.
Proof.
  induction s as [|c s IH]; [done|]. cbn. destruct (f c) eqn:Hc; [|done].
  destruct (span f s) as [a b]. cbn in IH |- *. by rewrite Hc, IH.
Qed.

(** A prefix of bytes that all satisfy [f] and is followed by one that does
    not is what [span] takes. *)
Lemma span_word f a b :
  forallb f (String.list_ascii_of_string a) = true ->
  match b with String c _ => f c = false | EmptyString => True end ->
  span f (a +:+ b) = (a, b).
Proof.
  induction a as [|c a IH]; intros Ha Hb.
  - rewrite sapp_nil_l. destruct b as [|c b]; [done|]. cbn. by rewrite Hb.
  - cbn in Ha. apply andb_prop in Ha as [Hc Ha]. rewrite sapp_cons. cbn [span].
    by rewrite Hc, IH.
Qed.

(** ** Searching and slicing *)

(** ** Definitions *)

(** [s.find(p)] and [s.rfind(p)]: the byte index of the first and of the last
    occurrence. *)
Fixpoint str_find (s p : string) : option nat :=
  if is_prefix_of p s then Some 0%nat
  else match s with EmptyString => None | String _ s' => S <$> str_find s' p end.

Fixpoint str_rfind (s p : string) : option nat :=
  match s with
  | EmptyString => if is_prefix_of p s then Some 0%nat else None
  | String _ s' =>
      match str_rfind s' p with
      | Some i => Some (S i)
      | None => if is_prefix_of p s then Some 0%nat else None
      end
  end.

(** [&s[a..b]]; [None] is the panic for an index that is out of range or not a
    character boundary. *)
Definition str_slice (a b : nat) (s : string) : option string :=
  if (a <=? b)%nat && (b <=? slen s)%nat && is_char_boundary s a && is_char_boundary s b
  then Some (str_take (b - a) (str_drop a s)) else None.

(** [s.replace(pattern, by)]; an empty pattern matches around every character. *)
Definition str_replace (pattern by_ s : string) : string :=
  if is_empty_str pattern then by_ +:+ sconcat (map (fun ch => ch +:+ by_) (chars s))
  else replace_all pattern by_ s.

(** [l.windows(n)], from the first start to the last. *)
Definition window {A} (n i : nat) (l : list A) : list A := take n (drop i l).

Definition window_starts {A} (n : nat) (l : list A) : list nat := seq 0 (length l - n + 1).

(** Where line [i] starts, and the length of some lines with the line feeds
    between them, both on the assumption that a terminator is one byte. *)
Definition line_offset (ls : list string) (i : nat) : nat :=
  fold_left (fun n l => n + slen l + 1)%nat (take i ls) 0%nat.

Fixpoint block_length (ls : list string) : nat :=
  match ls with
  | [] => 0
  | [l] => slen l
  | l :: rest => slen l + 1 + block_length rest
  end.

(** ** Occurrences *)

(** [p] occurs in [s] at byte [i]. *)
Definition occurs_at (s p : string) (i : nat) : Prop :=
  (i <= slen s)%nat /\ is_prefix_of p (str_drop i s) = true.

Lemma prefix_of_app p s : is_prefix_of p s = true <-> exists t, s = p +:+ t.
Proof.
  revert s. induction p as [|c p IH]; intros [|d s]; split; intros H; try done.
  - by exists "".
  - by exists (String d s).
  - by destruct H.
  - cbn in H. apply andb_prop in H as [->%Ascii.eqb_eq H]. apply IH in H as [t ->]. by exists t.
  - destruct H as [t [= <- ->]]. cbn. rewrite Ascii.eqb_refl. apply IH. by exists t.
Qed.

Lemma prefix_of_self p t : is_prefix_of p (p +:+ t) = true.
Proof. apply prefix_of_app. by exists t. Qed.

Lemma str_take_app a b : str_take (slen a) (a +:+ b) = a.
Proof. induction a as [|c a IH]; [by destruct b|]. rewrite sapp_cons. cbn. by rewrite IH. Qed.

Lemma str_drop_app a b : str_drop (slen a) (a +:+ b) = b.
Proof. induction a as [|c a IH]; [by destruct b|]. rewrite sapp_cons. cbn. by rewrite IH. Qed.

Lemma slen_str_drop n s : slen (str_drop n s) = (slen s - n)%nat.
Proof. revert s; induction n; intros [|c s]; cbn; try done. Qed.

Lemma occurs_split s p i : occurs_at s p i <-> exists a b, s = a +:+ p +:+ b /\ slen a = i.
Proof.
  unfold occurs_at. split.
  - intros [Hi [t Ht]%prefix_of_app]. exists (str_take i s), t.
    rewrite <- Ht, str_take_drop, slen_str_take by done. done.
  - intros (a & b & -> & <-). rewrite str_drop_app, prefix_of_self, slen_app. split; [lia|done].
Qed.

Lemma occurs_cons c s p i : occurs_at (String c s) p (S i) <-> occurs_at s p i.
Proof. unfold occurs_at. cbn. split; intros [H1 H2]; (split; [lia|done]). Qed.

Lemma occurs_0 s p : occurs_at s p 0 <-> is_prefix_of p s = true.
Proof.
  unfold occurs_at. replace (str_drop 0 s) with s by (by destruct s).
  split; [by intros []|]. intros H. split; [lia|done].
Qed.

Lemma str_find_eq s p : str_find s p =
  if is_prefix_of p s then Some 0%nat
  else match s with EmptyString => None | String _ s' => S <$> str_find s' p end.
Proof. by destruct s. Qed.

Lemma str_find_Some s p i :
  str_find s p = Some i <-> occurs_at s p i /\ forall j, (j < i)%nat -> ~ occurs_at s p j.
Proof.
  revert i. induction s as [|c s IH]; intros i; rewrite str_find_eq.
  - destruct (is_prefix_of p "") eqn:Hp.
    + split; [intros [= <-]; split; [by apply occurs_0|lia]|].
      intros [[Hi _] _]. cbn in Hi. by replace i with 0%nat by lia.
    + split; [done|]. intros [[Hi Ho] _]. cbn in Hi.
      replace i with 0%nat in Ho by lia. cbn in Ho. congruence.
  - destruct (is_prefix_of p (String c s)) eqn:Hp.
    + split; [intros [= <-]; split; [by apply occurs_0|lia]|].
      intros [_ Hmin]. destruct i as [|i]; [done|]. exfalso. apply (Hmin 0%nat); [lia|by apply occurs_0].
    + rewrite fmap_Some. split.
      * intros (j & Hj%IH & ->). destruct Hj as [Ho Hmin]. split; [by apply occurs_cons|].
        intros [|k] Hk; [rewrite occurs_0; congruence|]. rewrite occurs_cons. apply Hmin. lia.
      * intros [Ho Hmin]. destruct i as [|i]; [apply occurs_0 in Ho; congruence|].
        exists i. split; [|done]. apply IH. split; [by apply occurs_cons in Ho|].
        intros j Hj. rewrite <- (occurs_cons c). apply Hmin. lia.
Qed.

Lemma str_find_occurs s p : (exists i, str_find s p = Some i) <-> exists i, occurs_at s p i.
Proof.
  split; [intros [i Hi%str_find_Some]; exists i; tauto|].
  revert p. induction s as [|c s IH]; intros p [i Hi]; rewrite str_find_eq.
  - destruct i; [|destruct Hi; cbn in *; lia]. apply occurs_0 in Hi. rewrite Hi. by eexists.
  - destruct (is_prefix_of p _) eqn:Hp; [by eexists|].
    destruct i as [|i]; [apply occurs_0 in Hi; congruence|]. apply occurs_cons in Hi.
    destruct (IH p (ex_intro _ i Hi)) as [j ->]. by eexists.
Qed.

Lemma str_rfind_eq c s p : str_rfind (String c s) p =
  match str_rfind s p with
  | Some i => Some (S i)
  | None => if is_prefix_of p (String c s) then Some 0%nat else None
  end.
Proof. reflexivity. Qed.

Lemma str_rfind_occurs s p i : occurs_at s p i -> exists j, str_rfind s p = Some j.
Proof.
  revert i. induction s as [|c s IH]; intros i Hi.
  - destruct i; [|destruct Hi; cbn in *; lia]. apply occurs_0 in Hi. cbn. rewrite Hi. by eexists.
  - rewrite str_rfind_eq. destruct i as [|i].
    + apply occurs_0 in Hi. rewrite Hi. destruct (str_rfind s p); by eexists.
    + apply occurs_cons in Hi as [j ->]%IH. by eexists.
Qed.

Lemma str_rfind_Some s p i :
  str_rfind s p = Some i -> occurs_at s p i /\ forall j, occurs_at s p j -> (j <= i)%nat.
Proof.
  revert i. induction s as [|c s IH]; intros i.
  - cbn. destruct (is_prefix_of p "") eqn:Hp; [|done]. intros [= <-].
    split; [by apply occurs_0|]. intros j [Hj _]. cbn in Hj. lia.
  - rewrite str_rfind_eq. destruct (str_rfind s p) as [k|] eqn:Hk.
    + intros [= <-]. destruct (IH k eq_refl) as [Ho Hmax]. split; [by apply occurs_cons|].
      intros [|j] Hj; [lia|]. apply occurs_cons in Hj. apply Hmax in Hj. lia.
    + destruct (is_prefix_of p (String c s)) eqn:Hp; [|done]. intros [= <-].
      split; [by apply occurs_0|]. intros [|j] Hj; [lia|]. apply occurs_cons in Hj. exfalso.
      apply str_rfind_occurs in Hj as [k Hj']. congruence.
Qed.

Definition occurs (s p : string) : Prop := exists i, occurs_at s p i.

(** [p] occurs in [s] exactly once. *)
Definition occurs_once (s p : string) : Prop :=
  exists i, occurs_at s p i /\ forall j, occurs_at s p j -> j = i.

Lemma find_rfind_once s p i : str_find s p = Some i -> str_rfind s p = Some i <-> occurs_once s p.
Proof.
  intros Hf. pose proof Hf as [Ho Hmin]%str_find_Some. split.
  - intros [_ Hmax]%str_rfind_Some. exists i. split; [done|]. intros j Hj.
    pose proof (Hmax _ Hj). destruct (decide (j < i)%nat) as [Hlt|]; [by apply Hmin in Hlt|lia].
  - intros (k & Hk & Hu). destruct (str_rfind_occurs _ _ _ Ho) as [j Hj]. rewrite Hj.
    apply str_rfind_Some in Hj as [Hoj _]. f_equal. by rewrite (Hu j), (Hu i).
Qed.

Lemma contains_occurs s p : contains s p = true <-> occurs s p.
Proof.
  induction s as [|c s IH].
  - cbn. rewrite orb_false_r. split; [intros H; exists 0%nat; by apply occurs_0|].
    intros [i [Hi Ho]]. cbn in Hi. replace i with 0%nat in Ho by lia. done.
  - change (is_prefix_of p (String c s) || contains s p = true <-> occurs (String c s) p).
    rewrite orb_true_iff, IH. split.
    + intros [H|[i H]]; [exists 0%nat; by apply occurs_0|exists (S i); by apply occurs_cons].
    + intros [i H]. destruct i as [|i]; [left; by rewrite <- occurs_0|].
      right. exists i. by apply occurs_cons in H.
Qed.
