(* ===== verification/SlashCommands.v ===== *)
(** Slash commands (slash_commands/): the command files, their discovery, the
    registry and the expansion of an invocation.  The file system and the
    front matter parser are parameters. *)
From S2P Require Import Prelude Numbers Text TextOps.

Local Open Scope Z_scope.

(** ** Types *)

Inductive ScriptRuntime := Python | JavaScript.
Inductive ScriptMode := TransformArguments | GeneratePrompt.

Record SlashCommandScript := {
  scr_runtime : ScriptRuntime;
  scr_path : string;
  scr_mode : ScriptMode;
  scr_timeout_ms : Z;
}.

Inductive SlashCommandSource :=
| SsGlobal (path : string)
| SsProject (path : string)
| SsConfigured (path : string).

Record SlashCommand := {
  sc_name : string;
  sc_source : SlashCommandSource;
  sc_path : string;
  sc_description : string;
  sc_argument_hint : option string;
  sc_tags : list string;
  sc_template : string;
  sc_script : option SlashCommandScript;
  sc_requires_script : bool;
}.

Definition source_priority (s : SlashCommandSource) : Z :=
  match s with SsGlobal _ => 1 | SsProject _ => 2 | SsConfigured _ => 3 end.

Definition source_path (s : SlashCommandSource) : string :=
  match s with SsGlobal p | SsProject p | SsConfigured p => p end.

Record SlashCommandInvocation := {
  inv_name : string;
  inv_arguments : string;
  inv_original_text : string;
}.

Record SlashCommandExpansion := {
  exp_invocation : SlashCommandInvocation;
  exp_prompt_text : string;
}.

Record SlashCommandScriptsConfig := {
  ssc_enabled : bool;
  ssc_allow_python : bool;
  ssc_allow_javascript : bool;
  ssc_timeout_ms : Z;
}.

Definition default_script_timeout_ms : Z := 1000.

Record SlashCommandDiagnostic := { diag_path : string; diag_message : string }.

Record CommandFrontmatter := {
  cfm_description : string;
  cfm_argument_hint : option string;
  cfm_tags : list string;
  cfm_script : option SlashCommandScript;
  cfm_requires_script : bool;
}.

Definition is_hyphen_or_underscore (c : Ascii.ascii) : bool :=
  N.eqb (byte_of c) 45 || N.eqb (byte_of c) 95.

(** [c.is_ascii_alphanumeric() || c == '-' || c == '_'] *)
Definition is_name_char (c : Ascii.ascii) : bool :=
  is_ascii_alphanumeric c || is_hyphen_or_underscore c.

Definition is_valid_command_name (name : string) : bool :=
  match name with
  | EmptyString => false
  | String c _ => is_ascii_alphabetic c && forallb is_name_char (String.list_ascii_of_string name)
  end.

(** The file system, and [gray_matter]'s reading of a file: its front matter,
    if it has one, and the rest. *)
Class CommandFiles := {
  cf_exists : string -> bool;
  (** the names of a directory's entries that can be read *)
  cf_read_dir : string -> result string (list string);
  cf_read : string -> result string string;
  cf_matter : string -> result string (option CommandFrontmatter * string);
  (** [dirs::home_dir()] and [config_dir()] *)
  cf_home_dir : option string;
  cf_config_dir : option string;
}.

Section commands.
Context {CF : CommandFiles}.

(** ** Parsing the entry [name] of [dir] *)

Definition command_of (path name : string) (source : SlashCommandSource)
    (metadata : CommandFrontmatter) (body : string) : SlashCommand :=
  {| sc_name := name; sc_source := source; sc_path := path;
     sc_description := trim (cfm_description metadata);
     sc_argument_hint := cfm_argument_hint metadata; sc_tags := cfm_tags metadata;
     sc_template := trim body; sc_script := cfm_script metadata;
     sc_requires_script := cfm_requires_script metadata |}.

(** The script's path when it is not relative. *)
Definition absolute_script (metadata : CommandFrontmatter) : option string :=
  script ← cfm_script metadata;
  if is_absolute (scr_path script) then Some (scr_path script) else None.

Definition parse_command_file (dir name : string) (source : SlashCommandSource)
  : result SlashCommandDiagnostic SlashCommand :=
  let path := path_join dir name in
  let diag message := Err {| diag_path := path; diag_message := message |} in
  match cf_read path with
  | Err e => diag ("Failed to read file: " +:+ e)
  | Ok content =>
      if negb (is_valid_command_name (file_stem name))
      then diag ("Invalid command name derived from filename: '" +:+ file_stem name +:+
                 "'. Must match [a-zA-Z][a-zA-Z0-9_-]*")
      else
        match cf_matter content with
        | Err e => diag ("Failed to parse file: " +:+ e)
        | Ok (None, _) => diag "Missing YAML frontmatter"
        | Ok (Some metadata, body) =>
            if is_empty_str (trim (cfm_description metadata))
            then diag "Field 'description' is required and cannot be empty"
            else
              match absolute_script metadata with
              | Some p =>
                  diag ("Script path must be relative to the command file directory, got: " +:+ p)
              | None => Ok (command_of path (file_stem name) source metadata body)
              end
        end
  end.

(** ** Discovery *)

Definition default_search_paths (project_root : string) : list SlashCommandSource :=
  match cf_home_dir with
  | Some home => [SsGlobal (path_join home ".qmt/commands")] | None => []
  end ++
  match cf_config_dir with
  | Some dir => [SsGlobal (path_join dir "commands")] | None => []
  end ++
  [SsProject (path_join project_root ".qmt/commands")].

(** The entries taken for commands: [*.md], not hidden. *)
Definition is_command_entry (name : string) : bool :=
  bool_decide (extension name = Some "md") && negb (is_prefix_of "." (file_stem name)).

Definition add_entry (base : string) (source : SlashCommandSource)
    (acc : list SlashCommand * list SlashCommandDiagnostic) (name : string)
  : list SlashCommand * list SlashCommandDiagnostic :=
  if is_command_entry name then
    match parse_command_file base name source with
    | Ok cmd => (acc.1 ++ [cmd], acc.2)
    | Err diag => (acc.1, acc.2 ++ [diag])
    end
  else acc.

Definition discover_from_source (source : SlashCommandSource)
  : list SlashCommand * list SlashCommandDiagnostic :=
  let base := source_path source in
  if negb (cf_exists base) then ([], [])
  else
    match cf_read_dir base with
    | Err e => ([], [{| diag_path := base; diag_message := "Failed to read directory: " +:+ e |}])
    | Ok names => fold_left (add_entry base source) names ([], [])
    end.

(** The commands kept so far, and the priority each name was seen with. *)
Definition Discovered : Type := list SlashCommand * gmap string Z.

Definition add_command (acc : Discovered) (cmd : SlashCommand) : Discovered :=
  let '(all, seen) := acc in
  let name := sc_name cmd in
  let priority := source_priority (sc_source cmd) in
  match seen !! name with
  | Some existing =>
      if existing <? priority
      then (List.filter (fun c => negb (String.eqb (sc_name c) name)) all ++ [cmd],
            <[name := priority]> seen)
      else acc
  | None => (all ++ [cmd], <[name := priority]> seen)
  end.

Definition discover_all (sources : list SlashCommandSource)
  : list SlashCommand * list SlashCommandDiagnostic :=
  let found := map discover_from_source sources in
  ((fold_left add_command (flat_map fst found) ([], ∅)).1, flat_map snd found).

(** ** The registry *)

Record SlashCommandRegistry := {
  reg_by_name : gmap string SlashCommand;
  reg_scripts_enabled : bool;
}.

Definition registry_empty : SlashCommandRegistry :=
  {| reg_by_name := ∅; reg_scripts_enabled := false |}.

Definition register (r : SlashCommandRegistry) (command : SlashCommand) : SlashCommandRegistry :=
  {| reg_by_name := <[sc_name command := command]> (reg_by_name r);
     reg_scripts_enabled := reg_scripts_enabled r |}.

Definition from_sources (sources : list SlashCommandSource) (scripts : SlashCommandScriptsConfig)
  : SlashCommandRegistry * list SlashCommandDiagnostic :=
  let '(commands, diagnostics) := discover_all sources in
  (fold_left register commands
     {| reg_by_name := ∅; reg_scripts_enabled := ssc_enabled scripts |}, diagnostics).

Definition is_command_visible (r : SlashCommandRegistry) (cmd : SlashCommand) : bool :=
  negb (sc_requires_script cmd) || reg_scripts_enabled r.

Definition registry_get (r : SlashCommandRegistry) (name : string) : option SlashCommand :=
  cmd ← reg_by_name r !! name;
  if sc_requires_script cmd && negb (reg_scripts_enabled r) then None else Some cmd.

(** [all()]: a hash map's order is not specified, the map's own is taken here. *)
Definition registry_all (r : SlashCommandRegistry) : list SlashCommand :=
  List.filter (is_command_visible r) (map snd (map_to_list (reg_by_name r))).

Definition registry_len (r : SlashCommandRegistry) : nat := length (registry_all r).

(** The sources of a reload. *)
Definition reload_sources (project_root : option string) (extra_paths : list string)
  : list SlashCommandSource :=
  match project_root with
  | Some root => default_search_paths root
  | None =>
      match cf_home_dir with
      | Some home => [SsGlobal (path_join home ".qmt/commands")] | None => []
      end ++
      match cf_config_dir with
      | Some dir => [SsGlobal (path_join dir "commands")] | None => []
      end
  end ++ map SsConfigured extra_paths.

(** It replaces what the registry holds. *)
Definition reload (project_root : option string) (extra_paths : list string)
    (scripts : SlashCommandScriptsConfig) : SlashCommandRegistry * list SlashCommandDiagnostic :=
  from_sources (reload_sources project_root extra_paths) scripts.

(** ** Expansion *)

Definition try_parse_invocation (text : string) (r : SlashCommandRegistry)
  : option SlashCommandInvocation :=
  let trimmed := trim_start text in
  match trimmed with
  | String slash after_slash =>
      if negb (N.eqb (byte_of slash) 47) then None else
      let '(name, rest) := span is_name_char after_slash in
      match name with
      | EmptyString => None
      | String c _ =>
          if negb (is_ascii_alphabetic c) then None else
          registry_get r name ≫= fun _ =>
          Some {| inv_name := name; inv_arguments := trim rest; inv_original_text := trimmed |}
      end
  | EmptyString => None
  end.

Definition expansion_text (cmd : SlashCommand) (invocation : SlashCommandInvocation) : string :=
  "The user invoked the slash command `/" +:+ inv_name invocation +:+ "`." +:+ nl +:+ nl +:+
  "Command description:" +:+ nl +:+ sc_description cmd +:+ nl +:+ nl +:+
  "Command instructions:" +:+ nl +:+
  replace_all "$ARGUMENTS" (inv_arguments invocation) (sc_template cmd) +:+ nl +:+ nl +:+
  (if is_empty_str (inv_arguments invocation) then "Follow the command instructions."
   else "Follow the command instructions using the provided arguments.").

Definition expand_invocation (invocation : SlashCommandInvocation) (r : SlashCommandRegistry)
  : option SlashCommandExpansion :=
  cmd ← registry_get r (inv_name invocation);
  Some {| exp_invocation := invocation; exp_prompt_text := expansion_text cmd invocation |}.

Definition try_expand (text : string) (r : SlashCommandRegistry) : option SlashCommandExpansion :=
  invocation ← try_parse_invocation text r; expand_invocation invocation r.

(** ** Advertising (acp.rs) *)

Record AvailableCommand := {
  av_name : string;
  av_description : string;
  (** the hint of the arguments slot *)
  av_input : option string;
}.

Definition available_command (cmd : SlashCommand) : AvailableCommand :=
  {| av_name := "/" +:+ sc_name cmd; av_description := sc_description cmd;
     av_input := if bool_decide (is_Some (sc_argument_hint cmd)) ||
                    contains (sc_template cmd) "$ARGUMENTS"
                 then Some (default "" (sc_argument_hint cmd)) else None |}.

Definition registry_to_acp_update (r : SlashCommandRegistry) : list AvailableCommand :=
  map available_command (registry_all r).

(** ** Scripts (script.rs) *)

Definition runtime_binary (r : ScriptRuntime) : string :=
  match r with Python => "python3" | JavaScript => "node" end.

(** [which_binary]: the first directory of [PATH] that has it. *)
Definition which_binary (path_var : option (list string)) (name : string) : option string :=
  dirs ← path_var; List.find cf_exists (map (fun dir => path_join dir name) dirs).

Definition validate_runtime_available (path_var : option (list string)) (r : ScriptRuntime)
  : result string unit :=
  match which_binary path_var (runtime_binary r) with
  | Some _ => Ok tt
  | None => Err ("Command requires '" +:+ runtime_binary r +:+ "' but it was not found on PATH.")
  end.

(** [Path::starts_with] on canonical paths: by components. *)
Definition path_starts_with (p base : string) : bool :=
  String.eqb p base || is_prefix_of (if ends_with base "/" then base else base +:+ "/") p.

(** [canonicalize] fails for a path that does not exist. *)
Definition resolve_script_path (canonicalize : string -> option string)
    (script_path command_file_dir : string) : option string :=
  let resolved := path_join command_file_dir script_path in
  match canonicalize resolved, canonicalize command_file_dir with
  | Some r, Some d => if path_starts_with r d then Some r else None
  | _, _ => if is_prefix_of command_file_dir resolved then Some resolved else None
  end.
End commands.
