(* ===== verification/SlashProps.v ===== *)
(** Properties of the slash command registry. *)
From S2P Require Import Prelude Numbers Text TextOps SlashCommands.

Local Open Scope Z_scope.

(** [c] is what discovery keeps for its name out of [cs]: the first command of
    the highest priority. *)
Definition kept_from (cs : list SlashCommand) (name : string) (c : SlashCommand) : Prop :=
  exists l1 l2, cs = l1 ++ c :: l2 /\ sc_name c = name /\
    (forall d, d ∈ l1 -> sc_name d = name ->
      source_priority (sc_source d) < source_priority (sc_source c)) /\
    (forall d, d ∈ l2 -> sc_name d = name ->
      source_priority (sc_source d) <= source_priority (sc_source c)).

Section discovery.
Context {CF : CommandFiles}.

(** The same, computed. *)
Definition better (name : string) (acc : option SlashCommand) (c : SlashCommand)
  : option SlashCommand :=
  if String.eqb (sc_name c) name then
    match acc with
    | Some b => if source_priority (sc_source b) <? source_priority (sc_source c)
                then Some c else acc
    | None => Some c
    end
  else acc.

Definition best (name : string) (cs : list SlashCommand) : option SlashCommand :=
  fold_left (better name) cs None.

Lemma best_snoc name cs c : best name (cs ++ [c]) = better name (best name cs) c.
Proof. unfold best. by rewrite fold_left_app. Qed.

Lemma kept_snoc cs name c d :
  kept_from (cs ++ [d]) name c <->
  (c = d /\ sc_name d = name /\ forall b, b ∈ cs -> sc_name b = name ->
     source_priority (sc_source b) < source_priority (sc_source d)) \/
  (kept_from cs name c /\ (sc_name d = name ->
     source_priority (sc_source d) <= source_priority (sc_source c))).
Proof.
  split.
  - intros (l1 & l2 & Hcs & Hn & H1 & H2). destruct l2 as [|x l2 _] using rev_ind.
    + apply app_inj_tail in Hcs as [-> ->]. by left.
    + rewrite app_comm_cons, app_assoc in Hcs. apply app_inj_tail in Hcs as [-> <-]. right.
      split; [|intros Hx; apply H2; set_solver].
      exists l1, l2. repeat split; [done|done|]. intros y Hy. apply H2. set_solver.
  - intros [(-> & Hn & H)|[(l1 & l2 & -> & Hn & H1 & H2) Hd]].
    + exists cs, []. repeat split; [done|done|]. by intros b ?%elem_of_nil.
    + exists l1, (l2 ++ [d]). rewrite <- app_assoc. repeat split; [done|done|].
      intros y [Hy| ->%list_elem_of_singleton]%elem_of_app; [by apply H2|done].
Qed.

Lemma best_name name cs c : best name cs = Some c -> sc_name c = name.
Proof.
  induction cs as [|d cs IH] using rev_ind; [done|]. rewrite best_snoc. unfold better.
  destruct (String.eqb_spec (sc_name d) name) as [Hd|]; [|done].
  destruct (best name cs) as [b|]; [|by intros [= <-]].
  destruct (_ <? _); [by intros [= <-]|done].
Qed.

Lemma best_none name cs d : best name cs = None -> d ∈ cs -> sc_name d <> name.
Proof.
  induction cs as [|x cs IH] using rev_ind; [by intros _ ?%elem_of_nil|].
  rewrite best_snoc. unfold better.
  destruct (String.eqb_spec (sc_name x) name) as [Hx|Hx].
  - destruct (best name cs) as [b|]; [by destruct (_ <? _)|done].
  - intros Hb [Hd| ->%list_elem_of_singleton]%elem_of_app; [by apply IH|done].
Qed.

Lemma best_max name cs c d :
  best name cs = Some c -> d ∈ cs -> sc_name d = name ->
  source_priority (sc_source d) <= source_priority (sc_source c).
Proof.
  revert c. induction cs as [|x cs IH] using rev_ind; [by intros c _ ?%elem_of_nil|].
  intros c. rewrite best_snoc. unfold better.
  destruct (String.eqb_spec (sc_name x) name) as [Hx|Hx].
  - destruct (best name cs) as [b|] eqn:Hb.
    + destruct (Z.ltb_spec (source_priority (sc_source b)) (source_priority (sc_source x)));
        intros [= <-] [Hd| ->%list_elem_of_singleton]%elem_of_app Hn; try lia;
        by specialize (IH _ eq_refl Hd Hn); lia.
    + intros [= <-] [Hd| ->%list_elem_of_singleton]%elem_of_app Hn; [|lia].
      by apply (best_none _ _ d) in Hb.
  - intros Hb [Hd| ->%list_elem_of_singleton]%elem_of_app Hn; [by eapply IH|done].
Qed.

Lemma best_kept name cs c : best name cs = Some c <-> kept_from cs name c.
Proof.
  revert c. induction cs as [|d cs IH] using rev_ind; intros c.
  { split; [done|]. by intros (l1 & l2 & H & _); destruct l1. }
  rewrite best_snoc, kept_snoc, <- IH. unfold better.
  destruct (String.eqb_spec (sc_name d) name) as [Hd|Hd]; [|naive_solver].
  destruct (best name cs) as [b|] eqn:Hb.
  - pose proof (best_max _ _ _ b Hb) as Hmax. pose proof (fun x => best_max _ _ _ x Hb) as Hall.
    assert (b ∈ cs) as Hin by (destruct (proj1 (IH b) eq_refl) as (l1 & l2 & -> & _); set_solver).
    pose proof (best_name _ _ _ Hb) as Hbn.
    destruct (Z.ltb_spec (source_priority (sc_source b)) (source_priority (sc_source d))) as [Hlt|Hge].
    + split.
      * intros [= <-]. left. repeat split; [done|]. intros x Hx Hn. specialize (Hall x Hx Hn). lia.
      * intros [(-> & _)|[[= ->] H]]; [done|]. specialize (H Hd). lia.
    + split; [intros [= <-]; right; split; [done|lia]|].
      intros [(_ & _ & H)|[H _]]; [|done]. specialize (H _ Hin Hbn). lia.
  - pose proof (fun x => best_none _ _ x Hb) as Hno. split.
    + intros [= <-]. left. repeat split; [done|]. intros x Hx Hn. by destruct (Hno x Hx).
    + intros [(-> & _)|[H _]]; [done|]. done.
Qed.

Definition named (name : string) (c : SlashCommand) : bool := String.eqb (sc_name c) name.

Lemma filter_named_out name m l :
  List.filter (named name) (List.filter (fun c => negb (String.eqb (sc_name c) m)) l) =
  if String.eqb m name then [] else List.filter (named name) l.
Proof.
  induction l as [|c l IH]; [by destruct (String.eqb m name)|]. cbn.
  destruct (String.eqb_spec (sc_name c) m) as [<-|Hc]; cbn; rewrite IH; unfold named.
  - by destruct (String.eqb (sc_name c) name).
  - destruct (String.eqb_spec m name) as [->|]; [|done].
    by rewrite (proj2 (String.eqb_neq _ _)) by done.
Qed.

(** What the fold over the found commands keeps. *)
Lemma add_commands cs :
  (forall name, (fold_left add_command cs ([], ∅)).2 !! name =
     (fun c => source_priority (sc_source c)) <$> best name cs) /\
  (forall name, List.filter (named name) (fold_left add_command cs ([], ∅)).1 =
     match best name cs with Some c => [c] | None => [] end).
Proof.
  induction cs as [|d cs [IHs IHa]] using rev_ind; [by split|].
  rewrite fold_left_app. cbn [fold_left]. destruct (fold_left add_command cs ([], ∅)) as [all seen].
  cbn [fst snd] in IHs, IHa.
  assert (Hadd : forall name, best name (cs ++ [d]) = better name (best name cs) d)
    by (intros; apply best_snoc).
  unfold add_command. rewrite IHs.
  assert (Hins : forall name, <[sc_name d := source_priority (sc_source d)]> seen !! name =
    if String.eqb (sc_name d) name then Some (source_priority (sc_source d)) else seen !! name).
  { intros name. rewrite lookup_insert. destruct (String.eqb_spec (sc_name d) name);
      by case_decide. }
  destruct (best (sc_name d) cs) as [b|] eqn:Hb; cbn.
  - destruct (_ <? _) eqn:Hlt; cbn; split; intros name; rewrite Hadd; unfold better.
    + rewrite Hins. destruct (String.eqb_spec (sc_name d) name) as [<-|]; [by rewrite Hb, Hlt|done].
    + rewrite List.filter_app, filter_named_out. cbn. unfold named at 2.
      destruct (String.eqb_spec (sc_name d) name) as [<-|]; [by rewrite Hb, Hlt|].
      by rewrite app_nil_r.
    + destruct (String.eqb_spec (sc_name d) name) as [<-|]; [by rewrite IHs, Hb, Hlt|done].
    + destruct (String.eqb_spec (sc_name d) name) as [<-|]; [by rewrite IHa, Hb, Hlt|done].
  - split; intros name; rewrite Hadd; unfold better.
    + rewrite Hins. destruct (String.eqb_spec (sc_name d) name) as [<-|]; [by rewrite Hb|done].
    + rewrite List.filter_app, IHa. cbn. unfold named.
      destruct (String.eqb_spec (sc_name d) name) as [<-|]; [by rewrite Hb|by rewrite app_nil_r].
Qed.

Lemma register_all cs r name :
  reg_by_name (fold_left register cs r) !! name =
  or_else (last (List.filter (named name) cs)) (reg_by_name r !! name).
Proof.
  induction cs as [|c cs IH] using rev_ind; [done|].
  rewrite fold_left_app, List.filter_app. cbn. unfold named at 2.
  rewrite lookup_insert. destruct (String.eqb_spec (sc_name c) name) as [<-|Hc]; cbn.
  - rewrite decide_True by done. by rewrite last_snoc.
  - rewrite decide_False by done. by rewrite app_nil_r, IH.
Qed.
End discovery.

(** The registry holds, for each name, the first command of the highest
    priority that discovery finds: every command of that name found before it
    has a lower priority, every one found after it at most the same.  A
    command file of a project hides the user's, a configured one hides both,
    and of two of the same priority the one found first stays. *)
Theorem registry_has_best {CF : CommandFiles} sources scripts name c :
  reg_by_name (from_sources sources scripts).1 !! name = Some c <->
  kept_from (flat_map (fun s => (discover_from_source s).1) sources) name c.
Proof.
  rewrite <- best_kept. unfold from_sources, discover_all. cbn [fst].
  rewrite register_all. cbn [reg_by_name]. rewrite lookup_empty.
  destruct (add_commands (flat_map fst (map discover_from_source sources))) as [_ ->].
  rewrite flat_map_concat_map, map_map, <- flat_map_concat_map.
  by destruct (best name _).
Qed.

(** ** Invocations *)

Lemma chars_cons c s : starts_with_cont s = false -> chars (String c s) = String c "" :: chars s.
Proof.
  intros H. cbn. destruct (chars s) as [|ch rest] eqn:E; [done|].
  by rewrite (chars_head _ _ _ E), H.
Qed.

Lemma trim_start_slash c s : is_ascii_alphabetic c = true ->
  trim_start (String (Ascii.ascii_of_nat 47) (String c s)) = String (Ascii.ascii_of_nat 47) (String c s).
Proof.
  intros Hc. unfold trim_start. rewrite chars_cons.
  - cbn [drop_ws]. replace (is_ws_char (String (Ascii.ascii_of_nat 47) "")) with false by reflexivity. cbn [sconcat].
    by rewrite sconcat_chars, sapp_cons, sapp_nil_l.
  - cbn. unfold is_cont, is_ascii_alphabetic, in_range in *.
    destruct c as [[] [] [] [] [] [] [] []]; vm_compute in Hc |- *; done.
Qed.

(** A visible command expands by its name, whatever follows that is not part
    of a name; its template has the trimmed rest for [$ARGUMENTS]. *)
Lemma slash_invocation_expands {CF : CommandFiles} r cmd name rest :
  registry_get r name = Some cmd -> is_valid_command_name name = true ->
  match rest with String c _ => is_name_char c = false | EmptyString => True end ->
  let text := "/" +:+ name +:+ rest in
  let invocation := {| inv_name := name; inv_arguments := trim rest; inv_original_text := text |} in
  try_expand text r =
  Some {| exp_invocation := invocation; exp_prompt_text := expansion_text cmd invocation |}.
Proof.
  intros Hget Hname Hrest. destruct name as [|c name']; [done|].
  apply andb_prop in Hname as [Hc Hall]. cbv zeta. unfold try_expand, try_parse_invocation.
  change ("/" +:+ String c name' +:+ rest)
    with (String (Ascii.ascii_of_nat 47) (String c (name' +:+ rest))).
  rewrite trim_start_slash by done. replace (N.eqb (byte_of (Ascii.ascii_of_nat 47)) 47) with true by reflexivity.
  cbn [negb].
  change (String c (name' +:+ rest)) with (String c name' +:+ rest).
  rewrite span_word by done. cbn iota. rewrite Hc. cbn [negb]. rewrite Hget. cbn [mbind option_bind].
  unfold expand_invocation. cbn [inv_name]. by rewrite Hget.
Qed.

(** Before the files exist the check of a script's path is one of text, and a
    path that goes up passes it. *)
Example unresolved_script_escapes :
  resolve_script_path (fun _ => None) "../../etc/run.py" "/p/.qmt/commands" =
  Some "/p/.qmt/commands/../../etc/run.py".
Proof. reflexivity. Qed.
