(* ===== verification/LlmConfigs.v ===== *)
(** The model configuration of a session: the tables and statements of the
    store (session/store.rs, session/sqlite_storage/session_store.rs), and the
    handlers of the session actor that change it (agent/session_actor.rs).

    A row's parameters are JSON text; here they are the value the text stands
    for.  Serialization ([serde], [serde_json]) is a parameter. *)
From S2P Require Import Prelude Numbers Text Json Chat LlmErrors Events ScheduleRepo.
From S2P Require Import Delegations SessionRows TextOps.

Local Open Scope Z_scope.

Section params.
Context {J : Json}.

(** [querymt::LLMParams]; a temperature and the like as the bits of the [f32]. *)
Record LLMParams := {
  lp_name : option string;
  lp_provider : option string;
  lp_model : option string;
  lp_api_key : option string;
  lp_base_url : option string;
  lp_system : list string;
  lp_max_tokens : option Z;
  lp_temperature : option Z;
  lp_top_p : option Z;
  lp_top_k : option Z;
  lp_timeout_seconds : option Z;
  lp_reasoning_effort : option ReasoningEffort;
  lp_reasoning_budget_tokens : option Z;
  lp_custom : option (gmap string Value);
}.

Definition llm_params_new : LLMParams :=
  {| lp_name := None; lp_provider := None; lp_model := None; lp_api_key := None;
     lp_base_url := None; lp_system := []; lp_max_tokens := None; lp_temperature := None;
     lp_top_p := None; lp_top_k := None; lp_timeout_seconds := None;
     lp_reasoning_effort := None; lp_reasoning_budget_tokens := None; lp_custom := None |}.

(** [params.provider(p).model(m)] *)
Definition with_provider_model (provider model : string) (p : LLMParams) : LLMParams :=
  {| lp_name := lp_name p; lp_provider := Some provider; lp_model := Some model;
     lp_api_key := lp_api_key p; lp_base_url := lp_base_url p; lp_system := lp_system p;
     lp_max_tokens := lp_max_tokens p; lp_temperature := lp_temperature p; lp_top_p := lp_top_p p;
     lp_top_k := lp_top_k p; lp_timeout_seconds := lp_timeout_seconds p;
     lp_reasoning_effort := lp_reasoning_effort p;
     lp_reasoning_budget_tokens := lp_reasoning_budget_tokens p; lp_custom := lp_custom p |}.

(** [params.system = system]; with [new()], the same as adding the parts in turn. *)
Definition with_system (system : list string) (p : LLMParams) : LLMParams :=
  {| lp_name := lp_name p; lp_provider := lp_provider p; lp_model := lp_model p;
     lp_api_key := lp_api_key p; lp_base_url := lp_base_url p; lp_system := system;
     lp_max_tokens := lp_max_tokens p; lp_temperature := lp_temperature p; lp_top_p := lp_top_p p;
     lp_top_k := lp_top_k p; lp_timeout_seconds := lp_timeout_seconds p;
     lp_reasoning_effort := lp_reasoning_effort p;
     lp_reasoning_budget_tokens := lp_reasoning_budget_tokens p; lp_custom := lp_custom p |}.

Definition with_effort (effort : option ReasoningEffort) (p : LLMParams) : LLMParams :=
  {| lp_name := lp_name p; lp_provider := lp_provider p; lp_model := lp_model p;
     lp_api_key := lp_api_key p; lp_base_url := lp_base_url p; lp_system := lp_system p;
     lp_max_tokens := lp_max_tokens p; lp_temperature := lp_temperature p; lp_top_p := lp_top_p p;
     lp_top_k := lp_top_k p; lp_timeout_seconds := lp_timeout_seconds p;
     lp_reasoning_effort := effort;
     lp_reasoning_budget_tokens := lp_reasoning_budget_tokens p; lp_custom := lp_custom p |}.

(** [session::store::LLMConfig], a row of [llm_configs]. *)
Record StoredLlmConfig := {
  slc_id : Z;
  slc_name : option string;
  slc_provider : string;
  slc_model : string;
  slc_params : option Value;
}.

(** What the statements here read of a row of [sessions]. *)
Record SessionConfigRow := {
  scr_llm_config_id : option Z;
  scr_provider_node_id : option string;
}.

Record ConfigWorld := {
  cw_now : nat;
  cw_sessions : gmap string SessionConfigRow;
  cw_configs : list StoredLlmConfig;
  cw_events : list (string * AgentEventKind);
}.

Definition set_cw_now (f : nat -> nat) (w : ConfigWorld) : ConfigWorld :=
  {| cw_now := f (cw_now w); cw_sessions := cw_sessions w; cw_configs := cw_configs w;
     cw_events := cw_events w |}.
Definition set_cw_sessions (f : gmap string SessionConfigRow -> gmap string SessionConfigRow)
    (w : ConfigWorld) : ConfigWorld :=
  {| cw_now := cw_now w; cw_sessions := f (cw_sessions w); cw_configs := cw_configs w;
     cw_events := cw_events w |}.
Definition set_cw_configs (f : list StoredLlmConfig -> list StoredLlmConfig) (w : ConfigWorld)
  : ConfigWorld :=
  {| cw_now := cw_now w; cw_sessions := cw_sessions w; cw_configs := f (cw_configs w);
     cw_events := cw_events w |}.
Definition cw_emit (session : string) (k : AgentEventKind) (w : ConfigWorld) : ConfigWorld :=
  {| cw_now := cw_now w; cw_sessions := cw_sessions w; cw_configs := cw_configs w;
     cw_events := cw_events w ++ [(session, k)] |}.

(** Serialization, the database's failures, the plugin registry, the model
    catalogue and the initial configuration's system prompt. *)
Class ConfigEnv := {
  ce_to_value : LLMParams -> result string Value;
  ce_from_value : Value -> option LLMParams;
  ce_as_object : Value -> option (list (string * Value));
  ce_as_array : Value -> option (list Value);
  ce_store_error : nat -> option SessionError;
  ce_plugin_known : nat -> string -> bool;
  ce_context_limit : string -> string -> option Z;
  ce_initial_system : list string;
}.
End params.

Arguments ConfigWorld {J}.
Arguments ConfigEnv {J}.
Arguments LLMParams {J}.
Arguments StoredLlmConfig {J}.

Section configs.
Context {J : Json} {CE : ConfigEnv}.
#[local] Existing Instance Value_eq_dec.

Definition C (A : Type) : Type := M ConfigWorld AgentError A.

(** A call of the store by the actor. *)
Definition config_store {A} (f : ConfigWorld -> result SessionError A * ConfigWorld)
  : C (result SessionError A) := fun w =>
  let w' := set_cw_now S w in
  match ce_store_error (cw_now w) with
  | Some e => (Ok (Err e), w')
  | None => let '(r, w'') := f w' in (Ok r, w'')
  end.

(** [.map_err(|e| AgentError::Internal(e.to_string()))?] *)
Definition or_internal {A} (r : result SessionError A) : C A :=
  match r with Ok a => mret a | Err e => fail (internal_of_session e) end.

(** ** The store *)

(** The fields kept in columns of their own, and the key. *)
Definition is_stored_param (kv : string * Value) : bool :=
  negb (bool_decide (kv.1 ∈ ["provider"; "model"; "name"; "api_key"])).

Definition filtered_params (v : Value) : option Value :=
  match ce_as_object v with
  | Some obj =>
      match List.filter is_stored_param obj with
      | [] => None
      | filtered => Some (value_object filtered)
      end
  | None => None
  end.

Definition extract_llm_config_values (params : LLMParams)
  : result SessionError (string * string * option Value) :=
  match lp_provider params, lp_model params with
  | None, _ => Err (InvalidOperation "Provider is required")
  | _, None => Err (InvalidOperation "Model is required")
  | Some provider, Some model =>
      match ce_to_value params with
      | Err e => Err (InvalidOperation ("Failed to serialize params: " +:+ e))
      | Ok v => Ok (provider, model, filtered_params v)
      end
  end.

Definition same_config (provider model : string) (params : option Value) (c : StoredLlmConfig)
  : bool :=
  bool_decide (slc_provider c = provider) && bool_decide (slc_model c = model) &&
  bool_decide (slc_params c = params).

Definition next_config_id (w : ConfigWorld) : Z := 1 + foldr Z.max 0 (map slc_id (cw_configs w)).

(** The row with these values, or a new one. *)
Definition find_or_insert (name : option string) (provider model : string) (params : option Value)
    (w : ConfigWorld) : result SessionError StoredLlmConfig * ConfigWorld :=
  match List.find (same_config provider model params) (cw_configs w) with
  | Some c => (Ok c, w)
  | None =>
      let c := {| slc_id := next_config_id w; slc_name := name;
                  slc_provider := provider; slc_model := model; slc_params := params |} in
      (Ok c, set_cw_configs (fun l => l ++ [c]) w)
  end.

Definition create_or_get_llm_config (input : LLMParams) : C (result SessionError StoredLlmConfig) :=
  match extract_llm_config_values input with
  | Err e => mret (Err e)
  | Ok (provider, model, params) =>
      config_store (find_or_insert (lp_name input) provider model params)
  end.

Definition get_llm_config (id : Z) (w : ConfigWorld) : option StoredLlmConfig :=
  List.find (fun c => Z.eqb (slc_id c) id) (cw_configs w).

Definition get_session_llm_config (session : string) (w : ConfigWorld)
  : result SessionError (option StoredLlmConfig) :=
  match cw_sessions w !! session with
  | None => Err (SessionNotFound session)
  | Some row => Ok (id ← scr_llm_config_id row; get_llm_config id w)
  end.

Definition set_session_llm_config (session : string) (id : Z) (w : ConfigWorld)
  : result SessionError unit * ConfigWorld :=
  match cw_sessions w !! session with
  | None => (Err (SessionNotFound session), w)
  | Some row =>
      (Ok tt, set_cw_sessions (insert session
         {| scr_llm_config_id := Some id; scr_provider_node_id := scr_provider_node_id row |}) w)
  end.

(** A failure of the database is reported as a missing session there. *)
Definition set_config_error (session : string) (e : SessionError) : SessionError :=
  match e with DatabaseError _ => SessionNotFound session | e => e end.

Definition set_session_provider_node_id (session : string) (node : option string) (w : ConfigWorld)
  : result SessionError unit * ConfigWorld :=
  match cw_sessions w !! session with
  | None => (Err (SessionNotFound session), w)
  | Some row =>
      (Ok tt, set_cw_sessions (insert session
         {| scr_llm_config_id := scr_llm_config_id row; scr_provider_node_id := node |}) w)
  end.

Definition get_session_provider_node_id (session : string) (w : ConfigWorld)
  : result SessionError (option string) :=
  match cw_sessions w !! session with
  | None => Err (SessionNotFound session)
  | Some row => Ok (scr_provider_node_id row)
  end.

Definition config_query {A} (f : ConfigWorld -> result SessionError A) : C (result SessionError A) :=
  config_store (fun w => (f w, w)).

(** ** The actor's handlers *)

(** The parts of the stored prompt that are text, if there are any. *)
Definition stored_system (config : StoredLlmConfig) : list string :=
  match (slc_params config ≫= fun p => value_get p "system") ≫= ce_as_array with
  | Some items => omap value_as_str items
  | None => []
  end.

Definition get_session_system_prompt (session : string) : C (list string) :=
  current ← config_query (get_session_llm_config session);
  mret match current with
       | Ok (Some config) =>
           match stored_system config with [] => ce_initial_system | parts => parts end
       | _ => ce_initial_system
       end.

Definition store_config (session : string) (config : LLMParams) : C StoredLlmConfig :=
  stored ← create_or_get_llm_config config;
  stored ← or_internal stored;
  set ← config_store (set_session_llm_config session (slc_id stored));
  or_internal (match set with Ok _ => Ok tt | Err e => Err (set_config_error session e) end) ≫= fun _ =>
  mret stored.

Definition emit_provider_changed (session : string) (stored : StoredLlmConfig)
    (node : option string) : C unit :=
  modify (cw_emit session
    (ProviderChanged (slc_provider stored) (slc_model stored) (slc_id stored)
       (ce_context_limit (slc_provider stored) (slc_model stored)) node)).

Definition set_llm_config_impl (session : string) (config : LLMParams) : C unit :=
  match lp_provider config with
  | None => fail ProviderRequired
  | Some provider_name =>
      t ← gets cw_now;
      (if ce_plugin_known t provider_name then mret tt
       else
         node ← config_query (get_session_provider_node_id session);
         node ← or_internal node;
         match node with
         | None => fail (UnknownProvider provider_name)
         | Some _ => mret tt
         end) ≫= fun _ =>
      stored ← store_config session config;
      emit_provider_changed session stored None
  end.

Definition handle_set_provider (session provider model : string) : C unit :=
  system_prompt ← get_session_system_prompt session;
  set_llm_config_impl session
    (with_system system_prompt (with_provider_model provider model llm_params_new)).

Definition handle_set_llm_config (session : string) (config : LLMParams) : C unit :=
  set_llm_config_impl session config.

(** The parameters a stored configuration stands for. *)
Definition params_of_stored (current : StoredLlmConfig) : LLMParams :=
  with_provider_model (slc_provider current) (slc_model current)
    (match slc_params current with
     | Some v => default llm_params_new (ce_from_value v)
     | None => llm_params_new
     end).

(** What [SetReasoningEffort] does to the store, after the actor's own field. *)
Definition store_reasoning_effort (session : string) (effort : option ReasoningEffort) : C unit :=
  current ← config_query (get_session_llm_config session);
  current ← or_internal current;
  match current with
  | None => mret tt
  | Some current => set_llm_config_impl session (with_effort effort (params_of_stored current))
  end.

Definition parse_transport_model_id (model_id fallback_provider : string) : string * string :=
  let '(before, after) := span (fun c => negb (N.eqb (byte_of c) 47)) model_id in
  match after with
  | String _ model => (before, model)
  | EmptyString => (fallback_provider, model_id)
  end.

(** [session] is the one the request names. *)
Definition handle_set_session_model (session model_id : string) (node : option string) : C unit :=
  found ← config_query (fun w => Ok (cw_sessions w !! session));
  found ← or_internal found;
  match found with
  | None => fail (AeSessionNotFound session)
  | Some _ =>
      current ← config_query (get_session_llm_config session);
      current ← or_internal current;
      let fallback_provider := match current with Some c => slc_provider c | None => "anthropic" end in
      let '(provider, model) := parse_transport_model_id model_id fallback_provider in
      system_prompt ← get_session_system_prompt session;
      stored ← store_config session
        (with_system system_prompt (with_provider_model provider model llm_params_new));
      _ ← config_store (set_session_provider_node_id session node);
      emit_provider_changed session stored node
  end.

Definition handle_get_llm_config (session : string) : C (option StoredLlmConfig) :=
  current ← config_query (get_session_llm_config session); or_internal current.

Definition handle_set_planning_context (session summary : string) : C unit :=
  system_prompt ← get_session_system_prompt session;
  current ← config_query (get_session_llm_config session);
  current ← or_internal current;
  match current with
  | None => mret tt
  | Some current =>
      _ ← store_config session
            (with_system (system_prompt ++ [summary]) (params_of_stored current));
      mret tt
  end.

(** The messages that change the configuration. *)
Inductive ConfigMsg :=
| CmSetReasoningEffort (effort : option ReasoningEffort)
| CmSetProvider (provider model : string)
| CmSetLlmConfig (config : LLMParams)
| CmSetSessionModel (model_id : string) (node : option string)
| CmSetPlanningContext (summary : string).

Definition handle_config (session : string) (m : ConfigMsg) : C unit :=
  match m with
  | CmSetReasoningEffort effort => store_reasoning_effort session effort
  | CmSetProvider provider model => handle_set_provider session provider model
  | CmSetLlmConfig config => handle_set_llm_config session config
  | CmSetSessionModel model_id node => handle_set_session_model session model_id node
  | CmSetPlanningContext summary => handle_set_planning_context session summary
  end.
End configs.
