(* ===== verification/ConfigProps.v ===== *)
(** Properties of a session's model configuration. *)
From S2P Require Import Prelude Numbers Text Json LlmErrors Events ScheduleRepo Delegations.
From S2P Require Import SessionRows TextOps LlmConfigs.

Local Open Scope Z_scope.

Section configs.
Context {J : Json} {CE : ConfigEnv}.
#[local] Existing Instance Value_eq_dec.

(** ** What a handler of one session leaves alone *)

(** Relative to [w0]: the other sessions' rows, and the configurations stored. *)
Definition local_to (session : string) (w0 w : ConfigWorld) : Prop :=
  (forall s, s <> session -> cw_sessions w !! s = cw_sessions w0 !! s) /\
  (exists added, cw_configs w = cw_configs w0 ++ added).

Lemma local_refl session w : local_to session w w.
Proof. split; [done|]. exists []. by rewrite app_nil_r. Qed.

Lemma keeps_store_local {A} session w0 (f : ConfigWorld -> result SessionError A * ConfigWorld) :
  (forall w, local_to session w0 w -> local_to session w0 (f w).2) ->
  keeps (local_to session w0) (config_store f).
Proof.
  intros Hf w Hw. unfold wp, config_store. destruct (ce_store_error (cw_now w)); [exact Hw|].
  specialize (Hf (set_cw_now S w) Hw). by destruct (f (set_cw_now S w)).
Qed.

Lemma keeps_query_local {A} session w0 (f : ConfigWorld -> result SessionError A) :
  keeps (local_to session w0) (config_query f).
Proof. by apply keeps_store_local. Qed.

Lemma keeps_or_internal {A} (I : ConfigWorld -> Prop) (r : result SessionError A) :
  keeps I (or_internal r).
Proof. destruct r; [apply keeps_ret|apply keeps_fail]. Qed.

Lemma local_insert session w0 w row :
  local_to session w0 w -> local_to session w0 (set_cw_sessions (insert session row) w).
Proof.
  intros [H1 H2]. split; [|done]. intros s Hs. cbn. rewrite lookup_insert_ne by done. by apply H1.
Qed.

Lemma keeps_set_config session w0 id :
  keeps (local_to session w0) (config_store (set_session_llm_config session id)).
Proof.
  apply keeps_store_local. intros w Hw. unfold set_session_llm_config.
  destruct (cw_sessions w !! session); [by apply local_insert|done].
Qed.

Lemma keeps_set_node session w0 node :
  keeps (local_to session w0) (config_store (set_session_provider_node_id session node)).
Proof.
  apply keeps_store_local. intros w Hw. unfold set_session_provider_node_id.
  destruct (cw_sessions w !! session); [by apply local_insert|done].
Qed.

Lemma keeps_create session w0 config :
  keeps (local_to session w0) (create_or_get_llm_config config).
Proof.
  unfold create_or_get_llm_config. destruct (extract_llm_config_values config) as [[[p m] v]|];
    [|apply keeps_ret].
  apply keeps_store_local. intros w [H1 [added H2]]. unfold find_or_insert.
  destruct (List.find _ _); [by split; [|exists added]|]. split; [done|].
  cbn. rewrite H2. eexists (added ++ [_]). by rewrite <- app_assoc.
Qed.

Lemma keeps_changed session w0 stored node :
  keeps (local_to session w0) (emit_provider_changed session stored node).
Proof. by apply keeps_modify. Qed.

#[local] Hint Resolve keeps_query_local keeps_or_internal keeps_set_config keeps_set_node
  keeps_create keeps_changed : qmt.

Lemma keeps_store_config session w0 config :
  keeps (local_to session w0) (store_config session config).
Proof. unfold store_config. keeps_auto; auto with qmt. Qed.
#[local] Hint Resolve keeps_store_config : qmt.

Lemma keeps_set_impl session w0 config :
  keeps (local_to session w0) (set_llm_config_impl session config).
Proof. unfold set_llm_config_impl. keeps_auto; auto with qmt. Qed.
#[local] Hint Resolve keeps_set_impl : qmt.

Lemma keeps_system session w0 : keeps (local_to session w0) (get_session_system_prompt session).
Proof. unfold get_session_system_prompt. keeps_auto; auto with qmt. Qed.
#[local] Hint Resolve keeps_system : qmt.

Lemma keeps_config session w0 m : keeps (local_to session w0) (handle_config session m).
Proof.
  destruct m; cbn [handle_config];
    unfold store_reasoning_effort, handle_set_provider, handle_set_llm_config,
      handle_set_session_model, handle_set_planning_context; keeps_auto; auto with qmt.
Qed.

(** Every configuration a session refers to is stored. *)
Definition configs_stored (w : ConfigWorld) : Prop :=
  forall s row id, cw_sessions w !! s = Some row -> scr_llm_config_id row = Some id ->
  is_Some (get_llm_config id w).

Lemma find_config_app {A} (f : A -> bool) l l' x : List.find f l = Some x -> List.find f (l ++ l') = Some x.
Proof. induction l as [|y l IH]; [done|]. cbn. by destruct (f y). Qed.

Lemma local_get session w0 w s :
  configs_stored w0 -> local_to session w0 w -> s <> session ->
  get_session_llm_config s w = get_session_llm_config s w0.
Proof.
  intros Hc [Hs [added Ha]] Hne. unfold get_session_llm_config. rewrite Hs by done.
  destruct (cw_sessions w0 !! s) as [row|] eqn:Hrow; [|done]. f_equal.
  destruct (scr_llm_config_id row) as [id|] eqn:Hid; [|done]. cbn.
  destruct (Hc _ _ _ Hrow Hid) as [c Hget]. rewrite Hget. unfold get_llm_config in *.
  rewrite Ha. by apply find_config_app.
Qed.

(** ** The configuration a handler stores *)

Definition ids_distinct (w : ConfigWorld) : Prop := NoDup (map slc_id (cw_configs w)).

(** The session's configuration is the stored form of [config]. *)
Definition configured (session : string) (config : LLMParams) (w : ConfigWorld) : Prop :=
  exists provider model params c,
    extract_llm_config_values config = Ok (provider, model, params) /\
    get_session_llm_config session w = Ok (Some c) /\
    slc_provider c = provider /\ slc_model c = model /\ slc_params c = params.

Lemma find_id_in l c :
  NoDup (map slc_id l) -> c ∈ l -> List.find (fun c' => Z.eqb (slc_id c') (slc_id c)) l = Some c.
Proof.
  induction l as [|x l IH]; [by intros _ ?%elem_of_nil|]. cbn. intros [Hx Hl]%NoDup_cons Hc.
  apply elem_of_cons in Hc as [->|Hc]; [by rewrite Z.eqb_refl|].
  destruct (Z.eqb_spec (slc_id x) (slc_id c)) as [He|]; [|by apply IH].
  destruct Hx. rewrite He. by apply (list_elem_of_fmap_2 slc_id).
Qed.

Lemma next_id_fresh w c : c ∈ cw_configs w -> slc_id c < next_config_id w.
Proof.
  unfold next_config_id. induction (cw_configs w) as [|x l IH]; [by intros ?%elem_of_nil|].
  intros [->|Hc]%elem_of_cons; cbn; [lia|]. specialize (IH Hc). lia.
Qed.

(** The row that is found or made is the one its id finds. *)
Lemma find_or_insert_spec name provider model params w :
  ids_distinct w ->
  let '(r, w') := find_or_insert name provider model params w in
  exists c, r = Ok c /\ same_config provider model params c = true /\
    get_llm_config (slc_id c) w' = Some c /\ ids_distinct w' /\ cw_sessions w' = cw_sessions w.
Proof.
  intros Hd. unfold find_or_insert. destruct (List.find _ _) as [c|] eqn:Hf.
  - exists c. apply find_some in Hf as [Hin Hc]. repeat split; [done| |done].
    apply find_id_in; [done|by apply list_elem_of_In].
  - eexists. split; [done|]. split; [|split; [|split; [|done]]].
    + unfold same_config. cbn. by rewrite !bool_decide_true.
    + unfold get_llm_config. cbn [cw_configs set_cw_configs slc_id].
      set (id := next_config_id w).
      assert (H : forall x, x ∈ cw_configs w -> Z.eqb (slc_id x) id = false).
      { intros x Hx%next_id_fresh. apply Z.eqb_neq. unfold id. lia. }
      clear Hd Hf. clearbody id. induction (cw_configs w) as [|x l IH]; cbn; [by rewrite Z.eqb_refl|].
      rewrite H by left. apply IH. intros y Hy. apply H. by right.
    + unfold ids_distinct. cbn. rewrite map_app. apply NoDup_app. split; [done|].
      split; [|apply NoDup_singleton].
      intros x Hx ->%list_elem_of_singleton.
      apply (list_elem_of_fmap slc_id) in Hx as (c & Hc & Hin%next_id_fresh). cbn in Hc. lia.
Qed.

Lemma wp_store_config session config w (Q : result AgentError StoredLlmConfig -> ConfigWorld -> Prop) :
  ids_distinct w ->
  (forall e w', Q (Err e) w') ->
  (forall c w', configured session config w' -> ids_distinct w' -> Q (Ok c) w') ->
  wp (store_config session config) Q w.
Proof.
  intros Hd He Hok. unfold store_config, create_or_get_llm_config.
  destruct (extract_llm_config_values config) as [[[provider model] params]|e] eqn:Hx;
    [|apply wp_bind, wp_ret, wp_bind, wp_fail, He].
  apply wp_bind. unfold config_store at 1, wp at 1. destruct (ce_store_error (cw_now w));
    [apply wp_bind, wp_fail, He|].
  pose proof (find_or_insert_spec (lp_name config) provider model params (set_cw_now S w) Hd) as Hfi.
  destruct (find_or_insert _ _ _ _ _) as [r w1]. destruct Hfi as (c & -> & Hsame & Hget & Hd1 & _).
  apply wp_bind, wp_ret. apply wp_bind. unfold config_store, wp at 1.
  destruct (ce_store_error (cw_now w1)); [apply wp_bind, wp_fail, He|].
  unfold set_session_llm_config. cbn [cw_sessions set_cw_now].
  destruct (cw_sessions w1 !! session) as [row|] eqn:Hrow; [|apply wp_bind, wp_fail, He].
  apply wp_bind, wp_ret, wp_ret. apply Hok; [|done].
  unfold same_config in Hsame. apply andb_prop in Hsame as [[H1 H2]%andb_prop H3].
  apply bool_decide_eq_true in H1, H2, H3.
  exists provider, model, params, c. split; [done|]. split; [|done].
  unfold get_session_llm_config. cbn. rewrite lookup_insert_eq. cbn. f_equal. exact Hget.
Qed.
End configs.

(** ** Theorems *)

(** A message that changes the configuration of one session, in any of its
    five forms and even when it fails half-way, leaves every other session's
    configuration and provider node as they were: rows of configurations are
    shared between sessions, but never rewritten. *)
Theorem config_change_is_local {J : Json} {CE : ConfigEnv} session m w r w' s
    (Hstored : configs_stored w)
    (Hrun : handle_config session m w = (r, w')) (Hne : s <> session) :
  get_session_llm_config s w' = get_session_llm_config s w /\
  get_session_provider_node_id s w' = get_session_provider_node_id s w.
Proof.
  pose proof (wp_run _ _ _ _ _ (keeps_config session w m w (local_refl session w)) Hrun) as Hl.
  cbv beta in Hl. split; [exact (local_get session w w' s Hstored Hl Hne)|]. unfold get_session_provider_node_id.
  destruct Hl as [Hs _]. by rewrite Hs.
Qed.

(** Changing a session's model starts from new parameters: when it
    succeeds, the session's configuration is the stored form of the provider
    and the model that the id names and of the system prompt in force, and of
    nothing else.  The other parameters of the old configuration, the
    reasoning effort among them, are gone. *)
Theorem model_change_resets_parameters {J : Json} {CE : ConfigEnv} session model_id node w w'
    (Hd : ids_distinct w)
    (Hrun : handle_set_session_model session model_id node w = (Ok tt, w')) :
  exists fallback provider model system,
    parse_transport_model_id model_id fallback = (provider, model) /\
    configured session (with_system system (with_provider_model provider model llm_params_new)) w'.
Proof.
  assert (Hwp : wp (handle_set_session_model session model_id node) (fun r w' =>
    r = Ok tt -> exists fallback provider model system,
      parse_transport_model_id model_id fallback = (provider, model) /\
      configured session (with_system system (with_provider_model provider model llm_params_new)) w') w);
    [|by apply (wp_run _ _ _ _ _ Hwp Hrun)].
  assert (Hquery : forall A (f : ConfigWorld -> result SessionError A) Q w0,
    (forall r, Q (Ok r) (set_cw_now S w0)) -> wp (config_query f) Q w0).
  { intros A f Q w0 H. unfold wp, config_query, config_store.
    by destruct (ce_store_error (cw_now w0)). }
  unfold handle_set_session_model. apply wp_bind, Hquery. intros found.
  apply wp_bind. destruct found as [found|]; [|by apply wp_fail]. apply wp_ret.
  destruct found; [|by apply wp_fail]. apply wp_bind, Hquery. intros current.
  apply wp_bind. destruct current as [current|]; [|by apply wp_fail]. apply wp_ret. cbv zeta.
  destruct (parse_transport_model_id _ _) as [provider model] eqn:Hp.
  apply wp_bind. unfold get_session_system_prompt. apply wp_bind, Hquery. intros sys. apply wp_ret.
  apply wp_bind, wp_store_config; [done|by intros|]. intros c w1 Hconf _.
  apply wp_bind. unfold wp at 1, config_store. destruct (ce_store_error (cw_now w1)).
  - apply wp_modify. intros _. do 4 eexists. split; [exact Hp|exact Hconf].
  - unfold set_session_provider_node_id. cbn [cw_sessions set_cw_now].
    destruct (cw_sessions w1 !! session) as [row|] eqn:Hrow; apply wp_modify; intros _;
      do 4 eexists; (split; [exact Hp|]); [|exact Hconf].
    destruct Hconf as (p & m & v & c' & Hx & Hget & Hc). exists p, m, v, c'.
    split; [exact Hx|]. split; [|exact Hc]. unfold get_session_llm_config in *. cbn in *.
    rewrite Hrow in Hget. by rewrite lookup_insert_eq.
Qed.

(** ** A store with two sessions *)

#[local] Existing Instance toy_json.

Definition toy_to_value (p : LLMParams) : toy_value :=
  TObj (match lp_provider p with Some s => [("provider", s)] | None => [] end ++
        match lp_model p with Some s => [("model", s)] | None => [] end ++
        match lp_reasoning_effort p with Some _ => [("reasoning_effort", "set")] | None => [] end).

#[local] Instance toy_config_env : ConfigEnv (J := toy_json) := {|
  ce_to_value := fun p => Ok (toy_to_value p);
  ce_from_value := fun _ => None;
  ce_as_object := fun v => match v with
                           | TObj fs => Some (map (fun kv => (kv.1, TStr kv.2)) fs)
                           | TStr _ => None end;
  ce_as_array := fun _ => None;
  ce_store_error := fun _ => None;
  ce_plugin_known := fun _ p => String.eqb p "local";
  ce_context_limit := fun _ _ => None;
  ce_initial_system := ["be brief"];
|}.

Definition toy_config_world : ConfigWorld (J := toy_json) :=
  let c := {| slc_id := 1; slc_name := None; slc_provider := "local"; slc_model := "m";
              slc_params := Some (TObj [("reasoning_effort", "set")]) |} in
  let row := {| scr_llm_config_id := Some 1; scr_provider_node_id := None |} in
  {| cw_now := 0; cw_sessions := {[ "a" := row; "b" := row ]}; cw_configs := [c]; cw_events := [] |}.

Lemma config_change_is_local_witness :
  (handle_config "a" (CmSetProvider "local" "m2") toy_config_world).1 = Ok tt /\
  get_session_llm_config "b" (handle_config "a" (CmSetProvider "local" "m2") toy_config_world).2 =
  get_session_llm_config "b" toy_config_world.
Proof.
  split; [vm_compute; reflexivity|].
  refine (proj1 (config_change_is_local "a" (CmSetProvider "local" "m2") toy_config_world
                   _ _ "b" _ (surjective_pairing _) _)); [|discriminate].
  intros s row id. cbn. rewrite lookup_insert. case_decide; [intros [= <-] [= <-]; eexists; reflexivity|].
  intros [_ <-]%lookup_singleton_Some [= <-]. eexists. reflexivity.
Defined.

Lemma model_change_resets_parameters_witness :
  exists w', handle_set_session_model "a" "local/m2" None toy_config_world = (Ok tt, w') /\
    exists fallback provider model system,
      parse_transport_model_id "local/m2" fallback = (provider, model) /\
      configured "a" (with_system system (with_provider_model provider model llm_params_new)) w'.
Proof.
  exists (handle_set_session_model "a" "local/m2" None toy_config_world).2.
  assert (H : handle_set_session_model "a" "local/m2" None toy_config_world =
    (Ok tt, (handle_set_session_model "a" "local/m2" None toy_config_world).2)) by reflexivity.
  split; [exact H|]. apply (model_change_resets_parameters "a" "local/m2" None toy_config_world _);
    [|exact H]. apply NoDup_singleton.
Defined.

(** The session had an effort set; with the new model it has none. *)
Example model_change_drops_effort :
  let w' := (handle_set_session_model "a" "local/m2" None toy_config_world).2 in
  get_session_llm_config "a" w' =
    Ok (Some {| slc_id := 2; slc_name := None; slc_provider := "local"; slc_model := "m2";
                slc_params := None |}).
Proof. vm_compute. reflexivity. Qed.
