(* ===== verification/SessionActor.v ===== *)
(** The session actor (agent/session_actor.rs, agent/messages.rs): its state,
    the handlers of its messages, and the detached tasks that run prompts
    under the session's execution permit.

    Messages are handled one at a time, in the order of the mailbox; a prompt
    is handled by starting a task, whose steps interleave with the handlers
    and with those of other tasks in any order.  The permit is the holder of
    the session's semaphore of one: a waiting task can take it whenever it is
    free, in no particular order. *)
From S2P Require Import Prelude Numbers Text Json Chat Domain Events Model ScheduleRepo.
From S2P Require Import Delegations SessionRows LlmConfigs.

Local Open Scope Z_scope.

Inductive SessionRuntimeStatus := Idle | StRunning | StWaiting | CancelRequested.

Inductive ExecutionOrigin := Interactive | OrScheduled (schedule_public_id : string).

(** A cancellation token, by its identity. *)
Definition TokenId : Type := nat.

Record TurnState := { ts_generation : Z; ts_token : TokenId }.

Section actor.
Context {J : Json}.

Record SessionActor := {
  sa_session_id : string;
  sa_mode : AgentMode;
  sa_reasoning_effort : option ReasoningEffort;
  sa_tool_config : ToolConfig;
  sa_turn_state : TurnState;
  (** a client bridge is attached *)
  sa_bridge : bool;
  sa_prompt_running : bool;
  (** the forwarder task of each subscribed relay *)
  sa_relay_handles : gmap Z nat;
}.

(** [SessionActor::new], its first token given. *)
Definition session_actor_new (session_id : string) (default_mode : AgentMode)
    (default_effort : option ReasoningEffort) (tool_config : ToolConfig) (token : TokenId)
  : SessionActor :=
  {| sa_session_id := session_id; sa_mode := default_mode; sa_reasoning_effort := default_effort;
     sa_tool_config := tool_config; sa_turn_state := {| ts_generation := 0; ts_token := token |};
     sa_bridge := false; sa_prompt_running := false; sa_relay_handles := ∅ |}.

Definition set_turn (turn : TurnState) (running : bool) (a : SessionActor) : SessionActor :=
  {| sa_session_id := sa_session_id a; sa_mode := sa_mode a;
     sa_reasoning_effort := sa_reasoning_effort a; sa_tool_config := sa_tool_config a;
     sa_turn_state := turn; sa_bridge := sa_bridge a; sa_prompt_running := running;
     sa_relay_handles := sa_relay_handles a |}.
Definition set_settings (mode : AgentMode) (effort : option ReasoningEffort) (tools : ToolConfig)
    (bridge : bool) (a : SessionActor) : SessionActor :=
  {| sa_session_id := sa_session_id a; sa_mode := mode; sa_reasoning_effort := effort;
     sa_tool_config := tools; sa_turn_state := sa_turn_state a; sa_bridge := bridge;
     sa_prompt_running := sa_prompt_running a; sa_relay_handles := sa_relay_handles a |}.
Definition set_relays (f : gmap Z nat -> gmap Z nat) (a : SessionActor) : SessionActor :=
  {| sa_session_id := sa_session_id a; sa_mode := sa_mode a;
     sa_reasoning_effort := sa_reasoning_effort a; sa_tool_config := sa_tool_config a;
     sa_turn_state := sa_turn_state a; sa_bridge := sa_bridge a;
     sa_prompt_running := sa_prompt_running a; sa_relay_handles := f (sa_relay_handles a) |}.

(** ** Prompt tasks *)

(** Where a task is in [execute_prompt_detached]: in the first wait of 100 ms
    for the permit; in the second one, up to the execution timeout; with the
    permit; past its return, before [PromptFinished] is sent; after. *)
Inductive TaskPhase :=
| PhFirstWait
| PhQueued
| PhRunning
| PhReturned (r : result AgentError StopReason)
| PhFinished (r : result AgentError StopReason).

(** [DetachedPromptExecution], with what the handler captured. *)
Record PromptTask := {
  pt_generation : Z;
  pt_prompt : list ContentBlock;
  pt_token : TokenId;
  pt_bridge : bool;
  pt_mode : AgentMode;
  pt_tool_config : ToolConfig;
  pt_origin : ExecutionOrigin;
  pt_phase : TaskPhase;
}.

Definition set_phase (ph : TaskPhase) (t : PromptTask) : PromptTask :=
  {| pt_generation := pt_generation t; pt_prompt := pt_prompt t; pt_token := pt_token t;
     pt_bridge := pt_bridge t; pt_mode := pt_mode t; pt_tool_config := pt_tool_config t;
     pt_origin := pt_origin t; pt_phase := ph |}.

(** ** The system *)

Inductive ActorMsg :=
| AmCancel
| AmPromptFinished (generation : Z)
| AmSetMode (mode : AgentMode)
| AmConfig (m : ConfigMsg)
| AmSetToolPolicy (policy : ToolPolicy)
| AmSetAllowedTools (tools : list string)
| AmClearAllowedTools
| AmSetDeniedTools (tools : list string)
| AmClearDeniedTools
| AmSetBridge
| AmUnsubscribeEvents (relay_actor_id : Z)
| AmPrompt (prompt : list ContentBlock)
| AmScheduledPrompt (schedule_public_id prompt_text : string)
| AmShutdown.

Record System := {
  sy_actor : SessionActor;
  sy_stopped : bool;
  sy_next_token : TokenId;
  sy_cancelled : gset TokenId;
  sy_tasks : gmap nat PromptTask;
  sy_next_task : nat;
  sy_permit : option nat;
  sy_mailbox : list ActorMsg;
  sy_config : ConfigWorld;
  sy_events : list AgentEventKind;
}.

Definition set_actor (f : SessionActor -> SessionActor) (s : System) : System :=
  {| sy_actor := f (sy_actor s); sy_stopped := sy_stopped s; sy_next_token := sy_next_token s;
     sy_cancelled := sy_cancelled s; sy_tasks := sy_tasks s; sy_next_task := sy_next_task s;
     sy_permit := sy_permit s; sy_mailbox := sy_mailbox s; sy_config := sy_config s;
     sy_events := sy_events s |}.
Definition set_cancelled (f : gset TokenId -> gset TokenId) (s : System) : System :=
  {| sy_actor := sy_actor s; sy_stopped := sy_stopped s; sy_next_token := sy_next_token s;
     sy_cancelled := f (sy_cancelled s); sy_tasks := sy_tasks s; sy_next_task := sy_next_task s;
     sy_permit := sy_permit s; sy_mailbox := sy_mailbox s; sy_config := sy_config s;
     sy_events := sy_events s |}.
Definition set_sy_tasks (f : gmap nat PromptTask -> gmap nat PromptTask) (s : System) : System :=
  {| sy_actor := sy_actor s; sy_stopped := sy_stopped s; sy_next_token := sy_next_token s;
     sy_cancelled := sy_cancelled s; sy_tasks := f (sy_tasks s); sy_next_task := sy_next_task s;
     sy_permit := sy_permit s; sy_mailbox := sy_mailbox s; sy_config := sy_config s;
     sy_events := sy_events s |}.
Definition set_permit (p : option nat) (s : System) : System :=
  {| sy_actor := sy_actor s; sy_stopped := sy_stopped s; sy_next_token := sy_next_token s;
     sy_cancelled := sy_cancelled s; sy_tasks := sy_tasks s; sy_next_task := sy_next_task s;
     sy_permit := p; sy_mailbox := sy_mailbox s; sy_config := sy_config s;
     sy_events := sy_events s |}.
Definition set_mailbox (f : list ActorMsg -> list ActorMsg) (s : System) : System :=
  {| sy_actor := sy_actor s; sy_stopped := sy_stopped s; sy_next_token := sy_next_token s;
     sy_cancelled := sy_cancelled s; sy_tasks := sy_tasks s; sy_next_task := sy_next_task s;
     sy_permit := sy_permit s; sy_mailbox := f (sy_mailbox s); sy_config := sy_config s;
     sy_events := sy_events s |}.
Definition set_config (w : ConfigWorld) (s : System) : System :=
  {| sy_actor := sy_actor s; sy_stopped := sy_stopped s; sy_next_token := sy_next_token s;
     sy_cancelled := sy_cancelled s; sy_tasks := sy_tasks s; sy_next_task := sy_next_task s;
     sy_permit := sy_permit s; sy_mailbox := sy_mailbox s; sy_config := w;
     sy_events := sy_events s |}.
Definition sy_emit (k : AgentEventKind) (s : System) : System :=
  {| sy_actor := sy_actor s; sy_stopped := sy_stopped s; sy_next_token := sy_next_token s;
     sy_cancelled := sy_cancelled s; sy_tasks := sy_tasks s; sy_next_task := sy_next_task s;
     sy_permit := sy_permit s; sy_mailbox := sy_mailbox s; sy_config := sy_config s;
     sy_events := sy_events s ++ [k] |}.

(** [CancellationToken::new()] for the turn, [prompt_running] as given. *)
Definition fresh_token (generation : Z) (running : bool) (s : System) : System :=
  {| sy_actor := set_turn {| ts_generation := generation; ts_token := sy_next_token s |} running
                   (sy_actor s);
     sy_stopped := sy_stopped s; sy_next_token := S (sy_next_token s);
     sy_cancelled := sy_cancelled s; sy_tasks := sy_tasks s; sy_next_task := sy_next_task s;
     sy_permit := sy_permit s; sy_mailbox := sy_mailbox s; sy_config := sy_config s;
     sy_events := sy_events s |}.

(** [ctx.spawn(..)] *)
Definition spawn_task (t : PromptTask) (s : System) : System :=
  {| sy_actor := sy_actor s; sy_stopped := sy_stopped s; sy_next_token := sy_next_token s;
     sy_cancelled := sy_cancelled s; sy_tasks := <[sy_next_task s := t]> (sy_tasks s);
     sy_next_task := S (sy_next_task s);
     sy_permit := sy_permit s; sy_mailbox := sy_mailbox s; sy_config := sy_config s;
     sy_events := sy_events s |}.

Definition stop_actor (s : System) : System :=
  {| sy_actor := sy_actor s; sy_stopped := true; sy_next_token := sy_next_token s;
     sy_cancelled := sy_cancelled s; sy_tasks := sy_tasks s; sy_next_task := sy_next_task s;
     sy_permit := sy_permit s; sy_mailbox := sy_mailbox s; sy_config := sy_config s;
     sy_events := sy_events s |}.

Definition generation (s : System) : Z := ts_generation (sa_turn_state (sy_actor s)).
Definition token (s : System) : TokenId := ts_token (sa_turn_state (sy_actor s)).
Definition token_cancelled (s : System) : bool := bool_decide (token s ∈ sy_cancelled s).

(** ** Handlers *)

Context {CE : ConfigEnv}.

Definition handle_cancel (s : System) : System :=
  sy_emit EvCancelled (set_cancelled (fun c => {[ token s ]} ∪ c) s).

Definition handle_prompt_finished (g : Z) (s : System) : System :=
  if negb (g =? generation s) then s else fresh_token (generation s) false s.

Definition handle_set_mode (mode : AgentMode) (s : System) : System :=
  sy_emit (SessionModeChanged mode)
    (set_actor (fun a => set_settings mode (sa_reasoning_effort a) (sa_tool_config a) (sa_bridge a) a) s).

Definition set_tools (f : ToolConfig -> ToolConfig) (s : System) : System :=
  set_actor (fun a => set_settings (sa_mode a) (sa_reasoning_effort a) (f (sa_tool_config a))
                        (sa_bridge a) a) s.

Definition with_policy (p : ToolPolicy) (c : ToolConfig) : ToolConfig :=
  {| tcfg_policy := p; tcfg_allowlist := tcfg_allowlist c; tcfg_denylist := tcfg_denylist c |}.
Definition with_allowlist (l : option (gset string)) (c : ToolConfig) : ToolConfig :=
  {| tcfg_policy := tcfg_policy c; tcfg_allowlist := l; tcfg_denylist := tcfg_denylist c |}.
Definition with_denylist (l : gset string) (c : ToolConfig) : ToolConfig :=
  {| tcfg_policy := tcfg_policy c; tcfg_allowlist := tcfg_allowlist c; tcfg_denylist := l |}.

(** The actor's own field of [SetReasoningEffort]: it is set first, whatever
    becomes of the stored configuration. *)
Definition remember_effort (m : ConfigMsg) (a : SessionActor) : SessionActor :=
  match m with
  | CmSetReasoningEffort effort =>
      set_settings (sa_mode a) effort (sa_tool_config a) (sa_bridge a) a
  | _ => a
  end.

Definition handle_config_msg (m : ConfigMsg) (s : System) : System :=
  let s := set_actor (remember_effort m) s in
  set_config (handle_config (sa_session_id (sy_actor s)) m (sy_config s)).2 s.

Definition MAX_GENERATION : Z := 2 ^ 64 - 1.

(** The common part of the handlers of [Prompt] and [ScheduledPrompt]. *)
Definition start_prompt (prompt : list ContentBlock) (origin : ExecutionOrigin) (s : System)
  : System :=
  let g := Z.min (generation s + 1) MAX_GENERATION in
  let s := if token_cancelled s then fresh_token g true s
           else set_actor (set_turn {| ts_generation := g; ts_token := token s |} true) s in
  let a := sy_actor s in
  spawn_task {| pt_generation := g; pt_prompt := prompt; pt_token := token s;
                pt_bridge := sa_bridge a; pt_mode := sa_mode a;
                pt_tool_config := sa_tool_config a; pt_origin := origin;
                pt_phase := PhFirstWait |} s.

Definition handle_prompt (prompt : list ContentBlock) (s : System) : System :=
  start_prompt prompt Interactive s.

Definition handle_scheduled_prompt (schedule_public_id prompt_text : string) (s : System) : System :=
  start_prompt [CbText prompt_text] (OrScheduled schedule_public_id) s.

Definition handle_unsubscribe (relay : Z) (s : System) : System :=
  set_actor (set_relays (delete relay)) s.

Definition handle (m : ActorMsg) (s : System) : System :=
  match m with
  | AmCancel => handle_cancel s
  | AmPromptFinished g => handle_prompt_finished g s
  | AmSetMode mode => handle_set_mode mode s
  | AmConfig m => handle_config_msg m s
  | AmSetToolPolicy policy => set_tools (with_policy policy) s
  | AmSetAllowedTools tools => set_tools (with_allowlist (Some (list_to_set tools))) s
  | AmClearAllowedTools => set_tools (with_allowlist None) s
  | AmSetDeniedTools tools => set_tools (with_denylist (list_to_set tools)) s
  | AmClearDeniedTools => set_tools (with_denylist ∅) s
  | AmSetBridge =>
      set_actor (fun a => set_settings (sa_mode a) (sa_reasoning_effort a) (sa_tool_config a) true a) s
  | AmUnsubscribeEvents relay => handle_unsubscribe relay s
  | AmPrompt prompt => handle_prompt prompt s
  | AmScheduledPrompt schedule prompt => handle_scheduled_prompt schedule prompt s
  | AmShutdown => stop_actor s
  end.

(** [GetRuntimeStatus]; [pending]: the session has a pending elicitation. *)
Definition runtime_status (pending : bool) (s : System) : SessionRuntimeStatus :=
  if negb (sa_prompt_running (sy_actor s)) then Idle
  else if token_cancelled s then CancelRequested
  else if pending then StWaiting
  else StRunning.

(** ** Steps of a task *)

Definition update_task (n : nat) (ph : TaskPhase) (s : System) : System :=
  set_sy_tasks (alter (set_phase ph) n) s.

Definition is_waiting (ph : TaskPhase) : bool :=
  match ph with PhFirstWait | PhQueued => true | _ => false end.

(** The events a scheduled prompt ends with. *)
Definition scheduled_outcome (uuid : string) (origin : ExecutionOrigin)
    (r : result AgentError StopReason) : list AgentEventKind :=
  match origin, r with
  | Interactive, _ => []
  | OrScheduled schedule, Ok _ => [ScheduledExecutionCompleted schedule uuid]
  | OrScheduled schedule, Err e =>
      [ScheduledExecutionFailed schedule None (agent_error_display e)]
  end.

Definition queued_event : AgentEventKind :=
  SessionQueued "waiting for previous operation to complete".

Definition timeout_error (session : string) (timeout_secs : Z) : AgentError :=
  SessionTimeout ("session_id=" +:+ session +:+ ", timeout=" +:+ pretty timeout_secs +:+ "s").

(** One step of task [n], which is [t]; [timeout_secs] is the configuration's. *)
Inductive task_step (timeout_secs : Z) (n : nat) (t : PromptTask) (s : System) : System -> Prop :=
| ts_acquire :
    is_waiting (pt_phase t) = true -> sy_permit s = None ->
    task_step timeout_secs n t s (set_permit (Some n) (update_task n PhRunning s))
| ts_cancelled :
    is_waiting (pt_phase t) = true -> pt_token t ∈ sy_cancelled s ->
    task_step timeout_secs n t s (update_task n (PhReturned (Ok SrCancelled)) s)
| ts_first_timeout :
    pt_phase t = PhFirstWait ->
    task_step timeout_secs n t s (sy_emit queued_event (update_task n PhQueued s))
| ts_second_timeout :
    pt_phase t = PhQueued ->
    task_step timeout_secs n t s
      (update_task n (PhReturned (Err (timeout_error (sa_session_id (sy_actor s)) timeout_secs))) s)
(** the turn, with whatever result; its permit is dropped as it returns *)
| ts_turn r :
    pt_phase t = PhRunning ->
    task_step timeout_secs n t s (set_permit None (update_task n (PhReturned r) s))
| ts_report r uuid :
    pt_phase t = PhReturned r ->
    task_step timeout_secs n t s
      (set_mailbox (fun l => l ++ [AmPromptFinished (pt_generation t)])
         (foldl (fun s k => sy_emit k s) (update_task n (PhFinished r) s)
            (scheduled_outcome uuid (pt_origin t) r))).

Definition is_internal (m : ActorMsg) : bool :=
  match m with AmPromptFinished _ => true | _ => false end.

(** A message is sent from outside, the next one is handled, or a task steps. *)
Inductive actor_step (timeout_secs : Z) (s : System) : System -> Prop :=
| as_send m :
    is_internal m = false -> actor_step timeout_secs s (set_mailbox (fun l => l ++ [m]) s)
| as_handle m rest :
    sy_stopped s = false -> sy_mailbox s = m :: rest ->
    actor_step timeout_secs s (handle m (set_mailbox (fun _ => rest) s))
| as_task n t s' :
    sy_tasks s !! n = Some t -> task_step timeout_secs n t s s' ->
    actor_step timeout_secs s s'.

Definition system_new (a : SessionActor) (config : ConfigWorld) : System :=
  {| sy_actor := a; sy_stopped := false; sy_next_token := S (ts_token (sa_turn_state a));
     sy_cancelled := ∅; sy_tasks := ∅; sy_next_task := 0; sy_permit := None; sy_mailbox := [];
     sy_config := config; sy_events := [] |}.
End actor.
