(* ===== verification/ActorProps.v ===== *)
(** Properties of the session actor: over every interleaving of its messages
    and its prompt tasks, the turns it runs, what its status says and what a
    cancellation reaches. *)
From S2P Require Import Prelude Numbers Text Json Chat Domain Events Model ScheduleRepo.
From S2P Require Import Delegations SessionRows LlmConfigs SessionActor.

Local Open Scope Z_scope.

Section actor.
Context {J : Json} {CE : ConfigEnv}.

Definition finished (t : PromptTask) : bool :=
  match pt_phase t with PhFinished _ => true | _ => false end.

Definition in_turn (t : PromptTask) : bool :=
  match pt_phase t with PhRunning => true | _ => false end.

Definition running (s : System) : bool := sa_prompt_running (sy_actor s).

Section invariant.
Context (timeout_secs : Z).

Inductive reached : System -> Prop :=
| reached_start session mode effort tools config tok :
    reached (system_new (session_actor_new session mode effort tools tok) config)
| reached_step s s' : reached s -> actor_step timeout_secs s s' -> reached s'.

(** Generations tell the tasks apart while they have not reached the maximum. *)
Record Inv (s : System) : Prop := {
  inv_max : generation s <= MAX_GENERATION;
  inv_held : forall n, sy_permit s = Some n -> is_Some (sy_tasks s !! n);
  inv_permit : forall n t, sy_tasks s !! n = Some t -> in_turn t = true <-> sy_permit s = Some n;
  inv_latest : forall n t, sy_tasks s !! n = Some t ->
    exists m u, sy_tasks s !! m = Some u /\ pt_generation u = generation s;
  inv_fresh : forall n, (sy_next_task s <= n)%nat -> sy_tasks s !! n = None;
  inv_bound : forall n t, sy_tasks s !! n = Some t -> pt_generation t <= generation s;
  inv_order : forall n m t u, sy_tasks s !! n = Some t -> sy_tasks s !! m = Some u -> n <> m ->
    pt_generation t = pt_generation u -> MAX_GENERATION <= pt_generation u;
  inv_sent : forall g, AmPromptFinished g ∈ sy_mailbox s ->
    exists n t, sy_tasks s !! n = Some t /\ pt_generation t = g /\ finished t = true;
  inv_idle : running s = false -> generation s < MAX_GENERATION ->
    forall n t, sy_tasks s !! n = Some t -> finished t = true \/ pt_generation t < generation s;
  inv_token : generation s < MAX_GENERATION ->
    forall n t, sy_tasks s !! n = Some t -> finished t = false ->
    pt_token t ∈ sy_cancelled s \/ pt_token t = token s \/
    exists m u, sy_tasks s !! m = Some u /\ pt_generation t < pt_generation u /\ finished u = true;
}.

(** What the invariant depends on, but for the mailbox. *)
Definition same_core (s s' : System) : Prop :=
  generation s' = generation s /\ token s' = token s /\ running s' = running s /\
  sy_cancelled s ⊆ sy_cancelled s' /\ sy_tasks s' = sy_tasks s /\
  sy_next_task s' = sy_next_task s /\ sy_permit s' = sy_permit s.

Lemma inv_same s s' :
  Inv s -> same_core s s' ->
  (forall g, AmPromptFinished g ∈ sy_mailbox s' -> AmPromptFinished g ∈ sy_mailbox s) -> Inv s'.
Proof.
  intros [H0 Hh H1 Hl0 H2 H3 H4 H5 H6 H7] (Eg & Et & Er & Ec & Ek & En & Ep) Hm.
  split; rewrite ?Eg, ?Ek, ?En, ?Ep, ?Er; auto.
  intros Hg n t Hn Hf. rewrite Et. destruct (H7 Hg n t Hn Hf) as [H|[H|H]]; auto.
Qed.

(** Sending a message, and every handler that is not about turns. *)
Lemma inv_quiet m s rest :
  Inv s -> sy_mailbox s = m :: rest ->
  (forall g, m <> AmPromptFinished g) ->
  same_core s (handle m (set_mailbox (fun _ => rest) s)) ->
  sy_mailbox (handle m (set_mailbox (fun _ => rest) s)) = rest ->
  Inv (handle m (set_mailbox (fun _ => rest) s)).
Proof.
  intros Hi Hm Hne Hc Hr. apply (inv_same s); [done|done|]. intros g. rewrite Hr, Hm. by right.
Qed.

Lemma inv_finished g s rest :
  Inv s -> sy_mailbox s = AmPromptFinished g :: rest ->
  Inv (handle_prompt_finished g (set_mailbox (fun _ => rest) s)).
Proof.
  intros Hi Hm. unfold handle_prompt_finished.
  change (generation (set_mailbox _ s)) with (generation s).
  destruct (Z.eqb_spec g (generation s)) as [->|Hg]; cbn [negb].
  2:{ apply (inv_same s); [done|by repeat split|]. intros g'. cbn. rewrite Hm. by right. }
  destruct Hi as [H0 Hh H1 Hl0 H2 H3 H4 H5 H6 H7].
  destruct (H5 (generation s)) as (m & u & Hu & Hgu & Hfu); [rewrite Hm; by left|].
  assert (Hother : generation s < MAX_GENERATION -> forall n t, sy_tasks s !! n = Some t ->
    finished t = true \/ pt_generation t < generation s).
  { intros Hmax n t Hn. pose proof (H3 _ _ Hn). destruct (decide (n = m)) as [->|Hnm].
    - left. congruence.
    - right. pose proof (H4 _ _ _ _ Hn Hu Hnm). lia. }
  split; cbn; try done.
  - intros g Hgm. apply H5. rewrite Hm. by right.
  - intros Hmax n t Hn Hf. right; right. destruct (Hother Hmax n t Hn) as [Hft|Hlt]; [congruence|].
    exists m, u. split; [done|]. split; [lia|done].
Qed.

(** What the start of a prompt does to the turns. *)
Lemma start_prompt_core prompt origin s :
  let s' := start_prompt prompt origin s in
  generation s' = Z.min (generation s + 1) MAX_GENERATION /\
  running s' = true /\ (token s' = token s \/ token s ∈ sy_cancelled s) /\
  sy_cancelled s' = sy_cancelled s /\ sy_permit s' = sy_permit s /\ sy_mailbox s' = sy_mailbox s /\
  sy_next_task s' = S (sy_next_task s) /\
  exists t, sy_tasks s' = <[sy_next_task s := t]> (sy_tasks s) /\
    pt_generation t = generation s' /\ pt_token t = token s' /\ pt_phase t = PhFirstWait.
Proof.
  cbv zeta. unfold start_prompt, token_cancelled. case_bool_decide; cbn;
    (repeat split; [by auto|]); eexists; done.
Qed.

Lemma inv_start prompt origin s rest m :
  Inv s -> sy_mailbox s = m :: rest ->
  Inv (start_prompt prompt origin (set_mailbox (fun _ => rest) s)).
Proof.
  intros [H0 Hh H1 Hl0 H2 H3 H4 H5 H6 H7] Hm.
  destruct (start_prompt_core prompt origin (set_mailbox (fun _ => rest) s))
    as (Eg & Er & Et & Ec & Ep & Em & En & t0 & Ek & Hg0 & Ht0 & Hp0).
  set (s' := start_prompt _ _ _) in *. clearbody s'.
  change (generation (set_mailbox _ s)) with (generation s) in Eg.
  change (token (set_mailbox _ s)) with (token s) in Et. cbn in Ec, Ep, Em, En, Ek, Et.
  assert (Hnew : sy_tasks s !! sy_next_task s = None) by by apply H2.
  assert (Hin : forall n t, sy_tasks s' !! n = Some t ->
    (n = sy_next_task s /\ t = t0) \/ (n <> sy_next_task s /\ sy_tasks s !! n = Some t)).
  { intros n t. rewrite Ek, lookup_insert. case_decide as Hd; [subst; intros [= ->]; by left|by right; split; [congruence|]]. }
  assert (Hold : forall n t, sy_tasks s !! n = Some t -> sy_tasks s' !! n = Some t).
  { intros n t Hn. rewrite Ek, lookup_insert_ne; [done|congruence]. }
  split.
  - lia.
  - intros n Hn. rewrite Ep in Hn. apply Hh in Hn as [t Hn]. eauto.
  - intros n t [[-> ->]|[_ Hn]]%Hin; rewrite Ep; [|by apply H1].
    unfold in_turn. rewrite Hp0. split; [done|]. intros Hp. exfalso.
    apply Hh in Hp as [t Hp]. congruence.
  - intros _ _ _. exists (sy_next_task s), t0. split; [by rewrite Ek, lookup_insert_eq|done].
  - intros n Hn. rewrite En in Hn. rewrite Ek, lookup_insert_ne by lia. apply H2. lia.
  - intros n t [[-> ->]|[_ Hn]]%Hin; [lia|]. pose proof (H3 _ _ Hn). lia.
  - intros n k t u [[-> ->]|[Hn' Hn]]%Hin [[-> ->]|[Hk' Hk]]%Hin Hne Hgen; [done| | |exact (H4 _ _ _ _ Hn Hk Hne Hgen)].
    + pose proof (H3 _ _ Hk). lia.
    + pose proof (H3 _ _ Hn). lia.
  - intros g Hg. rewrite Em in Hg. destruct (H5 g) as (n & t & Hn & Hr); [rewrite Hm; by right|].
    exists n, t. split; [by apply Hold|done].
  - congruence.
  - intros Hmax n t [[-> ->]|[_ Hn]]%Hin Hf; [by right; left|]. rewrite Ec.
    destruct (H7 ltac:(lia) n t Hn Hf) as [H|[H|(k & u & Hk & Hr)]].
    + by left.
    + destruct Et as [Et|Et]; [right; left; congruence|left; congruence].
    + right; right. exists k, u. split; [by apply Hold|done].
Qed.

Lemma inv_handle m s rest :
  Inv s -> sy_mailbox s = m :: rest -> Inv (handle m (set_mailbox (fun _ => rest) s)).
Proof.
  intros Hi Hm. destruct m; cbn [handle];
    [..|by eapply inv_start|by eapply inv_start|].
  2: by apply inv_finished.
  all: try match goal with m : ConfigMsg |- _ => destruct m end.
  all: eapply (inv_same s); [exact Hi|repeat split; cbn; (reflexivity || apply union_subseteq_r)|];
    intros g' Hg'; cbn in Hg'; rewrite Hm; by right.
Qed.

(** ** The steps of a task *)

(** A step that only changes the phase of one task, not to or from a turn. *)
Lemma lookup_phase n ph s k t :
  sy_tasks (update_task n ph s) !! k = Some t ->
  exists t0, sy_tasks s !! k = Some t0 /\ t = if decide (k = n) then set_phase ph t0 else t0.
Proof.
  cbn. rewrite lookup_alter. case_decide as Hk; [subst|case_decide; [done|by eexists]].
  intros (t0 & Ht0 & ->)%fmap_Some. exists t0. by rewrite decide_True.
Qed.

(** The parts of the invariant that the phases do not enter into, and those
    that only need that no task goes back from being finished. *)
Lemma inv_phase n t ph s s' :
  Inv s -> sy_tasks s !! n = Some t -> finished t = false ->
  generation s' = generation s -> token s' = token s -> running s' = running s ->
  sy_cancelled s' = sy_cancelled s -> sy_next_task s' = sy_next_task s ->
  sy_tasks s' = sy_tasks (update_task n ph s) ->
  (forall g, AmPromptFinished g ∈ sy_mailbox s' ->
     AmPromptFinished g ∈ sy_mailbox s \/
     g = pt_generation t /\ finished (set_phase ph t) = true) ->
  (forall k, sy_permit s' = Some k -> is_Some (sy_tasks s !! k)) ->
  (forall k u, sy_tasks s' !! k = Some u -> in_turn u = true <-> sy_permit s' = Some k) ->
  Inv s'.
Proof.
  intros [H0 Hh H1 Hl0 H2 H3 H4 H5 H6 H7] Hn Hf Eg Et Er Ec En Ek Hm Hp Ht.
  assert (Hl : forall k u, sy_tasks s' !! k = Some u -> exists u0, sy_tasks s !! k = Some u0 /\
    u = if decide (k = n) then set_phase ph u0 else u0)
    by (intros k u; rewrite Ek; apply lookup_phase).
  assert (Hsame : forall k u, sy_tasks s' !! k = Some u -> exists u0, sy_tasks s !! k = Some u0 /\
    pt_generation u = pt_generation u0 /\ pt_token u = pt_token u0 /\
    (finished u = false -> finished u0 = false)).
  { intros k u (u0 & Hu & ->)%Hl. exists u0. case_decide; subst; repeat split; try done.
    by simplify_eq. }
  assert (Hback : forall k u0, sy_tasks s !! k = Some u0 -> finished u0 = true ->
    sy_tasks s' !! k = Some u0).
  { intros k u0 Hu Hfu. rewrite Ek. cbn. rewrite lookup_alter_ne; [done|]. intros ->.
    congruence. }
  split; rewrite ?Eg, ?Et, ?Er, ?Ec, ?En.
  - done.
  - intros k Hk. apply Hp in Hk as [u Hu]. rewrite Ek. cbn. rewrite lookup_alter.
    case_decide; subst; rewrite Hu; (eexists; reflexivity).
  - exact Ht.
  - intros k u (u0 & Hu & _)%Hsame. destruct (Hl0 _ _ Hu) as (m & v & Hv & Hgv).
    exists m. rewrite Ek. cbn. rewrite lookup_alter. case_decide; subst; rewrite Hv;
      (eexists; split; [reflexivity|done]).
  - intros k Hk. rewrite Ek. cbn. rewrite lookup_alter. case_decide; subst; by rewrite H2.
  - intros k u (u0 & Hu & -> & _)%Hsame. by eapply H3.
  - intros k l u v (u0 & Hu & -> & _)%Hsame (v0 & Hv & -> & _)%Hsame. by apply H4.
  - intros g [Hg|[-> Hfp]]%Hm.
    + destruct (H5 g Hg) as (k & u & Hu & Hgu & Hfu). exists k, u. split; [by apply Hback|done].
    + exists n, (set_phase ph t). split; [|done]. rewrite Ek. cbn. by rewrite lookup_alter_eq, Hn.
  - intros Hr Hmax k u Hu. destruct (Hsame _ _ Hu) as (u0 & Hu0 & Hgu & _ & Hfu). rewrite Hgu.
    destruct (H6 Hr Hmax _ _ Hu0); [|by right]. left. destruct (finished u); [done|].
    by rewrite Hfu in *.
  - intros Hmax k u (u0 & Hu & -> & -> & Hfu)%Hsame Hf'.
    destruct (H7 Hmax _ _ Hu (Hfu Hf')) as [H|[H|(l & v & Hv & Hlt & Hfv)]]; [by left|by right; left|].
    right; right. exists l, v. split; [by apply Hback|done].
Qed.

(** The holder of the permit, when task [n] goes from outside a turn to
    outside a turn. *)
Lemma permit_outside n t ph s s' :
  Inv s -> sy_tasks s !! n = Some t -> in_turn t = false -> in_turn (set_phase ph t) = false ->
  sy_tasks s' = sy_tasks (update_task n ph s) -> sy_permit s' = sy_permit s ->
  (forall k, sy_permit s' = Some k -> is_Some (sy_tasks s !! k)) /\
  (forall k u, sy_tasks s' !! k = Some u -> in_turn u = true <-> sy_permit s' = Some k).
Proof.
  intros Hi Hn Ht Hph Ek Ep. split; rewrite Ep; [apply Hi|].
  intros k u. rewrite Ek. intros (u0 & Hu & ->)%lookup_phase. rewrite <- (inv_permit _ Hi _ _ Hu).
  case_decide; [subst|done]. simplify_eq. by rewrite Ht, Hph.
Qed.

Lemma emit_all_core l (s : System) :
  let s' := foldl (fun s k => sy_emit k s) s l in
  generation s' = generation s /\ token s' = token s /\ running s' = running s /\
  sy_cancelled s' = sy_cancelled s /\ sy_tasks s' = sy_tasks s /\
  sy_next_task s' = sy_next_task s /\ sy_permit s' = sy_permit s /\ sy_mailbox s' = sy_mailbox s.
Proof.
  cbv zeta. revert s. induction l as [|k l IH]; intros s; [done|]. cbn [foldl].
  destruct (IH (sy_emit k s)) as (-> & -> & -> & -> & -> & -> & -> & ->). done.
Qed.

Lemma inv_task n t s s' :
  Inv s -> sy_tasks s !! n = Some t -> task_step timeout_secs n t s s' -> Inv s'.
Proof.
  intros Hi Hn Hstep. destruct Hstep as [Hw Hp|Hw Hc|Hw|Hw|r Hw|r uuid Hw].
  - eapply (inv_phase n t PhRunning s); [done|done| |done..| | |].
    + unfold finished. by destruct (pt_phase t).
    + intros g Hg. by left.
    + intros k [= <-]. eauto.
    + intros k u (u0 & Hu & ->)%lookup_phase. pose proof (inv_permit _ Hi _ _ Hu) as Hpu.
      rewrite Hp in Hpu. cbn. case_decide; [by subst|]. split; [by intros ?%Hpu|].
      intros [= ->]. congruence.
  - destruct (permit_outside n t (PhReturned (Ok SrCancelled)) s
      (update_task n (PhReturned (Ok SrCancelled)) s)) as [H1 H2]; [done|done| |done..|].
    { unfold in_turn. by destruct (pt_phase t). }
    eapply (inv_phase n t (PhReturned (Ok SrCancelled)) s); [done|done| |done..| | |]; [|by left|done|done].
    unfold finished. by destruct (pt_phase t).
  - destruct (permit_outside n t PhQueued s (sy_emit queued_event (update_task n PhQueued s)))
      as [H1 H2]; [done|done| |done..|].
    { unfold in_turn. by rewrite Hw. }
    eapply (inv_phase n t PhQueued s); [done|done| |done..| | |]; [|by left|done|done].
    unfold finished. by rewrite Hw.
  - set (ph := PhReturned _). destruct (permit_outside n t ph s (update_task n ph s))
      as [H1 H2]; [done|done| |done..|].
    { unfold in_turn. by rewrite Hw. }
    eapply (inv_phase n t ph s); [done|done| |done..| | |]; [|by left|done|done].
    unfold finished. by rewrite Hw.
  - assert (Hp : sy_permit s = Some n) by (apply (inv_permit _ Hi _ _ Hn); unfold in_turn; by rewrite Hw).
    eapply (inv_phase n t (PhReturned r) s); [done|done| |done..| |done|].
    + unfold finished. by rewrite Hw.
    + intros g Hg. by left.
    + intros k u (u0 & Hu & ->)%lookup_phase. cbn. split; [|done].
      case_decide; [done|]. intros Hu0%(inv_permit _ Hi _ _ Hu). congruence.
  - destruct (emit_all_core (scheduled_outcome uuid (pt_origin t) r) (update_task n (PhFinished r) s))
      as (E1 & E2 & E3 & E4 & E5 & E6 & E7 & E8).
    set (s1 := foldl _ _ _) in *. clearbody s1.
    destruct (permit_outside n t (PhFinished r) s (set_mailbox (fun l => l ++ [AmPromptFinished (pt_generation t)]) s1))
      as [H1 H2]; [done|done| |done|done|done|].
    { unfold in_turn. by rewrite Hw. }
    eapply (inv_phase n t (PhFinished r) s); [done|done| |done..| |done|done].
    + unfold finished. by rewrite Hw.
    + intros g. cbn. rewrite E8. cbn. rewrite elem_of_app, list_elem_of_singleton.
      intros [Hg|[= ->]]; [by left|by right].
Qed.

Lemma inv_reached s : reached s -> Inv s.
Proof.
  induction 1 as [session mode effort tools config tok|s s' _ IH Hstep].
  - split; cbn; try done; try (by intros ? ? ?%lookup_empty_Some).
    + by intros ? ?%elem_of_nil.
  - destruct Hstep as [m Hm|m rest _ Hm|n t s' Hn Hs].
    + apply (inv_same s); [done|by repeat split|]. intros g.
      cbn. rewrite elem_of_app, list_elem_of_singleton. intros [H|H]; [done|by subst m].
    + by apply inv_handle.
    + by eapply inv_task.
Qed.
End invariant.
End actor.

(** ** Theorems *)

(** C5: Turns of a session never overlap and the permit is never lost: at any
    point of any interleaving at most one prompt task is in its turn, and the
    permit is free exactly when none is, so that a waiting prompt can go on. *)
Theorem turns_never_overlap {J : Json} {CE : ConfigEnv} timeout_secs (s : System)
    (Hs : reached timeout_secs s) :
  (forall n m t u, sy_tasks s !! n = Some t -> sy_tasks s !! m = Some u ->
     in_turn t = true -> in_turn u = true -> n = m) /\
  (sy_permit s = None <-> forall n t, sy_tasks s !! n = Some t -> in_turn t = false).
Proof.
  pose proof (inv_reached _ _ Hs) as Hi. split.
  - intros n m t u Hn Hm Ht%(inv_permit _ Hi _ _ Hn) Hu%(inv_permit _ Hi _ _ Hm). congruence.
  - split.
    + intros Hp n t Hn. destruct (in_turn t) eqn:Ht; [|done].
      apply (inv_permit _ Hi _ _ Hn) in Ht. congruence.
    + intros Hno. destruct (sy_permit s) as [n|] eqn:Hp; [|done].
      destruct (inv_held _ Hi _ Hp) as [t Hn]. pose proof (Hno _ _ Hn) as Ht.
      apply (inv_permit _ Hi _ _ Hn) in Hp. congruence.
Qed.

(** C20: What a cancellation reaches: a prompt that has not finished, waiting
    or in its turn, has its token cancelled by [Cancel], and the session is
    not reported idle, unless a prompt sent after it has finished before it. *)
Theorem cancel_reaches_turns {J : Json} {CE : ConfigEnv} timeout_secs (s : System)
    (Hs : reached timeout_secs s) (Hmax : generation s < MAX_GENERATION) n t
    (Hn : sy_tasks s !! n = Some t) (Hf : finished t = false)
    (Hlater : forall m u, sy_tasks s !! m = Some u -> pt_generation t < pt_generation u ->
                finished u = false) :
  pt_token t ∈ sy_cancelled (handle_cancel s) /\
  running s = true.
Proof.
  pose proof (inv_reached _ _ Hs) as Hi. split.
  - cbn. destruct (inv_token _ Hi Hmax n t Hn Hf) as [H|[H|(m & u & Hm & Hlt & Hfu)]].
    + by apply union_subseteq_r.
    + apply elem_of_union_l. rewrite H. apply elem_of_singleton_2. done.
    + pose proof (Hlater m u Hm Hlt). congruence.
  - destruct (running s) eqn:Hr; [done|exfalso].
    destruct (inv_latest _ Hi n t Hn) as (m & u & Hm & Hgu).
    destruct (inv_idle _ Hi Hr Hmax n t Hn) as [|Hlt]; [congruence|].
    pose proof (Hlater m u Hm ltac:(lia)) as Hfu.
    destruct (inv_idle _ Hi Hr Hmax m u Hm); [congruence|lia].
Qed.

(** ** A run with two prompts *)

#[local] Existing Instance toy_json.

#[local] Instance toy_actor_env : ConfigEnv (J := toy_json) := {|
  ce_to_value := fun _ => Err ""; ce_from_value := fun _ => None; ce_as_object := fun _ => None;
  ce_as_array := fun _ => None; ce_store_error := fun _ => None;
  ce_plugin_known := fun _ _ => true; ce_context_limit := fun _ _ => None;
  ce_initial_system := [];
|}.

Definition run_start : System (J := toy_json) :=
  system_new
    (session_actor_new "s" Build None
       {| tcfg_policy := BuiltInAndProvider; tcfg_allowlist := None; tcfg_denylist := ∅ |} 0%nat)
    {| cw_now := 0; cw_sessions := ∅; cw_configs := []; cw_events := [] |}.

Definition send (m : ActorMsg) (s : System) : System := set_mailbox (fun l => l ++ [m]) s.

(** The next message is handled. *)
Definition next (s : System) : System :=
  match sy_mailbox s with
  | m :: rest => handle m (set_mailbox (fun _ => rest) s)
  | [] => s
  end.

(** The first prompt is in its turn, the second one is queued behind it. *)
Definition run_turn : System :=
  set_permit (Some 0%nat) (update_task 0 PhRunning (next (send (AmPrompt []) run_start))).
Definition run_queued : System :=
  sy_emit queued_event (update_task 1 PhQueued (next (send (AmPrompt []) run_turn))).

(** The second one times out, while the turn goes on. *)
Definition run_error : result AgentError StopReason := Err (timeout_error "s" 300).
Definition run_returned : System := update_task 1 (PhReturned run_error) run_queued.
Definition run_reported : System :=
  send (AmPromptFinished 2) (update_task 1 (PhFinished run_error) run_returned).
Definition run_timed_out : System :=
  handle (AmPromptFinished 2) (set_mailbox (fun _ => []) run_reported).

Lemma reached_send_next timeout_secs s m :
  reached timeout_secs s -> is_internal m = false -> sy_stopped s = false -> sy_mailbox s = [] ->
  reached timeout_secs (next (send m s)).
Proof.
  intros Hs Hm Hst Hbox. unfold next. cbn. rewrite Hbox. cbn.
  eapply reached_step; [eapply reached_step; [exact Hs|by apply (as_send _ _ m)]|].
  apply (as_handle _ (send m s) m []); [done|]. cbn. by rewrite Hbox.
Qed.

Lemma run_queued_reached : reached 300 run_queued.
Proof.
  eapply reached_step.
  - apply (reached_send_next 300 run_turn (AmPrompt [])); [|done..].
    eapply reached_step.
    + apply (reached_send_next 300 run_start (AmPrompt [])); [apply reached_start|done..].
    + eapply (as_task _ _ 0); [reflexivity|]. by apply ts_acquire.
  - eapply (as_task _ _ 1); [reflexivity|]. by apply ts_first_timeout.
Qed.

Lemma run_timed_out_reached : reached 300 run_timed_out.
Proof.
  assert (H : exists t, sy_tasks run_returned !! 1%nat = Some t /\ pt_phase t = PhReturned run_error /\
    pt_generation t = 2 /\ pt_origin t = Interactive) by (eexists; repeat split; reflexivity).
  destruct H as (t & Ht & Hp & Hg & Ho).
  eapply reached_step; [|by apply (as_handle _ run_reported (AmPromptFinished 2) [])].
  eapply reached_step; [eapply reached_step; [apply run_queued_reached|]|].
  - eapply (as_task _ _ 1 _ run_returned); [reflexivity|]. by apply ts_second_timeout.
  - eapply (as_task _ _ 1); [exact Ht|]. pose proof (ts_report 300 1 t run_returned _ "" Hp) as Hs.
    rewrite Hg, Ho in Hs. exact Hs.
Qed.

(** The session is reported idle while the first prompt is in its turn, and a
    cancellation does not reach it. *)
Example overtaken_turn_is_lost :
  reached 300 run_timed_out /\ runtime_status false run_timed_out = Idle /\
  in_turn <$> sy_tasks run_timed_out !! 0%nat = Some true /\
  (fun t => bool_decide (pt_token t ∈ sy_cancelled (handle_cancel run_timed_out))) <$>
    sy_tasks run_timed_out !! 0%nat = Some false.
Proof. split; [apply run_timed_out_reached|]. repeat split; vm_compute; reflexivity. Qed.

Lemma turns_never_overlap_witness :
  reached 300 run_queued /\ sy_permit run_queued = Some 0%nat /\
  (sy_permit run_queued = None <->
   forall n t, sy_tasks run_queued !! n = Some t -> in_turn t = false).
Proof.
  split; [apply run_queued_reached|]. split; [reflexivity|].
  apply (turns_never_overlap 300 run_queued run_queued_reached).
Defined.

Lemma cancel_reaches_turns_witness :
  exists t, sy_tasks run_queued !! 0%nat = Some t /\ in_turn t = true /\
    pt_token t ∈ sy_cancelled (handle_cancel run_queued).
Proof.
  eexists. split; [reflexivity|]. split; [reflexivity|].
  refine (proj1 (cancel_reaches_turns 300 run_queued run_queued_reached _ 0 _ _ _ _));
    [reflexivity..|].
  intros m u Hm _.
  destruct m as [|[|m]]; [by injection Hm as <-|by injection Hm as <-|].
  rewrite (inv_fresh _ (inv_reached _ _ run_queued_reached)) in Hm 
    by (change (sy_next_task run_queued) with 2%nat; lia).
  discriminate.
Defined.
