(* ===== verification/PromptTurn.v ===== *)
(** A prompt, once it has the session's permit (agent/session_actor.rs,
    [execute_prompt_detached] and the intent of the session; session/runtime.rs):
    the context it loads, the hook that can block it, the message and the
    events it stores, the turn ([execute_cycle_state_machine]) and the
    snapshots around it.

    The clean-up of an undone history ([cleanup_revert_on_prompt], Undo.v) works
    on rows the [World] does not have, and is an argument here. *)
From S2P Require Import Prelude Numbers Text Json Chat LlmErrors Domain Events Model ExecState.
From S2P Require Import Driver Pruning Hooks World Limits AgentConfig CallLlm ToolCalls.
From S2P Require Import Transitions Machine ScheduleRepo Delegations HookWire HookEngine.
From S2P Require Import SessionRows TextOps SlashCommands LlmConfigs SessionActor.

Local Open Scope Z_scope.

(** ** The session's intent *)

Inductive IntentUpdateDecision := NoChange | Update | AskUser.

Definition ATTACHMENTS_PLACEHOLDER : string := "(attachments included)".

Definition summarize_intent_candidate (input : string) : option string :=
  let trimmed := trim input in
  if is_empty_str trimmed || String.eqb trimmed ATTACHMENTS_PLACEHOLDER then None
  else
    let single_line := join " " (split_whitespace trimmed) in
    if is_empty_str single_line then None
    else Some (truncate_with_ellipsis single_line 240).

Section intent_text.
(** [str::to_lowercase], which reads the tables of Unicode *)
Context (to_lowercase : string -> string).

Definition normalize_intent_text (text : string) : string :=
  join " " (split_whitespace (to_lowercase (trim text))).

Definition low_signal_prefixes : list string :=
  ["do this"; "do that"; "i want that"; "i want this"; "can you"; "could you"; "please"].

Definition explicit_shift_markers : list string :=
  ["new goal"; "change of plan"; "instead"; "let's switch"; "let us switch";
   "different objective"; "pivot"].

Definition explicit_update_markers : list string :=
  ["session objective:"; "objective:"; "intent:"; "my goal is"; "the goal is"].

Definition words (text : string) : gset string := list_to_set (split_whitespace text).

Definition decide_intent_update (current_intent candidate : string) : IntentUpdateDecision :=
  let candidate_trimmed := trim candidate in
  if is_empty_str candidate_trimmed then NoChange else
  let normalized_current := normalize_intent_text current_intent in
  let normalized_candidate := normalize_intent_text candidate_trimmed in
  if String.eqb normalized_current normalized_candidate then NoChange else
  if existsb (fun prefix => is_prefix_of prefix normalized_candidate) low_signal_prefixes &&
     (length (split_whitespace normalized_candidate) <=? 10)%nat then NoChange else
  let current_words := words normalized_current in
  let candidate_words := words normalized_candidate in
  let overlap := size (candidate_words ∩ current_words) in
  if existsb (contains normalized_candidate) explicit_shift_markers then AskUser else
  if existsb (contains normalized_candidate) explicit_update_markers then Update else
  if (overlap =? 0)%nat && (6 <=? size candidate_words)%nat then AskUser else
  if (16 <=? size candidate_words)%nat then AskUser else NoChange.
End intent_text.

Section prompt.
Context {J : Json} {Ev : Env}.

(** ** The state of a prompt: the world, and the session's intents *)

Record PromptWorld := {
  pw_world : World;
  (** the rows of [intent_snapshots] of the session, by row id *)
  pw_intents : list IntentSnapshot;
  (** the session's [current_intent_snapshot_id] *)
  pw_session_intent : option Z;
  (** [exec_ctx.state.current_intent] *)
  pw_current_intent : option IntentSnapshot;
}.

Definition set_pw_world (w : World) (s : PromptWorld) : PromptWorld :=
  {| pw_world := w; pw_intents := pw_intents s; pw_session_intent := pw_session_intent s;
     pw_current_intent := pw_current_intent s |}.
Definition set_pw_intents (f : list IntentSnapshot -> list IntentSnapshot) (s : PromptWorld)
  : PromptWorld :=
  {| pw_world := pw_world s; pw_intents := f (pw_intents s);
     pw_session_intent := pw_session_intent s; pw_current_intent := pw_current_intent s |}.
Definition set_session_intent (i : option Z) (s : PromptWorld) : PromptWorld :=
  {| pw_world := pw_world s; pw_intents := pw_intents s; pw_session_intent := i;
     pw_current_intent := pw_current_intent s |}.
Definition set_current_intent (i : option IntentSnapshot) (s : PromptWorld) : PromptWorld :=
  {| pw_world := pw_world s; pw_intents := pw_intents s;
     pw_session_intent := pw_session_intent s; pw_current_intent := i |}.

(** What a prompt asks of the outside besides a turn: the hook, the snapshot
    backend, the provider's session, Unicode's lower case. *)
Class PromptEnv := {
  pe_user_prompt_submit : nat -> UserPromptSubmitRequest -> result string UserPromptSubmitResult;
  (** a backend is configured *)
  pe_has_backend : bool;
  (** the pre-turn task's outcome; [None] when it cannot be joined *)
  pe_pre_turn : nat -> option (result string string);
  pe_track : nat -> result string string;
  pe_diff : nat -> string -> string -> result string (list string);
  pe_session_error : nat -> option string;
  pe_to_lowercase : string -> string;
}.
Context {PE : PromptEnv}.

(** A prompt fails with the agent's error, or as the turn does without one:
    out of fuel. *)
Inductive PromptError := PtAgent (e : AgentError) | PtCycle (e : ExecError).

Definition P (A : Type) : Type := M PromptWorld PromptError A.

(** A computation of the turn's world. *)
Definition in_world {A} (m : X A) : P A := fun s =>
  let '(r, w') := m (pw_world s) in
  (match r with Ok a => Ok a | Err e => Err (PtCycle e) end, set_pw_world w' s).

Definition reject {A} (e : AgentError) : P A := fail (PtAgent e).

Definition or_reject {A} (r : result string A) : P A :=
  match r with Ok a => mret a | Err e => reject (Internal e) end.

(** A call of the store on the intents. *)
Definition intent_store {A} (f : PromptWorld -> A * PromptWorld) : P (result string A) := fun s =>
  let w := pw_world s in
  let s' := set_pw_world (set_now S w) s in
  match env_store_error (w_now w) with
  | Some e => (Ok (Err e), s')
  | None => let '(a, s'') := f s' in (Ok (Ok a), s'')
  end.

(** ** [RuntimeContext] *)

(** [ORDER BY created_at DESC LIMIT 1]: of the latest, the first row. *)
Definition later_intent (a b : IntentSnapshot) : IntentSnapshot :=
  if is_created_at a <? is_created_at b then b else a.

Definition latest_intent (l : list IntentSnapshot) : option IntentSnapshot :=
  match l with [] => None | i :: rest => Some (fold_left later_intent rest i) end.

Definition find_intent (id : Z) (l : list IntentSnapshot) : option IntentSnapshot :=
  List.find (fun i => Z.eqb (is_id i) id) l.

Definition next_intent_id (l : list IntentSnapshot) : Z := 1 + foldr Z.max 0 (map is_id l).

(** [load_working_context]: the active task and the current intent. *)
Definition load_working_context (session_id : string) : P (result string unit) :=
  session ← in_world (store_call (fun w => (env_session_active_task (w_now w), w)));
  match session with
  | Err e => mret (Err e)
  | Ok None => mret (Err (session_error_display (SessionNotFound session_id)))
  | Ok (Some active) =>
      task ← match active with
             | None => mret (Ok None)
             | Some id =>
                 tasks ← in_world (store_call (fun w => (w_tasks w, w)));
                 mret (match tasks with
                       | Ok tasks => Ok (List.find (fun t => Z.eqb (task_id t) id) tasks)
                       | Err e => Err e end)
             end;
      match task with
      | Err e => mret (Err e)
      | Ok task =>
          in_world (modify (set_active_task task)) ≫= fun _ =>
          intent ← intent_store (fun s =>
            (match pw_session_intent s with
             | Some id => find_intent id (pw_intents s)
             | None => latest_intent (pw_intents s)
             end, s));
          match intent with
          | Err e => mret (Err e)
          | Ok intent => modify (set_current_intent intent) ≫= fun _ => mret (Ok tt)
          end
      end
  end.

(** [update_intent_snapshot(summary, None, None)]; the internal id is cached. *)
Definition update_intent_snapshot (summary : string) : P (result string unit) :=
  now ← in_world unix_time;
  task ← gets (fun s => task_id <$> w_active_task (pw_world s));
  created ← intent_store (fun s =>
    (tt, set_pw_intents (fun l => l ++
       [{| is_id := next_intent_id l; is_session_id := env_session_internal_id; is_task_id := task;
           is_summary := summary; is_constraints := None; is_next_step_hint := None;
           is_created_at := now |}]) s));
  match created with
  | Err e => mret (Err e)
  | Ok _ =>
      latest ← intent_store (fun s => (latest_intent (pw_intents s), s));
      match latest with
      | Err e => mret (Err e)
      | Ok None =>
          mret (Err (session_error_display (IntentSnapshotNotFound "latest snapshot missing")))
      | Ok (Some snapshot) =>
          set ← intent_store (fun s => (tt, set_session_intent (Some (is_id snapshot)) s));
          match set with
          | Err e => mret (Err e)
          | Ok _ => modify (set_current_intent (Some snapshot)) ≫= fun _ => mret (Ok tt)
          end
      end
  end.

(** [maybe_update_session_intent] *)
Definition maybe_update_session_intent (user_text : string) : P unit :=
  match summarize_intent_candidate user_text with
  | None => mret tt
  | Some candidate =>
      current ← gets pw_current_intent;
      let update := r ← update_intent_snapshot candidate; or_reject r in
      match current with
      | None => update
      | Some current =>
          match decide_intent_update pe_to_lowercase (is_summary current) candidate with
          | Update => update
          | NoChange | AskUser => mret tt
          end
      end
  end.

(** ** The prompt *)

Context (config : AgentConfig) (registry : SlashCommandRegistry).

Definition prompt_message (id session : string) (role : ChatRole) (part : MessagePart) (now : Z)
  : AgentMessage :=
  {| am_id := id; am_session_id := session; am_role := role; am_parts := [part];
     am_created_at := now; am_parent_message_id := None; am_source_provider := None;
     am_source_model := None |}.

(** The slash command in the first block, expanded. *)
Definition expand_prompt (prompt : list ContentBlock) : list ContentBlock :=
  match prompt with
  | CbText text :: rest =>
      match try_expand text registry with
      | Some expansion => CbText (exp_prompt_text expansion) :: rest
      | None => prompt
      end
  | _ => prompt
  end.

(** The [UserPromptSubmit] hook: its notices, and its verdict. *)
Definition submit_hook (ctx : ExecutionContext) (user_text : string) : P unit :=
  hook ← in_world (ask (fun t => pe_user_prompt_submit t
           {| upq_context := AgentConfig.hook_context ctx; upq_prompt := user_text |}));
  hook ← or_reject hook;
  in_world (emit_notices (upr_notices hook)) ≫= fun _ =>
  if upr_should_block hook then
    let reason := default "prompt blocked by hook" (upr_block_reason hook) in
    in_world (emit_event (EvError reason)) ≫= fun _ => reject (Internal reason)
  else mret tt.

(** The user's message, and the events around it. *)
Definition store_prompt (ctx : ExecutionContext) (prompt : list ContentBlock) (message_id : string)
  : P unit :=
  let display_content := render_prompt_for_display prompt in
  let user_text := format_prompt_user_text_only prompt in
  in_world (emit_event (PromptReceived display_content (Some message_id))) ≫= fun _ =>
  maybe_update_session_intent user_text ≫= fun _ =>
  now ← in_world unix_time;
  stored ← in_world (add_message
             (prompt_message message_id (ex_session_id ctx) User (MpPrompt prompt) now));
  match stored with
  | Err e => in_world (emit_event (EvError e)) ≫= fun _ => reject (Internal e)
  | Ok _ =>
      in_world (emit_event (UserMessageStored display_content)) ≫= fun _ =>
      in_world (emit_event TurnStarted)
  end.

Definition snapshots_enabled (ctx : ExecutionContext) : bool :=
  pe_has_backend && bool_decide (is_Some (ex_cwd ctx)).

(** The pre-turn snapshot, off the critical path. *)
Definition start_pre_turn_snapshot (ctx : ExecutionContext) : P unit :=
  if snapshots_enabled ctx then
    turn_id ← in_world fresh_uuid;
    outcome ← in_world (ask pe_pre_turn);
    in_world (modify (fun w =>
      set_snapshot_state (Some (r ← outcome; Some (turn_id, r))) (w_turn_snapshot w) w))
  else in_world (modify (fun w => set_snapshot_state None (w_turn_snapshot w) w)).

(** The patch of the turn, when the snapshots before and after it differ; the
    collection after it ([gc], Undo.v) changes nothing here. *)
Definition store_patch (ctx : ExecutionContext) (turn_id pre post : string) : P unit :=
  if String.eqb pre post then mret tt else
  changed ← in_world (ask (fun t => pe_diff t pre post));
  match changed with
  | Ok (p :: paths) =>
      id ← in_world fresh_uuid;
      now ← in_world unix_time;
      _ ← in_world (add_message (prompt_message id (ex_session_id ctx) Assistant
                                   (MpTurnSnapshotPatch turn_id post (p :: paths)) now));
      mret tt
  | _ => mret tt
  end.

Definition post_turn_snapshot (ctx : ExecutionContext) : P unit :=
  if snapshots_enabled ctx then
    _ ← in_world (ensure_pre_turn_snapshot_ready ctx);
    taken ← in_world (updating (fun w =>
      (w_turn_snapshot w, set_snapshot_state (w_pre_turn_task w) None w)));
    match taken with
    | None => mret tt
    | Some (turn_id, pre_snapshot_id) =>
        post ← in_world (ask pe_track);
        match post with
        | Ok post_snapshot_id => store_patch ctx turn_id pre_snapshot_id post_snapshot_id
        | Err _ => mret tt
        end
    end
  else mret tt.

(** The answer to the prompt. *)
Definition prompt_response (r : result ExecError CycleOutcome) : P StopReason :=
  match r with
  | Ok CoCompleted => mret EndTurn
  | Ok CoCancelled => mret SrCancelled
  | Ok (CoStopped reason) => mret reason
  | Err (Anyhow e) => in_world (emit_event (EvError e)) ≫= fun _ => reject (Internal e)
  | Err e => fail (PtCycle e)
  end.

(** The context of the turn: what the task captured, and a fresh turn id. *)
Definition turn_context (t : PromptTask) (ctx : ExecutionContext) (turn_id : string)
  : ExecutionContext :=
  {| ex_session_id := ex_session_id ctx; ex_cwd := ex_cwd ctx;
     ex_tool_config := pt_tool_config t; ex_llm_config := ex_llm_config ctx;
     ex_max_prompt_bytes := ex_max_prompt_bytes ctx; ex_turn_id := Some turn_id;
     ex_turn_mode := pt_mode t; ex_has_bridge := pt_bridge t |}.

(** [execute_prompt_detached] after the permit; [ctx] is the session handle's
    part of the context, [fuel] bounds the loop of the turn. *)
Definition execute_prompt (cleanup : X (result string unit)) (fuel : nat) (t : PromptTask)
    (ctx : ExecutionContext) : P StopReason :=
  _ ← in_world cleanup;
  session ← in_world (ask pe_session_error);
  match session with
  | Some e => reject (Internal e)
  | None =>
      loaded ← load_working_context (ex_session_id ctx);
      or_reject loaded ≫= fun _ =>
      turn_id ← in_world fresh_uuid;
      let ctx := turn_context t ctx turn_id in
      let prompt := expand_prompt (pt_prompt t) in
      message_id ← in_world fresh_uuid;
      submit_hook ctx (format_prompt_user_text_only prompt) ≫= fun _ =>
      store_prompt ctx prompt message_id ≫= fun _ =>
      start_pre_turn_snapshot ctx ≫= fun _ =>
      r ← in_world (attempt (execute_cycle_state_machine config ctx fuel (pt_mode t)));
      post_turn_snapshot ctx ≫= fun _ =>
      prompt_response r
  end.
End prompt.
