(* ===== verification/PromptProps.v ===== *)
(** Properties of a prompt: what it records, and the history it leaves. *)
From S2P Require Import Prelude Numbers Text Json Chat LlmErrors Domain Events Model ExecState.
From S2P Require Import Driver Pruning Hooks World Limits AgentConfig CallLlm ToolCalls.
From S2P Require Import Transitions Machine Fixtures Pairing CycleInv CycleProps ScheduleRepo.
From S2P Require Import Delegations HookWire HookEngine SessionRows TextOps SlashCommands.
From S2P Require Import LlmConfigs SessionActor PromptTurn.

Local Open Scope Z_scope.

Section prompt.
Context {J : Json} {Ev : Env} {PE : PromptEnv}.

(** ** What a part of a prompt leaves alone *)

(** The history and the events of the world are as in [w0]. *)
Definition untouched (w0 : World) (s : PromptWorld) : Prop :=
  w_history (pw_world s) = w_history w0 /\ w_events (pw_world s) = w_events w0.

Lemma wp_in_world {A} (m : X A) (Q : result PromptError A -> PromptWorld -> Prop) s :
  wp m (fun r w' => Q (match r with Ok a => Ok a | Err e => Err (PtCycle e) end)
                      (set_pw_world w' s)) (pw_world s) ->
  wp (in_world m) Q s.
Proof. unfold wp, in_world. by destruct (m (pw_world s)). Qed.

Lemma keeps_in_world {A} (I : World -> Prop) (m : X A) :
  keeps I m -> keeps (fun s => I (pw_world s)) (in_world m).
Proof. intros Hm s Hs. apply wp_in_world. eapply wp_mono; [by apply Hm|]. by intros r w' H. Qed.

Lemma keeps_intent_store {A} w0 (f : PromptWorld -> A * PromptWorld) :
  (forall s, untouched w0 s -> untouched w0 (f s).2) -> keeps (untouched w0) (intent_store f).
Proof.
  intros Hf s Hs. unfold wp, intent_store. destruct (env_store_error _); [exact Hs|].
  specialize (Hf (set_pw_world (set_now S (pw_world s)) s) Hs). by destruct (f _).
Qed.

Lemma keeps_untouched_ask {A} w0 (f : nat -> A) : keeps (untouched w0) (in_world (ask f)).
Proof. by intros s Hs. Qed.

Lemma keeps_untouched_time w0 : keeps (untouched w0) (in_world unix_time).
Proof. apply keeps_untouched_ask. Qed.

Lemma keeps_or_reject {A} (I : PromptWorld -> Prop) (r : result string A) : keeps I (or_reject r).
Proof. destruct r; [apply keeps_ret|apply keeps_fail]. Qed.

Lemma keeps_update_intent w0 summary : keeps (untouched w0) (update_intent_snapshot summary).
Proof.
  unfold update_intent_snapshot.
  apply keeps_bind; [apply keeps_untouched_time|intros now].
  apply keeps_bind; [apply keeps_gets|intros task].
  apply keeps_bind; [by apply keeps_intent_store|intros [?|e]]; [|apply keeps_ret].
  apply keeps_bind; [by apply keeps_intent_store|intros [[i|]|e]]; try apply keeps_ret.
  apply keeps_bind; [by apply keeps_intent_store|intros [?|e]]; [|apply keeps_ret].
  apply keeps_bind; [by apply keeps_modify|intros _; apply keeps_ret].
Qed.

Lemma keeps_intent w0 text : keeps (untouched w0) (maybe_update_session_intent text).
Proof.
  unfold maybe_update_session_intent. destruct (summarize_intent_candidate text); [|apply keeps_ret].
  assert (H : keeps (untouched w0) (r ← update_intent_snapshot s; or_reject r)).
  { apply keeps_bind; [apply keeps_update_intent|intros r; apply keeps_or_reject]. }
  apply keeps_bind; [apply keeps_gets|intros [i|]]; [|exact H]. cbv zeta.
  destruct (decide_intent_update _ _ _); [apply keeps_ret|exact H|apply keeps_ret].
Qed.

(** A store call on the world, in a prompt. *)
Lemma wp_store_message (m : AgentMessage) (Q : result PromptError (result string unit) -> PromptWorld -> Prop) s :
  (forall e, env_store_error (w_now (pw_world s)) = Some e ->
     Q (Ok (Err e)) (set_pw_world (set_now S (pw_world s)) s)) ->
  Q (Ok (Ok tt)) (set_pw_world (set_history (fun h => h ++ [m]) (set_now S (pw_world s))) s) ->
  wp (in_world (add_message m)) Q s.
Proof.
  intros He Hok. apply wp_in_world. unfold add_message, store_add_message, store_call, wp.
  destruct (env_store_error (w_now (pw_world s))); [by apply He|exact Hok].
Qed.

Lemma wp_emit k (Q : result PromptError unit -> PromptWorld -> Prop) s :
  Q (Ok tt) (set_pw_world (set_events (fun l => l ++ [k]) (pw_world s)) s) ->
  wp (in_world (emit_event k)) Q s.
Proof. auto. Qed.
End prompt.

(** C24: What the acceptance of a prompt records.  The event of its receipt
    names the message; then either the message is stored, under that name and
    as the newest of the history, and announced, and the turn is started; or
    the prompt fails, the history is as it was and at most an error is
    announced. *)
Theorem prompt_is_recorded {J : Json} {Ev : Env} {PE : PromptEnv} ctx prompt message_id s :
  let d := render_prompt_for_display prompt in
  let '(r, s') := store_prompt ctx prompt message_id s in
  exists rest,
    w_events (pw_world s') =
      w_events (pw_world s) ++ PromptReceived d (Some message_id) :: rest /\
    match r with
    | Ok _ =>
        rest = [UserMessageStored d; TurnStarted] /\
        exists m, w_history (pw_world s') = w_history (pw_world s) ++ [m] /\
          am_id m = message_id /\ am_parts m = [MpPrompt prompt]
    | Err _ =>
        w_history (pw_world s') = w_history (pw_world s) /\
        (rest = [] \/ exists e, rest = [EvError e])
    end.
Proof.
  cbv zeta. set (d := render_prompt_for_display prompt).
  assert (H : wp (store_prompt ctx prompt message_id) (fun r s' => exists rest,
    w_events (pw_world s') = w_events (pw_world s) ++ PromptReceived d (Some message_id) :: rest /\
    match r with
    | Ok _ => rest = [UserMessageStored d; TurnStarted] /\
        exists m, w_history (pw_world s') = w_history (pw_world s) ++ [m] /\
          am_id m = message_id /\ am_parts m = [MpPrompt prompt]
    | Err _ => w_history (pw_world s') = w_history (pw_world s) /\
        (rest = [] \/ exists e, rest = [EvError e])
    end) s); [|unfold wp in H; by destruct (store_prompt _ _ _ s)].
  unfold store_prompt. fold d. apply wp_bind, wp_emit.
  set (s1 := set_pw_world _ s). assert (H1 : untouched (pw_world s1) s1) by done.
  apply wp_bind. eapply wp_mono; [apply keeps_intent, H1|].
  intros [[]|e] s2 [Hh2 He2]; cbn in Hh2, He2; [|by exists []; split; [rewrite He2|auto]].
  apply wp_bind. eapply wp_mono; [apply (keeps_untouched_time (pw_world s1)); by split|].
  intros [now|e] s3 [Hh3 He3]; cbn in Hh3, He3; [|by exists []; split; [rewrite He3|auto]].
  apply wp_bind, wp_store_message.
  - intros e _. apply wp_bind, wp_emit, wp_fail. exists [EvError e]. cbn.
    rewrite He3, <- app_assoc. split; [done|]. split; [done|]. right. by exists e.
  - apply wp_bind, wp_emit, wp_emit. exists [UserMessageStored d; TurnStarted]. cbn.
    rewrite He3, <- !app_assoc. split; [done|]. split; [done|]. rewrite Hh3.
    eexists. done.
Qed.

Section pairing.
Context {J : Json} {Ev : Env} {PE : PromptEnv}.

Definition has_pairs (s : PromptWorld) : Prop := paired (w_history (pw_world s)).

Lemma untouched_pairs {A} (m : P A) : (forall w0, keeps (untouched w0) m) -> keeps has_pairs m.
Proof.
  intros H s Hs. eapply wp_mono; [apply (H (pw_world s)); by split|].
  intros r s' [Hh _]. unfold has_pairs. by rewrite Hh.
Qed.

Lemma paired_snoc h (m : AgentMessage) : silent m -> paired h -> paired (h ++ [m]).
Proof.
  intros Hm Hh. unfold paired. rewrite open_calls_app, Hh. cbn. by apply (open_calls_silent [m]); constructor.
Qed.

Lemma keeps_pairs_add (m : AgentMessage) : silent m -> keeps has_pairs (in_world (add_message m)).
Proof.
  intros Hm. apply (keeps_in_world (on_history paired)). unfold add_message, store_add_message.
  apply keeps_store; [done|]. intros w Hw. by apply paired_snoc.
Qed.

Lemma keeps_pairs_world {A} (m : X A) :
  keeps (on_history paired) m -> keeps has_pairs (in_world m).
Proof. apply (keeps_in_world (on_history paired)). Qed.

Lemma pairs_ask {A} (f : nat -> A) : keeps has_pairs (in_world (ask f)).
Proof. apply keeps_pairs_world. auto with qmt. Qed.
Lemma pairs_emit k : keeps has_pairs (in_world (emit_event k)).
Proof. apply keeps_pairs_world. auto with qmt. Qed.
Lemma pairs_modify (f : World -> World) :
  (forall w, w_history (f w) = w_history w) -> keeps has_pairs (in_world (modify f)).
Proof.
  intros Hf. apply keeps_pairs_world, keeps_modify. intros w. unfold on_history. by rewrite Hf.
Qed.
Lemma pairs_or_reject {A} (r : result string A) : keeps has_pairs (or_reject r).
Proof. apply keeps_or_reject. Qed.

Lemma pairs_load session : keeps has_pairs (load_working_context session).
Proof.
  apply untouched_pairs. intros w0. unfold load_working_context.
  assert (Hq : forall B (f : World -> B), keeps (untouched w0) (in_world (store_call (fun w => (f w, w))))).
  { intros B f s Hs. apply wp_in_world. unfold wp, store_call. by destruct (env_store_error _). }
  apply keeps_bind; [apply Hq|intros [[active|]|e]]; try apply keeps_ret.
  apply keeps_bind.
  { destruct active; [|apply keeps_ret]. apply keeps_bind; [apply Hq|intros]. apply keeps_ret. }
  intros [task|e]; [|apply keeps_ret].
  apply keeps_bind; [by intros s Hs|intros _].
  apply keeps_bind; [by apply keeps_intent_store|intros [i|e]]; [|apply keeps_ret].
  apply keeps_bind; [by apply keeps_modify|intros _; apply keeps_ret].
Qed.

Lemma pairs_hook ctx text : keeps has_pairs (submit_hook ctx text).
Proof.
  unfold submit_hook. apply keeps_bind; [apply pairs_ask|intros h].
  apply keeps_bind; [apply pairs_or_reject|intros hook].
  apply keeps_bind; [apply keeps_pairs_world; auto with qmt|intros _].
  destruct (upr_should_block hook); [|apply keeps_ret]. cbv zeta.
  apply keeps_bind; [apply pairs_emit|intros _; apply keeps_fail].
Qed.

Lemma pairs_store ctx prompt id : keeps has_pairs (store_prompt ctx prompt id).
Proof.
  unfold store_prompt. apply keeps_bind; [apply pairs_emit|intros _].
  apply keeps_bind; [apply untouched_pairs; intros; apply keeps_intent|intros _].
  apply keeps_bind; [apply pairs_ask|intros now].
  apply keeps_bind; [by apply keeps_pairs_add|intros [?|e]].
  - apply keeps_bind; [apply pairs_emit|intros _; apply pairs_emit].
  - apply keeps_bind; [apply pairs_emit|intros _; apply keeps_fail].
Qed.

Lemma pairs_start ctx : keeps has_pairs (start_pre_turn_snapshot ctx).
Proof.
  unfold start_pre_turn_snapshot. destruct (snapshots_enabled ctx); [|by apply pairs_modify].
  apply keeps_bind; [apply pairs_ask|intros id]. apply keeps_bind; [apply pairs_ask|intros o].
  by apply pairs_modify.
Qed.

Lemma pairs_post ctx : keeps has_pairs (post_turn_snapshot ctx).
Proof.
  unfold post_turn_snapshot. destruct (snapshots_enabled ctx); [|apply keeps_ret].
  apply keeps_bind.
  { apply keeps_pairs_world. intros w Hw. destruct (pre_turn_spec ctx w) as (r & w' & snap & Hr & Hh & Hs).
    unfold wp, on_history, paired in *. rewrite Hr, Hh, open_calls_app, Hw. by eapply open_calls_silent, turn_start_silent. }
  intros _. apply keeps_bind; [by apply keeps_pairs_world, keeps_updating|intros [[turn pre]|]];
    [|apply keeps_ret].
  apply keeps_bind; [apply pairs_ask|intros [post|e]]; [|apply keeps_ret].
  unfold store_patch. destruct (String.eqb pre post); [apply keeps_ret|].
  apply keeps_bind; [apply pairs_ask|intros [[|p paths]|e]]; try apply keeps_ret.
  apply keeps_bind; [apply pairs_ask|intros id]. apply keeps_bind; [apply pairs_ask|intros now].
  apply keeps_bind; [by apply keeps_pairs_add|intros _; apply keeps_ret].
Qed.

(** Going on after a part that keeps the pairs; its failure is one of the prompt. *)
Lemma wp_pairs {A B} (m : P A) (f : A -> P B) s :
  keeps has_pairs m -> has_pairs s ->
  (forall a s', has_pairs s' -> wp (f a) (fun r s'' => is_ok r = true -> has_pairs s'') s') ->
  wp (m ≫= f) (fun r s'' => is_ok r = true -> has_pairs s'') s.
Proof.
  intros Hm Hs Hf. apply wp_bind. eapply wp_mono; [by apply Hm|].
  intros [a|e] s' Hs'; [by apply Hf|done].
Qed.
End pairing.

(** C4: The composition of a prompt with its turn keeps the pairing of tool
    uses and results.  Assume that the middleware is well behaved (it writes
    nothing to the history and does not change the calls, results or response
    of the state it is given), that a response with tool calls never ends with
    Stop, Length or ContentFilter, that the clean-up of undone turns at the
    start keeps the pairing, and that nothing is cancelled.  Then a prompt that
    is answered without an error, on a history whose uses are all answered,
    leaves such a history, over the message it stores, the turn, and the
    snapshots stored around it. *)
Theorem prompt_keeps_pairing {J : Json} {Ev : Env} {PE : PromptEnv}
    config registry cleanup fuel t ctx s
    (Hd : Forall WellBehaved (ac_middleware_drivers config)) (Ha : announces_calls)
    (Hclean : keeps (on_history paired) cleanup) (Hc : env_cancel_at = None)
    (Hs : has_pairs s) :
  let '(r, s') := execute_prompt config registry cleanup fuel t ctx s in
  is_ok r = true -> has_pairs s'.
Proof.
  assert (H : wp (execute_prompt config registry cleanup fuel t ctx)
    (fun r s' => is_ok r = true -> has_pairs s') s);
    [|unfold wp in H; by destruct (execute_prompt _ _ _ _ _ _ s)].
  unfold execute_prompt. apply wp_pairs; [by apply keeps_pairs_world|done|intros _ s1 H1].
  apply wp_pairs; [apply pairs_ask|done|intros [e|] s2 H2]; [by apply wp_fail|].
  apply wp_pairs; [apply pairs_load|done|intros loaded s3 H3].
  apply wp_pairs; [apply pairs_or_reject|done|intros _ s4 H4].
  apply wp_pairs; [apply pairs_ask|done|intros turn_id s5 H5]. cbv zeta.
  set (ctx' := turn_context t ctx turn_id).
  apply wp_pairs; [apply pairs_ask|done|intros message_id s6 H6].
  apply wp_pairs; [apply pairs_hook|done|intros _ s7 H7].
  apply wp_pairs; [apply pairs_store|done|intros _ s8 H8].
  apply wp_pairs; [apply pairs_start|done|intros _ s9 H9].
  apply wp_bind, wp_in_world, wp_attempt.
  assert (Hcycle : let '(r, w') := execute_cycle_state_machine config ctx' fuel (pt_mode t) (pw_world s9) in
    cycle_result r w').
  { apply cycle_spec; [|exact Ha|exact H9]. unfold create_driver. apply Forall_app_2; [|exact Hd].
    destruct (ac_max_steps config); [constructor; [apply _|constructor]|constructor]. }
  unfold wp at 1. destruct (execute_cycle_state_machine _ _ _ _ _) as [[o|e] w'];
    destruct Hcycle as [_ Hp].
  - apply wp_pairs; [apply pairs_post|by apply Hp|intros _ s10 H10].
    unfold prompt_response. by destruct o; apply wp_ret.
  - apply wp_bind, wp_intro. intros [[]|e'] s10 _; [|done].
    unfold prompt_response. destruct e; [|by apply wp_fail..].
    apply wp_bind, wp_emit. by apply wp_fail.
Qed.

(** ** A prompt that calls one tool *)

Section prompt_example.
#[local] Existing Instance toy_json.

#[local] Instance toy_prompt_env : PromptEnv := {|
  pe_user_prompt_submit := fun _ _ => Ok user_prompt_submit_default;
  pe_has_backend := true;
  pe_pre_turn := fun _ => Some (Ok "snap0");
  pe_track := fun _ => Ok "snap1";
  pe_diff := fun _ _ _ => Ok ["a.txt"];
  pe_session_error := fun _ => None;
  pe_to_lowercase := to_ascii_lowercase;
|}.

(** The model asks for one call of [lookup], and is done when called again. *)
Definition prompted_call : Scenario :=
  with_chat (fun t => if (t <? 30)%nat then Ok (calling_response FrToolCalls (Some usage_default))
                      else Ok (plain_response "done")) quiet.

Definition ctx_in_w : ExecutionContext :=
  {| ex_session_id := "s"; ex_cwd := Some "/w"; ex_tool_config := all_tools;
     ex_llm_config := ex_llm_config ctx0; ex_max_prompt_bytes := None; ex_turn_id := None;
     ex_turn_mode := Build; ex_has_bridge := false |}.

Definition toy_task : PromptTask :=
  {| pt_generation := 1; pt_prompt := [CbText "look it up"]; pt_token := 0%nat; pt_bridge := false;
     pt_mode := Build; pt_tool_config := all_tools; pt_origin := Interactive;
     pt_phase := PhRunning |}.

Definition toy_prompt_world : PromptWorld :=
  {| pw_world := world0; pw_intents := []; pw_session_intent := None; pw_current_intent := None |}.

Definition toy_prompt : result PromptError StopReason * PromptWorld :=
  @execute_prompt _ (env_of prompted_call) toy_prompt_env config0 registry_empty (mret (Ok tt)) 50
    toy_task ctx_in_w toy_prompt_world.

(** The prompt, the snapshot, the call, its result, the answer, the patch. *)
Example toy_prompt_history :
  toy_prompt.1 = Ok EndTurn /\
  map (fun m => map type_name (am_parts m)) (w_history (pw_world toy_prompt.2)) =
  [["prompt"]; ["turn_snapshot_start"]; ["text"; "tool_use"]; ["tool_result"]; ["text"];
   ["turn_snapshot_patch"]].
Proof. split; vm_compute; reflexivity. Qed.

Lemma prompt_keeps_pairing_witness :
  let '(r, s') := toy_prompt in is_ok r = true -> has_pairs s'.
Proof.
  apply (@prompt_keeps_pairing _ (env_of prompted_call) toy_prompt_env config0 registry_empty
    (mret (Ok tt)) 50 toy_task ctx_in_w toy_prompt_world).
  - constructor.
  - intros messages tools r' Hm.
    apply from_model_scenario in Hm as [(t & resp & -> & Hc)|Hc]; [|discriminate].
    simpl in Hc. destruct (t <? 30)%nat; injection Hc as <-; intros Hne; [done|by destruct Hne].
  - apply keeps_ret.
  - reflexivity.
  - reflexivity.
Defined.
End prompt_example.
