(* ===== verification/EditTool.v ===== *)
(** The editing tools: [EditTool] (tools/builtins/edit.rs) with its matching
    strategies, [MultiEditTool] (multiedit.rs), and the file system and
    context (tools/context.rs) they run in.

    A strategy gives the texts to look for in the file, or [None] when it
    panics on a slice that is out of range or cuts a character.  Only the
    Levenshtein distance (the crate strsim) is a parameter of the strategies. *)
From S2P Require Import Prelude Numbers Text Json TextOps.
From Stdlib Require Import SpecFloat.

Local Open Scope Z_scope.

Definition f64_ge (x y : f64) : bool := SFleb y x.

Section edit.
Variable levenshtein : string -> string -> nat.

(** ** Strategies *)

Definition simple_replacer (content find : string) : option (list string) :=
  Some (if contains content find then [find] else []).

(** [if l.last() == Some(&"") { l.pop(); }] *)
Definition pop_empty (l : list string) : list string :=
  match last l with Some EmptyString => removelast l | _ => l end.

(** The slice of [content] from the start of line [i] to the end of line
    [i + n - 1], computed from the lines' lengths. *)
Definition block_slice (content : string) (ls : list string) (i n : nat) : option string :=
  let match_start := line_offset ls i in
  str_slice match_start (match_start + block_length (window n i ls)) content.

Definition lines_match (ls search : list string) : bool :=
  bool_decide (map trim ls = map trim search).

Definition line_trimmed_replacer (content find : string) : option (list string) :=
  let original_lines := lines content in
  let search_lines := pop_empty (lines find) in
  let n := length search_lines in
  if (n =? 0)%nat || (length original_lines <? n)%nat then Some [] else
  mapM (fun i => block_slice content original_lines i n)
    (List.filter (fun i => lines_match (window n i original_lines) search_lines)
       (window_starts n original_lines)).

Definition line (ls : list string) (i : nat) : string := nth i ls "".

(** For each line equal to the first one up to whitespace, the first line at
    least two below it that is equal to the last one. *)
Definition anchor_candidates (ls : list string) (first last : string) : list (nat * nat) :=
  omap (fun i =>
    if String.eqb (trim (line ls i)) first
    then (fun j => (i, j)) <$> List.find (fun j => String.eqb (trim (line ls j)) last)
                                 (seq (i + 2) (length ls - (i + 2)))
    else None)
    (seq 0 (length ls)).

Definition SINGLE_CANDIDATE_THRESHOLD : f64 := f64_div (f64_of_Z 3) (f64_of_Z 10).
Definition MULTIPLE_CANDIDATES_THRESHOLD : f64 := f64_div (f64_of_Z 1) (f64_of_Z 2).

(** One inner line's share of the similarity. *)
Definition add_similarity (original_lines search_lines : list string) (start_line lines_to_check : nat)
    (similarity : f64) (j : nat) : f64 :=
  let original_line := trim (line original_lines (start_line + j)) in
  let search_line := trim (line search_lines j) in
  let max_len := Nat.max (slen original_line) (slen search_line) in
  if (max_len =? 0)%nat then similarity else
  let distance := levenshtein original_line search_line in
  let ratio := f64_div (f64_of_Z (Z.of_nat distance)) (f64_of_Z (Z.of_nat max_len)) in
  f64_add similarity
    (f64_div (f64_sub (f64_of_Z 1) ratio) (f64_of_Z (Z.of_nat lines_to_check))).

Definition calc_similarity (original_lines search_lines : list string) (start_line end_line : nat)
  : f64 :=
  let search_block_size := length search_lines in
  let actual_block_size := (end_line - start_line + 1)%nat in
  if (actual_block_size + 1 <? search_block_size)%nat then f64_of_Z 0 else
  let lines_to_check := Nat.min (search_block_size - 2) (actual_block_size - 2) in
  if (lines_to_check =? 0)%nat then f64_of_Z 1 else
  fold_left (add_similarity original_lines search_lines start_line lines_to_check)
    (List.filter (fun j => (j <? actual_block_size - 1)%nat) (seq 1 (search_block_size - 2)))
    (f64_of_Z 0).

(** The candidate of the highest similarity, the first of equal ones. *)
Definition better_candidate (similarity : nat * nat -> f64) (best : option (nat * nat) * f64)
    (c : nat * nat) : option (nat * nat) * f64 :=
  if f64_gt (similarity c) best.2 then (Some c, similarity c) else best.

Definition block_anchor_replacer (content find : string) : option (list string) :=
  let original_lines := lines content in
  if (length (lines find) <? 3)%nat then Some [] else
  let search_lines := pop_empty (lines find) in
  let first_line_search := trim (line search_lines 0) in
  let last_line_search := trim (line search_lines (length search_lines - 1)) in
  let similarity c := calc_similarity original_lines search_lines c.1 c.2 in
  let extract_match (c : nat * nat) :=
    (fun s => [s]) <$> block_slice content original_lines c.1 (c.2 - c.1 + 1) in
  match anchor_candidates original_lines first_line_search last_line_search with
  | [] => Some []
  | [c] =>
      if f64_ge (similarity c) SINGLE_CANDIDATE_THRESHOLD then extract_match c else Some []
  | candidates =>
      let '(best_match, max_similarity) :=
        fold_left (better_candidate similarity) candidates (None, f64_of_Z (-1)) in
      if f64_ge max_similarity MULTIPLE_CANDIDATES_THRESHOLD then
        match best_match with Some c => extract_match c | None => Some [] end
      else Some []
  end.

(** The blocks of [n] lines of the content. *)
Definition blocks (n : nat) (ls : list string) : list string :=
  map (fun i => join nl (window n i ls)) (window_starts n ls).

Definition normalize (s : string) : string := join " " (split_whitespace s).

Definition whitespace_normalized_replacer (content find : string) : option (list string) :=
  let matches s := String.eqb (normalize s) (normalize find) in
  let n := length (lines find) in
  if (1 <? n)%nat then
    if (n <=? length (lines content))%nat
    then Some (List.filter matches (blocks n (lines content))) else Some []
  else Some (List.filter matches (lines content)).

(** [min_indent] bytes are cut from each line that is not blank. *)
Definition cut_indent (min_indent : nat) (l : string) : option string :=
  if is_empty_str (trim l) then Some l else str_slice (Nat.min min_indent (slen l)) (slen l) l.

Definition min_of (l : list nat) : nat :=
  match l with [] => 0 | n :: rest => foldr Nat.min n rest end.

Definition remove_indentation (text : string) : option string :=
  let ls := lines text in
  match List.filter (fun l => negb (is_empty_str (trim l))) ls with
  | [] => Some text
  | non_empty_lines =>
      let min_indent :=
        min_of (map (fun l => slen l - slen (trim_start l))%nat non_empty_lines) in
      join nl <$> mapM (cut_indent min_indent) ls
  end.

(** The elements that satisfy a test that can panic. *)
Fixpoint filter_opt {A} (f : A -> option bool) (l : list A) : option (list A) :=
  match l with
  | [] => Some []
  | x :: rest =>
      b ← f x; kept ← filter_opt f rest; Some (if (b : bool) then x :: kept else kept)
  end.

Definition indentation_flexible_replacer (content find : string) : option (list string) :=
  normalized_find ← remove_indentation find;
  let n := length (lines find) in
  if (n =? 0)%nat || (length (lines content) <? n)%nat then Some [] else
  filter_opt (fun block => (fun s => String.eqb s normalized_find) <$> remove_indentation block)
    (blocks n (lines content)).

(** The quote and control characters of [unescape]. *)
Definition dquote : string := String (Ascii.ascii_of_nat 34) "".
Definition tab : string := String (Ascii.ascii_of_nat 9) "".
Definition cr : string := String (Ascii.ascii_of_nat 13) "".

Definition unescape (s : string) : string :=
  fold_left (fun s kv => str_replace kv.1 kv.2 s)
    [("\n", nl); ("\t", tab); ("\r", cr); ("\'", "'"); ("\" +:+ dquote, dquote); ("\`", "`");
     ("\\", "\"); ("\$", "$")] s.

(** Without duplicates: a block that was already seen is left out. *)
Definition push_new (matches : list string) (block : string) : list string :=
  if bool_decide (block ∈ matches) then matches else matches ++ [block].

Definition escape_normalized_replacer (content find : string) : option (list string) :=
  let unescaped_find := unescape find in
  let n := length (lines unescaped_find) in
  if (n =? 0)%nat || (length (lines content) <? n)%nat then Some [] else
  let matches :=
    fold_left push_new
      (List.filter (fun block => String.eqb (unescape block) unescaped_find)
         (blocks n (lines content))) [] in
  Some (match matches with
        | [] => if contains content unescaped_find then [unescaped_find] else []
        | _ => matches
        end).

Definition trimmed_boundary_replacer (content find : string) : option (list string) :=
  let trimmed_find := trim find in
  if String.eqb trimmed_find find then Some [] else
  let n := length (lines find) in
  if (n =? 0)%nat || (length (lines content) <? n)%nat then Some [] else
  Some (List.filter (fun block => String.eqb (trim block) trimmed_find) (blocks n (lines content))).

(** Of the inner lines that are not blank on both sides: how many are equal,
    and how many there are. *)
Definition count_matching (block_lines find_lines : list string) : nat * nat :=
  fold_left (fun '(matching_lines, total_non_empty) k =>
      let block_line := trim (line block_lines k) in
      let find_line := trim (line find_lines k) in
      if is_empty_str block_line && is_empty_str find_line
      then (matching_lines, total_non_empty)
      else ((if String.eqb block_line find_line then S matching_lines else matching_lines),
            S total_non_empty))
    (seq 1 (length block_lines - 2)) (0, 0)%nat.

Definition context_match (content_lines find_lines : list string) (c : nat * nat) : option string :=
  let block_lines := window (c.2 - c.1 + 1) c.1 content_lines in
  if negb (length block_lines =? length find_lines)%nat then None else
  let '(matching_lines, total_non_empty) := count_matching block_lines find_lines in
  if (total_non_empty =? 0)%nat
     || f64_ge (f64_div (f64_of_Z (Z.of_nat matching_lines)) (f64_of_Z (Z.of_nat total_non_empty)))
               (f64_div (f64_of_Z 1) (f64_of_Z 2))
  then Some (join nl block_lines) else None.

Definition context_aware_replacer (content find : string) : option (list string) :=
  if (length (lines find) <? 3)%nat then Some [] else
  let find_lines := pop_empty (lines find) in
  let first_line := trim (line find_lines 0) in
  let last_line := trim (line find_lines (length find_lines - 1)) in
  Some (omap (context_match (lines content) find_lines)
          (anchor_candidates (lines content) first_line last_line)).

(** [while let Some(idx) = content[start..].find(find)]; each occurrence is at
    least one byte, so that as much fuel as there are bytes is enough. *)
Fixpoint occurrences (fuel : nat) (content find : string) : list string :=
  match fuel with
  | O => []
  | S fuel' =>
      match str_find content find with
      | Some idx => find :: occurrences fuel' (str_drop (idx + slen find) content) find
      | None => []
      end
  end.

Definition multi_occurrence_replacer (content find : string) : option (list string) :=
  Some (occurrences (slen content) content find).

(** ** Replacement *)

Definition replacers : list (string -> string -> option (list string)) :=
  [simple_replacer; line_trimmed_replacer; block_anchor_replacer;
   whitespace_normalized_replacer; indentation_flexible_replacer; escape_normalized_replacer;
   trimmed_boundary_replacer; context_aware_replacer; multi_occurrence_replacer].

(** The content with the [search] at [idx] replaced. *)
Definition replace_at (content search new_string : string) (idx : nat) : string :=
  str_take idx content +:+ new_string +:+ str_drop (idx + slen search) content.

(** One text to look for: the new content, or whether it was found at all. *)
Definition try_match (content new_string : string) (replace_all : bool) (search : string)
  : option string * bool :=
  match str_find content search with
  | None => (None, false)
  | Some idx =>
      if replace_all then (Some (str_replace search new_string content), true)
      else if bool_decide (str_rfind content search = Some idx)
      then (Some (replace_at content search new_string idx), true)
      else (None, true)
  end.

Fixpoint try_matches (content new_string : string) (replace_all : bool) (found_any : bool)
    (matches : list string) : option string * bool :=
  match matches with
  | [] => (None, found_any)
  | search :: rest =>
      match try_match content new_string replace_all search with
      | (Some result, _) => (Some result, true)
      | (None, found) => try_matches content new_string replace_all (found_any || found) rest
      end
  end.

Definition not_found : string := "oldString not found in content".
Definition ambiguous : string :=
  "oldString found multiple times and requires more code context to uniquely identify the intended match. Either provide a larger string with more surrounding context to make it unique or use `replaceAll` to change every instance of `oldString`.".

(** The strategies in turn; [None]: one of them has panicked. *)
Fixpoint try_replacers (content old_string new_string : string) (replace_all found_any : bool)
    (rs : list (string -> string -> option (list string))) : option (result string string) :=
  match rs with
  | [] => Some (Err (if found_any then ambiguous else not_found))
  | replacer :: rest =>
      matches ← replacer content old_string;
      match try_matches content new_string replace_all found_any matches with
      | (Some content', _) => Some (Ok content')
      | (None, found_any') =>
          try_replacers content old_string new_string replace_all found_any' rest
      end
  end.

(** [EditTool::replace] *)
Definition edit_replace (content old_string new_string : string) (replace_all : bool)
  : option (result string string) :=
  if is_empty_str old_string then Some (Err "oldString cannot be empty")
  else if String.eqb old_string new_string
  then Some (Err "oldString and newString must be different")
  else try_replacers content old_string new_string replace_all false replacers.
End edit.
