(* ===== verification/EditOutput.v ===== *)
(** The receipts of the editing tools (tools/builtins/edit_output.rs): the
    changes of a line diff grouped into hunks with their context.  The diff
    itself (the crate imara-diff) is a parameter. *)
From S2P Require Import Prelude Numbers Text TextOps.

Local Open Scope nat_scope.

Definition CONTEXT_LINES : nat := 3.

Inductive DiffLineKind := DlContext | DlDelete | DlInsert.

Record DiffLine := {
  dl_kind : DiffLineKind;
  dl_text : string;
  dl_old_line : option nat;
  dl_new_line : option nat;
}.

Record HunkOutput := {
  ho_operation : string;
  ho_old_start : nat;
  ho_old_count : nat;
  ho_new_start : nat;
  ho_new_count : nat;
  ho_lines : list DiffLine;
  ho_lines_deleted : nat;
  ho_lines_inserted : nat;
}.

Record FileEditOutput := { feo_path : string; feo_hunks : list HunkOutput }.

(** A [Range]: its start and its end. *)
Definition Range : Type := nat * nat.

Record ChangeRange := { cr_old_range : Range; cr_new_range : Range }.

Record HunkRegion := {
  hg_old_range : Range;
  hg_new_range : Range;
  hg_changes : list ChangeRange;
}.

(** [format!("{:05}", n)] *)
Definition pad5 (n : nat) : string := pad_zeros (5 - slen (nat_str n)) (nat_str n).

Definition diff_line_render (l : DiffLine) : string :=
  match dl_kind l with
  | DlContext => " " +:+ pad5 (default 0 (dl_old_line l)) +:+ "| " +:+ dl_text l
  | DlDelete => "-" +:+ pad5 (default 0 (dl_old_line l)) +:+ "| " +:+ dl_text l
  | DlInsert => "+" +:+ pad5 (default 0 (dl_new_line l)) +:+ "| " +:+ dl_text l
  end.

(** ** Grouping *)

(** The regions so far, newest first. *)
Definition add_change (old_len new_len : nat) (regions : list HunkRegion) (change : ChangeRange)
  : list HunkRegion :=
  let next_old_start := (cr_old_range change).1 - CONTEXT_LINES in
  let next_old_end := Nat.min ((cr_old_range change).2 + CONTEXT_LINES) old_len in
  let next_new_start := (cr_new_range change).1 - CONTEXT_LINES in
  let next_new_end := Nat.min ((cr_new_range change).2 + CONTEXT_LINES) new_len in
  let fresh := {| hg_old_range := (next_old_start, next_old_end);
                  hg_new_range := (next_new_start, next_new_end); hg_changes := [change] |} in
  match regions with
  | [] => [fresh]
  | current :: older =>
      if (next_old_start <=? (hg_old_range current).2) || (next_new_start <=? (hg_new_range current).2)
      then {| hg_old_range :=
                ((hg_old_range current).1, Nat.max (hg_old_range current).2 next_old_end);
              hg_new_range :=
                ((hg_new_range current).1, Nat.max (hg_new_range current).2 next_new_end);
              hg_changes := hg_changes current ++ [change] |} :: older
      else fresh :: regions
  end.

Definition group_changes_into_regions (changes : list ChangeRange) (old_len new_len : nat)
  : list HunkRegion :=
  rev (fold_left (add_change old_len new_len) changes []).

(** ** Building a hunk

    A line that is not there is a panic: [None]. *)
Section build.
Variables orig_lines new_lines : list string.

Definition context_line (old_idx new_idx k : nat) : option DiffLine :=
  text ← orig_lines !! (old_idx + k);
  Some {| dl_kind := DlContext; dl_text := text; dl_old_line := Some (old_idx + k + 1);
          dl_new_line := Some (new_idx + k + 1) |}.

Definition delete_line (idx : nat) : option DiffLine :=
  text ← orig_lines !! idx;
  Some {| dl_kind := DlDelete; dl_text := text; dl_old_line := Some (idx + 1);
          dl_new_line := None |}.

Definition insert_line (idx : nat) : option DiffLine :=
  text ← new_lines !! idx;
  Some {| dl_kind := DlInsert; dl_text := text; dl_old_line := None;
          dl_new_line := Some (idx + 1) |}.

(** [while old_idx < old_end && new_idx < new_end { .. }] *)
Definition context_lines (old_idx new_idx old_end new_end : nat) : option (list DiffLine) :=
  mapM (context_line old_idx new_idx) (seq 0 (Nat.min (old_end - old_idx) (new_end - new_idx))).

(** The lines of the changes and of the context around them, up to the ends
    of the region. *)
Fixpoint change_lines (old_idx new_idx : nat) (changes : list ChangeRange) (old_end new_end : nat)
  : option (list DiffLine) :=
  match changes with
  | [] => context_lines old_idx new_idx old_end new_end
  | change :: rest =>
      let '(old_start, old_stop) := cr_old_range change in
      let '(new_start, new_stop) := cr_new_range change in
      let before := Nat.min (old_start - old_idx) (new_start - new_idx) in
      context ← context_lines old_idx new_idx old_start new_start;
      deleted ← mapM delete_line (seq (old_idx + before) (old_stop - (old_idx + before)));
      inserted ← mapM insert_line (seq (new_idx + before) (new_stop - (new_idx + before)));
      more ← change_lines (Nat.max (old_idx + before) old_stop) (Nat.max (new_idx + before) new_stop)
               rest old_end new_end;
      Some (context ++ deleted ++ inserted ++ more)
  end.

Definition is_old (l : DiffLine) : bool :=
  match dl_kind l with DlInsert => false | _ => true end.
Definition is_new (l : DiffLine) : bool :=
  match dl_kind l with DlDelete => false | _ => true end.

Definition context_old_count (ls : list DiffLine) : nat := length (List.filter is_old ls).
Definition context_new_count (ls : list DiffLine) : nat := length (List.filter is_new ls).

Definition build_hunk (region : HunkRegion) : option HunkOutput :=
  ls ← change_lines (hg_old_range region).1 (hg_new_range region).1 (hg_changes region)
         (hg_old_range region).2 (hg_new_range region).2;
  Some {| ho_operation := "replace";
          ho_old_start := (hg_old_range region).1 + 1; ho_old_count := context_old_count ls;
          ho_new_start := (hg_new_range region).1 + 1; ho_new_count := context_new_count ls;
          ho_lines := ls;
          ho_lines_deleted := length (List.filter (fun l => negb (is_new l)) ls);
          ho_lines_inserted := length (List.filter (fun l => negb (is_old l)) ls) |}.
End build.

Definition empty_hunk : HunkOutput :=
  {| ho_operation := "replace"; ho_old_start := 1; ho_old_count := 0; ho_new_start := 1;
     ho_new_count := 0; ho_lines := []; ho_lines_deleted := 0; ho_lines_inserted := 0 |}.

Section output.
(** [diff_changes]: the changed ranges of two texts. *)
Variable diff_changes : string -> string -> list ChangeRange.

Definition build_hunks_from_diff (original new : string) : option (list HunkOutput) :=
  let orig_lines := lines original in
  let new_lines := lines new in
  mapM (build_hunk orig_lines new_lines)
    (group_changes_into_regions (diff_changes original new) (length orig_lines) (length new_lines)).

Definition build_first_hunk (original new : string) : option HunkOutput :=
  (fun hunks => default empty_hunk (head hunks)) <$> build_hunks_from_diff original new.

Definition build_file_output_from_diff (path original new : string) : option FileEditOutput :=
  (fun hunks => {| feo_path := path; feo_hunks := hunks |}) <$> build_hunks_from_diff original new.
End output.

Definition sum_over {A} (f : A -> nat) (l : list A) : nat := foldr (fun a n => f a + n) 0 l.

Definition format_hunk (h : HunkOutput) : string :=
  "H " +:+ ho_operation h +:+ " old=" +:+ nat_str (ho_old_start h) +:+ "," +:+
  nat_str (ho_old_count h) +:+ " new=" +:+ nat_str (ho_new_start h) +:+ "," +:+
  nat_str (ho_new_count h) +:+ " +" +:+ nat_str (ho_lines_inserted h) +:+ " -" +:+
  nat_str (ho_lines_deleted h).

Definition format_compact_receipt (results : list FileEditOutput) : string :=
  let hunks := flat_map feo_hunks results in
  join nl
    (("OK paths=" +:+ nat_str (length results) +:+ " edits=" +:+ nat_str (length hunks) +:+
      " added=" +:+ nat_str (sum_over ho_lines_inserted hunks) +:+ " deleted=" +:+
      nat_str (sum_over ho_lines_deleted hunks))
     :: flat_map (fun r => ("P " +:+ feo_path r) :: map format_hunk (feo_hunks r)) results).
