(* ===== verification/EditSpec.v ===== *)
(** Lines and offsets: in a text whose lines end in a line feed alone, the
    offsets that the editing tools compute from the lines' lengths are those
    of the lines.  Hunks as patches: what a line diff is, applying hunks to a
    text, and that the hunks of a diff lead from the old lines to the new. *)
From S2P Require Import Prelude Numbers Text Json TextOps EditTool EditOutput.

Local Open Scope nat_scope.

(** No byte [b] in the text. *)
Definition lacks (b : N) (s : string) : bool :=
  forallb (fun c => negb (N.eqb (byte_of c) b)) (String.list_ascii_of_string s).

(** An ASCII byte is a whole character, as in every [str]. *)
Fixpoint str_ok (s : string) : bool :=
  match s with
  | EmptyString => true
  | String c s' => negb (N.ltb (byte_of c) 128 && starts_with_cont s') && str_ok s'
  end.

(** ** Strings *)

Lemma lacks_app b s t : lacks b (s +:+ t) = lacks b s && lacks b t.
Proof. induction s as [|c s IH]; [done|]. rewrite sapp_cons. unfold lacks in *. cbn. by rewrite IH, andb_assoc. Qed.

Lemma lacks_cons b c s : lacks b (String c s) = negb (N.eqb (byte_of c) b) && lacks b s.
Proof. reflexivity. Qed.

Lemma byte_nl c : byte_of c = 10%N -> c = Ascii.ascii_of_nat 10.
Proof. unfold byte_of. intros H. by rewrite <- (Ascii.ascii_N_embedding c), H. Qed.

Lemma is_nl_nl c : is_nl c = true -> String c "" = nl.
Proof. unfold is_nl. intros H%N.eqb_eq%byte_nl. by subst. Qed.

(** A text is one line without a terminator, or a line, its feed and the rest. *)
Lemma first_line s :
  lacks 10 s = true \/ exists l rest, s = l +:+ nl +:+ rest /\ lacks 10 l = true.
Proof.
  induction s as [|c s IH]; [by left|]. rewrite lacks_cons.
  destruct (N.eqb (byte_of c) 10) eqn:Hc.
  - right. exists "", s. apply N.eqb_eq, byte_nl in Hc as ->. done.
  - destruct IH as [H|(l & rest & -> & H)]; [by left|].
    right. exists (String c l), rest. by rewrite lacks_cons, Hc, H.
Qed.

Lemma split_line l rest : lacks 10 l = true ->
  split_inclusive_nl (l +:+ nl +:+ rest) = (l +:+ nl) :: split_inclusive_nl rest.
Proof.
  induction l as [|c l IH]; [done|]. rewrite lacks_cons. intros [Hc Hl]%andb_prop.
  rewrite !sapp_cons. cbn [split_inclusive_nl]. unfold is_nl.
  apply negb_true_iff in Hc. by rewrite Hc, IH.
Qed.

Lemma split_last_line l : lacks 10 l = true -> l <> "" -> split_inclusive_nl l = [l].
Proof.
  induction l as [|c l IH]; [done|]. rewrite lacks_cons. intros [Hc Hl]%andb_prop _.
  cbn [split_inclusive_nl]. unfold is_nl. apply negb_true_iff in Hc. rewrite Hc.
  destruct l as [|d l]; [done|]. by rewrite IH.
Qed.

Lemma strip_eol_eq c d s : strip_eol (String c (String d s)) =
  if is_empty_str s then
    (if is_nl d then (if N.eqb (byte_of c) 13 then "" else String c "") else String c (String d ""))
  else String c (strip_eol (String d s)).
Proof. by destruct s. Qed.

Lemma strip_line l : lacks 13 l = true -> strip_eol (l +:+ nl) = l.
Proof.
  induction l as [|c l IH]; [done|]. rewrite lacks_cons. intros [Hc Hl]%andb_prop.
  rewrite sapp_cons. apply negb_true_iff in Hc. specialize (IH Hl).
  destruct l as [|d l]; cbn [String.app] in *.
  - cbn. by rewrite Hc.
  - rewrite sapp_cons in *. rewrite strip_eol_eq. destruct (is_empty_str (l +:+ nl)) eqn:E.
    + apply is_empty_str_spec in E. by destruct l.
    + by rewrite IH.
Qed.

Lemma strip_last_line l : lacks 10 l = true -> strip_eol l = l.
Proof.
  induction l as [|c l IH]; [done|]. rewrite lacks_cons. intros [Hc Hl]%andb_prop.
  apply negb_true_iff in Hc. specialize (IH Hl). destruct l as [|d l].
  - cbn. unfold is_nl. by rewrite Hc.
  - rewrite strip_eol_eq, IH. destruct (is_empty_str l) eqn:E; [|done].
    apply is_empty_str_spec in E as ->. rewrite lacks_cons in Hl.
    apply andb_prop in Hl as [Hd%negb_true_iff _]. unfold is_nl. by rewrite Hd.
Qed.

Lemma lines_line l rest : lacks 10 l = true -> lacks 13 l = true ->
  lines (l +:+ nl +:+ rest) = l :: lines rest.
Proof. intros Hn Hc. unfold lines. rewrite split_line by done. cbn. by rewrite strip_line. Qed.

Lemma lines_last l : lacks 10 l = true -> l <> "" -> lines l = [l].
Proof. intros Hn He. unfold lines. rewrite split_last_line by done. cbn. by rewrite strip_last_line. Qed.

(** ** Boundaries *)

Lemma char_boundary_app a b :
  is_char_boundary (a +:+ b) (slen a) = is_empty_str a || negb (starts_with_cont b).
Proof.
  induction a as [|c a IH]; [by destruct b|]. rewrite sapp_cons. destruct a as [|d a]; [done|].
  change (is_char_boundary (String d a +:+ b) (slen (String d a)) = true && negb (starts_with_cont b)).
  rewrite IH. done.
Qed.

Lemma str_ok_app a b : str_ok (a +:+ b) = true -> str_ok b = true.
Proof. induction a as [|c a IH]; [done|]. rewrite sapp_cons. cbn. intros [_ H]%andb_prop. by apply IH. Qed.

Lemma after_nl a b : str_ok (a +:+ nl +:+ b) = true -> starts_with_cont b = false.
Proof.
  intros H%str_ok_app. change (nl +:+ b) with (String (Ascii.ascii_of_nat 10) b) in H.
  cbn [str_ok] in H. apply andb_prop in H as [H _]. by destruct (starts_with_cont b).
Qed.

Lemma str_slice_app a b c :
  is_empty_str a || negb (starts_with_cont (b +:+ c)) = true ->
  is_empty_str (a +:+ b) || negb (starts_with_cont c) = true ->
  str_slice (slen a) (slen a + slen b) (a +:+ b +:+ c) = Some b.
Proof.
  intros Ha Hb. unfold str_slice.
  rewrite char_boundary_app, Ha, <- slen_app, sapp_assoc, char_boundary_app, Hb, !slen_app.
  replace (slen a <=? _) with true by (symmetry; apply Nat.leb_le; lia).
  replace (_ <=? _) with true by (symmetry; apply Nat.leb_le; lia). cbn [andb].
  rewrite <- sapp_assoc, str_drop_app. replace (_ - _) with (slen b) by lia. by rewrite str_take_app.
Qed.

(** ** Blocks of lines *)

Lemma line_offset_acc ls i k :
  fold_left (fun n l => n + slen l + 1) (take i ls) k =
  k + fold_left (fun n l => n + slen l + 1) (take i ls) 0.
Proof.
  revert i k. induction ls as [|l ls IH]; intros [|i] k; cbn; try lia.
  rewrite IH, (IH i (slen l + 1)). lia.
Qed.

Lemma line_offset_S l ls i : line_offset (l :: ls) (S i) = slen l + 1 + line_offset ls i.
Proof. unfold line_offset. cbn. by rewrite line_offset_acc. Qed.

Lemma block_length_join ls : block_length ls = slen (join nl ls).
Proof.
  induction ls as [|l [|m ls] IH]; [done|done|].
  change (slen l + 1 + block_length (m :: ls) = slen (l +:+ nl +:+ join nl (m :: ls))).
  rewrite IH, !slen_app. change (slen nl) with 1. lia.
Qed.

Lemma join_cons l m ls : join nl (l :: m :: ls) = l +:+ nl +:+ join nl (m :: ls).
Proof. reflexivity. Qed.

Definition nl_or_end (s : string) : Prop := s = "" \/ exists t, s = nl +:+ t.

(** The first [n] lines, joined, begin the text. *)
Lemma first_lines s n : lacks 13 s = true -> 1 <= n <= length (lines s) ->
  exists rest, s = join nl (take n (lines s)) +:+ rest /\ nl_or_end rest.
Proof.
  remember (slen s) as k eqn:Hk. revert s n Hk.
  induction k as [k IH] using lt_wf_ind. intros s n Hk Hcr Hn.
  destruct (first_line s) as [Hs|(l & rest & -> & Hl)].
  - destruct (decide (s = "")) as [->|Hne]; [cbn in Hn; lia|].
    rewrite lines_last in * by done. cbn in Hn. replace n with 1 by lia. cbn.
    exists "". rewrite sapp_nil_r. split; [done|by left].
  - rewrite !lacks_app in Hcr. apply andb_prop in Hcr as [Hcl Hcr]. apply andb_prop in Hcr as [_ Hcr].
    rewrite lines_line in * by done. destruct n as [|[|n]]; [lia| |].
    + exists (nl +:+ rest). cbn. split; [done|right; by exists rest].
    + cbn in Hn. destruct (IH (slen rest)) with (s := rest) (n := S n) as (t & Ht & Hte); try done; try lia.
      { rewrite !slen_app in Hk. cbn in Hk. lia. }
      exists t. split; [|done]. change (take (S (S n)) (l :: lines rest)) with (l :: take (S n) (lines rest)).
      destruct (lines rest) as [|m ms] eqn:E; [cbn in Hn; lia|]. cbn [take] in Ht |- *.
      rewrite join_cons, <- !sapp_assoc. by do 2 f_equal.
Qed.

(** A block of whole lines is where the offsets say it is. *)
Lemma block_at s i n : lacks 13 s = true -> 1 <= n -> i + n <= length (lines s) ->
  exists a rest, s = a +:+ join nl (window n i (lines s)) +:+ rest /\ slen a = line_offset (lines s) i /\
    (a = "" \/ exists a', a = a' +:+ nl) /\ nl_or_end rest.
Proof.
  revert s. induction i as [|i IH]; intros s Hcr Hn Hi.
  - destruct (first_lines s n) as (rest & Hs & Hr); [done|lia|]. exists "", rest. auto.
  - destruct (first_line s) as [Hs|(l & rest & -> & Hl)].
    { destruct (decide (s = "")) as [->|Hne]; [cbn in Hi; lia|].
      rewrite lines_last in Hi by done. cbn in Hi. lia. }
    rewrite !lacks_app in Hcr. apply andb_prop in Hcr as [Hcl Hcr]. apply andb_prop in Hcr as [_ Hcr].
    rewrite lines_line in * by done. cbn in Hi.
    destruct (IH rest Hcr Hn) as (a & t & Ht & Ha & Hae & Hte); [lia|].
    exists (l +:+ nl +:+ a), t. rewrite line_offset_S, !slen_app, Ha.
    change (window n (S i) (l :: lines rest)) with (window n i (lines rest)).
    split_and!; [by rewrite <- !sapp_assoc; do 2 f_equal|cbn; lia| |done].
    right. destruct Hae as [->|[a' ->]]; [exists l; by rewrite sapp_nil_r|].
    exists (l +:+ nl +:+ a'). by rewrite !sapp_assoc.
Qed.

Lemma block_slice_lines s i n : lacks 13 s = true -> str_ok s = true -> 1 <= n ->
  i + n <= length (lines s) ->
  block_slice s (lines s) i n = Some (join nl (window n i (lines s))).
Proof.
  intros Hcr Hok Hn Hi. destruct (block_at s i n Hcr Hn Hi) as (a & rest & Hs & Ha & Hae & Hre).
  unfold block_slice. rewrite block_length_join, <- Ha. set (b := join nl _) in *. clearbody b.
  subst s. apply str_slice_app.
  - destruct Hae as [->|[a' ->]]; [done|]. rewrite <- sapp_assoc in Hok.
    apply after_nl in Hok. by rewrite Hok, orb_true_r.
  - destruct Hre as [->|[t ->]]; by rewrite orb_true_r.
Qed.

(** A block of whole lines of the text. *)
Definition whole_lines (s m : string) : Prop :=
  exists i n, 1 <= n /\ i + n <= length (lines s) /\ m = join nl (window n i (lines s)).

Lemma whole_line s l : l ∈ lines s -> whole_lines s l.
Proof.
  intros [i Hi]%list_elem_of_lookup_1. exists i, 1. pose proof (lookup_lt_Some _ _ _ Hi).
  split; [lia|]. split; [lia|]. unfold window. by rewrite (drop_S _ _ _ Hi).
Qed.

Lemma blocks_whole s n m : 1 <= n <= length (lines s) -> m ∈ blocks n (lines s) -> whole_lines s m.
Proof.
  intros Hn (i & -> & Hi)%list_elem_of_fmap. unfold window_starts in Hi. apply elem_of_seq in Hi.
  exists i, n. split; [lia|]. split; [lia|done].
Qed.

(** In a text without carriage returns it occurs there. *)
Lemma whole_lines_occur s m : lacks 13 s = true -> whole_lines s m -> occurs s m.
Proof.
  intros Hcr (i & n & Hn & Hi & ->). destruct (block_at s i n Hcr Hn Hi) as (a & rest & Hs & _).
  exists (slen a). apply occurs_split. exists a, rest. done.
Qed.

(** ** Hunks *)


Lemma mapM_some_cons {A B} (f : A -> option B) x y l ys :
  f x = Some y -> mapM f l = Some ys -> mapM f (x :: l) = Some (y :: ys).
Proof. intros Hx Hl. cbn. by rewrite Hx, Hl. Qed.

(** ** Diffs *)

(** Lines [a] up to [b]. *)
Definition range (a b : nat) (l : list string) : list string := take (b - a) (drop a l).

Section diff.
Variables old new : list string.

(** Between (o, n) and (o', n') the lines of the two texts are the same. *)
Definition same (o n o' n' : nat) : Prop :=
  o <= o' /\ n <= n' /\ o' - o = n' - n /\ o' <= length old /\ n' <= length new /\
  range o o' old = range n n' new.

(** Between the two points the texts differ in the changes only. *)
Fixpoint differ_in (o n : nat) (changes : list ChangeRange) (o' n' : nat) : Prop :=
  match changes with
  | [] => same o n o' n'
  | c :: rest =>
      same o n (cr_old_range c).1 (cr_new_range c).1 /\
      (cr_old_range c).1 <= (cr_old_range c).2 <= length old /\
      (cr_new_range c).1 <= (cr_new_range c).2 <= length new /\
      differ_in (cr_old_range c).2 (cr_new_range c).2 rest o' n'
  end.

Definition is_diff (changes : list ChangeRange) : Prop :=
  differ_in 0 0 changes (length old) (length new).

(** ** Patches *)

Definition old_side (ls : list DiffLine) : list string := map dl_text (List.filter is_old ls).
Definition new_side (ls : list DiffLine) : list string := map dl_text (List.filter is_new ls).

(** The old lines from [pos] on, with each hunk's lines in the place of those
    it covers. *)
Fixpoint apply_hunks (pos : nat) (hunks : list HunkOutput) : list string :=
  match hunks with
  | [] => drop pos old
  | h :: rest =>
      let start := ho_old_start h - 1 in
      range pos start old ++ new_side (ho_lines h) ++ apply_hunks (start + ho_old_count h) rest
  end.

(** What a hunk says of itself is true of its lines and of the old text. *)
Definition hunk_ok (h : HunkOutput) : Prop :=
  old_side (ho_lines h) = range (ho_old_start h - 1) (ho_old_start h - 1 + ho_old_count h) old /\
  new_side (ho_lines h) = range (ho_new_start h - 1) (ho_new_start h - 1 + ho_new_count h) new /\
  ho_old_count h + ho_lines_inserted h = ho_new_count h + ho_lines_deleted h.

(** ** Ranges *)

Lemma range_app a b c (l : list string) : a <= b -> b <= c -> range a b l ++ range b c l = range a c l.
Proof.
  intros Hab Hbc. unfold range. replace (c - a) with ((b - a) + (c - b)) by lia.
  rewrite <- (take_take_drop (drop a l) (b - a) (c - b)), drop_drop. do 3 f_equal. lia.
Qed.

Lemma range_length a b (l : list string) : b <= length l -> length (range a b l) = b - a.
Proof. intros. unfold range. rewrite length_take, length_drop. lia. Qed.

Lemma range_end a (l : list string) : range a (length l) l = drop a l.
Proof. unfold range. apply take_ge. rewrite length_drop. lia. Qed.

Lemma range_nil a (l : list string) : range a a l = [].
Proof. unfold range. by rewrite Nat.sub_diag. Qed.

Lemma range_range a b c d (l : list string) :
  a <= c -> c <= d -> d <= b -> range (c - a) (d - a) (range a b l) = range c d l.
Proof.
  intros. unfold range. rewrite skipn_firstn_comm, drop_drop, take_take.
  f_equal; [lia|]. f_equal. lia.
Qed.

Lemma range_lookup a b (l : list string) : a < b -> b <= length l ->
  exists x, l !! a = Some x /\ range a b l = x :: range (S a) b l.
Proof.
  intros Hab Hb. destruct (lookup_lt_is_Some_2 l a) as [x Hx]; [lia|]. exists x. split; [done|].
  unfold range. rewrite (drop_S _ _ _ Hx). by replace (b - a) with (S (b - S a)) by lia.
Qed.

Lemma same_split o n o' n' p q :
  same o n o' n' -> o <= p <= o' -> n <= q <= n' -> p - o = q - n ->
  same o n p q /\ same p q o' n'.
Proof.
  intros (Ho & Hn & Hd & Hlo & Hln & Hr) Hp Hq Hpq.
  assert (H1 : range o p old = range n q new).
  { pose proof (f_equal (range (o - o) (p - o)) Hr) as H. rewrite range_range in H by lia.
    replace (range (o - o) (p - o)) with (range (n - n) (q - n)) in H by (f_equal; lia).
    by rewrite range_range in H by lia. }
  assert (H2 : range p o' old = range q n' new).
  { pose proof (f_equal (range (p - o) (o' - o)) Hr) as H. rewrite range_range in H by lia.
    replace (range (p - o) (o' - o)) with (range (q - n) (n' - n)) in H by (f_equal; lia).
    by rewrite range_range in H by lia. }
  repeat split; try lia; done.
Qed.

Lemma same_join o n p q o' n' : same o n p q -> same p q o' n' -> same o n o' n'.
Proof.
  intros (? & ? & ? & ? & ? & Ha) (? & ? & ? & ? & ? & Hb). repeat split; try lia.
  by rewrite <- (range_app o p o'), <- (range_app n q n'), Ha, Hb by lia.
Qed.

Lemma same_refl o n : o <= length old -> n <= length new -> same o n o n.
Proof. intros. repeat split; try lia. by rewrite !range_nil. Qed.

(** ** Lines of a hunk *)

Lemma context_lines_spec o n o' n' : same o n o' n' ->
  exists ls, context_lines old o n o' n' = Some ls /\ old_side ls = range o o' old /\
    new_side ls = range n n' new /\ List.filter is_old ls = ls /\ List.filter is_new ls = ls.
Proof.
  intros (Ho & Hn & Hd & Hlo & Hln & Hr). unfold context_lines.
  replace (Nat.min (o' - o) (n' - n)) with (o' - o) by lia. rewrite <- Hr. clear Hr Hln n' Hn Hd.
  enough (H : forall k m, o + k + m = o' -> exists ls,
    mapM (context_line old o n) (seq k m) = Some ls /\ old_side ls = range (o + k) o' old /\
    new_side ls = range (o + k) o' old /\ List.filter is_old ls = ls /\ List.filter is_new ls = ls).
  { destruct (H 0 (o' - o)) as (ls & Hls); [lia|]. exists ls. by rewrite Nat.add_0_r in Hls. }
  intros k m. revert k. induction m as [|m IH]; intros k Hk.
  - exists []. replace o' with (o + k) by lia. by rewrite range_nil.
  - destruct (range_lookup (o + k) o' old) as (x & Hx & Hrx); [lia..|].
    destruct (IH (S k)) as (ls & Hls & H1 & H2 & H3 & H4); [lia|].
    eexists. split; [apply mapM_some_cons; [unfold context_line; by rewrite Hx|exact Hls]|]. rewrite Hrx. unfold old_side, new_side in *. cbn.
    replace (o + S k) with (S (o + k)) in H1, H2 by lia. by rewrite H1, H2, H3, H4.
Qed.

Lemma delete_lines_spec a m : a + m <= length old ->
  exists ls, mapM (delete_line old) (seq a m) = Some ls /\ old_side ls = range a (a + m) old /\
    new_side ls = [] /\ List.filter is_old ls = ls /\ List.filter is_new ls = [].
Proof.
  revert a. induction m as [|m IH]; intros a Ha.
  - exists []. by rewrite Nat.add_0_r, range_nil.
  - destruct (range_lookup a (a + S m) old) as (x & Hx & Hr); [lia..|].
    destruct (IH (S a)) as (ls & Hls & H1 & H2 & H3 & H4); [lia|].
    eexists. split; [apply mapM_some_cons; [unfold delete_line; by rewrite Hx|exact Hls]|]. rewrite Hr. unfold old_side, new_side in *. cbn.
    replace (a + S m) with (S a + m) by lia. by rewrite H1, H3, H4.
Qed.

Lemma insert_lines_spec a m : a + m <= length new ->
  exists ls, mapM (insert_line new) (seq a m) = Some ls /\ new_side ls = range a (a + m) new /\
    old_side ls = [] /\ List.filter is_old ls = [] /\ List.filter is_new ls = ls.
Proof.
  revert a. induction m as [|m IH]; intros a Ha.
  - exists []. by rewrite Nat.add_0_r, range_nil.
  - destruct (range_lookup a (a + S m) new) as (x & Hx & Hr); [lia..|].
    destruct (IH (S a)) as (ls & Hls & H1 & H2 & H3 & H4); [lia|].
    eexists. split; [apply mapM_some_cons; [unfold insert_line; by rewrite Hx|exact Hls]|]. rewrite Hr. unfold old_side, new_side in *. cbn.
    replace (a + S m) with (S a + m) by lia. by rewrite H1, H3, H4.
Qed.

(** ** Hunks *)

Lemma old_side_app a b : old_side (a ++ b) = old_side a ++ old_side b.
Proof. unfold old_side. by rewrite List.filter_app, map_app. Qed.
Lemma new_side_app a b : new_side (a ++ b) = new_side a ++ new_side b.
Proof. unfold new_side. by rewrite List.filter_app, map_app. Qed.

(** How many lines of each kind there are. *)
Definition inserted (ls : list DiffLine) : nat := length (List.filter (fun l => negb (is_old l)) ls).
Definition deleted (ls : list DiffLine) : nat := length (List.filter (fun l => negb (is_new l)) ls).

Lemma sides_count ls :
  length (List.filter is_old ls) + inserted ls = length (List.filter is_new ls) + deleted ls.
Proof.
  unfold inserted, deleted. induction ls as [|[[] t a b] ls IH]; cbn in *; lia.
Qed.

(** The lines of a region's changes are the two texts' lines between its ends. *)
Lemma change_lines_spec changes o n o' n' : differ_in o n changes o' n' ->
  exists ls, change_lines old new o n changes o' n' = Some ls /\
    old_side ls = range o o' old /\ new_side ls = range n n' new /\ o <= o' /\ n <= n'.
Proof.
  revert o n. induction changes as [|[[a b] [c d]] rest IH]; intros o n; cbn [differ_in cr_old_range cr_new_range fst snd].
  - intros H. destruct (context_lines_spec _ _ _ _ H) as (ls & ? & ? & ? & _).
    exists ls. destruct H as (? & ? & _). done.
  - intros (Hs & Hab & Hcd & Hrest). pose proof Hs as (Hoa & Hnc & Hd & _ & _ & _).
    destruct (context_lines_spec _ _ _ _ Hs) as (l1 & E1 & O1 & N1 & _).
    destruct (delete_lines_spec a (b - a)) as (l2 & E2 & O2 & N2 & _); [lia|].
    destruct (insert_lines_spec c (d - c)) as (l3 & E3 & N3 & O3 & _); [lia|].
    destruct (IH _ _ Hrest) as (l4 & E4 & O4 & N4 & ? & ?).
    exists (l1 ++ l2 ++ l3 ++ l4). cbn [change_lines cr_old_range cr_new_range].
    replace (o + Nat.min (a - o) (c - n)) with a by lia.
    replace (n + Nat.min (a - o) (c - n)) with c by lia.
    replace (Nat.max a b) with b by lia. replace (Nat.max c d) with d by lia.
    rewrite E1. cbn. rewrite E2. cbn. rewrite E3. cbn. rewrite E4. cbn.
    split; [done|]. rewrite !old_side_app, !new_side_app, O1, O2, O3, O4, N1, N2, N3, N4.
    replace (a + (b - a)) with b by lia. replace (c + (d - c)) with d by lia. cbn.
    rewrite !range_app by lia. split; [done|]. split; [done|]. lia.
Qed.

Lemma differ_in_bounds changes o n o' n' :
  differ_in o n changes o' n' -> o' <= length old /\ n' <= length new.
Proof.
  revert o n. induction changes as [|c rest IH]; intros o n; cbn; [unfold same; tauto|].
  intros (_ & _ & _ & H). by eapply IH.
Qed.

Lemma differ_in_snoc changes c o n a b o' n' :
  differ_in o n changes a b -> same a b (cr_old_range c).1 (cr_new_range c).1 ->
  (cr_old_range c).1 <= (cr_old_range c).2 <= length old ->
  (cr_new_range c).1 <= (cr_new_range c).2 <= length new ->
  same (cr_old_range c).2 (cr_new_range c).2 o' n' ->
  differ_in o n (changes ++ [c]) o' n'.
Proof.
  revert o n. induction changes as [|d rest IH]; intros o n; cbn.
  - intros H1 H2 Ho Hn H3. refine (conj _ (conj Ho (conj Hn H3))). by eapply same_join.
  - intros (H1 & Hd1 & Hd2 & H2) Hs Ho Hn H3. refine (conj H1 (conj Hd1 (conj Hd2 _))). by apply IH.
Qed.

Lemma differ_in_extend changes o n a b a' b' :
  differ_in o n changes a b -> same a b a' b' -> differ_in o n changes a' b'.
Proof.
  revert o n. induction changes as [|d rest IH]; intros o n; cbn; [apply same_join|].
  intros (H1 & Hd1 & Hd2 & H2) Hs. refine (conj H1 (conj Hd1 (conj Hd2 _))). by apply IH.
Qed.

Definition region_differs (r : HunkRegion) : Prop :=
  differ_in (hg_old_range r).1 (hg_new_range r).1 (hg_changes r)
    (hg_old_range r).2 (hg_new_range r).2.

Lemma build_hunk_spec r : region_differs r ->
  exists h, build_hunk old new r = Some h /\ hunk_ok h /\
    ho_old_start h = (hg_old_range r).1 + 1 /\ ho_old_count h = (hg_old_range r).2 - (hg_old_range r).1 /\
    new_side (ho_lines h) = range (hg_new_range r).1 (hg_new_range r).2 new.
Proof.
  intros H. pose proof (differ_in_bounds _ _ _ _ _ H) as [Ho Hn].
  destruct (change_lines_spec _ _ _ _ _ H) as (ls & E & O & N & ? & ?).
  unfold build_hunk. rewrite E. cbn. eexists. split; [done|].
  assert (Hoc : context_old_count ls = (hg_old_range r).2 - (hg_old_range r).1).
  { pose proof (f_equal length O) as Hl. rewrite range_length in Hl by done.
    unfold old_side in Hl. by rewrite length_map in Hl. }
  assert (Hnc : context_new_count ls = (hg_new_range r).2 - (hg_new_range r).1).
  { pose proof (f_equal length N) as Hl. rewrite range_length in Hl by done.
    unfold new_side in Hl. by rewrite length_map in Hl. }
  unfold hunk_ok. cbn. rewrite Hoc, Hnc, !Nat.add_sub.
  pose proof (sides_count ls) as Hc. unfold inserted, deleted in Hc.
  unfold context_old_count, context_new_count in *. rewrite Hoc, Hnc in Hc.
  fold (old_side ls). fold (new_side ls). rewrite O, N. split; [|done].
  replace ((hg_old_range r).1 + ((hg_old_range r).2 - (hg_old_range r).1)) with (hg_old_range r).2 by lia.
  replace ((hg_new_range r).1 + ((hg_new_range r).2 - (hg_new_range r).1)) with (hg_new_range r).2 by lia.
  done.
Qed.

(** ** Regions *)

(** Regions one after the other, the texts the same between them, from one
    point to another, the end of the last region. *)
Fixpoint tiled (o n : nat) (regions : list HunkRegion) (o' n' : nat) : Prop :=
  match regions with
  | [] => o = o' /\ n = n'
  | r :: rest =>
      same o n (hg_old_range r).1 (hg_new_range r).1 /\ region_differs r /\
      tiled (hg_old_range r).2 (hg_new_range r).2 rest o' n'
  end.

Lemma tiled_snoc regions r o n a b :
  tiled o n regions a b -> same a b (hg_old_range r).1 (hg_new_range r).1 -> region_differs r ->
  tiled o n (regions ++ [r]) (hg_old_range r).2 (hg_new_range r).2.
Proof.
  revert o n. induction regions as [|q rest IH]; intros o n; cbn.
  - intros [-> ->] Hs Hd. done.
  - intros (H1 & H2 & H3) Hs Hd. refine (conj H1 (conj H2 _)). by apply IH.
Qed.

(** While changes are being grouped: the regions but the newest are tiled, and
    the newest one ends three lines after its last change, at most. *)
Definition grouping (regions : list HunkRegion) (o n : nat) : Prop :=
  match regions with
  | [] => o = 0 /\ n = 0
  | current :: older =>
      exists a b, tiled 0 0 (rev older) a b /\
        same a b (hg_old_range current).1 (hg_new_range current).1 /\
        differ_in (hg_old_range current).1 (hg_new_range current).1 (hg_changes current) o n /\
        (hg_old_range current).2 = Nat.min (o + CONTEXT_LINES) (length old) /\
        (hg_new_range current).2 = Nat.min (n + CONTEXT_LINES) (length new)
  end.

(** The newest region is complete at a point as far as its ends. *)
Lemma current_differs current o n o' n' :
  differ_in (hg_old_range current).1 (hg_new_range current).1 (hg_changes current) o n ->
  (hg_old_range current).2 = Nat.min (o + CONTEXT_LINES) (length old) ->
  (hg_new_range current).2 = Nat.min (n + CONTEXT_LINES) (length new) ->
  same o n o' n' -> (hg_old_range current).2 - o = (hg_new_range current).2 - n ->
  (hg_old_range current).2 <= o' ->
  region_differs current /\
  same (hg_old_range current).2 (hg_new_range current).2 o' n'.
Proof.
  intros Hd Ho Hn Hs Heq Hle. pose proof (differ_in_bounds _ _ _ _ _ Hd) as [Hlo Hln].
  pose proof Hs as (H1 & H2 & H3 & H4 & H5 & _). unfold CONTEXT_LINES in *.
  destruct (same_split _ _ _ _ (hg_old_range current).2 (hg_new_range current).2 Hs) as [Ha Hb]; try lia.
  split; [|done]. unfold region_differs. by eapply differ_in_extend.
Qed.

Lemma add_change_grouping regions c o n :
  grouping regions o n -> same o n (cr_old_range c).1 (cr_new_range c).1 ->
  (cr_old_range c).1 <= (cr_old_range c).2 <= length old ->
  (cr_new_range c).1 <= (cr_new_range c).2 <= length new ->
  grouping (add_change (length old) (length new) regions c) (cr_old_range c).2 (cr_new_range c).2.
Proof.
  destruct c as [[a b] [c d]]. cbn. intros Hg Hs Hab Hcd.
  pose proof Hs as (Hoa & Hnc & Hgap & _). unfold add_change. cbn.
  assert (Hfirst : forall p q, same p q a c ->
    differ_in p q [{| cr_old_range := (a, b); cr_new_range := (c, d) |}] b d).
  { intros p q Hpq. refine (conj Hpq (conj Hab (conj Hcd _))). apply same_refl; cbn; lia. }
  destruct regions as [|current older].
  - destruct Hg as [-> ->]. cbn. exists 0, 0.
    destruct (same_split _ _ _ _ (a - CONTEXT_LINES) (c - CONTEXT_LINES) Hs) as [H1 H2]; try lia.
    refine (conj (conj eq_refl eq_refl) (conj H1 (conj (Hfirst _ _ H2) (conj eq_refl eq_refl)))).
  - destruct Hg as (p & q & Ht & Hpq & Hd & Ho & Hn).
    destruct ((a - CONTEXT_LINES <=? _) || _) eqn:Hov; cbn.
    + exists p, q. refine (conj Ht (conj Hpq (conj _ _))).
      * apply (differ_in_snoc _ _ _ _ o n); cbn; [done|done|lia|lia|]. apply same_refl; lia.
      * unfold CONTEXT_LINES in *. lia.
    + apply orb_false_iff in Hov as [Hov1%Nat.leb_gt Hov2%Nat.leb_gt]. unfold CONTEXT_LINES in *.
      destruct (same_split _ _ _ _ (a - 3) (c - 3) Hs) as [H1 H2]; try lia.
      destruct (current_differs current o n (a - 3) (c - 3)) as [Hr Hafter]; try done; try lia.
      exists (hg_old_range current).2, (hg_new_range current).2. cbn [rev].
      refine (conj _ (conj Hafter (conj (Hfirst _ _ H2) (conj eq_refl eq_refl)))).
      by eapply tiled_snoc.
Qed.

Lemma group_changes_tiled changes : is_diff changes ->
  exists o n, tiled 0 0 (group_changes_into_regions changes (length old) (length new)) o n /\
    same o n (length old) (length new).
Proof.
  unfold is_diff, group_changes_into_regions.
  enough (H : forall regions o n, grouping regions o n ->
    differ_in o n changes (length old) (length new) ->
    exists o' n', tiled 0 0 (rev (fold_left (add_change (length old) (length new)) changes regions)) o' n' /\
      same o' n' (length old) (length new)).
  { intros Hd. by apply (H [] 0 0). }
  induction changes as [|c rest IH]; intros regions o n Hg Hd; cbn [fold_left].
  - cbn in Hd. destruct regions as [|current older].
    + destruct Hg as [-> ->]. exists 0, 0. done.
    + destruct Hg as (p & q & Ht & Hpq & Hdc & Ho & Hn).
      pose proof Hd as (H1 & H2 & H3 & _). unfold CONTEXT_LINES in *.
      destruct (current_differs current o n (length old) (length new)) as [Hr Hs]; try done; try lia.
      exists (hg_old_range current).2, (hg_new_range current).2. split; [|done].
      cbn [rev]. by eapply tiled_snoc.
  - destruct Hd as (Hs & Ho & Hn & Hd). eapply IH; [|done]. by eapply add_change_grouping.
Qed.

Lemma tiled_apply regions o n o' n' : tiled o n regions o' n' ->
  same o' n' (length old) (length new) ->
  exists hs, mapM (build_hunk old new) regions = Some hs /\ Forall hunk_ok hs /\
    apply_hunks o hs = drop n new.
Proof.
  revert o n. induction regions as [|r rest IH]; intros o n Ht Hend.
  - destruct Ht as [-> ->]. exists []. split; [done|]. split; [by constructor|]. cbn.
    destruct Hend as (_ & _ & _ & _ & _ & H). by rewrite !range_end in H.
  - destruct Ht as (Hs & Hr & Ht). destruct (build_hunk_spec _ Hr) as (h & Eh & Hok & Hst & Hct & Hns).
    destruct (IH _ _ Ht Hend) as (hs & Ehs & Hf & Ha). exists (h :: hs).
    split; [by apply mapM_some_cons|]. split; [by constructor|]. cbn [apply_hunks].
    rewrite Hst, Hct, Hns, Nat.add_sub.
    destruct (change_lines_spec _ _ _ _ _ Hr) as (_ & _ & _ & _ & Hle & Hle').
    pose proof (differ_in_bounds _ _ _ _ _ Hr) as [_ Hln].
    replace ((hg_old_range r).1 + _) with (hg_old_range r).2 by lia. rewrite Ha.
    destruct Hs as (_ & Hn & _ & _ & _ & ->).
    rewrite app_assoc, range_app by done.
    assert (n <= (hg_new_range r).2) by lia.
    rewrite <- (range_end (hg_new_range r).2), range_app by lia. apply range_end.
Qed.
End diff.
