(* ===== verification/FileTools.v ===== *)
(** The tools that change files, as they are called (tools/context.rs;
    tools/builtins/edit.rs, multiedit.rs, write_file.rs, delete_file.rs): the
    arguments, the path, the file system, and the answer.

    The file system is a map from paths to texts; its failures are parameters,
    and a write that fails may leave anything in the file. *)
From S2P Require Import Prelude Numbers Text Json TextOps EditTool EditOutput.

Local Open Scope Z_scope.

Inductive ToolError :=
| InvalidRequest (e : string)
| ProviderError (e : string)
| PermissionDenied (e : string)
| TeSessionError (e : string)
| TeOther (e : string).

Definition tool_error_display (e : ToolError) : string :=
  match e with
  | InvalidRequest e => "Invalid request: " +:+ e
  | ProviderError e => "Provider error: " +:+ e
  | PermissionDenied e => "Permission denied: " +:+ e
  | TeSessionError e => "Session error: " +:+ e
  | TeOther e => "Other error: " +:+ e
  end.

(** A call ends with the tool's error, or with the panic of a slice. *)
Inductive ToolFailure := TfError (e : ToolError) | TfPanic.

Record Disk := { dk_now : nat; dk_files : gmap string string; dk_dirs : gset string }.

Definition set_files (f : gmap string string -> gmap string string) (d : Disk) : Disk :=
  {| dk_now := S (dk_now d); dk_files := f (dk_files d); dk_dirs := dk_dirs d |}.
Definition set_dirs (f : gset string -> gset string) (d : Disk) : Disk :=
  {| dk_now := S (dk_now d); dk_files := dk_files d; dk_dirs := f (dk_dirs d) |}.

(** A field of an answer built with [json!]. *)
Inductive JsonField := JfStr (s : string) | JfNat (n : nat) | JfBool (b : bool).

Section tools.
Context {J : Json}.

(** The values of JSON the tools read, the distance and the diff of the
    libraries, and the failures of the file system: of a read (a file that is
    missing or is no UTF-8 text gives the error of its absence), of a write,
    with what it leaves, of making a directory, and of a removal. *)
Class ToolEnv := {
  te_as_bool : Value -> option bool;
  te_as_array : Value -> option (list Value);
  te_edit_of_value : Value -> result string (string * string * bool);
  te_levenshtein : string -> string -> nat;
  te_diff_changes : string -> string -> list ChangeRange;
  te_read_error : nat -> string -> option string;
  te_missing : string -> string;
  te_write_error : nat -> string -> option (string * option string);
  te_mkdir_error : nat -> string -> option string;
  te_remove_error : nat -> string -> option string;
  te_parent : string -> option string;
  te_serialize : list (string * JsonField) -> result string string;
}.
Context {TE : ToolEnv}.

Definition T (A : Type) : Type := M Disk ToolFailure A.

Definition invalid {A} (e : string) : T A := fail (TfError (InvalidRequest e)).
Definition failed {A} (e : string) : T A := fail (TfError (ProviderError e)).

(** ** The context *)

(** [ToolContext::resolve_path] *)
Definition resolve_path (cwd : option string) (path : string) : T string :=
  if is_absolute path then mret path
  else match cwd with
       | Some cwd => mret (path_join cwd path)
       | None => invalid "Cannot resolve relative path: no working directory set"
       end.

(** [args.get(key).and_then(Value::as_str).ok_or_else(..)?] *)
Definition required_str (args : Value) (key : string) : T string :=
  match value_get_str args key with Some s => mret s | None => invalid (key +:+ " is required") end.

Definition optional_bool (args : Value) (key : string) (dflt : bool) : bool :=
  default dflt (v ← value_get args key; te_as_bool v).

(** ** Files *)

Definition disk_tick : T nat := updating (fun d =>
  (dk_now d, {| dk_now := S (dk_now d); dk_files := dk_files d; dk_dirs := dk_dirs d |})).

Definition read_to_string (path : string) : T string :=
  t ← disk_tick;
  content ← gets (fun d => dk_files d !! path);
  match te_read_error t path, content with
  | Some e, _ => failed ("Failed to read file: " +:+ e)
  | None, None => failed ("Failed to read file: " +:+ te_missing path)
  | None, Some content => mret content
  end.

(** [tokio::fs::write(path, content)] *)
Definition write_path (prefix path content : string) : T unit :=
  t ← gets dk_now;
  match te_write_error t path with
  | None => modify (set_files (insert path content))
  | Some (e, leftover) =>
      modify (set_files (fun files => partial_alter (fun _ => leftover) path files)) ≫= fun _ =>
      failed (prefix +:+ e)
  end.

(** The receipt; [None] of a hunk is a panic. *)
Definition receipt (path original new : string) : T string :=
  match build_file_output_from_diff te_diff_changes path original new with
  | Some output => mret (format_compact_receipt [output])
  | None => fail TfPanic
  end.

(** ** The tools *)

(** [EditTool::replace] in a call: its error, as [wrap] has it. *)
Definition replace_or_fail (wrap : string -> string) (content old_string new_string : string)
    (all : bool) : T string :=
  match edit_replace te_levenshtein content old_string new_string all with
  | None => fail TfPanic
  | Some (Err e) => failed (wrap e)
  | Some (Ok content') => mret content'
  end.

Definition edit_call (cwd : option string) (args : Value) : T string :=
  file_path_str ← required_str args "filePath";
  old_string ← required_str args "oldString";
  new_string ← required_str args "newString";
  let replace_all := optional_bool args "replaceAll" false in
  if String.eqb old_string new_string then invalid "oldString and newString must be different" else
  file_path ← resolve_path cwd file_path_str;
  content ← read_to_string file_path;
  replacement ← replace_or_fail (fun e => e) content old_string new_string replace_all;
  write_path "Failed to write file: " file_path replacement ≫= fun _ =>
  receipt file_path content replacement.

Record EditOperation := { eo_old_string : string; eo_new_string : string; eo_replace_all : bool }.

Definition edit_operation (v : Value) : result string EditOperation :=
  match te_edit_of_value v with
  | Ok (old_string, new_string, all) =>
      Ok {| eo_old_string := old_string; eo_new_string := new_string; eo_replace_all := all |}
  | Err e => Err e
  end.

(** [.map(..).collect::<Result<Vec<_>, _>>()]: the first error. *)
Fixpoint collect_results {A B} (f : A -> result string B) (l : list A) : result string (list B) :=
  match l with
  | [] => Ok []
  | x :: rest =>
      match f x with
      | Err e => Err e
      | Ok y => match collect_results f rest with Ok ys => Ok (y :: ys) | Err e => Err e end
      end
  end.

(** The check of the edits, [index] counted from one. *)
Fixpoint check_edits (index : nat) (edits : list EditOperation) : T unit :=
  match edits with
  | [] => mret tt
  | edit :: rest =>
      if is_empty_str (eo_old_string edit)
      then invalid ("edit " +:+ nat_str index +:+ " has empty oldString")
      else if String.eqb (eo_old_string edit) (eo_new_string edit)
      then invalid ("edit " +:+ nat_str index +:+ " has identical oldString and newString")
      else check_edits (S index) rest
  end.

Definition edit_failed (index total : nat) (e : string) : string :=
  "multiedit failed at edit " +:+ nat_str index +:+ " of " +:+ nat_str total +:+ ": " +:+ e +:+
  "; no changes written".

(** The edits in memory, each on the result of those before it. *)
Fixpoint apply_edits (index total : nat) (edits : list EditOperation) (content : string)
  : T string :=
  match edits with
  | [] => mret content
  | edit :: rest =>
      content' ← replace_or_fail (edit_failed index total) content (eo_old_string edit)
                   (eo_new_string edit) (eo_replace_all edit);
      apply_edits (S index) total rest content'
  end.

Definition multiedit_call (cwd : option string) (args : Value) : T string :=
  file_path_str ← required_str args "filePath";
  match v ← value_get args "edits"; te_as_array v with
  | None => invalid "edits array is required"
  | Some edits_val =>
      match collect_results edit_operation edits_val with
      | Err e => invalid ("Invalid edit operation: " +:+ e)
      | Ok edits =>
          if (length edits =? 0)%nat then invalid "edits array must not be empty" else
          check_edits 1 edits ≫= fun _ =>
          file_path ← resolve_path cwd file_path_str;
          original_content ← read_to_string file_path;
          content ← apply_edits 1 (length edits) edits original_content;
          write_path "Failed to write file: " file_path content ≫= fun _ =>
          receipt file_path original_content content
      end
  end.

(** [serde_json::to_string(&result)] *)
Definition serialized (fields : list (string * JsonField)) : T string :=
  match te_serialize fields with
  | Ok s => mret s
  | Err e => failed ("serialize failed: " +:+ e)
  end.

Definition make_dirs (path : string) : T unit :=
  match te_parent path with
  | None => mret tt
  | Some parent =>
      t ← gets dk_now;
      match te_mkdir_error t parent with
      | Some e => failed ("mkdir failed: " +:+ e)
      | None => modify (set_dirs (fun dirs => {[ parent ]} ∪ dirs))
      end
  end.

Definition write_file_call (cwd : option string) (args : Value) : T string :=
  path_arg ← required_str args "path";
  content ← required_str args "content";
  path ← resolve_path cwd path_arg;
  (if optional_bool args "create_dirs" true then make_dirs path else mret tt) ≫= fun _ =>
  write_path "write failed: " path content ≫= fun _ =>
  serialized [("path", JfStr path); ("bytes", JfNat (slen content))].

(** The files below a directory go with it. *)
Definition under (dir path : string) : bool := is_prefix_of (dir +:+ "/") path.

Definition remove_with (path : string) (kind : string) (f : Disk -> Disk) : T string :=
  t ← gets dk_now;
  match te_remove_error t path with
  | Some e => failed ("delete failed: " +:+ e)
  | None =>
      modify f ≫= fun _ =>
      serialized [("success", JfBool true); ("type", JfStr kind); ("path", JfStr path)]
  end.

Definition delete_file_call (cwd : option string) (args : Value) : T string :=
  path_arg ← required_str args "path";
  path ← resolve_path cwd path_arg;
  disk ← get;
  match dk_files disk !! path with
  | Some _ => remove_with path "file" (set_files (delete path))
  | None =>
      if bool_decide (path ∈ dk_dirs disk) then
        remove_with path "directory" (fun d =>
          set_dirs (fun dirs => filter (fun p => p <> path /\ under path p = false) dirs)
            (set_files (fun files => filter (fun kv => under path kv.1 = false) files) d))
      else invalid ("Path '" +:+ path +:+ "' does not exist")
  end.
End tools.
