(* ===== verification/EditProps.v ===== *)
(** Properties of the editing tools: an edit changes one place, a block of
    whole lines that occurs once; several edits are all made or none is; and
    the receipt's hunks, applied to the old text, give the new one. *)
From S2P Require Import Prelude Numbers Text Json TextOps EditTool EditOutput EditSpec.
From S2P Require Import FileTools.

Local Open Scope nat_scope.

(** ** What the strategies find *)

(** The texts a strategy may look for: the one given, the one given with its
    escapes resolved, or some whole lines of the content. *)
Definition candidate (content old m : string) : Prop :=
  m = old \/ m = unescape old \/ whole_lines content m.

(** A strategy that looks for nothing else. *)
Definition sound (r : string -> string -> option (list string)) : Prop :=
  forall content old ms, lacks 13 content = true -> str_ok content = true ->
    r content old = Some ms -> forall m, m ∈ ms -> candidate content old m.

Lemma candidate_block content old n m : 1 <= n <= length (lines content) ->
  m ∈ blocks n (lines content) -> candidate content old m.
Proof. intros. right. right. by eapply blocks_whole. Qed.

Lemma elem_filter {A} (f : A -> bool) x l : x ∈ List.filter f l -> x ∈ l /\ f x = true.
Proof. rewrite !list_elem_of_In. apply List.filter_In. Qed.

Lemma guard_lengths n k : (n =? 0) || (k <? n) = false -> 1 <= n <= k.
Proof. intros [?%Nat.eqb_neq ?%Nat.ltb_ge]%orb_false_iff. lia. Qed.

Lemma sound_simple : sound simple_replacer.
Proof.
  intros content old ms _ _ [= <-] m. destruct (contains content old); [|by intros ?%not_elem_of_nil].
  intros ->%list_elem_of_singleton. by left.
Qed.

Lemma candidates_range ls a b i j : (i, j) ∈ anchor_candidates ls a b -> i + 2 <= j < length ls.
Proof.
  unfold anchor_candidates. rewrite list_elem_of_omap. intros (k & _ & H).
  destruct (String.eqb _ _); [|done]. apply fmap_Some in H as (l & Hl & [= <- <-]).
  apply List.find_some in Hl as [Hl _]. apply in_seq in Hl. lia.
Qed.

Lemma sound_line_trimmed : sound line_trimmed_replacer.
Proof.
  intros content old ms Hcr Hok. unfold line_trimmed_replacer.
  destruct (_ || _) eqn:Hg; [intros [= <-] m ?%not_elem_of_nil; done|apply guard_lengths in Hg].
  intros Hms%mapM_Some m Hm. apply list_elem_of_lookup_1 in Hm as [k Hk].
  destruct (Forall2_lookup_r _ _ _ _ _ Hms Hk) as (i & Hi & Hs).
  apply list_elem_of_lookup_2, elem_filter in Hi as [Hi _].
  unfold window_starts in Hi. apply elem_of_seq in Hi.
  rewrite block_slice_lines in Hs by (done || lia). injection Hs as <-.
  right. right. eexists _, _. split; [|split; [|done]]; lia.
Qed.

Lemma anchor_slice content old i j : lacks 13 content = true -> str_ok content = true ->
  i + 2 <= j < length (lines content) ->
  exists m, block_slice content (lines content) i (j - i + 1) = Some m /\ candidate content old m.
Proof.
  intros Hcr Hok Hij. eexists. split; [apply block_slice_lines; try done; lia|].
  right. right. exists i, (j - i + 1). split; [lia|]. split; [lia|done].
Qed.

Lemma best_candidate f cs best s c :
  (fold_left (better_candidate f) cs (best, s)).1 = Some c -> best = Some c \/ c ∈ cs.
Proof.
  revert best s. induction cs as [|d cs IH]; intros best s; cbn; [by left|].
  unfold better_candidate at 2. cbn [snd]. destruct (f64_gt (f d) s); intros [H|H]%IH.
  - injection H as ->. right. by left.
  - right. by right.
  - by left.
  - right. by right.
Qed.

Lemma sound_block_anchor lev : sound (block_anchor_replacer lev).
Proof.
  intros content old ms Hcr Hok. unfold block_anchor_replacer. cbv zeta.
  destruct (_ <? 3); [intros [= <-] m ?%not_elem_of_nil; done|].
  set (search := pop_empty (lines old)). set (sim := fun c => calc_similarity _ _ _ _ _).
  set (cs := anchor_candidates _ _ _).
  assert (Hslice : forall c, c ∈ cs ->
    (fun s => [s]) <$> block_slice content (lines content) c.1 (c.2 - c.1 + 1) = Some ms ->
    forall m, m ∈ ms -> candidate content old m).
  { intros [i j] Hc%candidates_range. destruct (anchor_slice content old i j) as (m & Hm & Hcand); try done.
    cbn. rewrite Hm. intros [= <-] m' ->%list_elem_of_singleton. done. }
  destruct cs as [|c [|d rest]] eqn:Ecs; [intros [= <-] m ?%not_elem_of_nil; done| |].
  - destruct (f64_ge _ _); [apply Hslice; by left|intros [= <-] m ?%not_elem_of_nil; done].
  - destruct (fold_left _ _ _) as [best s] eqn:Eb.
    destruct (f64_ge s _); [|intros [= <-] m ?%not_elem_of_nil; done].
    destruct best as [e|]; [|intros [= <-] m ?%not_elem_of_nil; done].
    apply Hslice. pose proof (best_candidate sim (c :: d :: rest) None (f64_of_Z (-1)) e) as [H|H]; [|done|done].
    by rewrite Eb.
Qed.

Lemma sound_whitespace : sound whitespace_normalized_replacer.
Proof.
  intros content old ms _ _. unfold whitespace_normalized_replacer. cbv zeta.
  destruct (1 <? _) eqn:Hn; [destruct (_ <=? _) eqn:Hl|]; intros [= <-] m Hm.
  - apply elem_filter in Hm as [Hm _]. apply Nat.ltb_lt in Hn. apply Nat.leb_le in Hl.
    eapply candidate_block; [|done]. lia.
  - by apply not_elem_of_nil in Hm.
  - apply elem_filter in Hm as [Hm _]. right. right. by apply whole_line.
Qed.

Lemma filter_opt_subset {A} (f : A -> option bool) l ms x :
  filter_opt f l = Some ms -> x ∈ ms -> x ∈ l.
Proof.
  revert ms. induction l as [|y l IH]; cbn; intros ms.
  - by intros [= <-].
  - destruct (f y) as [b|]; [cbn|done]. destruct (filter_opt f l) as [k|]; [cbn|done].
    destruct b; intros [= <-]; rewrite ?elem_of_cons; [intros [->|H]|intros H]; try (by left);
      right; by eapply IH.
Qed.

Lemma sound_indentation : sound indentation_flexible_replacer.
Proof.
  intros content old ms _ _. unfold indentation_flexible_replacer.
  destruct (remove_indentation old) as [nf|]; [cbn|done].
  destruct (_ || _) eqn:Hg; [intros [= <-] m ?%not_elem_of_nil; done|apply guard_lengths in Hg].
  intros H m Hm. eapply candidate_block; [done|]. by eapply filter_opt_subset.
Qed.

Lemma push_new_subset l acc x : x ∈ fold_left push_new l acc -> x ∈ acc \/ x ∈ l.
Proof.
  revert acc. induction l as [|y l IH]; intros acc; cbn; [by left|].
  intros [H|H]%IH; [|right; by right]. unfold push_new in H. destruct (bool_decide _); [by left|].
  rewrite elem_of_app, list_elem_of_singleton in H. destruct H as [H| ->]; [by left|right; by left].
Qed.

Lemma sound_escape : sound escape_normalized_replacer.
Proof.
  intros content old ms _ _. unfold escape_normalized_replacer. cbv zeta.
  destruct (_ || _) eqn:Hg; [intros [= <-] m ?%not_elem_of_nil; done|apply guard_lengths in Hg].
  destruct (fold_left _ _ _) as [|b bs] eqn:Ef; intros [= <-] m.
  - destruct (contains _ _); [|by intros ?%not_elem_of_nil].
    intros ->%list_elem_of_singleton. right. by left.
  - rewrite <- Ef. intros [H|H]%push_new_subset; [by apply not_elem_of_nil in H|].
    apply elem_filter in H as [H _]. by eapply candidate_block.
Qed.

Lemma sound_trimmed : sound trimmed_boundary_replacer.
Proof.
  intros content old ms _ _. unfold trimmed_boundary_replacer. cbv zeta.
  destruct (String.eqb _ _); [intros [= <-] m ?%not_elem_of_nil; done|].
  destruct (_ || _) eqn:Hg; [intros [= <-] m ?%not_elem_of_nil; done|apply guard_lengths in Hg].
  intros [= <-] m [H _]%elem_filter. by eapply candidate_block.
Qed.

Lemma sound_context : sound context_aware_replacer.
Proof.
  intros content old ms _ _. unfold context_aware_replacer. cbv zeta.
  destruct (_ <? 3); [intros [= <-] m ?%not_elem_of_nil; done|]. intros [= <-] m Hm.
  apply list_elem_of_omap in Hm as ([i j] & Hc%candidates_range & H). unfold context_match in H.
  destruct (negb _); [done|]. destruct (count_matching _ _) as [a b]. destruct (_ || _); [|done].
  injection H as <-. right. right. exists i, (j - i + 1). cbn. split; [lia|]. split; [lia|done].
Qed.

Lemma occurrences_find fuel content old m : m ∈ occurrences fuel content old -> m = old.
Proof.
  revert content. induction fuel as [|fuel IH]; intros content; cbn; [by intros ?%not_elem_of_nil|].
  destruct (str_find content old); [|by intros ?%not_elem_of_nil].
  rewrite elem_of_cons. intros [->|H]; [done|by eapply IH].
Qed.

Lemma sound_occurrences : sound multi_occurrence_replacer.
Proof. intros content old ms _ _ [= <-] m Hm. left. by eapply occurrences_find. Qed.

Lemma replacers_sound lev : Forall sound (replacers lev).
Proof.
  repeat (apply Forall_cons_2 || apply Forall_nil_2); auto using sound_simple, sound_line_trimmed,
    sound_block_anchor, sound_whitespace, sound_indentation, sound_escape, sound_trimmed,
    sound_context, sound_occurrences.
Qed.

(** ** What an edit does *)

Lemma replace_at_app a search b new : replace_at (a +:+ search +:+ b) search new (slen a) = a +:+ new +:+ b.
Proof.
  unfold replace_at. rewrite str_take_app. do 2 f_equal.
  by rewrite <- slen_app, sapp_assoc, str_drop_app.
Qed.

(** The edit that was made: one text, at its only place. *)
Definition one_place (content search new c' : string) : Prop :=
  exists a b, content = a +:+ search +:+ b /\ c' = a +:+ new +:+ b /\ occurs_once content search.

Lemma try_match_one content new search c' found :
  try_match content new false search = (Some c', found) -> one_place content search new c'.
Proof.
  unfold try_match. destruct (str_find content search) as [i|] eqn:Hf; [|done].
  case_bool_decide as Hr; [|done]. intros [= <- _].
  apply (find_rfind_once _ _ _ Hf) in Hr. apply str_find_Some in Hf as [Ho _].
  apply occurs_split in Ho as (a & b & -> & <-). exists a, b. by rewrite replace_at_app.
Qed.

Lemma try_match_unique content new search i : occurs_at content search i -> occurs_once content search ->
  try_match content new false search = (Some (replace_at content search new i), true).
Proof.
  intros Hi Ho. unfold try_match.
  destruct (proj2 (str_find_occurs content search) (ex_intro _ i Hi)) as [k Hk]. rewrite Hk.
  rewrite bool_decide_eq_true_2 by by apply (find_rfind_once _ _ _ Hk).
  apply str_find_Some in Hk as [Hk _]. destruct Ho as (j & _ & Hu). by rewrite (Hu _ Hi), (Hu _ Hk).
Qed.

Lemma try_matches_one content new found ms c' b :
  try_matches content new false found ms = (Some c', b) ->
  exists m, m ∈ ms /\ one_place content m new c'.
Proof.
  revert found. induction ms as [|m ms IH]; intros found; cbn; [done|].
  destruct (try_match content new false m) as [[r|] f] eqn:Hm.
  - intros [= <- _]. exists m. split; [by left|by eapply try_match_one].
  - intros (k & Hk & Ho)%IH. exists k. split; [by right|done].
Qed.

Lemma try_replacers_one content old new found rs c' : Forall sound rs ->
  lacks 13 content = true -> str_ok content = true ->
  try_replacers content old new false found rs = Some (Ok c') ->
  exists m, candidate content old m /\ one_place content m new c'.
Proof.
  intros Hrs Hcr Hok. revert found. induction Hrs as [|r rs Hr Hrs IH]; intros found; cbn; [done|].
  destruct (r content old) as [ms|] eqn:Hm; [cbn|done].
  destruct (try_matches content new false found ms) as [[c|] f] eqn:Ht.
  - intros [= <-]. apply try_matches_one in Ht as (m & Hin & Ho). exists m. split; [|done].
    by eapply Hr.
  - apply IH.
Qed.

Lemma classic_once content old : occurs_once content old \/ ~ occurs_once content old.
Proof.
  destruct (str_find content old) as [i|] eqn:Hf.
  - destruct (decide (str_rfind content old = Some i)) as [Hr|Hr];
      rewrite (find_rfind_once _ _ _ Hf) in Hr; tauto.
  - right. intros (i & Hi & _).
    destruct (proj2 (str_find_occurs content old) (ex_intro _ i Hi)) as [k Hk]. congruence.
Qed.

(** The given text is taken literally when it occurs once. *)
Lemma exact_edit_is_taken lev content old new i : old <> "" -> old <> new ->
  occurs_at content old i -> occurs_once content old ->
  edit_replace lev content old new false = Some (Ok (replace_at content old new i)).
Proof.
  intros He Hne Hi Ho. unfold edit_replace. destruct old as [|c old]; [done|]. cbn [is_empty_str].
  destruct (String.eqb_spec (String c old) new); [done|]. cbn [try_replacers replacers].
  unfold simple_replacer. rewrite (proj2 (contains_occurs content (String c old))) by by exists i.
  cbn [mbind option_bind try_matches]. by rewrite (try_match_unique _ _ _ _ Hi Ho).
Qed.

(** C14: An edit that is made changes one place.  In a text without carriage
    returns, a single edit that succeeds replaces one stretch of the text,
    which occurs there exactly once: the text that was given, if it occurs
    exactly once; and otherwise that text with its escapes resolved, or a
    block of whole lines of the content.  The rest of the content is kept. *)
Theorem edit_replaces_one_block lev content old new c'
    (Hcr : lacks 13 content = true) (Hok : str_ok content = true)
    (Hrun : edit_replace lev content old new false = Some (Ok c')) :
  exists m, one_place content m new c' /\
    (occurs_once content old -> m = old) /\ candidate content old m.
Proof.
  destruct (classic_once content old) as [Ho|Hno].
  - exists old. pose proof Ho as (i & Hi & _).
    assert (He : old <> "") by (intros ->; by unfold edit_replace in Hrun).
    assert (Hne : old <> new).
    { intros ->. unfold edit_replace in Hrun. rewrite String.eqb_refl in Hrun.
      by destruct (is_empty_str new). }
    rewrite (exact_edit_is_taken lev _ _ _ _ He Hne Hi Ho) in Hrun. injection Hrun as <-.
    split; [|split; [done|by left]]. apply occurs_split in Hi as (a & b & -> & <-).
    exists a, b. rewrite replace_at_app. done.
  - unfold edit_replace in Hrun. destruct (is_empty_str old); [done|].
    destruct (String.eqb old new); [done|].
    eapply try_replacers_one in Hrun as (m & Hc & Hm); try done; [|apply replacers_sound].
    exists m. done.
Qed.

(** A distance for the examples: all or nothing. *)
Definition toy_distance (a b : string) : nat :=
  if String.eqb a b then 0 else Nat.max (slen a) (slen b).

Definition text (l : list string) : string := join nl l +:+ nl.

Lemma edit_replaces_one_block_witness :
  let content := text ["fn f() {"; "    one();"; "}"; "fn g() {}"] in
  exists m, one_place content m "fn f() {}" (text ["fn f() {}"; "fn g() {}"]) /\
    (occurs_once content (text ["fn f() {"; "one();"; "}"]) -> m = text ["fn f() {"; "one();"; "}"]) /\
    candidate content (text ["fn f() {"; "one();"; "}"]) m.
Proof.
  apply (edit_replaces_one_block toy_distance (text ["fn f() {"; "    one();"; "}"; "fn g() {}"])
           (text ["fn f() {"; "one();"; "}"]) "fn f() {}"); vm_compute; reflexivity.
Defined.

(** In a text with carriage returns the computed offsets are too small, by one
    for each line before: asked to replace the lines b and c, the tool
    replaces the end of line y and the b, and leaves the c. *)
Example crlf_edit_cuts_lines :
  let crlf := cr +:+ nl in
  edit_replace toy_distance ("x" +:+ crlf +:+ "y" +:+ crlf +:+ "b" +:+ crlf +:+ "c" +:+ crlf)
    ("b" +:+ nl +:+ "c") "Z" false =
  Some (Ok ("x" +:+ crlf +:+ "yZ" +:+ crlf +:+ "c" +:+ crlf)).
Proof. vm_compute. reflexivity. Qed.

(** A text that occurs twice is replaced without a complaint where a line
    consists of it, indentation included. *)
Example ambiguous_edit_is_made :
  edit_replace toy_distance (text ["a foo b"; "  foo"]) "foo" "bar" false =
  Some (Ok (text ["a foo b"; "bar"])).
Proof. vm_compute. reflexivity. Qed.

(** A blank text that does not occur is taken for an empty line, and replacing
    all of those puts the new text around every character. *)
Example blank_edit_fills_the_file :
  edit_replace toy_distance ("ab" +:+ nl +:+ nl +:+ "c") tab "-" true =
  Some (Ok ("-a-b-" +:+ nl +:+ "-" +:+ nl +:+ "-c-")).
Proof. vm_compute. reflexivity. Qed.

(** An ideographic space of three bytes, cut by the indentation of another line. *)
Definition wide_space : string :=
  String (Ascii.ascii_of_nat 227) (String (Ascii.ascii_of_nat 128) (String (Ascii.ascii_of_nat 128) "")).

Example wide_indentation_panics :
  edit_replace toy_distance (text ["x"; "y"]) (text [" a"; wide_space +:+ "b"]) "z" false = None.
Proof. vm_compute. reflexivity. Qed.

(** ** Receipts *)

(** The hunks of a receipt are a patch: for the changes of a diff of the
    two texts' lines, building the hunks does not panic, each hunk's lines are
    the old and the new lines of the ranges it gives, its counts add up, and
    the hunks applied in turn to the old lines give the new lines. *)
Theorem hunks_lead_to_new (diff_changes : string -> string -> list ChangeRange) original new
    (Hd : is_diff (lines original) (lines new) (diff_changes original new)) :
  exists hunks, build_hunks_from_diff diff_changes original new = Some hunks /\
    Forall (hunk_ok (lines original) (lines new)) hunks /\
    apply_hunks (lines original) 0 hunks = lines new.
Proof.
  destruct (group_changes_tiled _ _ _ Hd) as (o & n & Ht & Hs).
  destruct (tiled_apply _ _ _ _ _ _ _ Ht Hs) as (hs & Hb & Hf & Ha).
  exists hs. split; [exact Hb|]. by split; [|rewrite Ha].
Qed.

Definition toy_diff (original new : string) : list ChangeRange :=
  [{| cr_old_range := (1, 2); cr_new_range := (1, 3) |};
   {| cr_old_range := (12, 12); cr_new_range := (13, 14) |}].

Lemma hunks_lead_to_new_witness :
  let original := text ["a"; "b"; "c"; "d"; "e"; "f"; "g"; "h"; "i"; "j"; "k"; "l"] in
  let new := text ["a"; "X"; "Y"; "c"; "d"; "e"; "f"; "g"; "h"; "i"; "j"; "k"; "l"; "m"] in
  exists hunks, build_hunks_from_diff toy_diff original new = Some hunks /\
    Forall (hunk_ok (lines original) (lines new)) hunks /\
    apply_hunks (lines original) 0 hunks = lines new.
Proof.
  apply (hunks_lead_to_new toy_diff). vm_compute. repeat split; lia.
Defined.

(** ** Several edits *)

Section calls.
Context {J : Json} {TE : ToolEnv}.

(** The content after the edits, each made on the result of those before it. *)
Fixpoint edits_give (edits : list EditOperation) (content content' : string) : Prop :=
  match edits with
  | [] => content = content'
  | e :: rest => exists c,
      edit_replace te_levenshtein content (eo_old_string e) (eo_new_string e) (eo_replace_all e) =
        Some (Ok c) /\ edits_give rest c content'
  end.

(** The file the arguments name: absolute, or under the working directory. *)
Definition names_file (cwd : option string) (args : Value) (path : string) : Prop :=
  exists s, value_get_str args "filePath" = Some s /\
    if is_absolute s then path = s else exists dir, cwd = Some dir /\ path = path_join dir s.

(** The edits the arguments ask for, in order: at least one, each the reading of
    one element of the array, and each with a text to replace by another. *)
Definition asks_edits (args : Value) (edits : list EditOperation) : Prop :=
  exists v vals, value_get args "edits" = Some v /\ te_as_array v = Some vals /\
    Forall2 (fun val e => te_edit_of_value val =
               Ok (eo_old_string e, eo_new_string e, eo_replace_all e)) vals edits /\
    edits <> [] /\
    Forall (fun e => eo_old_string e <> "" /\ eo_old_string e <> eo_new_string e) edits.

Lemma collected vals edits :
  collect_results edit_operation vals = Ok edits ->
  Forall2 (fun val e => te_edit_of_value val =
             Ok (eo_old_string e, eo_new_string e, eo_replace_all e)) vals edits.
Proof.
  revert edits. induction vals as [|v vals IH]; intros edits; cbn.
  - intros [= <-]. constructor.
  - unfold edit_operation at 1. destruct (te_edit_of_value v) as [[[a b] all]|e] eqn:Ev; [|done].
    destruct (collect_results _ vals) as [es|e]; [|done]. intros [= <-].
    constructor; [exact Ev|by apply IH].
Qed.

Lemma checked i edits d d' : check_edits i edits d = (Ok tt, d') ->
  Forall (fun e => eo_old_string e <> "" /\ eo_old_string e <> eo_new_string e) edits.
Proof.
  revert i. induction edits as [|e edits IH]; intros i; cbn; [constructor|].
  destruct (is_empty_str _) eqn:E1; [done|]. destruct (String.eqb _ _) eqn:E2; [done|].
  intros H. constructor; [|by eapply IH]. apply String.eqb_neq in E2. split; [|done].
  intros E. rewrite E in E1. done.
Qed.

Lemma resolved cwd s path d d' : resolve_path cwd s d = (Ok path, d') ->
  if is_absolute s then path = s else exists dir, cwd = Some dir /\ path = path_join dir s.
Proof.
  unfold resolve_path. destruct (is_absolute s); [by intros [= <- _]|].
  destruct cwd as [dir|]; [|done]. intros [= <- _]. by exists dir.
Qed.

Lemma required args key s d d' : required_str args key d = (Ok s, d') ->
  value_get_str args key = Some s.
Proof. unfold required_str. destruct (value_get_str args key); [|done]. by intros [= <- _]. Qed.

(** Writes succeed, and the library's diffs are diffs. *)
Record Reliable : Prop := {
  rl_write : forall t path, te_write_error t path = None;
  rl_diff : forall a b, is_diff (lines a) (lines b) (te_diff_changes a b);
}.

(** A step of a call that leaves the files alone. *)
Definition untouched {A} (m : T A) : Prop :=
  forall d, wp m (fun _ d' => dk_files d' = dk_files d) d.

Lemma wp_untouched {A B} (m : T A) (f : A -> T B) (Q : result ToolFailure B -> Disk -> Prop) d :
  untouched m -> (forall e d', dk_files d' = dk_files d -> Q (Err e) d') ->
  (forall a d', dk_files d' = dk_files d -> m d = (Ok a, d') -> wp (f a) Q d') ->
  wp (m ≫= f) Q d.
Proof.
  intros Hm He Hf. apply wp_bind. specialize (Hm d). unfold wp in *.
  destruct (m d) as [[a|e] d'] eqn:Hd; [by apply Hf|by apply He].
Qed.

Lemma untouched_str args key : untouched (required_str args key).
Proof. intros d. unfold wp, required_str. by destruct (value_get_str args key). Qed.

Lemma untouched_path cwd path : untouched (resolve_path cwd path).
Proof. intros d. unfold wp, resolve_path. by destruct (is_absolute path), cwd. Qed.

Lemma untouched_check i edits : untouched (check_edits i edits).
Proof.
  revert i. induction edits as [|e edits IH]; intros i d; cbn; [done|].
  destruct (is_empty_str _); [done|]. destruct (String.eqb _ _); [done|apply IH].
Qed.

Lemma untouched_read path : untouched (read_to_string path).
Proof.
  intros d. unfold read_to_string. apply wp_bind, wp_updating. cbn. apply wp_bind, wp_gets. cbn.
  by destruct (te_read_error _ _), (dk_files d !! path).
Qed.

Lemma read_gives path d c d' : read_to_string path d = (Ok c, d') -> dk_files d !! path = Some c.
Proof.
  unfold read_to_string, disk_tick, updating, gets, mbind, M_bind. cbn.
  destruct (te_read_error (dk_now d) path); [done|].
  destruct (dk_files d !! path); [|done]. by intros [= <- _].
Qed.

Lemma apply_edits_spec i n edits content : forall d,
  wp (apply_edits i n edits content) (fun r d' => dk_files d' = dk_files d /\
    forall c, r = Ok c -> edits_give edits content c) d.
Proof.
  revert i content. induction edits as [|e edits IH]; intros i content d; cbn [apply_edits].
  - split; [done|]. by intros c [= <-].
  - apply wp_bind. unfold replace_or_fail.
    destruct (edit_replace _ _ _ _ _) as [[c|err]|] eqn:He; [|by split|by split].
    apply wp_ret. eapply wp_mono; [apply IH|]. cbn. intros r d' [Hf Hg]. split; [done|].
    intros c' ->. exists c. split; [done|by apply Hg].
Qed.

Lemma write_receipt (HR : Reliable) path original content d :
  wp (write_path "Failed to write file: " path content ≫= fun _ => receipt path original content)
    (fun r d' => is_ok r = true /\ dk_files d' = <[path := content]> (dk_files d)) d.
Proof.
  apply wp_bind. unfold write_path. apply wp_bind, wp_gets. rewrite (rl_write HR).
  apply wp_modify. unfold receipt, build_file_output_from_diff.
  destruct (group_changes_tiled _ _ _ (rl_diff HR original content)) as (o & n & Ht & Hs).
  destruct (tiled_apply _ _ _ _ _ _ _ Ht Hs) as (hs & Hb & _ & _).
  unfold build_hunks_from_diff. rewrite Hb. done.
Qed.

(** C29: Several edits are all made or none is.  When writes succeed and the
    diffs of the diff library are diffs, a call of the tool that fails, at any
    of its checks or edits, leaves every file as it was; one that succeeds was
    given at least one edit, all of them with a text to replace by another, has
    made every one of them in order, each on the result of those before it, in
    the file its arguments name, and has changed no other file. *)
Theorem multiedit_all_or_nothing (HR : Reliable) cwd args d :
  let '(r, d') := multiedit_call cwd args d in
  match r with
  | Err _ => dk_files d' = dk_files d
  | Ok _ => exists path edits original content,
      names_file cwd args path /\ asks_edits args edits /\
      dk_files d !! path = Some original /\ edits_give edits original content /\
      dk_files d' = <[path := content]> (dk_files d)
  end.
Proof.
  pose (Q := fun (r : result ToolFailure string) d' =>
    match r with
    | Err _ => dk_files d' = dk_files d
    | Ok _ => exists path edits original content,
        names_file cwd args path /\ asks_edits args edits /\
        dk_files d !! path = Some original /\ edits_give edits original content /\
        dk_files d' = <[path := content]> (dk_files d)
    end).
  enough (H : wp (multiedit_call cwd args) Q d).
  { unfold wp in H. by destruct (multiedit_call cwd args d). }
  unfold multiedit_call. apply wp_untouched; [apply untouched_str|done|intros s d1 H1 Hs].
  destruct (v ← value_get args "edits"; te_as_array v) as [vals|] eqn:Ev; [|done].
  destruct (collect_results edit_operation vals) as [edits|e] eqn:Ec; [|done].
  destruct (length edits =? 0) eqn:El; [done|].
  apply wp_untouched; [apply untouched_check|cbn; congruence|intros [] d2 H2 Hck].
  apply wp_untouched; [apply untouched_path|cbn; congruence|intros path d3 H3 Hpath].
  apply wp_untouched; [apply untouched_read|cbn; congruence|intros original d4 H4 Hr].
  apply wp_bind. eapply wp_mono; [apply apply_edits_spec|]. cbn. intros [content|e] d5 [H5 Hg];
    [|cbn; congruence].
  eapply wp_mono; [apply (write_receipt HR)|]. cbn. intros [out|e] d6 [Hok Hf]; [|done].
  exists path, edits, original, content. apply read_gives in Hr.
  split; [exists s; split; [by eapply required|by eapply resolved]|].
  split; [|split; [congruence|split; [by apply Hg|congruence]]].
  destruct (value_get args "edits") as [v|] eqn:Ea; [|done]. exists v, vals.
  split; [done|]. split; [exact Ev|]. split; [by apply collected|].
  split; [by destruct edits|by eapply checked].
Qed.
End calls.

(** Tools whose calls all succeed; the edits are written [old=new;old=new]. *)
#[local] Existing Instance toy_json.

Definition toy_as_array (v : toy_value) : option (list toy_value) :=
  match v with TStr s => Some (map TStr (toy_split (toy_char 59) s)) | TObj _ => None end.

Definition toy_edit (v : toy_value) : result string (string * string * bool) :=
  match v with
  | TStr s => match toy_split (toy_char 61) s with [a; b] => Ok (a, b, false) | _ => Err s end
  | TObj _ => Err "object"
  end.

#[local] Instance toy_tools : ToolEnv (J := toy_json) := {|
  te_as_bool := fun _ => None;
  te_as_array := toy_as_array;
  te_edit_of_value := toy_edit;
  te_levenshtein := toy_distance;
  te_diff_changes := fun a b =>
    [{| cr_old_range := (0, length (lines a)); cr_new_range := (0, length (lines b)) |}];
  te_read_error := fun _ _ => None;
  te_missing := fun _ => "missing";
  te_write_error := fun _ _ => None;
  te_mkdir_error := fun _ _ => None;
  te_remove_error := fun _ _ => None;
  te_parent := fun _ => None;
  te_serialize := fun _ => Ok "";
|}.

Lemma toy_reliable : @Reliable toy_json toy_tools.
Proof.
  constructor; [done|]. intros a b. unfold is_diff, differ_in, same. cbn. rewrite !range_nil.
  repeat split; lia.
Qed.

Lemma multiedit_all_or_nothing_witness :
  let args := TObj [("filePath", "/f"); ("edits", "one=two;three=four")] in
  let d := {| dk_now := 0; dk_files := {[ "/f" := text ["one three"] ]}; dk_dirs := ∅ |} in
  is_ok (@multiedit_call toy_json toy_tools None args d).1 = true /\
  let '(r, d') := @multiedit_call toy_json toy_tools None args d in
  match r with
  | Err _ => dk_files d' = dk_files d
  | Ok _ => exists path edits original content,
      names_file None args path /\ @asks_edits toy_json toy_tools args edits /\
      dk_files d !! path = Some original /\
      @edits_give toy_json toy_tools edits original content /\
      dk_files d' = <[path := content]> (dk_files d)
  end.
Proof.
  cbv zeta. split; [vm_compute; reflexivity|].
  apply (@multiedit_all_or_nothing toy_json toy_tools toy_reliable).
Defined.
