(* ===== verification/ForkProps.v ===== *)
(** What a fork holds and what it leaves alone. *)
From S2P Require Import Prelude Numbers Json Chat LlmErrors Domain Events Model Fixtures.
From S2P Require Import CycleInv ScheduleRepo SessionRows Undo UndoSpec UndoProps.
From Stdlib Require Import Sorted.

Local Open Scope Z_scope.

Section fork_run.
Context {J : Json}.
Implicit Types (rows : list MessageRow) (events : list DurableEvent) (db : SessionDb).

Definition created (r : MessageRow) : Z := am_created_at (mr_message r).

(** What a copy shares with its message. *)
Definition content (m : AgentMessage)
  : ChatRole * list MessagePart * Z * option string * option string :=
  (am_role m, am_parts m, am_created_at m, am_source_provider m, am_source_model m).

(** Of an event, all but its id, its session and its place in the journal. *)
Definition event_content (e : DurableEvent) : AgentEventKind * Z * EventOrigin * option string :=
  (de_kind e, de_timestamp e, de_origin e, de_source_node e).

Definition session_events (session : string) (db : SessionDb) : list DurableEvent :=
  List.filter (fun e => String.eqb (de_session_id e) session) (sd_journal db).

(** ** The copies *)

Lemma copy_rows_content uuid new k id rows :
  map (fun r => content (mr_message r)) (copy_rows uuid new k id rows) =
  map (fun r => content (mr_message r)) rows.
Proof. revert k id. induction rows as [|r rows IH]; intros k id; cbn; [done|]. by rewrite IH. Qed.

Lemma copy_rows_new uuid new k id rows :
  Forall (fun r => mr_session r = new /\ am_session_id (mr_message r) = new /\
                   am_parent_message_id (mr_message r) = None) (copy_rows uuid new k id rows).
Proof. revert k id. induction rows as [|r rows IH]; intros k id; cbn; by constructor. Qed.

Lemma copy_events_content uuid new k seq events :
  map event_content (copy_events uuid new k seq events) = map event_content events.
Proof. revert k seq. induction events as [|e l IH]; intros k seq; cbn; [done|]. by rewrite IH. Qed.

Lemma copy_events_new uuid new k seq events :
  Forall (fun e => de_session_id e = new) (copy_events uuid new k seq events).
Proof. revert k seq. induction events as [|e l IH]; intros k seq; cbn; by constructor. Qed.

Lemma copy_events_seqs uuid new k seq events :
  map de_stream_seq (copy_events uuid new k seq events) = seqZ seq (Z.of_nat (length events)).
Proof.
  revert k seq. induction events as [|e l IH]; intros k seq; cbn [copy_events map length]; [done|].
  rewrite IH, (seqZ_cons seq) by lia. unfold Z.succ. do 2 f_equal. lia.
Qed.

(** ** Selections of an extended table *)

Lemma filter_none {A} (f : A -> bool) l : Forall (fun x => f x = false) l -> List.filter f l = [].
Proof. induction 1 as [|x l Hx _ IH]; cbn; [done|]. by rewrite Hx. Qed.

Lemma filter_of_new {A} (key : A -> string) new l added :
  Forall (fun x => key x <> new) l -> Forall (fun x => key x = new) added ->
  List.filter (fun x => String.eqb (key x) new) (l ++ added) = added.
Proof.
  intros Hl Ha. rewrite List.filter_app, filter_none, filter_all; [done| |].
  - intros x Hx. rewrite Forall_forall in Ha. apply String.eqb_eq. by apply Ha.
  - eapply Forall_impl; [exact Hl|]. intros x Hx. by apply String.eqb_neq.
Qed.

Lemma filter_of_other {A} (key : A -> string) new s l added :
  s <> new -> Forall (fun x => key x = new) added ->
  List.filter (fun x => String.eqb (key x) s) (l ++ added) =
  List.filter (fun x => String.eqb (key x) s) l.
Proof.
  intros Hs Ha. rewrite List.filter_app, (filter_none _ added); [apply app_nil_r|].
  eapply Forall_impl; [exact Ha|]. intros x Hx. apply String.eqb_neq. congruence.
Qed.

Lemma messages_to_copy_take rows idx r :
  StronglySorted (fun a b => mr_id a < mr_id b) rows -> rows !! idx = Some r ->
  messages_to_copy (mr_id r) rows = take (S idx) rows.
Proof.
  intros Hs. revert idx. induction Hs as [|x l Hs IH Hx]; intros idx Hi; [done|].
  destruct idx as [|idx]; cbn in Hi |- *.
  - simplify_eq. by rewrite Z.eqb_refl.
  - assert (mr_id x < mr_id r)
      by (rewrite Forall_forall in Hx; by eapply Hx, list_elem_of_lookup_2).
    rewrite (proj2 (Z.eqb_neq _ _)) by lia. f_equal. by apply IH.
Qed.

(** A target that is not the source's copies the source's whole history. *)
Lemma messages_to_copy_foreign target rows :
  Forall (fun r => mr_id r <> target) rows -> messages_to_copy target rows = rows.
Proof.
  induction 1 as [|r rows Hr _ IH]; [done|]. cbn. by rewrite (proj2 (Z.eqb_neq _ _)), IH.
Qed.

(** ** Dates *)

Lemma sorted_on_map {A B} (f : A -> B) (R : B -> B -> Prop) l :
  StronglySorted (fun a b => R (f a) (f b)) l <-> StronglySorted R (map f l).
Proof.
  induction l as [|x l IH]; cbn; [by split; constructor|].
  split; intros [Hs Hf]%StronglySorted_inv; (constructor; [by apply IH|]);
    rewrite Forall_map in *; done.
Qed.

Lemma sorted_take {A} (R : A -> A -> Prop) n l : StronglySorted R l -> StronglySorted R (take n l).
Proof.
  intros Hs. revert n. induction Hs as [|x l Hs IH Hx]; intros [|n]; cbn; constructor; [done|].
  by apply Forall_take.
Qed.

Lemma map_created uuid new k id rows : map created (copy_rows uuid new k id rows) = map created rows.
Proof. revert k id. induction rows as [|r rows IH]; intros k id; cbn; [done|]. by rewrite IH. Qed.

(** The history of the new session, given that the copied rows are in the order of their dates. *)
Lemma history_of_copies uuid new k id rows before db :
  session_exists new db = true -> Forall (fun r => mr_session r <> new) before ->
  sd_messages db = before ++ copy_rows uuid new k id rows ->
  StronglySorted (fun a b => (created a <=? created b) = true) rows ->
  get_history new db = Ok (map mr_message (copy_rows uuid new k id rows)).
Proof.
  intros Hn Hb Hdb Hs. unfold get_history, resolve_session. rewrite Hn, Hdb.
  unfold of_session_row. rewrite filter_of_new; [|done|].
  - rewrite sort_on_sorted; [done|]. apply (sorted_on_map created (fun a b => (a <=? b) = true)).
    rewrite map_created. by apply (sorted_on_map created (fun a b => (a <=? b) = true)).
  - eapply Forall_impl; [apply copy_rows_new|]. by intros r (? & _).
Qed.

Lemma session_exists_snoc s row db rows rvs j :
  session_exists s {| sd_sessions := sd_sessions db ++ [row]; sd_messages := rows;
                      sd_reverts := rvs; sd_journal := j |} =
  session_exists s db || String.eqb (se_public_id row) s.
Proof. unfold session_exists. cbn. rewrite existsb_app. cbn. by rewrite orb_false_r. Qed.

(** The session to be has left no trace. *)
Record unknown_session (s : string) (db : SessionDb) : Prop := {
  us_session : session_exists s db = false;
  us_messages : Forall (fun r => mr_session r <> s) (sd_messages db);
  us_events : Forall (fun e => de_session_id e <> s) (sd_journal db);
}.

Lemma resolve_row source db idx r :
  ordered_rows source db -> session_rows source db !! idx = Some r ->
  resolve_message (am_id (mr_message r)) db = Ok (mr_id r).
Proof.
  intros Ho Hr%list_elem_of_lookup_2. unfold resolve_message. erewrite find_name; [done|apply Ho| |done].
  unfold session_rows in Hr. rewrite list_elem_of_In, List.filter_In in Hr.
  rewrite list_elem_of_In. by destruct Hr.
Qed.

Lemma history_of_others input source target origin fdb s :
  s <> fi_uuid input 0 ->
  get_history s (fd_db (fork_rows input source target origin fdb)) = get_history s (fd_db fdb).
Proof.
  intros Hs. unfold get_history, resolve_session. cbn [fork_rows fd_db].
  rewrite session_exists_snoc. cbn [se_public_id sd_messages].
  rewrite (proj2 (String.eqb_neq _ s)), orb_false_r by done.
  unfold of_session_row at 1. rewrite (filter_of_other mr_session (fi_uuid input 0)); [done|done|].
  eapply Forall_impl; [apply copy_rows_new|]. by intros r (? & _).
Qed.

(** The events of the new session. *)
Lemma fork_events input source target origin fdb :
  unknown_session (fi_uuid input 0) (fd_db fdb) ->
  let rows := messages_to_copy target (session_rows source (fd_db fdb)) in
  session_events (fi_uuid input 0) (fd_db (fork_rows input source target origin fdb)) =
  copy_events (fi_uuid input) (fi_uuid input 0) (1 + length rows) (fd_next_seq fdb)
    (List.filter (conversational (list_to_set (map (fun r => am_id (mr_message r)) rows)))
       (session_events source (fd_db fdb))).
Proof.
  intros Hnew rows. unfold session_events at 1. cbn [fork_rows fd_db sd_journal].
  apply (filter_of_new de_session_id); [by apply Hnew|apply copy_events_new].
Qed.

(** ** The fork *)

(** The names of all stored messages. *)
Definition message_names (db : SessionDb) : list string := map (fun r => am_id (mr_message r)) (sd_messages db).

(** The uuids a fork takes: each only once, and none the name of a message. *)
Record fresh_names (input : ForkInput) (db : SessionDb) : Prop := {
  fn_distinct : forall i j, fi_uuid input i = fi_uuid input j -> i = j;
  fn_unused : forall i, fi_uuid input i ∉ message_names db;
}.

Lemma copy_rows_names uuid new k id rows :
  map (fun r => am_id (mr_message r)) (copy_rows uuid new k id rows) = map uuid (seq k (length rows)).
Proof. revert k id. induction rows as [|r rows IH]; intros k id; cbn; [done|]. by rewrite IH. Qed.

Lemma copy_events_names uuid new k s events :
  map de_event_id (copy_events uuid new k s events) = map uuid (seq k (length events)).
Proof. revert k s. induction events as [|e events IH]; intros k s; cbn; [done|]. by rewrite IH. Qed.

Lemma copy_events_length uuid new k s events : length (copy_events uuid new k s events) = length events.
Proof. revert k s. induction events as [|e events IH]; intros k s; cbn; [done|]. by rewrite IH. Qed.

Lemma names_stay_distinct input db new k id rows : fresh_names input db -> NoDup (message_names db) ->
  NoDup (map (fun r => am_id (mr_message r)) (sd_messages db ++ copy_rows (fi_uuid input) new k id rows)).
Proof.
  intros [Hd Hu] Hn. rewrite map_app, copy_rows_names. apply NoDup_app. split_and!; [done| |].
  - intros x Hx (i & -> & _)%list_elem_of_fmap. by apply (Hu i).
  - apply NoDup_fmap_2; [intros i j; apply Hd|apply NoDup_ListNoDup, seq_NoDup].
Qed.

(** C15: A fork at a message of its source opens a session whose history has the
    contents of the source's history up to and including that message, in its
    order, without parents and under new names: the next uuids, so that no two
    stored messages have the same name.  Its events are the source's
    conversational events about the copied messages, in their order, under the
    uuids after those, with the next numbers of the journal.  Every other
    session, the source included, keeps its history, its revert frames and its
    events.  This is the case where the transaction does not fail, the rows of
    the source are in the order of its dates and no two messages share a name
    before, and the uuids are fresh: each is taken once, none names a message,
    and the first names no session that left a trace. *)
Theorem fork_copies_history input source origin fdb history idx m
    (Ho : ordered_rows source (fd_db fdb))
    (Hh : get_history source (fd_db fdb) = Ok history)
    (Hm : history !! idx = Some m)
    (Hnew : unknown_session (fi_uuid input 0) (fd_db fdb))
    (Hfresh : fresh_names input (fd_db fdb))
    (Hok : fi_failure input = None) :
  let new := fi_uuid input 0 in
  let copied : gset string := list_to_set (map am_id (take (S idx) history)) in
  exists fdb' copies,
    fork_session input source (am_id m) origin fdb = (Ok new, fdb') /\
    get_history new (fd_db fdb') = Ok copies /\
    map content copies = map content (take (S idx) history) /\
    Forall (fun c => am_session_id c = new /\ am_parent_message_id c = None) copies /\
    map am_id copies = map (fi_uuid input) (seq 1 (S idx)) /\
    NoDup (message_names (fd_db fdb')) /\
    map de_event_id (session_events new (fd_db fdb')) =
      map (fi_uuid input) (seq (2 + idx) (length (session_events new (fd_db fdb')))) /\
    map event_content (session_events new (fd_db fdb')) =
      map event_content (List.filter (conversational copied) (session_events source (fd_db fdb))) /\
    map de_stream_seq (session_events new (fd_db fdb')) =
      seqZ (fd_next_seq fdb) (fd_next_seq fdb' - fd_next_seq fdb) /\
    sd_reverts (fd_db fdb') = sd_reverts (fd_db fdb) /\
    forall s, s <> new -> get_history s (fd_db fdb') = get_history s (fd_db fdb) /\
                          session_events s (fd_db fdb') = session_events s (fd_db fdb).
Proof.
  intros new copied. pose proof (history_resolves _ _ _ Hh) as Hs.
  rewrite get_history_ordered in Hh by done. injection Hh as <-.
  change (map mr_message ?l) with (mr_message <$> l) in Hm.
  apply list_lookup_fmap_Some in Hm as (r & Hr & Hm). subst m.
  assert (Htake : messages_to_copy (mr_id r) (session_rows source (fd_db fdb)) =
                  take (S idx) (session_rows source (fd_db fdb))).
  { apply messages_to_copy_take; [|done]. apply StronglySorted_filter_b, Ho. }
  assert (Hcopied : copied = list_to_set (map (fun r => am_id (mr_message r))
                               (take (S idx) (session_rows source (fd_db fdb))))).
  { unfold copied. by rewrite firstn_map, map_map. }
  eexists (fork_rows input source (mr_id r) origin fdb), _.
  assert (Hlen : length (take (S idx) (session_rows source (fd_db fdb))) = S idx).
  { apply lookup_lt_Some in Hm. rewrite length_take. lia. }
  split; [|split; [|split; [|split; [|split; [|split; [|split; [|split; [|split; [|split]]]]]]]]].
  - unfold fork_session. by rewrite Hs, (resolve_row source _ idx r), Hok.
  - eapply history_of_copies with (before := sd_messages (fd_db fdb)); [|by apply Hnew|done|].
    + cbn [fork_rows fd_db]. rewrite session_exists_snoc. cbn. by rewrite String.eqb_refl, orb_true_r.
    + fold (session_rows source (fd_db fdb)). rewrite Htake. apply sorted_take, Ho.
  - fold (session_rows source (fd_db fdb)). rewrite map_map, copy_rows_content, Htake, firstn_map.
    by rewrite map_map.
  - rewrite Forall_map. eapply Forall_impl; [apply copy_rows_new|]. by intros x (_ & ?).
  - fold (session_rows source (fd_db fdb)). by rewrite map_map, copy_rows_names, Htake, Hlen.
  - unfold message_names. cbn [fork_rows fd_db sd_messages]. by apply names_stay_distinct, Ho.
  - unfold new. rewrite fork_events by done. fold (session_rows source (fd_db fdb)).
    by rewrite copy_events_names, copy_events_length, Htake, Hlen.
  - unfold new. rewrite fork_events by done. fold (session_rows source (fd_db fdb)).
    by rewrite copy_events_content, Htake, <- Hcopied.
  - unfold new. rewrite fork_events by done. rewrite copy_events_seqs. f_equal. cbn [fork_rows fd_next_seq]. unfold session_events, session_rows. lia.
  - done.
  - intros s Hne. split; [by apply history_of_others|]. unfold session_events. cbn.
    apply filter_of_other with (new := new); [done|]. apply copy_events_new.
Qed.
End fork_run.

(** ** A concrete session *)

#[local] Existing Instance toy_json.

Definition fork_message (session id : string) (role : ChatRole) (at_ : Z) (parts : list MessagePart)
  : AgentMessage :=
  {| am_id := id; am_session_id := session; am_role := role; am_parts := parts; am_created_at := at_;
     am_parent_message_id := None; am_source_provider := None; am_source_model := None |}.

Definition fork_event (id : string) (seq : Z) (k : AgentEventKind) : DurableEvent :=
  {| de_event_id := id; de_stream_seq := seq; de_session_id := "s"; de_timestamp := seq;
     de_origin := OrLocal; de_source_node := None; de_kind := k |}.

Definition fork_call : ToolCall :=
  {| tc_id := "c1"; tc_call_type := "function";
     tc_function := {| fc_name := "ls"; fc_arguments := "{}" |} |}.

(** A prompt, a reply with a call, the call's result and the answer. *)
Definition toy_fork_db : ForkDb (J := toy_json) := {|
  fd_db := {|
    sd_sessions := [{| se_public_id := "s"; se_parent := None; se_created_at := "1" |}];
    sd_messages :=
      [toy_row "s" 1 (fork_message "s" "m1" User 1 [MpText "list"]);
       toy_row "s" 2 (fork_message "s" "m2" Assistant 2 [MpToolUse fork_call]);
       toy_row "s" 3 (fork_message "s" "m3" User 3 [MpToolResult "c1" [CText "a"] false (Some "ls") None None]);
       toy_row "s" 4 (fork_message "s" "m4" Assistant 4 [MpText "a"])];
    sd_reverts := [];
    sd_journal :=
      [fork_event "e1" 1 (PromptReceived "list" (Some "m1"));
       fork_event "e2" 2 (AssistantMessageStored "" None (Some "m2"));
       fork_event "e3" 3 (AssistantMessageStored "a" None (Some "m4"))] |};
  fd_details := ∅;
  fd_next_seq := 4 |}.

Definition toy_fork_input : ForkInput :=
  {| fi_uuid := fun k => "u" +:+ pretty k; fi_now := "9"; fi_failure := None |}.

Lemma toy_fork_ordered : ordered_rows "s" (fd_db toy_fork_db).
Proof.
  split; [repeat constructor| |apply StronglySorted_filter_b; repeat constructor].
  cbn. repeat (apply NoDup_cons; split; [set_solver|]). apply NoDup_nil_2.
Qed.

Lemma fork_copies_history_witness :
  exists fdb' copies, fork_session toy_fork_input "s" "m2" FoUser toy_fork_db = (Ok "u0", fdb') /\
    get_history "u0" (fd_db fdb') = Ok copies /\
    map content copies = [(User, [MpText "list"], 1, None, None);
                          (Assistant, [MpToolUse fork_call], 2, None, None)] /\
    map am_id copies = ["u1"; "u2"] /\
    get_history "s" (fd_db fdb') = get_history "s" (fd_db toy_fork_db).
Proof.
  destruct (fork_copies_history toy_fork_input "s" FoUser toy_fork_db
              (map mr_message (sd_messages (fd_db toy_fork_db))) 1
              (fork_message "s" "m2" Assistant 2 [MpToolUse fork_call])
              toy_fork_ordered eq_refl eq_refl)
    as (fdb' & copies & Hr & Hh & Hc & _ & Hn & _ & _ & _ & _ & _ & Hs).
  - split; [reflexivity|repeat constructor; discriminate|repeat constructor; discriminate].
  - split; [intros i j H; injection H as H; exact (inj pretty _ _ H)|]. intros i Hi. repeat (apply elem_of_cons in Hi as [Hi|Hi]; [discriminate Hi|]).
    by apply elem_of_nil in Hi.
  - reflexivity.
  - exists fdb', copies. split; [exact Hr|]. split; [exact Hh|]. split; [exact Hc|]. split; [exact Hn|].
    apply Hs; discriminate.
Defined.

Definition toy_forked (target : string) : ForkDb (J := toy_json) :=
  (fork_session toy_fork_input "s" target FoUser toy_fork_db).2.

(** A fork at a reply with calls starts with calls nobody will answer. *)
Example fork_leaves_calls_open :
  match get_history "u0" (fd_db (toy_forked "m2")) with
  | Ok copies => open_calls [] copies = Some ["c1"]
  | Err _ => False
  end.
Proof. vm_compute. reflexivity. Qed.

(** The copied events name the source's messages, so the prompt after an undo
    in the fork finds none to drop: the undone turn stays in the journal. *)
Example fork_undo_keeps_events :
  let db := fd_db (toy_forked "m4") in
  map de_kind (session_events "u0" db) =
    [PromptReceived "list" (Some "m1"); AssistantMessageStored "" None (Some "m2");
     AssistantMessageStored "a" None (Some "m4")] /\
  map am_id (match get_history "u0" db with Ok l => l | Err _ => [] end) = ["u1"; "u2"; "u3"; "u4"] /\
  journal_before "u0" "u1" db = sd_journal db.
Proof. split; [|split]; vm_compute; reflexivity. Qed.
