(* ===== verification/Invites.v ===== *)
(** Mesh invites (querymt-remote/invite.rs): grants and membership tokens, the
    bytes that are signed, the tokens that carry grants, and the store of the
    invites of a host.

    The identities of libp2p, uuids, hexadecimal and base64 text are those of
    crates, and parameters here ([MeshCrypto]); [MeshCryptoLaws] says what
    their documentation does. *)
From S2P Require Import Prelude Numbers Text TextOps.

Local Open Scope Z_scope.

(** ** Bytes *)

Definition Bytes : Type := list Z.
Definition is_byte (b : Z) : Prop := 0 <= b < 256.

(** [z.to_be_bytes()] of an [n]-byte integer, and [from_be_bytes]. *)
Fixpoint be_bytes (n : nat) (z : Z) : Bytes :=
  match n with
  | O => []
  | S n' => be_bytes n' (z / 256) ++ [z mod 256]
  end.
Definition be_value (b : Bytes) : Z := fold_left (fun acc x => acc * 256 + x) b 0.

(** [s.as_bytes()], and the [str] of bytes that are one. *)
Definition bytes_of (s : string) : Bytes :=
  map (fun c => Z.of_N (byte_of c)) (String.list_ascii_of_string s).
Definition text_of (b : Bytes) : string :=
  String.string_of_list_ascii (map (fun x => Ascii.ascii_of_N (Z.to_N x)) b).

Definition between (lo hi x : Z) : bool := (lo <=? x) && (x <=? hi).
Definition is_continuation : Z -> bool := between 128 191.

(** The second byte of a character, after a lead of three or four bytes. *)
Definition second_byte_ok (lead x : Z) : bool :=
  if lead =? 224 then between 160 191 x
  else if lead =? 237 then between 128 159 x
  else if lead =? 240 then between 144 191 x
  else if lead =? 244 then between 128 143 x
  else is_continuation x.

(** The length of the first character of [lead :: rest], or the number of
    bytes that are certainly no part of one ([None] when more may follow). *)
Definition utf8_char (lead : Z) (rest : Bytes) : result (option nat) nat :=
  if lead <? 128 then Ok 1%nat
  else if between 194 223 lead then
    match rest with
    | [] => Err None
    | x :: _ => if is_continuation x then Ok 2%nat else Err (Some 1%nat)
    end
  else if between 224 244 lead then
    match rest with
    | [] => Err None
    | x :: rest1 =>
        if negb (second_byte_ok lead x) then Err (Some 1%nat) else
        match rest1 with
        | [] => Err None
        | y :: rest2 =>
            if negb (is_continuation y) then Err (Some 2%nat)
            else if lead <? 240 then Ok 3%nat
            else match rest2 with
                 | [] => Err None
                 | z :: _ => if is_continuation z then Ok 4%nat else Err (Some 3%nat)
                 end
        end
    end
  else Err (Some 1%nat).

(** Where the bytes stop being UTF-8, with the length of the error.  A
    character has at least a byte: as much fuel as there are bytes is enough. *)
Fixpoint utf8_error (fuel at_ : nat) (b : Bytes) : option (nat * option nat) :=
  match fuel, b with
  | S fuel', lead :: rest =>
      match utf8_char lead rest with
      | Ok n => utf8_error fuel' (at_ + n) (drop n b)
      | Err e => Some (at_, e)
      end
  | _, _ => None
  end.

(** [std::str::from_utf8], with the [Display] of its error. *)
Definition from_utf8 (b : Bytes) : result string string :=
  match utf8_error (length b) 0 b with
  | None => Ok (text_of b)
  | Some (at_, Some n) =>
      Err ("invalid utf-8 sequence of " +:+ nat_str n +:+ " bytes from index " +:+ nat_str at_)
  | Some (at_, None) => Err ("incomplete utf-8 byte sequence from index " +:+ nat_str at_)
  end.

Definition hex_digit (x : Z) : string :=
  text_of [if x <? 10 then 48 + x else 87 + x].
(** [format!("{:02x}")] of a byte *)
Definition hex_byte (x : Z) : string := hex_digit (x / 16) +:+ hex_digit (x mod 16).

Definition strip_prefix (p s : string) : option string :=
  if is_prefix_of p s then Some (str_drop (slen p) s) else None.

(** ** Grants and tokens *)

Definition WIRE_VERSION : Z := 3.

Record InvitePermissions := { ip_can_invite : bool; ip_role : string }.

Definition default_member_role : string := "member".
Definition permissions_default : InvitePermissions :=
  {| ip_can_invite := false; ip_role := default_member_role |}.

Record InviteGrant := {
  ig_version : Z;
  ig_invite_id : string;
  ig_inviter_peer_id : string;
  ig_mesh_name : option string;
  (** seconds of the Unix epoch; zero is never *)
  ig_expires_at : Z;
  (** zero is without a limit *)
  ig_max_uses : Z;
  ig_permissions : InvitePermissions;
}.

Record SignedInviteGrant := { sg_grant : InviteGrant; sg_signature : string }.

Record MembershipToken := {
  mt_version : Z;
  mt_mesh_id : string;
  mt_peer_id : string;
  mt_admitted_by : string;
  mt_invite_id : string;
  mt_permissions : InvitePermissions;
  mt_issued_at : Z;
  mt_expires_at : Z;
  mt_signature : string;
}.

Record PeerEntry := { pe_peer_id : string; pe_addrs : list string }.

Inductive InviteError :=
| Expired
| InvalidToken (s : string)
| InvalidSignature (s : string)
| InviteRevoked
| InviteConsumed
| IeNotFound (s : string)
| StoreError (s : string).

Definition invite_error_display (e : InviteError) : string :=
  match e with
  | Expired => "invite token has expired"
  | InvalidToken s => "invalid invite token: " +:+ s
  | InvalidSignature s => "invalid signature: " +:+ s
  | InviteRevoked => "invite has been revoked"
  | InviteConsumed => "invite has been fully consumed (no uses remaining)"
  | IeNotFound s => "invite not found: " +:+ s
  | StoreError s => "store error: " +:+ s
  end.

Definition mesh_id_for (inviter_peer_id : string) (mesh_name : option string) : string :=
  inviter_peer_id +:+ ":" +:+ default "anon" mesh_name.

(** [expires_at != 0 && now > expires_at] *)
Definition expired_at (now expires_at : Z) : bool := negb (expires_at =? 0) && (expires_at <? now).

Definition permission_flags (p : InvitePermissions) : Z :=
  Z.lor (if ip_can_invite p then 1 else 0) (if String.eqb (ip_role p) "client" then 2 else 0).

Definition bind_result {E A B} (r : result E A) (f : A -> result E B) : result E B :=
  match r with Ok a => f a | Err e => Err e end.

(** ** Durations *)

Definition is_digit (c : Ascii.ascii) : bool := in_range 48 57 c.

(** [s.parse::<u64>()] *)
Definition parse_u64 (s : string) : option Z :=
  let digits := match s with
                | String c rest => if N.eqb (byte_of c) 43 then rest else s
                | EmptyString => s
                end in
  if is_empty_str digits then None
  else if forallb is_digit (String.list_ascii_of_string digits)
  then let v := fold_left (fun acc c => acc * 10 + (Z.of_N (byte_of c) - 48))
                  (String.list_ascii_of_string digits) 0 in
       if v <? 2 ^ 64 then Some v else None
  else None.

Definition strip_suffix (p s : string) : option string :=
  if ends_with s p then Some (str_take (slen s - slen p) s) else None.

(** Each unit with its suffix, in the order in which they are tried. *)
Definition duration_units : list (string * Z) := [("d", 86400); ("h", 3600); ("m", 60); ("s", 1)].

Fixpoint split_unit (units : list (string * Z)) (s : string) : string * Z :=
  match units with
  | [] => (s, 1)
  | (suffix, multiplier) :: rest =>
      match strip_suffix suffix s with
      | Some n => (n, multiplier)
      | None => split_unit rest s
      end
  end.

Definition parse_duration_secs (s : string) : option Z :=
  let s := trim s in
  if String.eqb (to_ascii_lowercase s) "none" then None
  else let '(num_str, multiplier) := split_unit duration_units s in
       n ← parse_u64 num_str; Some ((n * multiplier) mod 2 ^ 64).

Definition format_duration_human (secs : Z) : string :=
  if (86400 <=? secs) && (secs mod 86400 =? 0) then dec_of_Z (secs / 86400) +:+ "d"
  else if (3600 <=? secs) && (secs mod 3600 =? 0) then dec_of_Z (secs / 3600) +:+ "h"
  else if (60 <=? secs) && (secs mod 60 =? 0) then dec_of_Z (secs / 60) +:+ "m"
  else dec_of_Z secs +:+ "s".

(** ** What is outside: identities, codecs, the clock and the disk *)

Class MeshCrypto := {
  PeerId : Type;
  PeerId_eq_dec :: EqDecision PeerId;
  Keypair : Type;
  PublicKey : Type;
  (** [s.parse::<PeerId>()], [to_string], [to_bytes] and [from_bytes] *)
  peer_parse : string -> result string PeerId;
  peer_text : PeerId -> string;
  peer_to_bytes : PeerId -> Bytes;
  peer_from_bytes : Bytes -> result string PeerId;
  (** [keypair.public().to_peer_id()] and [keypair.sign] *)
  key_peer : Keypair -> PeerId;
  key_sign : Keypair -> Bytes -> result string Bytes;
  (** [PublicKey::try_decode_protobuf] and [verify] *)
  key_decode : Bytes -> option PublicKey;
  key_verify : PublicKey -> Bytes -> Bytes -> bool;
  (** [Uuid::parse_str] and the text of [Uuid::from_bytes] *)
  uuid_parse : string -> result string Bytes;
  uuid_text : Bytes -> string;
  hex_encode : Bytes -> string;
  hex_decode : string -> result string Bytes;
  (** [URL_SAFE_NO_PAD] *)
  base64_encode : Bytes -> string;
  base64_decode : string -> result string Bytes;
}.

Section grants.
Context {MC : MeshCrypto}.

Definition push_str (buf : Bytes) (s : string) : result InviteError Bytes :=
  let len := Z.of_nat (slen s) in
  if 65535 <? len
  then Err (InvalidToken ("field too long: " +:+ dec_of_Z len +:+ " bytes (max 65535)"))
  else Ok (buf ++ be_bytes 2 len ++ bytes_of s).

(** [MembershipToken::signable_bytes] *)
Definition signable_bytes (t : MembershipToken) : result InviteError Bytes :=
  bind_result (push_str [mt_version t] (mt_mesh_id t)) (fun buf =>
  bind_result (push_str buf (mt_peer_id t)) (fun buf =>
  bind_result (push_str buf (mt_admitted_by t)) (fun buf =>
  bind_result (push_str buf (mt_invite_id t)) (fun buf =>
  Ok (buf ++ be_bytes 8 (mt_issued_at t) ++ be_bytes 8 (mt_expires_at t) ++
      [permission_flags (mt_permissions t)]))))).

Definition to_wire_bytes (g : InviteGrant) : result InviteError Bytes :=
  match uuid_parse (ig_invite_id g) with
  | Err e => Err (InvalidToken ("invalid invite_id UUID: " +:+ e))
  | Ok uuid =>
      match peer_parse (ig_inviter_peer_id g) with
      | Err e => Err (InvalidToken ("invalid inviter_peer_id: " +:+ e))
      | Ok peer =>
          let name_bytes := bytes_of (default "" (ig_mesh_name g)) in
          if (255 <? length name_bytes)%nat
          then Err (InvalidToken "mesh_name exceeds 255 bytes")
          else Ok ([WIRE_VERSION] ++ uuid ++ peer_to_bytes peer ++
                   be_bytes 8 (ig_expires_at g) ++ be_bytes 4 (ig_max_uses g) ++
                   [permission_flags (ig_permissions g)] ++
                   [Z.of_nat (length name_bytes)] ++ name_bytes)
      end
  end.

(** [data[a..b]], where the code has checked the length *)
Definition bytes_at (a b : nat) (data : Bytes) : Bytes := take (b - a) (drop a data).
Definition byte_at (i : nat) (data : Bytes) : Z := nth i data 0.

Definition grant_of_wire (invite_id : string) (peer_id : PeerId) (pos : nat) (data : Bytes)
  : result InviteError (InviteGrant * nat) :=
  let flags := byte_at (pos + 12) data in
  let name_len := Z.to_nat (byte_at (pos + 13) data) in
  let name_start := (pos + 14)%nat in
  if (length data <? name_start + name_len)%nat
  then Err (InvalidToken "token too short for mesh_name")
  else
    bind_result
      (if (name_len =? 0)%nat then Ok None
       else match from_utf8 (bytes_at name_start (name_start + name_len) data) with
            | Ok name => Ok (Some name)
            | Err e => Err (InvalidToken ("invalid mesh_name UTF-8: " +:+ e))
            end) (fun mesh_name =>
    Ok ({| ig_version := byte_at 0 data; ig_invite_id := invite_id;
           ig_inviter_peer_id := peer_text peer_id; ig_mesh_name := mesh_name;
           ig_expires_at := be_value (bytes_at pos (pos + 8) data);
           ig_max_uses := be_value (bytes_at (pos + 8) (pos + 12) data);
           ig_permissions :=
             {| ip_can_invite := negb (Z.land flags 1 =? 0);
                ip_role := if negb (Z.land flags 2 =? 0) then "client" else "member" |} |},
        (name_start + name_len)%nat)).

Definition from_wire_bytes (data : Bytes) : result InviteError (InviteGrant * nat) :=
  if (length data =? 0)%nat then Err (InvalidToken "empty token") else
  let version := byte_at 0 data in
  if negb (version =? WIRE_VERSION)
  then Err (InvalidToken ("unsupported wire version: " +:+ dec_of_Z version +:+ " (expected 3)"))
  else if (length data <? 17)%nat then Err (InvalidToken "token too short") else
  let invite_id := uuid_text (bytes_at 1 17 data) in
  if (length data <? 19)%nat then Err (InvalidToken "token too short for PeerId") else
  let mh_code := byte_at 17 data in
  if negb (mh_code =? 0)
  then Err (InvalidToken ("unsupported multihash code: 0x" +:+ hex_byte mh_code +:+
                          " (expected 0x00 identity)"))
  else
    let peer_id_total := (2 + Z.to_nat (byte_at 18 data))%nat in
    if (length data <? 17 + peer_id_total)%nat
    then Err (InvalidToken "token too short for PeerId payload")
    else
      match peer_from_bytes (bytes_at 17 (17 + peer_id_total) data) with
      | Err e => Err (InvalidToken ("invalid PeerId in wire bytes: " +:+ e))
      | Ok peer_id =>
          let pos := (17 + peer_id_total)%nat in
          if (length data <? pos + 14)%nat
          then Err (InvalidToken "token too short for fixed fields")
          else grant_of_wire invite_id peer_id pos data
      end.

Definition sign (key : Keypair) (g : InviteGrant) : result InviteError SignedInviteGrant :=
  bind_result (to_wire_bytes g) (fun wire =>
  match key_sign key wire with
  | Err e => Err (InvalidSignature ("signing failed: " +:+ e))
  | Ok s => Ok {| sg_grant := g; sg_signature := hex_encode s |}
  end).

(** A signature by the key that the text of a peer id holds: [what] is the
    field with the peer id, [no_key] and [failed] the texts of two errors. *)
Definition verify_by (what no_key failed peer signature : string) (payload : result InviteError Bytes)
  : result InviteError unit :=
  match peer_parse peer with
  | Err e => Err (InvalidToken ("invalid " +:+ what +:+ ": " +:+ e))
  | Ok peer_id =>
      match key_decode (drop 2 (peer_to_bytes peer_id)) with
      | None => Err (InvalidSignature no_key)
      | Some public_key =>
          match hex_decode signature with
          | Err e => Err (InvalidSignature ("hex decode failed: " +:+ e))
          | Ok sig_bytes =>
              bind_result payload (fun payload =>
              if key_verify public_key payload sig_bytes then Ok tt
              else Err (InvalidSignature failed))
          end
      end
  end.

(** [SignedInviteGrant::verify]; [now] is the time it reads. *)
Definition verify_grant (now : Z) (s : SignedInviteGrant) : result InviteError InviteGrant :=
  let g := sg_grant s in
  if negb (ig_version g =? WIRE_VERSION)
  then Err (InvalidToken ("unsupported grant version: " +:+ dec_of_Z (ig_version g) +:+
                          " (expected 3)"))
  else if expired_at now (ig_expires_at g) then Err Expired
  else bind_result
         (verify_by "inviter_peer_id"
            "cannot extract public key from inviter_peer_id; only ed25519 identity PeerIds are supported"
            "ed25519 signature verification failed"
            (ig_inviter_peer_id g) (sg_signature s) (to_wire_bytes g)) (fun _ => Ok g).

(** [MembershipToken::verify] *)
Definition verify_token (now : Z) (t : MembershipToken) : result InviteError unit :=
  if negb (mt_version t =? 1)
  then Err (InvalidToken ("unsupported membership token version: " +:+ dec_of_Z (mt_version t)))
  else if expired_at now (mt_expires_at t) then Err Expired
  else verify_by "admitted_by PeerId" "cannot extract public key from admitted_by PeerId"
         "membership token signature verification failed"
         (mt_admitted_by t) (mt_signature t) (signable_bytes t).

(** [MembershipToken::issue] at the time [now] *)
Definition issue (now : Z) (mesh_id joiner_peer_id : string) (key : Keypair) (invite_id : string)
    (permissions : InvitePermissions) (expires_at : Z) : result InviteError MembershipToken :=
  let token signature :=
    {| mt_version := 1; mt_mesh_id := mesh_id; mt_peer_id := joiner_peer_id;
       mt_admitted_by := peer_text (key_peer key); mt_invite_id := invite_id;
       mt_permissions := permissions; mt_issued_at := now; mt_expires_at := expires_at;
       mt_signature := signature |} in
  bind_result (signable_bytes (token "")) (fun payload =>
  match key_sign key payload with
  | Err e => Err (InvalidSignature ("signing failed: " +:+ e))
  | Ok s => Ok (token (hex_encode s))
  end).

(** ** Tokens as text *)

Definition ok_or_empty {E} (r : result E Bytes) : Bytes := match r with Ok b => b | Err _ => [] end.

(** [SignedInviteGrant::encode] *)
Definition encode_invite (s : SignedInviteGrant) : string :=
  base64_encode (ok_or_empty (to_wire_bytes (sg_grant s)) ++ ok_or_empty (hex_decode (sg_signature s))).

Definition url_prefix : string := "qmt://mesh/join/".
Definition to_url (s : SignedInviteGrant) : string := url_prefix +:+ encode_invite s.

Definition decode_binary (bytes : Bytes) : result InviteError SignedInviteGrant :=
  bind_result (from_wire_bytes bytes) (fun '(grant, sig_start) =>
  if (length bytes <? sig_start + 64)%nat
  then Err (InvalidToken ("token too short for signature: " +:+
                          nat_str (length bytes - sig_start) +:+ " bytes remaining, need 64"))
  else if (sig_start + 64 <? length bytes)%nat
  then Err (InvalidToken ("unexpected trailing bytes: " +:+
                          nat_str (length bytes - sig_start - 64) +:+ " extra"))
  else Ok {| sg_grant := grant;
             sg_signature := hex_encode (bytes_at sig_start (sig_start + 64) bytes) |}).

(** [SignedInviteGrant::decode] *)
Definition decode_invite (token : string) : result InviteError SignedInviteGrant :=
  match base64_decode (default token (strip_prefix url_prefix token)) with
  | Err e => Err (InvalidToken ("base64 decode failed: " +:+ e))
  | Ok bytes =>
      if (length bytes =? 0)%nat then Err (InvalidToken "empty token")
      else if negb (byte_at 0 bytes =? WIRE_VERSION)
      then Err (InvalidToken ("unsupported token version: " +:+ dec_of_Z (byte_at 0 bytes) +:+
                              " (expected 3)"))
      else decode_binary bytes
  end.
End grants.
