(* ===== verification/MeshAdmission.v ===== *)
(** Admission to a mesh: the host's store of invites (querymt-remote/invite.rs),
    the meshes a node hosts or has joined (mesh_state.rs), the handling of a
    request to be admitted (agent/remote/node_manager.rs), and the joiner's side
    of it (agent/remote/admission.rs, mesh/join.rs, api/mesh/invite.rs). *)
From S2P Require Import Prelude Numbers Text TextOps Invites.

Local Open Scope Z_scope.

(** ** Scopes and the names registered in them (querymt-remote/scope.rs) *)

Inductive MeshScopeId := Lan (lan_id : string) | Iroh (mesh_id : string).

#[export] Instance MeshScopeId_eq_dec : EqDecision MeshScopeId.
Proof. solve_decision. Defined.

Definition colons : string := "::".

Definition hex_digit_upper (x : Z) : string := text_of [if x <? 10 then 48 + x else 55 + x].

Definition encode_byte (c : Ascii.ascii) : string :=
  if is_ascii_alphanumeric c || in_range 45 46 c || N.eqb (byte_of c) 95
  then String c ""
  else let b := Z.of_N (byte_of c) in "%" +:+ hex_digit_upper (b / 16) +:+ hex_digit_upper (b mod 16).

Definition encode_mesh_id (mesh_id : string) : string :=
  sconcat (map encode_byte (String.list_ascii_of_string mesh_id)).

Definition lan_default : MeshScopeId := Lan "default".

Definition dht_prefix (s : MeshScopeId) : string :=
  match s with
  | Lan id => "scope::lan::" +:+ encode_mesh_id id +:+ colons
  | Iroh id => "scope::iroh::" +:+ encode_mesh_id id +:+ colons
  end.

Definition scope_display (s : MeshScopeId) : string :=
  match s with Lan id => "lan:" +:+ id | Iroh id => "iroh:" +:+ id end.

Definition scoped_node_manager (s : MeshScopeId) : string := dht_prefix s +:+ "node_manager".
Definition scoped_node_manager_for_peer (s : MeshScopeId) (peer_id : string) : string :=
  dht_prefix s +:+ "node_manager::peer::" +:+ peer_id.
Definition scoped_provider_host (s : MeshScopeId) (peer_id : string) : string :=
  dht_prefix s +:+ "provider_host::peer::" +:+ peer_id.
Definition scoped_provider_catalog (s : MeshScopeId) (peer_id : string) : string :=
  dht_prefix s +:+ "provider_catalog::peer::" +:+ peer_id.
Definition scoped_session (s : MeshScopeId) (session_id : string) : string :=
  dht_prefix s +:+ "session::" +:+ session_id.
Definition scoped_event_relay (s : MeshScopeId) (session_id peer_id : string) : string :=
  dht_prefix s +:+ "event_relay::" +:+ session_id +:+ colons +:+ peer_id.

(** ** The stores *)

Inductive InviteStatus := IvPending | IvConsumed | IvRevoked.

#[export] Instance InviteStatus_eq_dec : EqDecision InviteStatus.
Proof. solve_decision. Defined.

Record InviteRecord := {
  ir_invite_id : string;
  ir_grant : InviteGrant;
  ir_created_at : Z;
  ir_uses_remaining : Z;
  ir_status : InviteStatus;
  ir_used_by : list string;
}.

Inductive MeshLocalRole := MrHost | MrMember | MrBoth.
Inductive MeshStatus := MsActive | MsLeft | MsRevoked.

#[export] Instance MeshLocalRole_eq_dec : EqDecision MeshLocalRole.
Proof. solve_decision. Defined.
#[export] Instance MeshStatus_eq_dec : EqDecision MeshStatus.
Proof. solve_decision. Defined.

(** [MeshLocalRole::merge] *)
Definition merge_roles (a b : MeshLocalRole) : MeshLocalRole :=
  match a, b with
  | MrBoth, _ | _, MrBoth => MrBoth
  | MrHost, MrMember | MrMember, MrHost => MrBoth
  | role, _ => role
  end.

Record MeshStateEntry := {
  me_mesh_id : string;
  me_name : option string;
  me_role : MeshLocalRole;
  me_status : MeshStatus;
  me_membership_token : option MembershipToken;
  me_admitted_peers : gmap string MembershipToken;
  me_known_peers : gmap string PeerEntry;
  me_invite_ids : list string;
  me_created_at : Z;
  me_updated_at : Z;
  me_last_connected : option Z;
}.

(** The keys and values of a [BTreeMap], in the order of its keys. *)
Definition ordered {A} (m : gmap string A) : list (string * A) :=
  sort_on (fun x y => String.leb x.1 y.1) (map_to_list m).

(** A JSON file of a store: none, one that holds a value, or one that cannot
    be read or parsed, with the error. *)
Inductive StoreFile (A : Type) := FAbsent | FHolds (a : A) | FBroken (e : string).
Arguments FAbsent {A}.
Arguments FHolds {A} a.
Arguments FBroken {A} e.

(** A node: its two stores in memory and on disk, and a logical clock. *)
Record MeshNode := {
  mn_now : nat;
  mn_invites : gmap string InviteRecord;
  mn_invite_file : StoreFile (gmap string InviteRecord);
  mn_meshes : gmap string MeshStateEntry;
  mn_mesh_file : StoreFile (gmap string MeshStateEntry);
}.

Definition tick_node (n : MeshNode) : MeshNode :=
  {| mn_now := S (mn_now n); mn_invites := mn_invites n; mn_invite_file := mn_invite_file n;
     mn_meshes := mn_meshes n; mn_mesh_file := mn_mesh_file n |}.
Definition set_invites (f : gmap string InviteRecord -> gmap string InviteRecord) (n : MeshNode) :=
  {| mn_now := mn_now n; mn_invites := f (mn_invites n); mn_invite_file := mn_invite_file n;
     mn_meshes := mn_meshes n; mn_mesh_file := mn_mesh_file n |}.
Definition set_invite_file (f : StoreFile (gmap string InviteRecord)) (n : MeshNode) :=
  {| mn_now := mn_now n; mn_invites := mn_invites n; mn_invite_file := f;
     mn_meshes := mn_meshes n; mn_mesh_file := mn_mesh_file n |}.
Definition set_meshes (f : gmap string MeshStateEntry -> gmap string MeshStateEntry) (n : MeshNode) :=
  {| mn_now := mn_now n; mn_invites := mn_invites n; mn_invite_file := mn_invite_file n;
     mn_meshes := f (mn_meshes n); mn_mesh_file := mn_mesh_file n |}.
Definition set_mesh_file (f : StoreFile (gmap string MeshStateEntry)) (n : MeshNode) :=
  {| mn_now := mn_now n; mn_invites := mn_invites n; mn_invite_file := mn_invite_file n;
     mn_meshes := mn_meshes n; mn_mesh_file := f |}.

(** The time in seconds, fresh uuids, and the failures of a write: the error,
    and what is then left of the file when it is not as it was. *)
Class MeshEnv := {
  me_secs : nat -> Z;
  me_uuid : nat -> Bytes;
  me_save_error : nat -> option (string * option string);
}.

Section node.
Context {MC : MeshCrypto} {ME : MeshEnv}.

Definition Node (A : Type) : Type := M MeshNode InviteError A.

Definition now_secs : Node Z := updating (fun n => (me_secs (mn_now n), tick_node n)).
Definition now_v7 : Node string := updating (fun n => (uuid_text (me_uuid (mn_now n)), tick_node n)).

(** [save_records] and [MeshStateStore::save] *)
Definition save_file {A} (what : MeshNode -> A) (put : StoreFile A -> MeshNode -> MeshNode) : Node unit :=
  fun n =>
  match me_save_error (mn_now n) with
  | None => (Ok tt, tick_node (put (FHolds (what n)) n))
  | Some (e, None) => (Err (StoreError e), tick_node n)
  | Some (e, Some torn) => (Err (StoreError e), tick_node (put (FBroken torn) n))
  end.
Definition save_records : Node unit := save_file mn_invites set_invite_file.
Definition save_meshes : Node unit := save_file mn_meshes set_mesh_file.

(** ** The store of invites *)

(** [InviteStore::load_or_create], [MeshStateStore::load_or_create] *)
Definition load_file {A} (empty : A) (f : StoreFile A) : result InviteError A :=
  match f with
  | FAbsent => Ok empty
  | FHolds a => Ok a
  | FBroken e => Err (StoreError e)
  end.
Definition load_invites : Node unit := fun n =>
  match load_file ∅ (mn_invite_file n) with
  | Ok l => (Ok tt, set_invites (fun _ => l) n)
  | Err e => (Err e, n)
  end.
Definition load_meshes : Node unit := fun n =>
  match load_file ∅ (mn_mesh_file n) with
  | Ok l => (Ok tt, set_meshes (fun _ => l) n)
  | Err e => (Err e, n)
  end.

(** The time a grant ends, from its time to live. *)
Definition expiry (ttl_secs : option Z) : Node Z :=
  match ttl_secs with
  | None => mret 0
  | Some ttl => now ← now_secs; mret (u64_add now ttl)
  end.

Definition create_invite (key : Keypair) (peer_id : string) (mesh_name : option string)
    (ttl_secs : option Z) (max_uses : Z) (permissions : InvitePermissions)
  : Node SignedInviteGrant :=
  expires_at ← expiry ttl_secs;
  invite_id ← now_v7;
  let grant := {| ig_version := WIRE_VERSION; ig_invite_id := invite_id;
                  ig_inviter_peer_id := peer_id; ig_mesh_name := mesh_name;
                  ig_expires_at := expires_at; ig_max_uses := max_uses;
                  ig_permissions := permissions |} in
  signed ← lift_result (sign key grant);
  created_at ← now_secs;
  modify (set_invites (insert invite_id
    {| ir_invite_id := invite_id; ir_grant := grant; ir_created_at := created_at;
       ir_uses_remaining := max_uses; ir_status := IvPending; ir_used_by := [] |})) ≫= fun _ =>
  save_records ≫= fun _ => mret signed.

Definition find_record (invite_id : string) : Node InviteRecord :=
  r ← gets (fun n => mn_invites n !! invite_id);
  match r with Some r => mret r | None => fail (IeNotFound invite_id) end.

Definition put_record (invite_id : string) (r : InviteRecord) : Node unit :=
  modify (set_invites (insert invite_id r)).

Definition with_status (s : InviteStatus) (r : InviteRecord) : InviteRecord :=
  {| ir_invite_id := ir_invite_id r; ir_grant := ir_grant r; ir_created_at := ir_created_at r;
     ir_uses_remaining := ir_uses_remaining r; ir_status := s; ir_used_by := ir_used_by r |}.

(** The record after one use by [joiner]. *)
Definition used_once (joiner : string) (r : InviteRecord) : InviteRecord :=
  let limited := 0 <? ig_max_uses (ir_grant r) in
  let remaining := if limited then ir_uses_remaining r - 1 else ir_uses_remaining r in
  {| ir_invite_id := ir_invite_id r; ir_grant := ir_grant r; ir_created_at := ir_created_at r;
     ir_uses_remaining := remaining;
     ir_status := if limited && (remaining =? 0) then IvConsumed else ir_status r;
     ir_used_by := ir_used_by r ++ [joiner] |}.

(** The checks and the use that [admit_peer] and [validate_and_consume] share. *)
Definition consume_use (invite_id joiner_peer_id : string) : Node InviteRecord :=
  record ← find_record invite_id;
  match ir_status record with
  | IvRevoked => fail InviteRevoked
  | IvConsumed => fail InviteConsumed
  | IvPending =>
      now ← now_secs;
      if expired_at now (ig_expires_at (ir_grant record)) then fail Expired
      else if (0 <? ig_max_uses (ir_grant record)) && (ir_uses_remaining record =? 0)
      then put_record invite_id (with_status IvConsumed record) ≫= fun _ =>
           save_records ≫= fun _ => fail InviteConsumed
      else put_record invite_id (used_once joiner_peer_id record) ≫= fun _ => mret record
  end.

Definition validate_and_consume (invite_id joiner_peer_id : string) : Node unit :=
  consume_use invite_id joiner_peer_id ≫= fun _ => save_records.

Definition admit_peer (invite_id joiner_peer_id : string) (key : Keypair) (mesh_name : option string)
  : Node MembershipToken :=
  record ← consume_use invite_id joiner_peer_id;
  save_records ≫= fun _ =>
  let mid := mesh_id_for (peer_text (key_peer key)) mesh_name in
  now ← now_secs;
  lift_result (issue now mid joiner_peer_id key invite_id
                 (ig_permissions (ir_grant record)) (ig_expires_at (ir_grant record))).

Definition revoke (invite_id : string) : Node unit :=
  record ← find_record invite_id;
  put_record invite_id (with_status IvRevoked record) ≫= fun _ => save_records.

(** The records of a [HashMap], whose order is not specified. *)
Definition list_pending (n : MeshNode) : list InviteRecord :=
  List.filter (fun r => bool_decide (ir_status r = IvPending)) (map snd (map_to_list (mn_invites n))).

(** ** The store of meshes *)

Definition blank_entry (mesh_id : string) (name : option string) (role : MeshLocalRole)
    (last_connected : option Z) (now : Z) : MeshStateEntry :=
  {| me_mesh_id := mesh_id; me_name := name; me_role := role; me_status := MsActive;
     me_membership_token := None; me_admitted_peers := ∅; me_known_peers := ∅;
     me_invite_ids := []; me_created_at := now; me_updated_at := now;
     me_last_connected := last_connected |}.

(** [entry(mesh_id).or_insert_with(..)], and what each upsert sets. *)
Definition upserted (now : Z) (fresh : MeshStateEntry) (role : MeshLocalRole)
    (old : option MeshStateEntry) : MeshStateEntry :=
  let e := default fresh old in
  {| me_mesh_id := me_mesh_id e; me_name := me_name e; me_role := merge_roles (me_role e) role;
     me_status := MsActive; me_membership_token := me_membership_token e;
     me_admitted_peers := me_admitted_peers e; me_known_peers := me_known_peers e;
     me_invite_ids := me_invite_ids e; me_created_at := me_created_at e; me_updated_at := now;
     me_last_connected := me_last_connected e |}.

Definition with_invite (name invite_id : option string) (e : MeshStateEntry) : MeshStateEntry :=
  {| me_mesh_id := me_mesh_id e;
     me_name := match me_name e with Some n => Some n | None => name end;
     me_role := me_role e; me_status := me_status e;
     me_membership_token := me_membership_token e; me_admitted_peers := me_admitted_peers e;
     me_known_peers := me_known_peers e;
     me_invite_ids :=
       match invite_id with
       | Some i => if bool_decide (i ∈ me_invite_ids e) then me_invite_ids e
                   else sort_on String.leb (me_invite_ids e ++ [i])
       | None => me_invite_ids e
       end;
     me_created_at := me_created_at e; me_updated_at := me_updated_at e;
     me_last_connected := me_last_connected e |}.

Definition upsert_hosted_mesh (mesh_id : string) (name invite_id : option string) : Node unit :=
  now ← now_secs;
  modify (set_meshes (fun m => <[mesh_id :=
    with_invite name invite_id
      (upserted now (blank_entry mesh_id name MrHost None now) MrHost (m !! mesh_id))]> m)) ≫= fun _ =>
  save_meshes.

(** The peers inserted in turn, so that the last of a name stays. *)
Definition insert_peers (peers : list PeerEntry) (m : gmap string PeerEntry) : gmap string PeerEntry :=
  fold_left (fun m p => <[pe_peer_id p := p]> m) peers m.

Definition with_connection (now : Z) (token : option MembershipToken)
    (peers : gmap string PeerEntry) (e : MeshStateEntry) : MeshStateEntry :=
  {| me_mesh_id := me_mesh_id e; me_name := me_name e; me_role := me_role e;
     me_status := me_status e; me_membership_token := token;
     me_admitted_peers := me_admitted_peers e; me_known_peers := peers;
     me_invite_ids := me_invite_ids e; me_created_at := me_created_at e; me_updated_at := now;
     me_last_connected := Some now |}.

Definition upsert_joined_mesh (token : MembershipToken) (known_peers : list PeerEntry) : Node unit :=
  now ← now_secs;
  let mesh_id := mt_mesh_id token in
  modify (set_meshes (fun m => <[mesh_id :=
    let e := upserted now (blank_entry mesh_id None MrMember (Some now) now) MrMember (m !! mesh_id) in
    with_connection now (Some token) (insert_peers known_peers (me_known_peers e)) e]> m)) ≫= fun _ =>
  save_meshes.

Definition with_admitted (token : MembershipToken) (e : MeshStateEntry) : MeshStateEntry :=
  {| me_mesh_id := me_mesh_id e; me_name := me_name e; me_role := me_role e;
     me_status := me_status e; me_membership_token := me_membership_token e;
     me_admitted_peers := <[mt_peer_id token := token]> (me_admitted_peers e);
     me_known_peers := me_known_peers e; me_invite_ids := me_invite_ids e;
     me_created_at := me_created_at e; me_updated_at := me_updated_at e;
     me_last_connected := me_last_connected e |}.

Definition add_admitted_peer (mesh_id : string) (token : MembershipToken) : Node unit :=
  now ← now_secs;
  modify (set_meshes (fun m => <[mesh_id :=
    with_admitted token
      (upserted now (blank_entry mesh_id None MrHost None now) MrHost (m !! mesh_id))]> m)) ≫= fun _ =>
  save_meshes.

(** An update of the entry of a mesh that there is. *)
Definition on_entry {A} (mesh_id : string) (missing : A) (f : MeshStateEntry -> Node A) : Node A :=
  e ← gets (fun n => mn_meshes n !! mesh_id);
  match e with Some e => f e | None => mret missing end.

Definition put_entry (mesh_id : string) (e : MeshStateEntry) : Node unit :=
  modify (set_meshes (insert mesh_id e)).

Definition update_known_peers (mesh_id : string) (peers : list PeerEntry) : Node unit :=
  on_entry mesh_id tt (fun e =>
  updated ← now_secs;
  connected ← now_secs;
  let e' := with_connection connected (me_membership_token e) (insert_peers peers ∅) e in
  put_entry mesh_id
    {| me_mesh_id := me_mesh_id e'; me_name := me_name e'; me_role := me_role e';
       me_status := me_status e'; me_membership_token := me_membership_token e';
       me_admitted_peers := me_admitted_peers e'; me_known_peers := me_known_peers e';
       me_invite_ids := me_invite_ids e'; me_created_at := me_created_at e';
       me_updated_at := updated; me_last_connected := me_last_connected e' |} ≫= fun _ =>
  save_meshes).

Definition touched_entry (now : Z) (status : MeshStatus) (peers : gmap string PeerEntry)
    (e : MeshStateEntry) : MeshStateEntry :=
  {| me_mesh_id := me_mesh_id e; me_name := me_name e; me_role := me_role e; me_status := status;
     me_membership_token := me_membership_token e; me_admitted_peers := me_admitted_peers e;
     me_known_peers := peers; me_invite_ids := me_invite_ids e;
     me_created_at := me_created_at e; me_updated_at := now;
     me_last_connected := me_last_connected e |}.

Definition remove_known_peer (mesh_id peer_id : string) : Node bool :=
  on_entry mesh_id false (fun e =>
  match me_known_peers e !! peer_id with
  | None => mret false
  | Some _ =>
      now ← now_secs;
      put_entry mesh_id (touched_entry now (me_status e) (delete peer_id (me_known_peers e)) e) ≫= fun _ =>
      save_meshes ≫= fun _ => mret true
  end).

Definition mark_left (mesh_id : string) : Node bool :=
  on_entry mesh_id false (fun e =>
  now ← now_secs;
  put_entry mesh_id (touched_entry now MsLeft (me_known_peers e) e) ≫= fun _ =>
  save_meshes ≫= fun _ => mret true).

Definition is_active (e : MeshStateEntry) : bool := bool_decide (me_status e = MsActive).
Definition is_host (e : MeshStateEntry) : bool := bool_decide (me_role e <> MrMember).

Definition active_mesh_ids (n : MeshNode) : list string :=
  map me_mesh_id (List.filter is_active (map snd (ordered (mn_meshes n)))).

Definition known_peers_for_mesh (mesh_id : string) (n : MeshNode) : list PeerEntry :=
  match mn_meshes n !! mesh_id with
  | Some e => map snd (ordered (me_known_peers e))
  | None => []
  end.

(** The known peers, and for a host the admitted ones that are not among them. *)
Definition reconnect_peers_for_mesh (mesh_id : string) (n : MeshNode) : list PeerEntry :=
  match mn_meshes n !! mesh_id with
  | Some e =>
      if is_active e then
        let admitted := (fun t => {| pe_peer_id := mt_peer_id t;
                                     pe_addrs := ["/p2p/" +:+ mt_peer_id t] |})
                        <$> me_admitted_peers e in
        map snd (ordered (if is_host e then me_known_peers e ∪ admitted else me_known_peers e))
      else []
  | None => []
  end.

(** Each pair of a mesh and a peer's name once. *)
Fixpoint distinct_peers (seen : gset (string * string)) (l : list (string * PeerEntry))
  : list (string * PeerEntry) :=
  match l with
  | [] => []
  | (mesh_id, peer) :: rest =>
      if bool_decide ((mesh_id, pe_peer_id peer) ∈ seen) then distinct_peers seen rest
      else (mesh_id, peer) :: distinct_peers ({[(mesh_id, pe_peer_id peer)]} ∪ seen) rest
  end.

Definition all_reconnect_peers (n : MeshNode) : list (string * PeerEntry) :=
  distinct_peers ∅
    (mjoin (map (fun '(mesh_id, e) =>
                   if is_active e then map (pair mesh_id) (reconnect_peers_for_mesh mesh_id n) else [])
                (ordered (mn_meshes n)))).

Definition mesh_ids_for_host (host_peer_id : string) (n : MeshNode) : list string :=
  map me_mesh_id
    (List.filter (fun e => is_active e && is_host e && is_prefix_of (host_peer_id +:+ ":") (me_mesh_id e))
       (map snd (ordered (mn_meshes n)))).

(** ** The host *)

(** The handle of a host's mesh: its key and name, and which stores it has. *)
Record HostMesh := {
  hm_key : Keypair;
  hm_peer : PeerId;
  hm_invite_store : bool;
  hm_state_store : bool;
}.

(** [MeshHandle::create_invite]; the scope it joins is not part of a node's stores. *)
Definition host_create_invite (h : HostMesh) (mesh_name : option string) (ttl_secs max_uses : option Z)
    (can_invite : bool) : Node SignedInviteGrant :=
  let max_uses := default 1 max_uses in
  let permissions := {| ip_can_invite := can_invite; ip_role := "member" |} in
  invite ← (if hm_invite_store h
            then create_invite (hm_key h) (peer_text (hm_peer h)) mesh_name ttl_secs max_uses permissions
            else expires_at ← (now ← now_secs;
                               mret (match ttl_secs with Some ttl => u64_add now ttl | None => 0 end));
                 invite_id ← now_v7;
                 lift_result (sign (hm_key h)
                   {| ig_version := 3; ig_invite_id := invite_id;
                      ig_inviter_peer_id := peer_text (hm_peer h); ig_mesh_name := mesh_name;
                      ig_expires_at := expires_at; ig_max_uses := max_uses;
                      ig_permissions := permissions |}));
  (if hm_state_store h
   then attempt (upsert_hosted_mesh (mesh_id_for (peer_text (hm_peer h)) mesh_name) mesh_name
                   (Some (ig_invite_id (sg_grant invite)))) ≫= fun _ => mret tt
   else mret tt) ≫= fun _ =>
  mret invite.

Inductive AdmissionRequest :=
| ArInvite (invite_id : string) (mesh_name : option string) (peer_id : string)
| ArToken (membership_token : MembershipToken) (peer_id : string).

Inductive AdmissionResponse :=
| PeerAdmitted (membership_token : MembershipToken) (existing_peers : list string)
| Readmitted (existing_peers : list string)
| Rejected (reason : string).

(** The peers of the routes, without the one that asks. *)
Definition other_peers (peer_id : string) (known : list PeerId) : list string :=
  List.filter (fun p => negb (String.eqb p peer_id)) (map peer_text known).

(** [impl Message<AdmissionRequest> for RemoteNodeManager]; [known] are the
    peers the handle's routes have at the time. *)
Definition handle_admission (mesh : option HostMesh) (known : list PeerId) (msg : AdmissionRequest)
  : Node AdmissionResponse :=
  match msg with
  | ArInvite invite_id mesh_name peer_id =>
      match mesh with
      | None => mret (Rejected "host has no mesh handle")
      | Some h =>
          if negb (hm_invite_store h) then mret (Rejected "host has no invite store") else
          result ← attempt (admit_peer invite_id peer_id (hm_key h) mesh_name);
          match result with
          | Ok token =>
              (if hm_state_store h
               then attempt (add_admitted_peer (mesh_id_for (peer_text (hm_peer h)) mesh_name) token)
                      ≫= fun _ => mret tt
               else mret tt) ≫= fun _ =>
              mret (PeerAdmitted token (other_peers peer_id known))
          | Err e => mret (Rejected (invite_error_display e))
          end
      end
  | ArToken membership_token peer_id =>
      if negb (String.eqb (mt_peer_id membership_token) peer_id)
      then mret (Rejected "peer_id does not match membership token")
      else
        now ← now_secs;
        match verify_token now membership_token with
        | Ok _ =>
            mret (Readmitted (match mesh with Some _ => other_peers peer_id known | None => [] end))
        | Err e => mret (Rejected (invite_error_display e))
        end
  end.
End node.

(** ** The joiner *)

Inductive AdmissionError :=
| InvalidInviterPeer (peer_id reason : string)
| InvalidFallbackPeer (peer_id reason : string)
| AeRejected (reason : string)
| NoReachablePeer (inviter_peer_id mesh_id : string) (candidate_count : nat) (attempts : Z)
    (timeout : Z) (last_error : string)
| AeTransport (s : string).

(** Durations in milliseconds; [AdmissionPolicy::production] *)
Record AdmissionPolicy := { ap_max_elapsed : Z; ap_initial_delay : Z; ap_max_delay : Z }.
Definition production : AdmissionPolicy :=
  {| ap_max_elapsed := 15000; ap_initial_delay := 250; ap_max_delay := 2000 |}.

Inductive AdmissionFailure := AfError (e : AdmissionError) | AfOutOfFuel.

Section joiner.
Context {MC : MeshCrypto}.

Definition candidate_of (e : string -> string -> AdmissionError) (peer : string)
  : result AdmissionError PeerId :=
  match peer_parse peer with Ok p => Ok p | Err reason => Err (e peer reason) end.

Fixpoint fallback_candidates (seen : list PeerId) (peers : list PeerEntry)
  : result AdmissionError (list PeerId) :=
  match peers with
  | [] => Ok []
  | p :: rest =>
      bind_result (candidate_of InvalidFallbackPeer (pe_peer_id p)) (fun peer_id =>
      if bool_decide (peer_id ∈ seen) then fallback_candidates seen rest
      else bind_result (fallback_candidates (peer_id :: seen) rest) (fun l => Ok (peer_id :: l)))
  end.

(** The inviter, and then the fallback peers, each once. *)
Definition admission_candidates (inviter_peer_id : string) (fallback_peers : list PeerEntry)
  : result AdmissionError (list PeerId) :=
  bind_result (candidate_of InvalidInviterPeer inviter_peer_id) (fun inviter =>
  bind_result (fallback_candidates [inviter] fallback_peers) (fun l => Ok (inviter :: l))).

(** The transport ([AdmissionTransport]), and the time in milliseconds: what
    each call answers at the moment it is made. *)
Class AdmissionEnv := {
  Target : Type;
  ad_dial : nat -> PeerId -> MeshScopeId -> option string;
  ad_lookup : nat -> PeerId -> MeshScopeId -> result string (option Target);
  ad_send : nat -> Target -> AdmissionRequest -> result string AdmissionResponse;
  ad_millis : nat -> Z;
  (** The moment a sleep of so many milliseconds ends. *)
  ad_sleep : nat -> Z -> nat;
}.
Context {AE : AdmissionEnv}.

Definition Adm (A : Type) : Type := M nat AdmissionFailure A.
Definition moment : Adm nat := updating (fun t => (t, S t)).

(** The [Display] of [AdmissionError::Transport], the error of every call. *)
Definition transport_display (e : string) : string := "admission transport error: " +:+ e.

(** Dialing every candidate; the last error, if there is one. *)
Fixpoint dial_all (scope : MeshScopeId) (last_error : string) (l : list PeerId) : Adm string :=
  match l with
  | [] => mret last_error
  | p :: rest =>
      t ← moment;
      dial_all scope
        (match ad_dial t p scope with
         | Some e => transport_display e
         | None => last_error
         end) rest
  end.

(** The first candidate with a node manager is asked, and its answer decides. *)
Fixpoint ask_first (scope : MeshScopeId) (request : AdmissionRequest) (last_error : string)
    (l : list PeerId) : Adm (string + AdmissionResponse) :=
  match l with
  | [] => mret (inl last_error)
  | p :: rest =>
      t ← moment;
      match ad_lookup t p scope with
      | Ok (Some target) =>
          t' ← moment;
          match ad_send t' target request with
          | Err e => fail (AfError (AeTransport e))
          | Ok (Rejected reason) => fail (AfError (AeRejected reason))
          | Ok response => mret (inr response)
          end
      | Ok None =>
          ask_first scope request
            ("no node manager for " +:+ peer_text p +:+ " in scope " +:+ scope_display scope) rest
      | Err e => ask_first scope request (transport_display e) rest
      end
  end.

Fixpoint admit_loop (fuel : nat) (policy : AdmissionPolicy) (mesh_id : string) (scope : MeshScopeId)
    (inviter_peer_id : string) (request : AdmissionRequest) (candidates : list PeerId)
    (started attempts delay : Z) (last_error : string) : Adm AdmissionResponse :=
  match fuel with
  | O => fail AfOutOfFuel
  | S fuel' =>
      let attempts := u32_saturating_add attempts 1 in
      last_error ← dial_all scope last_error candidates;
      answer ← ask_first scope request last_error candidates;
      match answer with
      | inr response => mret response
      | inl last_error =>
          t ← moment;
          if ap_max_elapsed policy <=? ad_millis t - started
          then fail (AfError (NoReachablePeer inviter_peer_id mesh_id (length candidates) attempts
                                (ap_max_elapsed policy) last_error))
          else modify (fun t => ad_sleep t delay) ≫= fun _ =>
               admit_loop fuel' policy mesh_id scope inviter_peer_id request candidates started
                 attempts (Z.min (delay * 2) (ap_max_delay policy)) last_error
      end
  end.

(** [AdmissionService::admit] *)
Definition search_admission (fuel : nat) (policy : AdmissionPolicy) (mesh_id : string) (scope : MeshScopeId)
    (inviter_peer_id : string) (fallback_peers : list PeerEntry) (request : AdmissionRequest)
  : Adm AdmissionResponse :=
  match admission_candidates inviter_peer_id fallback_peers with
  | Err e => fail (AfError e)
  | Ok candidates =>
      t ← moment;
      admit_loop fuel policy mesh_id scope inviter_peer_id request candidates (ad_millis t) 0
        (ap_initial_delay policy) "no lookup attempts completed"
  end.
End joiner.

(** ** Joining, around the request *)

Section join.
Context {MC : MeshCrypto} {ME : MeshEnv}.

(** The text that the errors of joining carry. *)
Definition Join (A : Type) : Type := M MeshNode string A.
Definition or_text {A} (prefix : string) (m : Node A) : Join A :=
  map_err (fun e => prefix +:+ invite_error_display e) m.

(** The request, and the peers that are asked beside the inviter: a member
    that has a token which has not expired shows it.  [mn_meshes] is here the
    store that the procedure has loaded for itself. *)
Definition join_plan (invite : SignedInviteGrant) (my_peer_id : string)
  : Join (AdmissionRequest * list PeerEntry) :=
  let g := sg_grant invite in
  now ← or_text "" now_secs;
  or_text "" (lift_result (verify_grant now invite)) ≫= fun _ =>
  let mesh_id := mesh_id_for (ig_inviter_peer_id g) (ig_mesh_name g) in
  or_text "" load_meshes ≫= fun _ =>
  entry ← gets (fun n => mn_meshes n !! mesh_id);
  let first := (ArInvite (ig_invite_id g) (ig_mesh_name g) my_peer_id, []) in
  match e ← entry; t ← me_membership_token e; Some (e, t) with
  | Some (e, token) =>
      if is_active e then
        now ← or_text "" now_secs;
        mret (if expired_at now (mt_expires_at token) then first
              else (ArToken token my_peer_id, map snd (ordered (me_known_peers e))))
      else mret first
  | None => mret first
  end.

Definition entry_of (peer_id : string) : PeerEntry :=
  {| pe_peer_id := peer_id; pe_addrs := ["/p2p/" +:+ peer_id] |}.

(** The known peers, and the ones the host has named that are not among them. *)
Definition merged_peers (known : list PeerId) (existing_peers : list string) : list PeerEntry :=
  map entry_of
    (fold_left (fun l p => if bool_decide (p ∈ l) then l else l ++ [p]) existing_peers
       (map peer_text known)).

(** The end of [join_mesh_via_invite]. *)
Definition finish_join (mesh_id : string) (known : list PeerId) (fallback_peers : list PeerEntry)
    (response : AdmissionResponse) : Join unit :=
  match response with
  | PeerAdmitted token existing_peers =>
      or_text "failed to persist mesh state: "
        (upsert_joined_mesh token (merged_peers known existing_peers))
  | Readmitted _ =>
      or_text "failed to update mesh state timestamp: " (update_known_peers mesh_id fallback_peers)
  | Rejected reason => fail ("admission rejected: " +:+ reason)
  end ≫= fun _ => or_text "" load_meshes.

(** The end of [admit_via_invite_on_runtime]. *)
Definition finish_admit (mesh_id : string) (known : list PeerId) (response : AdmissionResponse)
  : Join unit :=
  match response with
  | PeerAdmitted token existing_peers =>
      or_text "failed to persist mesh state: "
        (upsert_joined_mesh token (merged_peers known existing_peers))
  | Readmitted existing_peers =>
      or_text "failed to update mesh state: "
        (update_known_peers mesh_id (merged_peers known existing_peers))
  | Rejected reason => fail ("admission rejected: " +:+ reason)
  end ≫= fun _ => or_text "" load_meshes.
End join.
