(* ===== verification/MeshProps.v ===== *)
(** Properties of invites, of their admission and of the names of a scope. *)
From S2P Require Import Prelude Numbers Text TextOps Invites MeshAdmission.

Local Open Scope Z_scope.

(** ** Bytes *)

Lemma be_bytes_length n z : length (be_bytes n z) = n.
Proof. revert z. induction n as [|n IH]; intros z; [done|]. cbn. rewrite length_app, IH. cbn. lia. Qed.

Lemma be_value_snoc b x : be_value (b ++ [x]) = be_value b * 256 + x.
Proof. unfold be_value. by rewrite fold_left_app. Qed.

Lemma be_value_bytes n z : 0 <= z < 256 ^ Z.of_nat n -> be_value (be_bytes n z) = z.
Proof.
  revert z. induction n as [|n IH]; intros z Hz; [cbn in *; lia|].
  cbn [be_bytes]. rewrite be_value_snoc, IH.
  - pose proof (Z.div_mod z 256). lia.
  - rewrite Nat2Z.inj_succ, Z.pow_succ_r in Hz by lia.
    split; [apply Z.div_pos; lia|apply Z.div_lt_upper_bound; lia].
Qed.

Lemma be_bytes_inj n y z :
  0 <= y < 256 ^ Z.of_nat n -> 0 <= z < 256 ^ Z.of_nat n -> be_bytes n y = be_bytes n z -> y = z.
Proof. intros Hy Hz H. by rewrite <- (be_value_bytes n y), <- (be_value_bytes n z), H. Qed.

Lemma be_bytes_are n z : 0 <= z -> Forall is_byte (be_bytes n z).
Proof.
  revert z. induction n as [|n IH]; intros z Hz; [constructor|]. cbn.
  apply Forall_app. split; [apply IH, Z.div_pos; lia|].
  constructor; [|constructor]. unfold is_byte. apply Z.mod_pos_bound. lia.
Qed.

Lemma bytes_of_length s : length (bytes_of s) = slen s.
Proof. unfold bytes_of. rewrite length_map. induction s; cbn; congruence. Qed.

Lemma text_of_bytes s : text_of (bytes_of s) = s.
Proof.
  unfold text_of, bytes_of. rewrite map_map.
  rewrite (map_ext _ (fun c => c)); [by rewrite map_id, String.string_of_list_ascii_of_string|].
  intros c. rewrite N2Z.id. apply Ascii.ascii_N_embedding.
Qed.

Lemma bytes_of_inj s t : bytes_of s = bytes_of t -> s = t.
Proof. intros H. by rewrite <- (text_of_bytes s), H, text_of_bytes. Qed.

Lemma bytes_of_are s : Forall is_byte (bytes_of s).
Proof.
  unfold bytes_of. apply Forall_map, Forall_true. intros c. unfold is_byte, byte_of.
  pose proof (Ascii.N_ascii_bounded c). lia.
Qed.

Lemma bytes_at_eq data a b c i j :
  data = a ++ b ++ c -> i = length a -> j = (length a + length b)%nat -> bytes_at i j data = b.
Proof.
  intros -> -> ->. unfold bytes_at.
  replace (length a + length b - length a)%nat with (length b) by lia.
  rewrite drop_app_length. by rewrite take_app_length.
Qed.

Lemma byte_at_eq data a x c i : data = a ++ x :: c -> i = length a -> byte_at i data = x.
Proof. intros -> ->. unfold byte_at. by rewrite nth_middle. Qed.

(** ** What the crates promise *)

Class MeshCryptoLaws (MC : MeshCrypto) : Prop := {
  mc_text p : peer_parse (peer_text p) = Ok p;
  mc_bytes p : peer_from_bytes (peer_to_bytes p) = Ok p;
  mc_uuid b : length b = 16%nat -> Forall is_byte b -> uuid_parse (uuid_text b) = Ok b;
  mc_hex b : Forall is_byte b -> hex_decode (hex_encode b) = Ok b;
  mc_base64 b : Forall is_byte b -> base64_decode (base64_encode b) = Ok b;
  (** base64 has no colon *)
  mc_alphabet b : strip_prefix url_prefix (base64_encode b) = None;
  (** an ed25519 peer id is its public key, with a code and a length in front *)
  mc_identity k : exists payload, (length payload < 128)%nat /\ Forall is_byte payload /\
    peer_to_bytes (key_peer k) = 0 :: Z.of_nat (length payload) :: payload;
  mc_key k : exists pk, key_decode (drop 2 (peer_to_bytes (key_peer k))) = Some pk /\
    forall m s, key_sign k m = Ok s ->
      key_verify pk m s = true /\ length s = 64%nat /\ Forall is_byte s;
}.

Section wire.
Context {MC : MeshCrypto} {ML : MeshCryptoLaws MC}.

(** ** The bytes of a grant *)

Definition plain_role (p : InvitePermissions) : Prop := ip_role p = "member" \/ ip_role p = "client".

(** What a host puts into a grant, as [create_invite] does. *)
Record issued_by (key : Keypair) (g : InviteGrant) : Prop := {
  ib_version : ig_version g = WIRE_VERSION;
  ib_id : exists u, length u = 16%nat /\ Forall is_byte u /\ ig_invite_id g = uuid_text u;
  ib_peer : ig_inviter_peer_id g = peer_text (key_peer key);
  ib_name : forall name, ig_mesh_name g = Some name -> from_utf8 (bytes_of name) = Ok name;
  ib_expires : is_u64 (ig_expires_at g);
  ib_uses : is_u32 (ig_max_uses g);
  ib_role : plain_role (ig_permissions g);
}.

(** The grant as it is read back: an empty mesh name is read as none. *)
Definition as_read (g : InviteGrant) : InviteGrant :=
  {| ig_version := ig_version g; ig_invite_id := ig_invite_id g;
     ig_inviter_peer_id := ig_inviter_peer_id g;
     ig_mesh_name := match ig_mesh_name g with Some name => if is_empty_str name then None else Some name
                                             | None => None end;
     ig_expires_at := ig_expires_at g; ig_max_uses := ig_max_uses g;
     ig_permissions := ig_permissions g |}.

Lemma as_read_id g : ig_mesh_name g <> Some "" -> as_read g = g.
Proof. unfold as_read. destruct g as [v i p [[]|] e m pe]; by cbn. Qed.

Lemma as_read_wire g : to_wire_bytes (as_read g) = to_wire_bytes g.
Proof. unfold to_wire_bytes, as_read. cbn. by destruct (ig_mesh_name g) as [[]|]. Qed.

Lemma flags_can_invite p : (Z.land (permission_flags p) 1 =? 0) = negb (ip_can_invite p).
Proof. unfold permission_flags. by destruct (ip_can_invite p), (String.eqb _ _). Qed.

Lemma flags_role p : (Z.land (permission_flags p) 2 =? 0) = negb (String.eqb (ip_role p) "client").
Proof. unfold permission_flags. by destruct (ip_can_invite p), (String.eqb _ _). Qed.

Lemma permissions_of_flags p : plain_role p ->
  {| ip_can_invite := negb (Z.land (permission_flags p) 1 =? 0);
     ip_role := if negb (Z.land (permission_flags p) 2 =? 0) then "client" else "member" |} = p.
Proof.
  intros Hr. rewrite flags_can_invite, flags_role, !negb_involutive.
  destruct p as [c r]. unfold plain_role in Hr. cbn in Hr |- *. by destruct Hr as [->| ->].
Qed.

(** The parts of a grant's bytes. *)
Definition wire_of (u payload : Bytes) (g : InviteGrant) : Bytes :=
  let name := bytes_of (default "" (ig_mesh_name g)) in
  ([WIRE_VERSION] ++ u ++ (0 :: Z.of_nat (length payload) :: payload)) ++
  be_bytes 8 (ig_expires_at g) ++ be_bytes 4 (ig_max_uses g) ++
  [permission_flags (ig_permissions g)] ++ [Z.of_nat (length name)] ++ name.

Lemma to_wire_issued key g w :
  issued_by key g -> to_wire_bytes g = Ok w ->
  exists u payload, length u = 16%nat /\ Forall is_byte u /\ ig_invite_id g = uuid_text u /\
    (length payload < 128)%nat /\ Forall is_byte payload /\
    peer_to_bytes (key_peer key) = 0 :: Z.of_nat (length payload) :: payload /\
    (length (bytes_of (default "" (ig_mesh_name g))) <= 255)%nat /\ w = wire_of u payload g.
Proof.
  intros [_ (u & Hu & Hub & Hid) Hp _ _ _ _] Hw.
  destruct (mc_identity key) as (payload & Hl & Hpb & Hk).
  exists u, payload. unfold to_wire_bytes in Hw. rewrite Hid, mc_uuid, Hp, mc_text in Hw by done.
  cbv zeta in Hw. destruct (Nat.ltb_spec 255 (length (bytes_of (default "" (ig_mesh_name g)))));
    [done|]. injection Hw as <-. repeat split; try done; try lia.
  unfold wire_of. by rewrite Hk, <- !app_assoc.
Qed.

(** The positions of a grant's fields in the bytes of a token. *)
Section fields.
Context (u payload rest : Bytes) (g : InviteGrant) (Hu : length u = 16%nat).
Let data : Bytes := wire_of u payload g ++ rest.
Let pos : nat := (17 + (2 + length payload))%nat.
Let name : Bytes := bytes_of (default "" (ig_mesh_name g)).

Lemma wire_length : length (wire_of u payload g) = (pos + 14 + length name)%nat.
Proof.
  unfold wire_of. rewrite !length_app, !be_bytes_length. cbn [length]. fold name. unfold pos. lia.
Qed.

Let expires := be_bytes 8 (ig_expires_at g).
Let uses := be_bytes 4 (ig_max_uses g).
Let flags := permission_flags (ig_permissions g).
Let head : Bytes := [WIRE_VERSION] ++ u ++ (0 :: Z.of_nat (length payload) :: payload).
Let tail : Bytes := [flags] ++ [Z.of_nat (length name)] ++ name ++ rest.

Lemma data_parts : data = head ++ expires ++ uses ++ tail.
Proof. unfold data, wire_of. fold name expires uses flags head. unfold tail. by rewrite <- !app_assoc. Qed.

Lemma head_length : length head = pos.
Proof. unfold head, pos. rewrite !length_app, Hu. cbn [length]. lia. Qed.

Lemma expires_length : length expires = 8%nat.
Proof. apply be_bytes_length. Qed.
Lemma uses_length : length uses = 4%nat.
Proof. apply be_bytes_length. Qed.

Ltac field_at :=
  rewrite ?data_parts; unfold head, tail; rewrite <- ?app_assoc; cbn [app length];
    rewrite ?length_app; cbn [length]; rewrite ?length_app, ?head_length, ?expires_length, ?uses_length;
    cbn [length]; try reflexivity; lia.

Lemma field_version : byte_at 0 data = WIRE_VERSION.
Proof. done. Qed.
Lemma field_uuid : bytes_at 1 17 data = u.
Proof.
  apply bytes_at_eq with (a := [WIRE_VERSION])
    (c := (0 :: Z.of_nat (length payload) :: payload) ++ expires ++ uses ++ tail); field_at.
Qed.
Lemma field_code : byte_at 17 data = 0.
Proof.
  apply byte_at_eq with (a := [WIRE_VERSION] ++ u)
    (c := (Z.of_nat (length payload) :: payload) ++ expires ++ uses ++ tail); field_at.
Qed.
Lemma field_peer_len : byte_at 18 data = Z.of_nat (length payload).
Proof.
  apply byte_at_eq with (a := [WIRE_VERSION] ++ u ++ [0])
    (c := payload ++ expires ++ uses ++ tail); field_at.
Qed.
Lemma field_peer : bytes_at 17 pos data = 0 :: Z.of_nat (length payload) :: payload.
Proof.
  apply bytes_at_eq with (a := [WIRE_VERSION] ++ u) (c := expires ++ uses ++ tail); field_at.
Qed.
Lemma field_expires : bytes_at pos (pos + 8) data = expires.
Proof. apply bytes_at_eq with (a := head) (c := uses ++ tail); field_at. Qed.
Lemma field_uses : bytes_at (pos + 8) (pos + 12) data = uses.
Proof. apply bytes_at_eq with (a := head ++ expires) (c := tail); field_at. Qed.
Lemma field_flags : byte_at (pos + 12) data = flags.
Proof.
  apply byte_at_eq with (a := head ++ expires ++ uses)
    (c := [Z.of_nat (length name)] ++ name ++ rest); field_at.
Qed.
Lemma field_name_len : byte_at (pos + 13) data = Z.of_nat (length name).
Proof.
  apply byte_at_eq with (a := head ++ expires ++ uses ++ [flags]) (c := name ++ rest); field_at.
Qed.
Lemma field_name : bytes_at (pos + 14) (pos + 14 + length name) data = name.
Proof.
  apply bytes_at_eq with (a := head ++ expires ++ uses ++ [flags; Z.of_nat (length name)])
    (c := rest); field_at.
Qed.

Lemma data_length : length data = (pos + 14 + length name + length rest)%nat.
Proof. unfold data. rewrite length_app, wire_length. done. Qed.

Lemma grant_fields peer_id :
  is_u64 (ig_expires_at g) -> is_u32 (ig_max_uses g) -> plain_role (ig_permissions g) ->
  (forall n, ig_mesh_name g = Some n -> from_utf8 (bytes_of n) = Ok n) ->
  ig_version g = WIRE_VERSION -> ig_inviter_peer_id g = peer_text peer_id ->
  grant_of_wire (ig_invite_id g) peer_id pos data = Ok (as_read g, length (wire_of u payload g)).
Proof.
  intros He Hm Hr Hn Hv Hp. unfold grant_of_wire.
  rewrite field_flags, field_name_len, field_expires, field_uses, Nat2Z.id, data_length, wire_length.
  destruct (Nat.ltb_spec (pos + 14 + length name + length rest) (pos + 14 + length name)); [lia|].
  rewrite field_name, field_version. unfold expires, uses, flags.
  rewrite !be_value_bytes by (unfold is_u64, is_u32 in *; cbn; lia).
  rewrite permissions_of_flags, <- Hp by done.
  assert (Hname : (if (length name =? 0)%nat then Ok None
                   else match from_utf8 name with
                        | Ok n => Ok (Some n)
                        | Err e => Err (InvalidToken ("invalid mesh_name UTF-8: " +:+ e))
                        end) = Ok (ig_mesh_name (as_read g))).
  { unfold name. cbn [as_read ig_mesh_name]. destruct (ig_mesh_name g) as [n|]; [|done].
    change (default "" (Some n)) with n. rewrite bytes_of_length, (Hn n eq_refl). by destruct n. }
  rewrite Hname. cbn [bind_result]. unfold as_read. by destruct g; cbn in *; subst.
Qed.
End fields.

Lemma wire_roundtrip key g w rest :
  issued_by key g -> to_wire_bytes g = Ok w -> from_wire_bytes (w ++ rest) = Ok (as_read g, length w).
Proof.
  intros Hi Hw. destruct (to_wire_issued _ _ _ Hi Hw)
    as (u & payload & Hu & _ & Hid & Hl & _ & Hk & _ & ->).
  destruct Hi as [Hv _ Hp Hn He Hm Hr]. unfold from_wire_bytes.
  rewrite (data_length u payload rest g Hu).
  destruct (Nat.eqb_spec (17 + (2 + length payload) + 14 +
    length (bytes_of (default "" (ig_mesh_name g))) + length rest) 0); [lia|].
  rewrite field_version. cbn [Z.eqb negb WIRE_VERSION Pos.eqb].
  rewrite (field_uuid u payload rest g Hu), (field_code u payload rest g Hu),
    (field_peer_len u payload rest g Hu), Nat2Z.id, <- Hid.
  repeat (rewrite (proj2 (Nat.ltb_ge _ _)) by lia; cbn [Z.eqb negb]).
  rewrite (field_peer u payload rest g Hu), <- Hk, mc_bytes.
  by apply grant_fields.
Qed.

Lemma flags_byte p : is_byte (permission_flags p).
Proof. unfold permission_flags, is_byte. by destruct (ip_can_invite p), (String.eqb _ _). Qed.

Lemma wire_bytes u payload g :
  Forall is_byte u -> Forall is_byte payload -> (length payload < 128)%nat ->
  (length (bytes_of (default "" (ig_mesh_name g))) <= 255)%nat ->
  is_u64 (ig_expires_at g) -> is_u32 (ig_max_uses g) -> Forall is_byte (wire_of u payload g).
Proof.
  intros Hu Hp Hl Hn He Hm. unfold wire_of, is_u64, is_u32 in *.
  rewrite !Forall_app. split_and!; try done.
  - repeat constructor; done.
  - repeat constructor; unfold is_byte; try done; lia.
  - apply be_bytes_are. lia.
  - apply be_bytes_are. lia.
  - repeat constructor; apply flags_byte.
  - repeat constructor; unfold is_byte; lia.
  - apply bytes_of_are.
Qed.

Lemma signed_parts key g sg :
  sign key g = Ok sg ->
  exists w s, to_wire_bytes g = Ok w /\ key_sign key w = Ok s /\
    sg = {| sg_grant := g; sg_signature := hex_encode s |}.
Proof.
  unfold sign. destruct (to_wire_bytes g) as [w|]; [cbn [bind_result]|done].
  destruct (key_sign key w) as [s|] eqn:Hs; intros [= <-]. eauto.
Qed.

Lemma verify_signed what no_key failed key m s :
  key_sign key m = Ok s ->
  verify_by what no_key failed (peer_text (key_peer key)) (hex_encode s) (Ok m) = Ok tt.
Proof.
  intros Hs. destruct (mc_key key) as (pk & Hd & Hv). destruct (Hv _ _ Hs) as (Hok & _ & Hb).
  unfold verify_by. by rewrite mc_text, Hd, mc_hex; cbn; rewrite ?Hok.
Qed.

Lemma strip_prefix_app p s : strip_prefix p (p +:+ s) = Some s.
Proof. unfold strip_prefix. by rewrite prefix_of_self, str_drop_app. Qed.

(** C17: An invite that a host has signed survives being handed over as text.  Take
    a grant as hosts make them: of the wire version, with a uuid as its id and
    the peer id of the key that signs it, a mesh name that is UTF-8, its end and
    its number of uses within 64 and 32 bits, and the role of a member or a
    client.  The token and the link made of the signed grant are decoded to the
    signature they were made of and to the grant, except that an empty mesh name
    comes back as no name; and the grant, as signed and as read, verifies
    until it expires. *)
Theorem invite_token_roundtrip key g sg (Hi : issued_by key g) (Hs : sign key g = Ok sg) :
  let read := {| sg_grant := as_read g; sg_signature := sg_signature sg |} in
  decode_invite (encode_invite sg) = Ok read /\ decode_invite (to_url sg) = Ok read /\
  (ig_mesh_name g <> Some "" -> read = sg) /\
  (forall now, expired_at now (ig_expires_at g) = false ->
     verify_grant now sg = Ok g /\ verify_grant now read = Ok (as_read g)).
Proof.
  destruct (signed_parts _ _ _ Hs) as (w & s & Hw & Hk & ->).
  destruct (mc_key key) as (pk & _ & Hv). destruct (Hv _ _ Hk) as (_ & Hl & Hb).
  destruct (to_wire_issued _ _ _ Hi Hw) as (u & payload & Hu & Hub & _ & Hpl & Hpb & _ & Hn & Hwire).
  assert (Hwb : Forall is_byte w)
    by (rewrite Hwire; apply wire_bytes; try done; apply Hi).
  assert (Hdec : forall t, default t (strip_prefix url_prefix t) = base64_encode (w ++ s) ->
    decode_invite t = Ok {| sg_grant := as_read g; sg_signature := hex_encode s |}).
  { intros t Ht. unfold decode_invite. rewrite Ht, mc_base64 by by apply Forall_app_2.
    assert (H0 : byte_at 0 (w ++ s) = WIRE_VERSION) by by rewrite Hwire.
    rewrite H0. rewrite (proj2 (Nat.eqb_neq _ _)) by (rewrite length_app; lia).
    cbn [negb Z.eqb WIRE_VERSION Pos.eqb]. unfold decode_binary.
    rewrite (wire_roundtrip key g w s Hi Hw). cbn [bind_result].
    rewrite length_app, Hl, !Nat.ltb_irrefl. do 2 f_equal.
    f_equal. apply bytes_at_eq with (a := w) (c := []); [by rewrite app_nil_r|done|lia]. }
  assert (Henc : encode_invite {| sg_grant := g; sg_signature := hex_encode s |} =
                 base64_encode (w ++ s)).
  { unfold encode_invite. cbn [sg_grant sg_signature]. by rewrite Hw, mc_hex. }
  cbn [sg_signature]. split; [|split; [|split]].
  - apply Hdec. by rewrite Henc, mc_alphabet.
  - apply Hdec. unfold to_url. by rewrite strip_prefix_app, Henc.
  - intros Hne. by rewrite as_read_id.
  - intros now Hx. unfold verify_grant. cbn [sg_grant sg_signature].
    rewrite as_read_wire. cbn [as_read ig_version ig_expires_at ig_inviter_peer_id].
    rewrite (ib_version _ _ Hi), Hx, (ib_peer _ _ Hi), Hw. cbn [negb Z.eqb WIRE_VERSION Pos.eqb].
    by rewrite verify_signed.
Qed.

(** ** The bytes of a membership token *)

Definition framed (s : string) : Bytes := be_bytes 2 (Z.of_nat (slen s)) ++ bytes_of s.

Lemma push_str_ok buf s b :
  push_str buf s = Ok b -> Z.of_nat (slen s) <= 65535 /\ b = buf ++ framed s.
Proof.
  unfold push_str. destruct (Z.ltb_spec 65535 (Z.of_nat (slen s))); [done|].
  intros [= <-]. split; [lia|done].
Qed.

Lemma framed_inj s t r r' :
  Z.of_nat (slen s) <= 65535 -> Z.of_nat (slen t) <= 65535 ->
  framed s ++ r = framed t ++ r' -> s = t /\ r = r'.
Proof.
  intros Hs Ht H. unfold framed in H. rewrite <- !app_assoc in H.
  apply app_inj_1 in H as [Hl H]; [|by rewrite !be_bytes_length].
  apply be_bytes_inj in Hl; [|cbn; lia..].
  apply app_inj_1 in H as [Hb H]; [|rewrite !bytes_of_length; lia].
  split; [by apply bytes_of_inj|done].
Qed.

Lemma signable_parts t b :
  signable_bytes t = Ok b ->
  Forall (fun s => Z.of_nat (slen s) <= 65535) [mt_mesh_id t; mt_peer_id t; mt_admitted_by t; mt_invite_id t] /\
  b = [mt_version t] ++ framed (mt_mesh_id t) ++ framed (mt_peer_id t) ++ framed (mt_admitted_by t) ++
      framed (mt_invite_id t) ++ be_bytes 8 (mt_issued_at t) ++ be_bytes 8 (mt_expires_at t) ++
      [permission_flags (mt_permissions t)].
Proof.
  unfold signable_bytes. intros H.
  destruct (push_str [mt_version t] _) as [b1|] eqn:H1; [cbn [bind_result] in H|done].
  destruct (push_str b1 _) as [b2|] eqn:H2; [cbn [bind_result] in H|done].
  destruct (push_str b2 _) as [b3|] eqn:H3; [cbn [bind_result] in H|done].
  destruct (push_str b3 _) as [b4|] eqn:H4; [cbn [bind_result] in H|done].
  injection H as <-. apply push_str_ok in H1 as [? ->], H2 as [? ->], H3 as [? ->], H4 as [? ->].
  split; [by repeat constructor|]. by rewrite <- !app_assoc.
Qed.

Lemma flags_inj p q :
  permission_flags p = permission_flags q ->
  ip_can_invite p = ip_can_invite q /\ (ip_role p = "client" <-> ip_role q = "client").
Proof.
  unfold permission_flags. rewrite <- !String.eqb_eq.
  destruct (ip_can_invite p), (ip_can_invite q), (String.eqb (ip_role p) _), (String.eqb (ip_role q) _);
    done.
Qed.

(** A signature on a membership token fixes what the token says: tokens
    with the same signed bytes agree in every field, except that a role
    counts only as being the client's or not; and no signature on a token is
    one on a grant, whose signed bytes are never those of a token. *)
Theorem signed_bytes_bind_token t1 t2 b
    (H1 : signable_bytes t1 = Ok b) (H2 : signable_bytes t2 = Ok b)
    (Hn1 : is_u64 (mt_issued_at t1) /\ is_u64 (mt_expires_at t1))
    (Hn2 : is_u64 (mt_issued_at t2) /\ is_u64 (mt_expires_at t2)) :
  (mt_version t1, mt_mesh_id t1, mt_peer_id t1, mt_admitted_by t1, mt_invite_id t1,
   mt_issued_at t1, mt_expires_at t1, ip_can_invite (mt_permissions t1)) =
  (mt_version t2, mt_mesh_id t2, mt_peer_id t2, mt_admitted_by t2, mt_invite_id t2,
   mt_issued_at t2, mt_expires_at t2, ip_can_invite (mt_permissions t2)) /\
  (ip_role (mt_permissions t1) = "client" <-> ip_role (mt_permissions t2) = "client") /\
  (mt_version t1 = 1 -> forall g, to_wire_bytes g <> Ok b).
Proof.
  apply signable_parts in H1 as [L1 E1], H2 as [L2 E2]. unfold is_u64 in *.
  rewrite !Forall_cons in L1, L2. destruct L1 as (? & ? & ? & ? & _), L2 as (? & ? & ? & ? & _).
  pose proof E1 as E. rewrite E2 in E.
  apply app_inj_1 in E as [Ev E]; [|done]. injection Ev as Ev.
  do 4 (apply framed_inj in E as [? E]; [|done..]).
  apply app_inj_1 in E as [Hi E]; [|by rewrite !be_bytes_length].
  apply app_inj_1 in E as [He E]; [|by rewrite !be_bytes_length].
  apply be_bytes_inj in Hi, He; [|cbn; lia..]. apply (f_equal (fun l => hd 0 l)) in E. apply flags_inj in E as [Hc Hr].
  split; [congruence|]. split; [by rewrite Hr|].
  intros Hv g Hw. unfold to_wire_bytes in Hw.
  destruct (uuid_parse _); [|done]. destruct (peer_parse _); [|done]. cbv zeta in Hw.
  destruct (255 <? _)%nat; [done|]. injection Hw as Hw. rewrite E1, Hv in Hw. discriminate.
Qed.
End wire.

(** ** The uses of an invite *)

Section uses.
Context {MC : MeshCrypto} {ME : MeshEnv} (id : string).

(** What happens to a host's invites; a restart reads the file. *)
Inductive InviteOp :=
| OpCreate (key : Keypair) (peer_id : string) (mesh_name : option string) (ttl_secs : option Z)
    (max_uses : Z) (permissions : InvitePermissions)
| OpAdmit (invite_id joiner : string) (key : Keypair) (mesh_name : option string)
| OpConsume (invite_id joiner : string)
| OpRevoke (invite_id : string)
| OpRestart.

(** The operation, and the token it gives out. *)
Definition run_op (op : InviteOp) : Node (option MembershipToken) :=
  match op with
  | OpCreate key peer name ttl uses perms =>
      create_invite key peer name ttl uses perms ≫= fun _ => mret None
  | OpAdmit i joiner key name => token ← admit_peer i joiner key name; mret (Some token)
  | OpConsume i joiner => validate_and_consume i joiner ≫= fun _ => mret None
  | OpRevoke i => revoke i ≫= fun _ => mret None
  | OpRestart => load_invites ≫= fun _ => mret None
  end.

(** The tokens given out for the invite in the course of the operations. *)
Fixpoint tokens_issued (ops : list InviteOp) (n : MeshNode) : nat :=
  match ops with
  | [] => 0
  | op :: rest =>
      let '(r, n') := run_op op n in
      (match r with Ok (Some t) => if String.eqb (mt_invite_id t) id then 1 else 0 | _ => 0 end +
       tokens_issued rest n')%nat
  end.

Definition file_map (f : StoreFile (gmap string InviteRecord)) : gmap string InviteRecord :=
  match f with FHolds m => m | _ => ∅ end.

(** At most [k] uses of the invite, which has a limit, are left. *)
Definition uses_left (k : Z) (m : gmap string InviteRecord) : Prop :=
  match m !! id with
  | None => True
  | Some r => 0 < ig_max_uses (ir_grant r) /\ 0 <= ir_uses_remaining r /\
              (ir_status r = IvPending -> ir_uses_remaining r <= k)
  end.

Record left_at_most (k : Z) (n : MeshNode) : Prop := {
  la_nonneg : 0 <= k;
  la_memory : uses_left k (mn_invites n);
  la_file : uses_left k (file_map (mn_invite_file n));
}.

Lemma uses_left_mono k k' m : k <= k' -> uses_left k m -> uses_left k' m.
Proof. unfold uses_left. destruct (m !! id); [|done]. intros ? (? & ? & H). repeat split; [done..|]. intros Hp. specialize (H Hp). lia. Qed.

Lemma left_at_most_mono k k' n : k <= k' -> left_at_most k n -> left_at_most k' n.
Proof. intros ? []. split; [lia|by eapply uses_left_mono..]. Qed.

Lemma uses_left_empty k : uses_left k ∅.
Proof. done. Qed.

Lemma keeps_tick k : keeps (left_at_most k) now_secs.
Proof. unfold now_secs. apply keeps_updating. by intros n []. Qed.

Lemma keeps_uuid k : keeps (left_at_most k) now_v7.
Proof. unfold now_v7. apply keeps_updating. by intros n []. Qed.

(** Saving makes the file what memory is, or fails. *)
Lemma wp_save_records k n (Hm : uses_left k (mn_invites n)) (Hk : 0 <= k)
    (k' : Z) (Hn : left_at_most k' n) :
  wp save_records (fun r n' => match r with Ok _ => left_at_most k n' | Err _ => left_at_most k' n' end) n.
Proof.
  unfold wp, save_records, save_file. destruct Hn as [? ? Hf].
  by destruct (me_save_error _) as [[e [torn|]]|].
Qed.

Lemma keeps_save_records k : keeps (left_at_most k) save_records.
Proof.
  intros n Hn. eapply wp_mono; [apply (wp_save_records k n (la_memory _ _ Hn) (la_nonneg _ _ Hn) k Hn)|].
  by intros [].
Qed.

(** A record of another invite, or one that leaves no more uses. *)
Lemma keeps_put k i r :
  (i = id -> 0 < ig_max_uses (ir_grant r) /\ 0 <= ir_uses_remaining r /\
             (ir_status r = IvPending -> ir_uses_remaining r <= k)) ->
  keeps (left_at_most k) (put_record i r).
Proof.
  intros Hr. apply keeps_modify. intros n [Hk Hm Hf]. split; [done| |done].
  unfold uses_left. cbn. destruct (decide (i = id)) as [->|Hne].
  - rewrite lookup_insert_eq. by apply Hr.
  - rewrite lookup_insert_ne by done. exact Hm.
Qed.

Lemma wp_find i n (Q : result InviteError InviteRecord -> MeshNode -> Prop) :
  (forall r, mn_invites n !! i = Some r -> Q (Ok r) n) ->
  (mn_invites n !! i = None -> Q (Err (IeNotFound i)) n) -> wp (find_record i) Q n.
Proof.
  intros H1 H2. unfold find_record. apply wp_bind, wp_gets.
  destruct (mn_invites n !! i); [by apply wp_ret, H1|by apply wp_fail, H2].
Qed.

(** A use that is granted leaves one less. *)
Lemma wp_consume k i joiner n :
  left_at_most k n ->
  wp (consume_use i joiner) (fun r n' => left_at_most k n' /\
    match r with Ok _ => i = id -> 1 <= k /\ uses_left (k - 1) (mn_invites n') | Err _ => True end) n.
Proof.
  intros Hn. unfold consume_use. apply wp_bind, wp_find; [|done]. intros r Hr.
  destruct (ir_status r) eqn:Hst; [|by apply wp_fail..].
  apply wp_bind, wp_updating. cbn. set (n1 := tick_node n).
  assert (Hn1 : left_at_most k n1) by by destruct Hn.
  destruct (expired_at _ _); [by apply wp_fail|].
  assert (Hid : i = id -> 0 < ig_max_uses (ir_grant r) /\ 0 <= ir_uses_remaining r <= k).
  { intros ->. destruct Hn as [_ Hm _]. unfold uses_left in Hm. rewrite Hr in Hm. naive_solver. }
  destruct (_ && _) eqn:Hc.
  - apply wp_bind. eapply wp_mono; [apply (keeps_put k); [|done]|].
    + intros Hi. destruct (Hid Hi). cbn. split; [done|]. split; [lia|done].
    + intros [|] n2 Hn2; [|done]. apply wp_bind.
      eapply wp_mono; [by apply keeps_save_records|]. by intros [|] n3 Hn3; [apply wp_fail|].
  - assert (Huse : i = id -> 1 <= ir_uses_remaining r /\ (0 <? ig_max_uses (ir_grant r)) = true).
    { intros Hi. destruct (Hid Hi). rewrite (proj2 (Z.ltb_lt _ _)) in Hc |- * by lia. cbn in Hc.
      apply Z.eqb_neq in Hc. split; [lia|done]. }
    apply wp_bind. unfold put_record. apply wp_modify, wp_ret. split.
    + apply (keeps_put k i (used_once joiner r)); [|done]. intros Hi. destruct (Hid Hi), (Huse Hi) as [? Hl].
      unfold used_once. rewrite Hl. cbn. split; [done|]. split; [lia|].
      intros _. lia.
    + intros Hi. destruct (Hid Hi), (Huse Hi) as [? Hl]. split; [lia|]. unfold uses_left. cbn. subst i.
      rewrite lookup_insert_eq. unfold used_once. rewrite Hl. cbn. split; [done|]. split; [lia|].
      intros _. lia.
Qed.

Lemma wp_admit k i joiner key name n :
  left_at_most k n ->
  wp (admit_peer i joiner key name) (fun r n' =>
    match r with
    | Ok t => mt_invite_id t = i /\ left_at_most (if String.eqb i id then k - 1 else k) n'
    | Err _ => left_at_most k n'
    end) n.
Proof.
  intros Hn. unfold admit_peer. apply wp_bind. eapply wp_mono; [by apply wp_consume|].
  intros [r|e] n1; cbn beta iota; [|by intros [? _]]. intros [Hn1 Huse].
  set (k' := if String.eqb i id then k - 1 else k).
  assert (Hk' : 0 <= k' /\ k' <= k /\ uses_left k' (mn_invites n1)).
  { unfold k'. destruct (String.eqb_spec i id) as [Hi|]; [|by destruct Hn1; split; [|split]].
    destruct (Huse Hi). split; [lia|]. split; [lia|done]. }
  destruct Hk' as (H0 & Hle & Hm1). apply wp_bind.
  eapply wp_mono; [by apply (wp_save_records k' n1 Hm1 H0 k)|].
  intros [[]|e] n2 Hn2; [|done]. apply wp_bind, wp_updating. cbn [fst snd]. apply wp_lift.
  assert (Hn3 : left_at_most k' (tick_node n2)) by by destruct Hn2.
  unfold issue. destruct (bind_result _ _) as [t|e] eqn:Ht; [|by eapply left_at_most_mono].
  split; [|done]. destruct (signable_bytes _); [cbn in Ht|done]. by destruct (key_sign _ _); simplify_eq/=.
Qed.

Lemma keeps_create_invite k key peer name ttl uses perms :
  (forall t, uuid_text (me_uuid t) <> id) ->
  keeps (left_at_most k) (create_invite key peer name ttl uses perms).
Proof.
  intros Hid n Hn. unfold create_invite, expiry. apply wp_bind. eapply wp_mono.
  { instantiate (1 := fun _ n' => left_at_most k n'). destruct ttl; [|by apply wp_ret].
    apply wp_bind. eapply wp_mono; [by apply keeps_tick|]. by intros [|] n' Hn'; [apply wp_ret|]. }
  intros [expires|e] n1 Hn1; [|done]. apply wp_bind, wp_updating. cbn [fst snd].
  assert (Hn2 : left_at_most k (tick_node n1)) by by destruct Hn1.
  apply wp_bind, wp_lift. destruct (sign _ _); [|done].
  apply wp_bind. eapply wp_mono; [by apply keeps_tick|]. intros [now|e] n3 Hn3; [|done].
  apply wp_bind. eapply wp_mono; [apply (keeps_put k)|]; [|done|].
  { intros H. by apply Hid in H. }
  intros [[]|e] n4 Hn4; [|done]. apply wp_bind. eapply wp_mono; [by apply keeps_save_records|].
  by intros [|] n5 Hn5; [apply wp_ret|].
Qed.

(** One operation gives out at most one of the uses that are left. *)
Lemma run_op_left k op n :
  (forall t, uuid_text (me_uuid t) <> id) -> left_at_most k n ->
  wp (run_op op) (fun r n' =>
    match r with
    | Ok (Some t) => left_at_most (if String.eqb (mt_invite_id t) id then k - 1 else k) n'
    | _ => left_at_most k n'
    end) n.
Proof.
  intros Hid Hn. destruct op as [key peer name ttl uses perms|i joiner key name|i joiner|i|]; cbn [run_op].
  - apply wp_bind. eapply wp_mono; [by apply keeps_create_invite|]. by intros [|] n'.
  - apply wp_bind. eapply wp_mono; [by apply wp_admit|].
    intros [t|e] n'; [|done]. intros [<- Hn']. by apply wp_ret.
  - apply wp_bind. unfold validate_and_consume. apply wp_bind. eapply wp_mono; [by apply wp_consume|].
    intros [r|e] n1 [Hn1 _]; [|done]. eapply wp_mono; [by apply keeps_save_records|]. by intros [|] n2.
  - apply wp_bind. unfold revoke. apply wp_bind, wp_find; [|done]. intros r Hr.
    apply wp_bind. eapply wp_mono; [apply (keeps_put k); [|done]|].
    + intros ->. destruct Hn as [_ Hm _]. unfold uses_left in Hm. rewrite Hr in Hm. naive_solver.
    + intros [|] n1 Hn1; [|done]. eapply wp_mono; [by apply keeps_save_records|]. by intros [|] n2.
  - apply wp_bind. unfold wp, load_invites. destruct Hn as [Hk Hm Hf].
    by destruct (mn_invite_file n) eqn:Hfile; cbn in Hf |- *; split; cbn; rewrite ?Hfile.
Qed.

(** C16: However often an invite with a limit is presented, revoked or used up,
    by whomever, whichever writes of the store fail and however often the host
    restarts and reads its file again, it gives out no more memberships than
    it has uses left; none once it is revoked, on disk too. *)
Theorem invite_uses_are_bounded k ops n
    (Hid : forall t, uuid_text (me_uuid t) <> id) (Hn : left_at_most k n) :
  Z.of_nat (tokens_issued ops n) <= k.
Proof.
  revert k n Hn. induction ops as [|op ops IH]; intros k n Hn; cbn [tokens_issued]; [apply Hn|].
  pose proof (run_op_left k op n Hid Hn) as Hop. unfold wp in Hop.
  destruct (run_op op n) as [r n']. destruct r as [[t|]|e]; [|by apply IH..].
  destruct (String.eqb _ _); specialize (IH _ _ Hop); lia.
Qed.
End uses.

(** ** Admission *)

Section admission.
Context {MC : MeshCrypto} {ML : MeshCryptoLaws MC} {ME : MeshEnv}.

(** A token is what was asked for, by the key, and verifies until it expires. *)
Lemma issue_ok now mid joiner key invite_id perms expires t :
  issue now mid joiner key invite_id perms expires = Ok t ->
  (mt_mesh_id t = mid /\ mt_peer_id t = joiner /\ mt_invite_id t = invite_id /\
   mt_permissions t = perms /\ mt_expires_at t = expires) /\
  forall now', expired_at now' expires = false -> verify_token now' t = Ok tt.
Proof.
  unfold issue. destruct (signable_bytes _) as [b|] eqn:Hb; [cbn [bind_result]|done].
  destruct (key_sign key b) as [s|] eqn:Hs; [|done]. intros [= <-]. split; [done|].
  intros now' Hx. unfold verify_token. cbn [mt_version mt_expires_at mt_admitted_by mt_signature].
  rewrite Hx. cbn [negb Z.eqb Pos.eqb].
  change (signable_bytes _) with (signable_bytes
    {| mt_version := 1; mt_mesh_id := mid; mt_peer_id := joiner;
       mt_admitted_by := peer_text (key_peer key); mt_invite_id := invite_id;
       mt_permissions := perms; mt_issued_at := now; mt_expires_at := expires;
       mt_signature := "" |}).
  rewrite Hb. by apply verify_signed.
Qed.

(** A token that verifies readmits whoever shows it under its name. *)
Lemma token_readmits mesh known t n :
  verify_token (me_secs (mn_now n)) t = Ok tt ->
  exists peers, handle_admission mesh known (ArToken t (mt_peer_id t)) n =
                  (Ok (Readmitted peers), tick_node n).
Proof.
  intros Hv. eexists. cbn [handle_admission]. rewrite String.eqb_refl. cbn [negb].
  unfold now_secs, updating, mbind, M_bind. by rewrite Hv.
Qed.

Lemma wp_admit_token i joiner key name n :
  wp (admit_peer i joiner key name) (fun r n' => forall t, r = Ok t ->
    exists rec now, mn_invites n !! i = Some rec /\ ir_status rec = IvPending /\
      expired_at (me_secs (mn_now n)) (ig_expires_at (ir_grant rec)) = false /\
      issue now (mesh_id_for (peer_text (key_peer key)) name) joiner key i
        (ig_permissions (ir_grant rec)) (ig_expires_at (ir_grant rec)) = Ok t /\
      mn_invites n' !! i = Some (used_once joiner rec)) n.
Proof.
  unfold admit_peer, consume_use. apply wp_bind, wp_bind, wp_find; [|done]. intros rec Hr.
  destruct (ir_status rec) eqn:Hst; [|by apply wp_fail..].
  apply wp_bind, wp_updating. cbn [fst snd].
  destruct (expired_at _ _) eqn:Hx; [by apply wp_fail|]. destruct (_ && _).
  - apply wp_bind. unfold put_record. apply wp_modify. apply wp_bind, wp_intro.
    intros [|] n1 _; [by apply wp_fail|done].
  - apply wp_bind. unfold put_record. apply wp_modify, wp_ret. apply wp_bind, wp_intro.
    intros [[]|] n1 Hs; [|done]. apply wp_bind, wp_updating. cbn [fst snd]. apply wp_lift.
    intros t Ht. exists rec, (me_secs (mn_now n1)). repeat split; try done.
    unfold save_records, save_file in Hs.
    destruct (me_save_error _) as [[e [torn|]]|]; simplify_eq/=. by rewrite lookup_insert_eq.
Qed.

Lemma keeps_add_admitted m mesh_id t :
  keeps (fun n => mn_invites n = m) (add_admitted_peer mesh_id t).
Proof.
  unfold add_admitted_peer, now_secs, save_meshes, save_file. apply keeps_bind; [by apply keeps_updating|].
  intros now. apply keeps_bind; [by apply keeps_modify|]. intros _ n Hn. unfold wp.
  by destruct (me_save_error _) as [[? [?|]]|].
Qed.

(** C18: Being admitted by an invite takes an invite that is pending and has
    not expired, and uses it once; the token that comes back has the invite's
    permissions and end, is for the mesh that the joiner has named, whichever
    the invite names, and readmits its holder at any node until it expires. *)
Theorem admission_issues_working_token h known invite_id name joiner n token peers n'
    (H : handle_admission (Some h) known (ArInvite invite_id name joiner) n =
         (Ok (PeerAdmitted token peers), n')) :
  (exists rec, mn_invites n !! invite_id = Some rec /\ ir_status rec = IvPending /\
     expired_at (me_secs (mn_now n)) (ig_expires_at (ir_grant rec)) = false /\
     mt_permissions token = ig_permissions (ir_grant rec) /\
     mt_expires_at token = ig_expires_at (ir_grant rec) /\
     mn_invites n' !! invite_id = Some (used_once joiner rec)) /\
  mt_mesh_id token = mesh_id_for (peer_text (key_peer (hm_key h))) name /\ mt_peer_id token = joiner /\
  (forall mesh' known' m, expired_at (me_secs (mn_now m)) (mt_expires_at token) = false ->
     exists peers', handle_admission mesh' known' (ArToken token joiner) m =
                      (Ok (Readmitted peers'), tick_node m)).
Proof.
  pose proof (wp_admit_token invite_id joiner (hm_key h) name n) as Hadmit. cbn in H.
  destruct (hm_invite_store h); [|done]. cbn [negb] in H.
  unfold mbind at 1, M_bind at 1, attempt at 1 in H. unfold wp in Hadmit.
  destruct (admit_peer _ _ _ _ n) as [[t|e] n1]; [|done].
  match type of H with ?m n1 = _ =>
    assert (Hwp : wp m (fun r n' => r = Ok (PeerAdmitted t (other_peers joiner known)) /\
                                    mn_invites n' = mn_invites n1) n1) end.
  { apply wp_bind. destruct (hm_state_store h); [|by apply wp_ret, wp_ret].
    apply wp_bind, wp_attempt. eapply wp_mono; [by apply (keeps_add_admitted (mn_invites n1))|].
    intros r n2 Hn2. by apply wp_ret, wp_ret. }
  pose proof (wp_run _ _ _ _ _ Hwp H) as [Ht Hinv]. injection Ht as <- _. clear Hwp H.
  destruct (Hadmit token eq_refl) as (rec & now & Hr & Hp & Hx & Hi & Hu).
  apply issue_ok in Hi as [(Hmid & Hpeer & _ & Hperm & Hexp) Hv].
  split; [exists rec; rewrite Hinv; by repeat split|]. split; [done|]. split; [done|].
  intros mesh' known' m Hm. rewrite <- Hpeer. apply token_readmits. apply Hv. by rewrite <- Hexp.
Qed.

(** A membership token that is signed, by the key of the peer it names as its
    admitter, and has not ended. *)
Record token_stands (now : Z) (t : MembershipToken) : Prop := {
  ts_version : mt_version t = 1;
  ts_end : mt_expires_at t = 0 \/ now <= mt_expires_at t;
  ts_signed : exists admitter key signature payload,
    peer_parse (mt_admitted_by t) = Ok admitter /\
    key_decode (drop 2 (peer_to_bytes admitter)) = Some key /\
    hex_decode (mt_signature t) = Ok signature /\ signable_bytes t = Ok payload /\
    key_verify key payload signature = true;
}.

Lemma expired_at_spec now e : expired_at now e = false <-> e = 0 \/ now <= e.
Proof. unfold expired_at. destruct (Z.eqb_spec e 0), (Z.ltb_spec e now); cbn; intuition (discriminate || lia). Qed.

Lemma verify_by_spec what no_key failed peer signature payload :
  is_ok (verify_by what no_key failed peer signature payload) = true <->
  exists p key s b, peer_parse peer = Ok p /\ key_decode (drop 2 (peer_to_bytes p)) = Some key /\
    hex_decode signature = Ok s /\ payload = Ok b /\ key_verify key b s = true.
Proof.
  unfold verify_by. split.
  - destruct (peer_parse peer) as [p|]; [|done]. destruct (key_decode _) as [key|] eqn:Hk; [|done].
    destruct (hex_decode signature) as [s|]; [|done]. destruct payload as [b|]; [|done]. cbn.
    destruct (key_verify key b s) eqn:Hv; [|done]. intros _. by exists p, key, s, b.
  - intros (p & key & s & b & -> & -> & -> & -> & Hv). cbn. by rewrite Hv.
Qed.

Lemma verify_token_spec now t : is_ok (verify_token now t) = true <-> token_stands now t.
Proof.
  unfold verify_token. destruct (Z.eqb_spec (mt_version t) 1) as [Hv|Hv]; cbn [negb];
    [|by split; [|intros []]].
  destruct (expired_at now (mt_expires_at t)) eqn:Hx.
  - split; [done|]. intros [_ He _]. apply expired_at_spec in He. congruence.
  - rewrite verify_by_spec. split; [|by intros []]. intros Hs. split; [done|by apply expired_at_spec|done].
Qed.

(** C19: What readmission takes.  To a peer that shows a membership token a node
    answers at once; it readmits the peer exactly if the token names that peer,
    has version 1, has not ended, and its signature verifies, over its fields,
    under the key in the peer id it names as its admitter; any other token is
    rejected.  The answer of a node that is in a mesh lists the other peers it
    knows, that of another none, and no invite and no membership is changed.
    Whether that admitter is a host or a member of the mesh, or whether the node
    knows the mesh of the token, is not looked at: a token that any key issues
    stands. *)
Theorem readmission_takes_standing_token mesh known token peer n :
  let now := me_secs (mn_now n) in
  (exists n', (n' = n \/ n' = tick_node n) /\
    handle_admission mesh known (ArToken token peer) n =
      (Ok (if bool_decide (mt_peer_id token = peer) && is_ok (verify_token now token)
           then Readmitted (match mesh with Some _ => other_peers peer known | None => [] end)
           else Rejected (if bool_decide (mt_peer_id token = peer)
                          then match verify_token now token with
                               | Err e => invite_error_display e | Ok _ => "" end
                          else "peer_id does not match membership token")), n')) /\
  (is_ok (verify_token now token) = true <-> token_stands now token) /\
  (forall key mesh_id joiner invite_id perms issued,
     issue issued mesh_id joiner key invite_id perms 0 = Ok token -> token_stands now token).
Proof.
  intros now. split; [|split; [apply verify_token_spec|]].
  - cbn [handle_admission]. case_bool_decide as Hp; [rewrite (proj2 (String.eqb_eq _ _) Hp)|
      rewrite (proj2 (String.eqb_neq _ _) Hp)]; cbn [negb andb].
    + exists (tick_node n). split; [by right|]. unfold now_secs, updating, mbind, M_bind. fold now.
      destruct (verify_token now token) as [[]|e]; done.
    + exists n. split; [by left|done].
  - intros key mesh_id joiner invite_id perms issued [_ Hv]%issue_ok.
    apply verify_token_spec. by rewrite Hv.
Qed.

(** Any key's token readmits. *)
Lemma self_issued_token_is_readmitted mesh known key now mesh_id peer invite_id perms token n
    (Hi : issue now mesh_id peer key invite_id perms 0 = Ok token) :
  mt_mesh_id token = mesh_id /\ mt_permissions token = perms /\
  exists peers, handle_admission mesh known (ArToken token peer) n =
                  (Ok (Readmitted peers), tick_node n).
Proof.
  apply issue_ok in Hi as [(Hm & Hp & _ & Hperm & _) Hv].
  split; [done|]. split; [done|]. rewrite <- Hp. by apply token_readmits, Hv.
Qed.
End admission.

(** ** The joiner's search *)

Section search.
Context {MC : MeshCrypto} {AE : AdmissionEnv}.

(** Time passes, and a sleep takes its time. *)
Record TimePasses : Prop := {
  tp_step t : ad_millis t <= ad_millis (S t);
  tp_sleep t d : 0 <= d -> ad_millis t + d <= ad_millis (ad_sleep t d);
}.
Context (HT : TimePasses).

Definition since (m : Z) (t : nat) : Prop := m <= ad_millis t.

Lemma keeps_moment m : keeps (since m) moment.
Proof. apply keeps_updating. intros t Ht. unfold since in *. pose proof (tp_step HT t). cbn. lia. Qed.

Lemma keeps_dial m scope l : forall e, keeps (since m) (dial_all scope e l).
Proof.
  induction l as [|p l IH]; intros e; cbn; [apply keeps_ret|].
  apply keeps_bind; [apply keeps_moment|]. intros t. apply IH.
Qed.

Lemma keeps_ask_first m scope request l : forall e, keeps (since m) (ask_first scope request e l).
Proof.
  induction l as [|p l IH]; intros e; cbn; [apply keeps_ret|].
  apply keeps_bind; [apply keeps_moment|]. intros t.
  destruct (ad_lookup t p scope) as [[target|]|]; [|apply IH..].
  apply keeps_bind; [apply keeps_moment|]. intros t'.
  destruct (ad_send t' target request) as [[]|]; (apply keeps_ret || apply keeps_fail).
Qed.

Lemma dial_ok scope l : forall e t, wp (dial_all scope e l) (fun r _ => exists e', r = Ok e') t.
Proof.
  induction l as [|p l IH]; intros e t; cbn [dial_all]; [apply wp_ret; eauto|].
  apply wp_bind, wp_updating. apply IH.
Qed.

(** What a round of questions may give. *)
Definition answered (r : result AdmissionFailure (string + AdmissionResponse)) : Prop :=
  match r with
  | Ok (inl _) => True
  | Ok (inr resp) => forall reason, resp <> Rejected reason
  | Err (AfError (AeTransport _ | AeRejected _)) => True
  | Err _ => False
  end.

Lemma ask_answered scope request l : forall e t,
  wp (ask_first scope request e l) (fun r _ => answered r) t.
Proof.
  induction l as [|p l IH]; intros e t; cbn [ask_first]; [by apply wp_ret|].
  apply wp_bind, wp_updating. cbn [fst snd].
  destruct (ad_lookup t p scope) as [[target|]|]; [|apply IH..].
  apply wp_bind, wp_updating. cbn [fst snd].
  by destruct (ad_send (S t) target request) as [[]|]; (apply wp_ret || apply wp_fail).
Qed.

(** A list of candidates fails on a name that is no peer's. *)
Lemma candidates_error inviter fallback e :
  admission_candidates inviter fallback = Err e ->
  (exists p r, e = InvalidInviterPeer p r) \/ (exists p r, e = InvalidFallbackPeer p r).
Proof.
  unfold admission_candidates, candidate_of. destruct (peer_parse inviter) as [p|r]; cbn;
    [|intros [= <-]; eauto]. intros H.
  assert (Hf : forall seen, fallback_candidates seen fallback = Err e ->
    exists p r, e = InvalidFallbackPeer p r).
  { clear H. induction fallback as [|x l IH]; intros seen; [done|]. cbn. unfold candidate_of.
    destruct (peer_parse (pe_peer_id x)); cbn; [|intros [= <-]; eauto].
    case_bool_decide; [apply IH|]. destruct (fallback_candidates _ _) eqn:Hl; cbn; intros [= ->].
    by eapply IH. }
  right. destruct (fallback_candidates _ _) eqn:Hl; cbn in H; simplify_eq. by eapply Hf.
Qed.

(** How the search ends: with an answer that is no rejection, with an error,
    and if it has reached no one, not before its time. *)
Definition ended (policy : AdmissionPolicy) (started : Z) (r : result AdmissionFailure AdmissionResponse)
    (t : nat) : Prop :=
  match r with
  | Ok resp => forall reason, resp <> Rejected reason
  | Err AfOutOfFuel => False
  | Err (AfError (NoReachablePeer _ _ _ _ _ _)) => ap_max_elapsed policy <= ad_millis t - started
  | Err (AfError _) => True
  end.

Lemma loop_ends policy mesh_id scope inviter request candidates started :
  0 < ap_initial_delay policy <= ap_max_delay policy ->
  forall fuel attempts delay e t, ap_initial_delay policy <= delay ->
  (1 <= fuel)%nat ->
  ap_max_elapsed policy - (ad_millis t - started) <= ap_initial_delay policy * Z.of_nat (fuel - 1) ->
  wp (admit_loop fuel policy mesh_id scope inviter request candidates started attempts delay e)
     (ended policy started) t.
Proof.
  intros Hd. induction fuel as [|fuel IH]; intros attempts delay e t Hdelay Hf Hleft; [lia|].
  cbn [admit_loop]. set (m := ad_millis t). assert (Hm : since m t) by (unfold since, m; lia).
  apply wp_bind. eapply wp_mono; [by apply wp_conj; [apply dial_ok|apply (keeps_dial m)]|].
  intros r t1 [[e1 ->] Ht1]. apply wp_bind.
  eapply wp_mono; [by apply wp_conj; [apply ask_answered|apply (keeps_ask_first m)]|].
  intros [[e2|resp]|[err|]] t2 [Ha Ht2]; [|by apply wp_ret|by destruct err|done].
  apply wp_bind, wp_updating. cbn [fst snd]. pose proof (tp_step HT t2) as Hstep. unfold since in Ht2.
  destruct (Z.leb_spec (ap_max_elapsed policy) (ad_millis t2 - started)).
  - apply wp_fail. cbn. lia.
  - apply wp_bind, wp_modify. pose proof (tp_sleep HT (S t2) delay).
    apply IH; [lia|nia|]. fold m in Hleft. nia.
Qed.

(** The search for a node that admits ends: under a policy that waits
    between its rounds, with a clock that goes on, it takes no more rounds
    than there are shortest waits in its time, and two; it comes back with an
    answer that is no rejection, or with an error, and gives up on reaching
    anyone only once its time is over. *)
Theorem admission_search_ends (policy : AdmissionPolicy) fuel mesh_id scope inviter fallback request t
    (Hd : 0 < ap_initial_delay policy <= ap_max_delay policy) (Hm : 0 <= ap_max_elapsed policy)
    (Hf : ap_max_elapsed policy / ap_initial_delay policy + 2 <= Z.of_nat fuel) :
  match search_admission fuel policy mesh_id scope inviter fallback request t with
  | (r, t') => ended policy (ad_millis t) r t'
  end.
Proof.
  enough (H : wp (search_admission fuel policy mesh_id scope inviter fallback request)
                 (ended policy (ad_millis t)) t) by exact H.
  unfold search_admission. destruct (admission_candidates inviter fallback) as [candidates|e] eqn:Hc.
  - apply wp_bind, wp_updating. cbn [fst snd]. pose proof (tp_step HT t).
    pose proof (Z.div_pos (ap_max_elapsed policy) (ap_initial_delay policy)).
    pose proof (Z.mul_succ_div_gt (ap_max_elapsed policy) (ap_initial_delay policy)).
    apply loop_ends; [done|lia|lia|]. nia.
  - apply wp_fail. by apply candidates_error in Hc as [(? & ? & ->)|(? & ? & ->)].
Qed.
End search.

(** ** The names of a scope *)

Definition hex_value (c : Ascii.ascii) : N :=
  let b := byte_of c in if N.ltb b 65 then (b - 48)%N else (b - 55)%N.

(** The byte that comes first in an encoded id, which ends at a colon. *)
Definition decode_first (s : string) : option (Ascii.ascii * string) :=
  match s with
  | String c r =>
      if N.eqb (byte_of c) 58 then None
      else if N.eqb (byte_of c) 37 then
        match r with
        | String a (String b r') =>
            Some (Ascii.ascii_of_N (16 * hex_value a + hex_value b)%N, r')
        | _ => None
        end
      else Some (c, r)
  | EmptyString => None
  end.

Lemma decode_encoded c r : decode_first (encode_byte c +:+ r) = Some (c, r).
Proof. destruct c as [[] [] [] [] [] [] [] []]; reflexivity. Qed.

Lemma encoded_inj a b x y :
  encode_mesh_id a +:+ colons +:+ x = encode_mesh_id b +:+ colons +:+ y -> a = b /\ x = y.
Proof.
  unfold encode_mesh_id. revert b.
  induction a as [|c a IH]; intros [|d b] H; cbn [String.list_ascii_of_string map sconcat] in H.
  - by simplify_eq/=.
  - rewrite <- sapp_assoc in H. apply (f_equal decode_first) in H. by rewrite decode_encoded in H.
  - rewrite <- sapp_assoc in H. apply (f_equal decode_first) in H. by rewrite decode_encoded in H.
  - rewrite <- !sapp_assoc in H. apply (f_equal decode_first) in H. rewrite !decode_encoded in H.
    injection H as -> H. by apply IH in H as [-> ->].
Qed.

(** The scopes keep their names apart: a name registered in one scope is
    never one of another scope, whatever the ids of the two contain, and the
    names of one scope differ when what stands after its prefix does. *)
Theorem scoped_names_isolated s1 s2 x y
    (H : dht_prefix s1 +:+ x = dht_prefix s2 +:+ y) : s1 = s2 /\ x = y.
Proof.
  destruct s1 as [a|a], s2 as [b|b]; unfold dht_prefix in H; rewrite <- !sapp_assoc in H;
    cbn in H; try discriminate; injection H as H;
    by apply (encoded_inj a b) in H as [-> ->].
Qed.

Lemma scoped_names_isolated_witness :
  scoped_session (Lan "a") "b" = scoped_session (Lan "a") "b" /\ Lan "a" = Lan "a".
Proof.
  split; [reflexivity|].
  apply (scoped_names_isolated (Lan "a") (Lan "a") "session::b" "session::b"). reflexivity.
Defined.

(** Within a scope a relay's name does not tell its session from its peer. *)
Example relay_names_meet :
  scoped_event_relay (Lan "a") "s::p" "q" = scoped_event_relay (Lan "a") "s" "p::q".
Proof. reflexivity. Qed.

(** ** A concrete mesh *)

Lemma bytes_of_text b : Forall is_byte b -> bytes_of (text_of b) = b.
Proof.
  intros H. unfold bytes_of, text_of. rewrite String.list_ascii_of_string_of_list_ascii, map_map.
  induction H as [|x l Hx _ IH]; [done|]. cbn. rewrite IH. f_equal. unfold is_byte, byte_of in *.
  rewrite Ascii.N_ascii_embedding by lia. lia.
Qed.

(** Peers and keys are single bytes; a signature is the key and a sum. *)
Definition toy_sign (k : Ascii.ascii) (m : Bytes) : Bytes :=
  Z.of_N (byte_of k) :: (foldr Z.add 0 m) mod 256 :: repeat 0 62.

#[local] Instance toy_crypto : MeshCrypto := {|
  PeerId := Ascii.ascii; Keypair := Ascii.ascii; PublicKey := Ascii.ascii;
  peer_parse := fun s => match s with String c "" => Ok c | _ => Err "no peer" end;
  peer_text := fun c => String c "";
  peer_to_bytes := fun c => [0; 1; Z.of_N (byte_of c)];
  peer_from_bytes := fun b =>
    match b with [_; _; x] => Ok (Ascii.ascii_of_N (Z.to_N x)) | _ => Err "no peer" end;
  key_peer := fun k => k;
  key_sign := fun k m => Ok (toy_sign k m);
  key_decode := fun b => match b with [x] => Some (Ascii.ascii_of_N (Z.to_N x)) | _ => None end;
  key_verify := fun k m s => bool_decide (s = toy_sign k m);
  uuid_parse := fun s => if (slen s =? 16)%nat then Ok (bytes_of s) else Err "no uuid";
  uuid_text := text_of;
  hex_encode := text_of;
  hex_decode := fun s => Ok (bytes_of s);
  base64_encode := fun b => String (Ascii.ascii_of_nat 65) (text_of b);
  base64_decode := fun s => match s with String _ r => Ok (bytes_of r) | _ => Err "no base64" end;
|}.

#[local] Instance toy_laws : MeshCryptoLaws toy_crypto.
Proof.
  assert (Hb : forall c, is_byte (Z.of_N (byte_of c))).
  { intros c. unfold is_byte, byte_of. pose proof (Ascii.N_ascii_bounded c). lia. }
  assert (Hc : forall c, Ascii.ascii_of_N (Z.to_N (Z.of_N (byte_of c))) = c).
  { intros c. rewrite N2Z.id. apply Ascii.ascii_N_embedding. }
  split; cbn [peer_parse peer_text peer_from_bytes peer_to_bytes uuid_parse uuid_text hex_decode
              hex_encode base64_decode base64_encode key_peer key_decode key_sign key_verify toy_crypto].
  - done.
  - intros p. by rewrite Hc.
  - intros b Hl H. rewrite <- (bytes_of_length (text_of b)), bytes_of_text, Hl by done. done.
  - intros b H. by rewrite bytes_of_text.
  - intros b H. by rewrite bytes_of_text.
  - done.
  - intros k. exists [Z.of_N (byte_of k)]. split; [cbn; lia|]. split; [|done].
    repeat constructor; apply Hb.
  - intros k. exists k. split; [cbn; by rewrite Hc|]. intros m s [= <-].
    split; [by apply bool_decide_eq_true|]. split; [done|]. unfold toy_sign.
    constructor; [apply Hb|]. constructor; [unfold is_byte; apply Z.mod_pos_bound; lia|].
    repeat constructor; done.
Qed.

Definition toy_uuid : Bytes := repeat 7 16.

#[local] Instance toy_mesh_env : MeshEnv := {|
  me_secs := fun t => 1000 + Z.of_nat t;
  me_uuid := fun _ => toy_uuid;
  me_save_error := fun t => if (t =? 5)%nat then Some ("full", None) else None;
|}.

Definition toy_key : Keypair := Ascii.ascii_of_nat 72.
Definition toy_grant : InviteGrant :=
  {| ig_version := 3; ig_invite_id := text_of toy_uuid; ig_inviter_peer_id := "H";
     ig_mesh_name := Some "team"; ig_expires_at := 2000; ig_max_uses := 2;
     ig_permissions := {| ip_can_invite := false; ip_role := "member" |} |}.
Definition toy_signed : SignedInviteGrant :=
  {| sg_grant := toy_grant;
     sg_signature := text_of (toy_sign toy_key (wire_of toy_uuid [72] toy_grant)) |}.

Lemma toy_issued : issued_by toy_key toy_grant.
Proof.
  split; try done.
  - exists toy_uuid. split; [done|]. split; [|done]. repeat constructor; unfold is_byte; lia.
  - intros name [= <-]. by vm_compute.
  - by left.
Qed.

Lemma invite_token_roundtrip_witness :
  decode_invite (to_url toy_signed) = Ok toy_signed /\ verify_grant 1500 toy_signed = Ok toy_grant.
Proof.
  destruct (invite_token_roundtrip toy_key toy_grant toy_signed toy_issued) as (_ & Hu & Hr & Hv).
  - vm_compute. reflexivity.
  - rewrite Hr in Hu by discriminate. split; [exact Hu|]. apply (Hv 1500). reflexivity.
Defined.

(** An invite for a mesh with an empty name is read as one without a name, and
    joins another mesh than the host publishes. *)
Definition toy_unnamed : SignedInviteGrant :=
  let g := {| ig_version := 3; ig_invite_id := text_of toy_uuid; ig_inviter_peer_id := "H";
              ig_mesh_name := Some ""; ig_expires_at := 2000; ig_max_uses := 2;
              ig_permissions := {| ip_can_invite := false; ip_role := "member" |} |} in
  {| sg_grant := g; sg_signature := text_of (toy_sign toy_key (wire_of toy_uuid [72] g)) |}.

Example empty_name_joins_another_mesh :
  match decode_invite (to_url toy_unnamed) with
  | Ok read => ig_mesh_name (sg_grant read) = None /\
      mesh_id_for "H" (ig_mesh_name (sg_grant toy_unnamed)) = "H:" /\
      mesh_id_for "H" (ig_mesh_name (sg_grant read)) = "H:anon"
  | Err _ => False
  end.
Proof. vm_compute. repeat split; reflexivity. Qed.

Definition toy_token (role : string) : MembershipToken :=
  {| mt_version := 1; mt_mesh_id := "H:team"; mt_peer_id := "J"; mt_admitted_by := "H";
     mt_invite_id := "i"; mt_permissions := {| ip_can_invite := false; ip_role := role |};
     mt_issued_at := 1000; mt_expires_at := 2000; mt_signature := "" |}.

(** A role beside the client's is not signed. *)
Example roles_are_not_signed :
  signable_bytes (toy_token "member") = signable_bytes (toy_token "admin").
Proof. reflexivity. Qed.

Lemma signed_bytes_bind_token_witness :
  exists b, signable_bytes (toy_token "member") = Ok b /\ forall g, to_wire_bytes g <> Ok b.
Proof.
  destruct (signable_bytes (toy_token "member")) as [b|e] eqn:Hb.
  - exists b. split; [reflexivity|].
    apply (signed_bytes_bind_token (toy_token "member") (toy_token "member") b Hb Hb);
      [split; split; vm_compute; intuition discriminate..|reflexivity].
  - vm_compute in Hb. discriminate Hb.
Defined.

(** A host with an invite for the mesh "team" that has two uses left. *)
Definition toy_record : InviteRecord :=
  {| ir_invite_id := "i"; ir_grant := toy_grant; ir_created_at := 900; ir_uses_remaining := 2;
     ir_status := IvPending; ir_used_by := [] |}.
Definition toy_node : MeshNode :=
  {| mn_now := 0; mn_invites := {["i" := toy_record]}; mn_invite_file := FHolds {["i" := toy_record]};
     mn_meshes := ∅; mn_mesh_file := FAbsent |}.

(** The second admission cannot be saved, so that its use is back after the restart. *)
Definition toy_ops : list InviteOp :=
  [OpAdmit "i" "a" toy_key (Some "team"); OpAdmit "i" "b" toy_key (Some "team"); OpRestart;
   OpAdmit "i" "c" toy_key (Some "team"); OpAdmit "i" "d" toy_key (Some "team")].

Example two_of_four_are_admitted : tokens_issued "i" toy_ops toy_node = 2%nat.
Proof. vm_compute. reflexivity. Qed.

Lemma invite_uses_are_bounded_witness :
  Z.of_nat (tokens_issued "i" toy_ops toy_node) <= 2 /\ left_at_most "i" 2 toy_node.
Proof.
  assert (H : left_at_most "i" 2 toy_node)
    by (split; [lia|vm_compute; intuition discriminate..]).
  split; [|exact H]. apply (invite_uses_are_bounded "i" 2 toy_ops toy_node); [discriminate|exact H].
Defined.

Definition toy_host : HostMesh :=
  {| hm_key := toy_key; hm_peer := toy_key; hm_invite_store := true; hm_state_store := true |}.

(** The joiner names another mesh than the invite does, and is admitted to it. *)
Definition toy_admission : result InviteError AdmissionResponse * MeshNode :=
  handle_admission (Some toy_host) [] (ArInvite "i" (Some "other") "J") toy_node.

Lemma admission_issues_working_token_witness :
  exists token n', toy_admission = (Ok (PeerAdmitted token []), n') /\ mt_mesh_id token = "H:other" /\
    exists peers', handle_admission None [] (ArToken token "J") n' = (Ok (Readmitted peers'), tick_node n').
Proof.
  destruct toy_admission as [r n'] eqn:Hr.
  destruct r as [[token peers| |]|]; try (vm_compute in Hr; discriminate Hr).
  assert (Hp : peers = []) by (vm_compute in Hr; injection Hr as _ <- _; reflexivity). subst peers.
  exists token, n'.
  destruct (admission_issues_working_token toy_host [] "i" (Some "other") "J" toy_node token [] n' Hr)
    as (_ & Hm & _ & Hw).
  split; [reflexivity|]. split; [exact Hm|]. apply Hw.
  vm_compute in Hr. injection Hr as <- <-. reflexivity.
Defined.

(** A stranger with the key [X] lets itself in. *)
Lemma stranger_is_readmitted :
  exists token, mt_mesh_id token = "H:team" /\
    exists peers, handle_admission (Some toy_host) [] (ArToken token "X") toy_node =
                    (Ok (Readmitted peers), tick_node toy_node).
Proof.
  destruct (issue (MC := toy_crypto) 1 "H:team" "X" (Ascii.ascii_of_nat 88) "" permissions_default 0)
    as [token|e] eqn:Hi; [|vm_compute in Hi; discriminate Hi].
  exists token.
  destruct (self_issued_token_is_readmitted (Some toy_host) [] (Ascii.ascii_of_nat 88) 1 "H:team" "X" ""
              permissions_default token toy_node Hi) as (Hm & _ & Hr).
  split; [exact Hm|exact Hr].
Defined.

Lemma readmission_takes_standing_token_witness :
  exists token n',
    issue (MC := toy_crypto) 1 "H:team" "X" (Ascii.ascii_of_nat 88) "" permissions_default 0 =
      Ok token /\
    token_stands (me_secs 0%nat) token /\
    handle_admission (Some toy_host) [] (ArToken token "X") toy_node = (Ok (Readmitted []), n').
Proof.
  destruct (issue (MC := toy_crypto) 1 "H:team" "X" (Ascii.ascii_of_nat 88) "" permissions_default 0)
    as [token|e] eqn:Hi; [|vm_compute in Hi; discriminate Hi].
  destruct (readmission_takes_standing_token (Some toy_host) [] token "X" toy_node)
    as ((n' & _ & Hr) & _ & Hs).
  exists token, n'. split; [reflexivity|]. split; [exact (Hs _ _ _ _ _ _ Hi)|].
  rewrite Hr. vm_compute in Hi. injection Hi as <-. reflexivity.
Defined.

(** No one answers: the clock goes on by ten a call, a sleep by its time. *)
#[local] Instance toy_silence : AdmissionEnv := {|
  Target := unit;
  ad_dial := fun _ _ _ => None;
  ad_lookup := fun _ _ _ => Ok None;
  ad_send := fun _ _ _ => Err "no";
  ad_millis := fun t => Z.of_nat t;
  ad_sleep := fun t d => (t + Z.to_nat d)%nat;
|}.

Definition toy_policy : AdmissionPolicy :=
  {| ap_max_elapsed := 30; ap_initial_delay := 5; ap_max_delay := 10 |}.

Lemma admission_search_ends_witness :
  match search_admission 8 toy_policy "H:team" (Iroh "H:team") "H" [] (ArInvite "i" None "J") 0%nat with
  | (r, t') => ended toy_policy 0 r t'
  end.
Proof.
  apply (admission_search_ends ltac:(split; cbn; lia) toy_policy 8 "H:team" (Iroh "H:team") "H" []
           (ArInvite "i" None "J") 0); vm_compute; intuition discriminate.
Defined.
