(* ===== verification/RemoteStreams.v ===== *)
(** Remote provider streams (querymt-remote/): a host reads a provider's stream
    and relays its chunks in batches (provider_host_actor.rs) to the router of
    the node that asked (provider_stream_router.rs), whose consumer is the
    client's stream (provider_client_runtime.rs, provider_stream_state.rs,
    remote_chat_provider.rs); with their protocol (provider_protocol.rs,
    stream_router_protocol.rs).  Instants and durations are in milliseconds. *)
From S2P Require Import Prelude Numbers Text Chat LlmErrors.

Local Open Scope Z_scope.

(** ** The protocol *)

Inductive ProviderStreamPhase :=
| PsOpeningUpstream | PsWaitingFirstChunk | PsStreaming | PsReceiverDisconnected
| PsGraceExpired | PsLeaseExpired | PsCancelling | PsCompleted | PsFailed.

#[export] Instance ProviderStreamPhase_eq_dec : EqDecision ProviderStreamPhase.
Proof. solve_decision. Defined.

Inductive StreamRelayMessage :=
| SrChunk (chunk : StreamChunk)
| SrChunkBatch (chunks : list StreamChunk)
| SrHeartbeat (phase : ProviderStreamPhase) (elapsed_ms idle_ms chunk_count : Z)
| SrProviderError (error : LLMErrorPayload)
| SrTransportDisconnected (reason : string)
| SrTransportReconnected (buffered_chunks : nat)
| SrTransportFailed (error : LLMErrorPayload).

Inductive RequestPhase :=
| RpAwaitingStream | RpStreaming | RpConsumerDisconnected | RpCompleted | RpFailed | RpCancelled.

#[export] Instance RequestPhase_eq_dec : EqDecision RequestPhase.
Proof. solve_decision. Defined.

Definition chunk_is_done (c : StreamChunk) : bool :=
  match c with ScDone _ => true | _ => false end.

Definition is_chunk_message (m : StreamRelayMessage) : bool :=
  match m with SrChunk _ | SrChunkBatch _ => true | _ => false end.

Definition keep_stream_message_buffered (m : StreamRelayMessage) : bool :=
  match m with
  | SrHeartbeat _ _ _ _ | SrTransportDisconnected _ | SrTransportReconnected _ => false
  | _ => true
  end.

Definition relay_message_is_terminal (m : StreamRelayMessage) : bool :=
  match m with
  | SrChunk c => chunk_is_done c
  | SrProviderError _ | SrTransportFailed _ => true
  | SrChunkBatch chunks => existsb chunk_is_done chunks
  | _ => false
  end.

Definition terminal_request_phase (m : StreamRelayMessage) : option RequestPhase :=
  match m with
  | SrChunk c => if chunk_is_done c then Some RpCompleted else None
  | SrChunkBatch chunks => if existsb chunk_is_done chunks then Some RpCompleted else None
  | SrProviderError _ | SrTransportFailed _ => Some RpFailed
  | _ => None
  end.

Definition should_ack_relay_message (m : StreamRelayMessage) (unacked_batches last_ack_at
    ack_window_batches ack_window_interval : Z) : bool :=
  if relay_message_is_terminal m then true
  else match m with
       | SrChunk _ | SrChunkBatch _ =>
           (ack_window_batches <=? unacked_batches) || (ack_window_interval <=? last_ack_at)
       | SrHeartbeat _ _ _ _ | SrTransportDisconnected _ | SrTransportReconnected _ => false
       | SrProviderError _ | SrTransportFailed _ => true
       end.

Definition request_phase_display (p : RequestPhase) : string :=
  match p with
  | RpAwaitingStream => "awaiting_stream"
  | RpStreaming => "streaming"
  | RpConsumerDisconnected => "consumer_disconnected"
  | RpCompleted => "completed"
  | RpFailed => "failed"
  | RpCancelled => "cancelled"
  end.

(** The chunks a relay message carries. *)
Definition message_chunks (m : StreamRelayMessage) : list StreamChunk :=
  match m with SrChunk c => [c] | SrChunkBatch cs => cs | _ => [] end.

Definition relayed_chunks (ms : list StreamRelayMessage) : list StreamChunk :=
  mbind message_chunks ms.

(** [ProviderChatResponse] and its [finish_reason()]. *)
Record ProviderChatResponse := {
  pcr_text : option string;
  pcr_thinking : option string;
  pcr_tool_calls : list ToolCall;
  pcr_usage : option Usage;
  pcr_finish_reason : option string;
}.

Definition parse_finish_reason (reason : string) : FinishReason :=
  if String.eqb reason "Stop" then FrStop
  else if String.eqb reason "Length" then FrLength
  else if String.eqb reason "ContentFilter" then FrContentFilter
  else if String.eqb reason "ToolCalls" then FrToolCalls
  else if String.eqb reason "Error" then FrError
  else if String.eqb reason "Other" then FrOther
  else FrUnknown.

(** [format!("{:?}", reason)], what the host puts in the response. *)
Definition finish_reason_debug (r : FinishReason) : string :=
  match r with
  | FrStop => "Stop" | FrLength => "Length" | FrContentFilter => "ContentFilter"
  | FrToolCalls => "ToolCalls" | FrError => "Error" | FrOther => "Other" | FrUnknown => "Unknown"
  end.

(** [impl ChatResponse for ProviderChatResponse], as the accessors read it. *)
Definition response_of_wire (r : ProviderChatResponse) : ChatResponse :=
  {| cr_text := pcr_text r;
     cr_tool_calls := match pcr_tool_calls r with [] => None | calls => Some calls end;
     cr_finish_reason := parse_finish_reason <$> pcr_finish_reason r;
     cr_thinking := pcr_thinking r;
     cr_usage := pcr_usage r |}.

(** The host's side: the response of the provider, put on the wire. *)
Definition wire_of_response (r : ChatResponse) : ProviderChatResponse :=
  {| pcr_text := cr_text r;
     pcr_thinking := cr_thinking r;
     pcr_tool_calls := default [] (cr_tool_calls r);
     pcr_usage := cr_usage r;
     pcr_finish_reason := finish_reason_debug <$> cr_finish_reason r |}.

(** ** The channel to a consumer

    [tokio::sync::mpsc]: a send gives the message to the receiver or, when the
    channel is full or closed, hands it back.  [accepted] is what the receivers
    were given, in order. *)
Inductive SendOutcome := SendOk | SendFull | SendClosed.

Class Channels := {
  Sender : Type;
  ChannelState : Type;
  try_send : Sender -> StreamRelayMessage -> ChannelState -> SendOutcome * ChannelState;
  accepted : ChannelState -> list StreamRelayMessage;
}.

Class ChannelLaws `(C : Channels) : Prop := {
  try_send_ok tx m w w' : try_send tx m w = (SendOk, w') -> accepted w' = accepted w ++ [m];
  try_send_refused tx m w o w' :
    try_send tx m w = (o, w') -> o <> SendOk -> accepted w' = accepted w;
}.

(** ** The router *)

Inductive RouterError := RouterInvariant (message : string).

Definition DEFAULT_REPLAY_BUFFER_SIZE : nat := 1000.
Definition DEFAULT_REQUEST_TTL_SECS : Z := 300.

Section router.
Context `{C : Channels}.

Record RoutedRequest := {
  rr_request_id : string;
  rr_phase : RequestPhase;
  rr_created_at : Z;
  rr_last_message_at : Z;
  rr_consumer_tx : option Sender;
  rr_replay_buffer : list StreamRelayMessage;
  rr_replay_buffer_size : nat;
}.

Definition rr_set_phase (p : RequestPhase) (r : RoutedRequest) : RoutedRequest :=
  {| rr_request_id := rr_request_id r; rr_phase := p; rr_created_at := rr_created_at r;
     rr_last_message_at := rr_last_message_at r; rr_consumer_tx := rr_consumer_tx r;
     rr_replay_buffer := rr_replay_buffer r; rr_replay_buffer_size := rr_replay_buffer_size r |}.
Definition rr_set_consumer (tx : option Sender) (r : RoutedRequest) : RoutedRequest :=
  {| rr_request_id := rr_request_id r; rr_phase := rr_phase r; rr_created_at := rr_created_at r;
     rr_last_message_at := rr_last_message_at r; rr_consumer_tx := tx;
     rr_replay_buffer := rr_replay_buffer r; rr_replay_buffer_size := rr_replay_buffer_size r |}.
Definition rr_set_buffer (b : list StreamRelayMessage) (r : RoutedRequest) : RoutedRequest :=
  {| rr_request_id := rr_request_id r; rr_phase := rr_phase r; rr_created_at := rr_created_at r;
     rr_last_message_at := rr_last_message_at r; rr_consumer_tx := rr_consumer_tx r;
     rr_replay_buffer := b; rr_replay_buffer_size := rr_replay_buffer_size r |}.
Definition rr_touch (now : Z) (r : RoutedRequest) : RoutedRequest :=
  {| rr_request_id := rr_request_id r; rr_phase := rr_phase r; rr_created_at := rr_created_at r;
     rr_last_message_at := now; rr_consumer_tx := rr_consumer_tx r;
     rr_replay_buffer := rr_replay_buffer r; rr_replay_buffer_size := rr_replay_buffer_size r |}.

Definition routed_request_new (request_id : string) (replay_buffer_size : nat) (now : Z) : RoutedRequest :=
  {| rr_request_id := request_id; rr_phase := RpAwaitingStream; rr_created_at := now;
     rr_last_message_at := now; rr_consumer_tx := None; rr_replay_buffer := [];
     rr_replay_buffer_size := replay_buffer_size |}.

Record RoutedRequestStatus := {
  rs_request_id : string;
  rs_has_consumer : bool;
  rs_buffered_messages : nat;
  rs_phase : RequestPhase;
  rs_created_at_elapsed_ms : Z;
  rs_last_message_at_elapsed_ms : Z;
}.

(** [Instant::duration_since], which is zero for a later instant. *)
Definition duration_since (now t : Z) : Z := Z.max 0 (now - t).

Definition routed_request_status (now : Z) (r : RoutedRequest) : RoutedRequestStatus :=
  {| rs_request_id := rr_request_id r;
     rs_has_consumer := match rr_consumer_tx r with Some _ => true | None => false end;
     rs_buffered_messages := length (rr_replay_buffer r);
     rs_phase := rr_phase r;
     rs_created_at_elapsed_ms := duration_since now (rr_created_at r);
     rs_last_message_at_elapsed_ms := duration_since now (rr_last_message_at r) |}.

Definition rr_is_terminal (r : RoutedRequest) : bool :=
  match rr_phase r with RpCompleted | RpFailed | RpCancelled => true | _ => false end.

Definition set_terminal_phase (m : StreamRelayMessage) (r : RoutedRequest) : RoutedRequest :=
  match terminal_request_phase m with Some p => rr_set_phase p r | None => r end.

(** The end of [deliver_or_buffer]: the message is kept, at the cost of the
    oldest one when the buffer is full. *)
Definition buffer_message (m : StreamRelayMessage) (r : RoutedRequest) : RoutedRequest :=
  let kept := if (rr_replay_buffer_size r <=? length (rr_replay_buffer r))%nat
              then tail (rr_replay_buffer r) else rr_replay_buffer r in
  let r' := rr_set_buffer (kept ++ [m]) r in
  if relay_message_is_terminal m then set_terminal_phase m r' else r'.

Definition deliver_or_buffer (now : Z) (m : StreamRelayMessage) (r : RoutedRequest) (w : ChannelState)
    : RoutedRequest * ChannelState :=
  let r := rr_touch now r in
  let r := match m with
           | SrChunk _ | SrChunkBatch _ =>
               if bool_decide (rr_phase r = RpAwaitingStream) then rr_set_phase RpStreaming r else r
           | SrProviderError _ | SrTransportFailed _ => rr_set_phase RpFailed r
           | _ => r
           end in
  match rr_consumer_tx r with
  | None => (buffer_message m r, w)
  | Some tx =>
      match try_send tx m w with
      | (SendOk, w') =>
          (if relay_message_is_terminal m then rr_set_consumer None (set_terminal_phase m r) else r, w')
      | (SendFull, w') => (buffer_message m (rr_set_phase RpConsumerDisconnected r), w')
      | (SendClosed, w') =>
          (buffer_message m (rr_set_phase RpConsumerDisconnected (rr_set_consumer None r)), w')
      end
  end.

(** The loop of [AttachStreamConsumer]: the buffer is replayed until the
    channel refuses a message, which goes back to its front.  The flag is the
    last [terminal_replayed]. *)
Fixpoint replay_loop (tx : Sender) (buffer : list StreamRelayMessage) (terminal_replayed : bool)
    (r : RoutedRequest) (w : ChannelState) : bool * RoutedRequest * ChannelState :=
  match buffer with
  | [] => (terminal_replayed, rr_set_buffer [] r, w)
  | m :: rest =>
      match try_send tx m w with
      | (SendOk, w') => replay_loop tx rest (relay_message_is_terminal m) r w'
      | (SendFull, w') =>
          (relay_message_is_terminal m, rr_set_phase RpConsumerDisconnected (rr_set_buffer buffer r), w')
      | (SendClosed, w') =>
          (relay_message_is_terminal m,
           rr_set_phase RpConsumerDisconnected (rr_set_consumer None (rr_set_buffer buffer r)), w')
      end
  end.

Definition attach_consumer (tx : Sender) (r : RoutedRequest) (w : ChannelState)
    : RoutedRequest * ChannelState :=
  let r := rr_set_consumer (Some tx) r in
  let terminal_state := rr_is_terminal r in
  let r := if bool_decide (rr_phase r = RpConsumerDisconnected)
           then rr_set_phase (match rr_replay_buffer r with [] => RpAwaitingStream | _ => RpStreaming end) r
           else r in
  let '(terminal_replayed, r, w) := replay_loop tx (rr_replay_buffer r) false r w in
  let emptied := match rr_replay_buffer r with [] => true | _ => false end in
  let r := if emptied && negb terminal_state then rr_set_phase RpStreaming r else r in
  (if terminal_replayed && emptied then rr_set_consumer None r else r, w).

Definition detach_consumer (r : RoutedRequest) : RoutedRequest :=
  let r := rr_set_consumer None r in
  if rr_is_terminal r then r else rr_set_phase RpConsumerDisconnected r.

(** [ProviderStreamRouterActor] *)
Record Router := {
  ro_requests : gmap string RoutedRequest;
  ro_replay_buffer_size : nat;
  ro_request_ttl : Z;
}.

Definition router_new (replay_buffer_size : option nat) (request_ttl_secs : option Z) : Router :=
  {| ro_requests := ∅;
     ro_replay_buffer_size := default DEFAULT_REPLAY_BUFFER_SIZE replay_buffer_size;
     ro_request_ttl := 1000 * default DEFAULT_REQUEST_TTL_SECS request_ttl_secs |}.

Definition ro_set_requests (m : gmap string RoutedRequest) (ro : Router) : Router :=
  {| ro_requests := m; ro_replay_buffer_size := ro_replay_buffer_size ro;
     ro_request_ttl := ro_request_ttl ro |}.

Definition register_request (now : Z) (request_id : string) (ro : Router)
    : result RouterError unit * Router :=
  match ro_requests ro !! request_id with
  | Some _ => (Err (RouterInvariant ("request " +:+ request_id +:+ " already registered")), ro)
  | None => (Ok tt, ro_set_requests
      (<[request_id := routed_request_new request_id (ro_replay_buffer_size ro) now]> (ro_requests ro)) ro)
  end.

Definition retained (ttl now : Z) (r : RoutedRequest) : bool :=
  let elapsed := duration_since now (rr_last_message_at r) in
  if rr_is_terminal r then elapsed <? ttl
  else negb (bool_decide (rr_consumer_tx r = None) && (ttl * 2 <? elapsed)).

Definition cleanup_expired_requests (now : Z) (ro : Router) : Router :=
  ro_set_requests (filter (fun kr => retained (ro_request_ttl ro) now kr.2 = true) (ro_requests ro)) ro.

(** [get_status]; without an id the statuses of all requests, in no particular order. *)
Definition get_status (now : Z) (request_id : option string) (ro : Router) : list RoutedRequestStatus :=
  match request_id with
  | Some id => match ro_requests ro !! id with Some r => [routed_request_status now r] | None => [] end
  | None => map (fun kr => routed_request_status now kr.2) (map_to_list (ro_requests ro))
  end.

(** The messages of the actor; [now] is the clock while one is handled. *)
Inductive RouterMessage :=
| RmRelay (request_id : string) (message : StreamRelayMessage)
| RmAttach (request_id : string) (consumer_tx : Sender)
| RmDetach (request_id : string)
| RmRegister (request_id : string).

Definition handle_relay (now : Z) (id : string) (m : StreamRelayMessage) (ro : Router) (w : ChannelState)
    : Router * ChannelState :=
  match ro_requests ro !! id with
  | None => (ro, w)
  | Some r =>
      let '(r', w') := deliver_or_buffer now m r w in
      (cleanup_expired_requests now (ro_set_requests (<[id := r']> (ro_requests ro)) ro), w')
  end.

Definition handle_attach (now : Z) (id : string) (tx : Sender) (ro : Router) (w : ChannelState)
    : result RouterError unit * Router * ChannelState :=
  let ro := cleanup_expired_requests now ro in
  match ro_requests ro !! id with
  | None => (Err (RouterInvariant ("request " +:+ id +:+ " not pre-registered")), ro, w)
  | Some r =>
      let '(r', w') := attach_consumer tx r w in
      (Ok tt, ro_set_requests (<[id := r']> (ro_requests ro)) ro, w')
  end.

Definition handle_detach (now : Z) (id : string) (ro : Router) : Router :=
  let ro := cleanup_expired_requests now ro in
  ro_set_requests (alter detach_consumer id (ro_requests ro)) ro.

Definition router_step (now : Z) (m : RouterMessage) (s : Router * ChannelState) : Router * ChannelState :=
  match m with
  | RmRelay id msg => handle_relay now id msg s.1 s.2
  | RmAttach id tx => let '(_, ro, w) := handle_attach now id tx s.1 s.2 in (ro, w)
  | RmDetach id => (handle_detach now id s.1, s.2)
  | RmRegister id => ((register_request now id s.1).2, s.2)
  end.

(** One request under the operations of the handlers. *)
Inductive RequestEvent :=
| RqMessage (now : Z) (m : StreamRelayMessage)
| RqAttach (tx : Sender)
| RqDetach.

Definition request_step (s : RoutedRequest * ChannelState) (e : RequestEvent) : RoutedRequest * ChannelState :=
  match e with
  | RqMessage now m => deliver_or_buffer now m s.1 s.2
  | RqAttach tx => attach_consumer tx s.1 s.2
  | RqDetach => (detach_consumer s.1, s.2)
  end.

Definition request_run (es : list RequestEvent) (s : RoutedRequest * ChannelState)
    : RoutedRequest * ChannelState := foldl request_step s es.

Definition messages_in (es : list RequestEvent) : list StreamRelayMessage :=
  omap (fun e => match e with RqMessage _ m => Some m | _ => None end) es.

End router.

(** ** The relay of the host

    [Network]: the link of one relay task to the router of its stream, as
    kameo gives it.  A [tell] with acknowledgement ([send_ack]) reports no error
    only when the message has arrived; one without ([send]) only puts the
    message on the way, and reports no error for a message that is lost later.
    [told] is what has arrived, in order, and [in_flight] what is on the way.
    After an error the message may have arrived nevertheless: only the
    acknowledgement was lost.  That the link keeps the order of what it
    delivers is assumed. *)
Class Network := {
  NetState : Type;
  tell : string -> StreamRelayMessage -> bool -> NetState -> option string * NetState;
  told : NetState -> list (string * StreamRelayMessage);
  in_flight : NetState -> list (string * StreamRelayMessage);
  clock : NetState -> Z;
  sleep : Z -> NetState -> NetState;
}.

(** What has arrived and what may still arrive. *)
Definition handed `{N : Network} (n : NetState) : list (string * StreamRelayMessage) :=
  told n ++ in_flight n.

(** Whatever is handed over arrives at most once, in order, or is lost. *)
Class NetworkLaws `(N : Network) : Prop := {
  tell_handed id m ack n r n' : tell id m ack n = (r, n') -> handed n' `sublist_of` handed n ++ [(id, m)];
  tell_told id m ack n r n' : tell id m ack n = (r, n') -> told n `prefix_of` told n';
  tell_acked id m n n' : tell id m true n = (None, n') -> last (told n') = Some (id, m) /\ in_flight n' = [];
  tell_clock id m ack n r n' : tell id m ack n = (r, n') -> clock n <= clock n';
  sleep_handed d n : handed (sleep d n) `sublist_of` handed n;
  sleep_told d n : told n `prefix_of` told (sleep d n);
  sleep_clock d n : clock n + d <= clock (sleep d n);
}.

Definition MAX_BATCH_SIZE : nat := 16.
Definition ACK_WINDOW_BATCHES : Z := 8.
Definition ACK_WINDOW_INTERVAL : Z := 40.

Record ActiveProviderStream := {
  ap_session_id : string;
  ap_request_id : string;
  ap_provider : string;
  ap_model : string;
  ap_phase : ProviderStreamPhase;
  ap_started_at : Z;
  ap_last_progress_at : Z;
  ap_last_heartbeat_at : Z;
  ap_chunk_count : Z;
  ap_receiver_connected : bool;
  ap_lease_expires_at : Z;
  ap_last_error : option string;
  ap_cancelled : bool;
}.

Definition ap_set_phase (v : ProviderStreamPhase) (a : ActiveProviderStream) : ActiveProviderStream :=
  {| ap_session_id := ap_session_id a; ap_request_id := ap_request_id a; ap_provider :=
     ap_provider a; ap_model := ap_model a; ap_phase := v; ap_started_at := ap_started_at a;
     ap_last_progress_at := ap_last_progress_at a; ap_last_heartbeat_at := ap_last_heartbeat_at
     a; ap_chunk_count := ap_chunk_count a; ap_receiver_connected := ap_receiver_connected a;
     ap_lease_expires_at := ap_lease_expires_at a; ap_last_error := ap_last_error a;
     ap_cancelled := ap_cancelled a |}.
Definition ap_set_last_progress_at (v : Z) (a : ActiveProviderStream) : ActiveProviderStream :=
  {| ap_session_id := ap_session_id a; ap_request_id := ap_request_id a; ap_provider :=
     ap_provider a; ap_model := ap_model a; ap_phase := ap_phase a; ap_started_at :=
     ap_started_at a; ap_last_progress_at := v; ap_last_heartbeat_at := ap_last_heartbeat_at a;
     ap_chunk_count := ap_chunk_count a; ap_receiver_connected := ap_receiver_connected a;
     ap_lease_expires_at := ap_lease_expires_at a; ap_last_error := ap_last_error a;
     ap_cancelled := ap_cancelled a |}.
Definition ap_set_last_heartbeat_at (v : Z) (a : ActiveProviderStream) : ActiveProviderStream :=
  {| ap_session_id := ap_session_id a; ap_request_id := ap_request_id a; ap_provider :=
     ap_provider a; ap_model := ap_model a; ap_phase := ap_phase a; ap_started_at :=
     ap_started_at a; ap_last_progress_at := ap_last_progress_at a; ap_last_heartbeat_at := v;
     ap_chunk_count := ap_chunk_count a; ap_receiver_connected := ap_receiver_connected a;
     ap_lease_expires_at := ap_lease_expires_at a; ap_last_error := ap_last_error a;
     ap_cancelled := ap_cancelled a |}.
Definition ap_set_chunk_count (v : Z) (a : ActiveProviderStream) : ActiveProviderStream :=
  {| ap_session_id := ap_session_id a; ap_request_id := ap_request_id a; ap_provider :=
     ap_provider a; ap_model := ap_model a; ap_phase := ap_phase a; ap_started_at :=
     ap_started_at a; ap_last_progress_at := ap_last_progress_at a; ap_last_heartbeat_at :=
     ap_last_heartbeat_at a; ap_chunk_count := v; ap_receiver_connected := ap_receiver_connected
     a; ap_lease_expires_at := ap_lease_expires_at a; ap_last_error := ap_last_error a;
     ap_cancelled := ap_cancelled a |}.
Definition ap_set_receiver_connected (v : bool) (a : ActiveProviderStream) : ActiveProviderStream :=
  {| ap_session_id := ap_session_id a; ap_request_id := ap_request_id a; ap_provider :=
     ap_provider a; ap_model := ap_model a; ap_phase := ap_phase a; ap_started_at :=
     ap_started_at a; ap_last_progress_at := ap_last_progress_at a; ap_last_heartbeat_at :=
     ap_last_heartbeat_at a; ap_chunk_count := ap_chunk_count a; ap_receiver_connected := v;
     ap_lease_expires_at := ap_lease_expires_at a; ap_last_error := ap_last_error a;
     ap_cancelled := ap_cancelled a |}.
Definition ap_set_lease_expires_at (v : Z) (a : ActiveProviderStream) : ActiveProviderStream :=
  {| ap_session_id := ap_session_id a; ap_request_id := ap_request_id a; ap_provider :=
     ap_provider a; ap_model := ap_model a; ap_phase := ap_phase a; ap_started_at :=
     ap_started_at a; ap_last_progress_at := ap_last_progress_at a; ap_last_heartbeat_at :=
     ap_last_heartbeat_at a; ap_chunk_count := ap_chunk_count a; ap_receiver_connected :=
     ap_receiver_connected a; ap_lease_expires_at := v; ap_last_error := ap_last_error a;
     ap_cancelled := ap_cancelled a |}.
Definition ap_set_last_error (v : option string) (a : ActiveProviderStream) : ActiveProviderStream :=
  {| ap_session_id := ap_session_id a; ap_request_id := ap_request_id a; ap_provider :=
     ap_provider a; ap_model := ap_model a; ap_phase := ap_phase a; ap_started_at :=
     ap_started_at a; ap_last_progress_at := ap_last_progress_at a; ap_last_heartbeat_at :=
     ap_last_heartbeat_at a; ap_chunk_count := ap_chunk_count a; ap_receiver_connected :=
     ap_receiver_connected a; ap_lease_expires_at := ap_lease_expires_at a; ap_last_error := v;
     ap_cancelled := ap_cancelled a |}.
Definition ap_set_cancelled (v : bool) (a : ActiveProviderStream) : ActiveProviderStream :=
  {| ap_session_id := ap_session_id a; ap_request_id := ap_request_id a; ap_provider :=
     ap_provider a; ap_model := ap_model a; ap_phase := ap_phase a; ap_started_at :=
     ap_started_at a; ap_last_progress_at := ap_last_progress_at a; ap_last_heartbeat_at :=
     ap_last_heartbeat_at a; ap_chunk_count := ap_chunk_count a; ap_receiver_connected :=
     ap_receiver_connected a; ap_lease_expires_at := ap_lease_expires_at a; ap_last_error :=
     ap_last_error a; ap_cancelled := v |}.

(** The variables of the relay task. *)
Record Relay := {
  rl_buffered : list StreamRelayMessage;
  rl_pending_batch : list StreamChunk;
  rl_disconnected_since : option Z;
  rl_upstream_done : bool;
  rl_unacked_batches : Z;
  rl_last_ack_at : Z;
  rl_chunk_count : Z;
  rl_batch_count : nat;
  rl_max_batch_size : nat;
}.

Definition rl_set_buffered (v : list StreamRelayMessage) (r : Relay) : Relay :=
  {| rl_buffered := v; rl_pending_batch := rl_pending_batch r; rl_disconnected_since :=
     rl_disconnected_since r; rl_upstream_done := rl_upstream_done r; rl_unacked_batches :=
     rl_unacked_batches r; rl_last_ack_at := rl_last_ack_at r; rl_chunk_count := rl_chunk_count
     r; rl_batch_count := rl_batch_count r; rl_max_batch_size := rl_max_batch_size r |}.
Definition rl_set_pending_batch (v : list StreamChunk) (r : Relay) : Relay :=
  {| rl_buffered := rl_buffered r; rl_pending_batch := v; rl_disconnected_since :=
     rl_disconnected_since r; rl_upstream_done := rl_upstream_done r; rl_unacked_batches :=
     rl_unacked_batches r; rl_last_ack_at := rl_last_ack_at r; rl_chunk_count := rl_chunk_count
     r; rl_batch_count := rl_batch_count r; rl_max_batch_size := rl_max_batch_size r |}.
Definition rl_set_disconnected_since (v : option Z) (r : Relay) : Relay :=
  {| rl_buffered := rl_buffered r; rl_pending_batch := rl_pending_batch r; rl_disconnected_since
     := v; rl_upstream_done := rl_upstream_done r; rl_unacked_batches := rl_unacked_batches r;
     rl_last_ack_at := rl_last_ack_at r; rl_chunk_count := rl_chunk_count r; rl_batch_count :=
     rl_batch_count r; rl_max_batch_size := rl_max_batch_size r |}.
Definition rl_set_upstream_done (v : bool) (r : Relay) : Relay :=
  {| rl_buffered := rl_buffered r; rl_pending_batch := rl_pending_batch r; rl_disconnected_since
     := rl_disconnected_since r; rl_upstream_done := v; rl_unacked_batches := rl_unacked_batches
     r; rl_last_ack_at := rl_last_ack_at r; rl_chunk_count := rl_chunk_count r; rl_batch_count
     := rl_batch_count r; rl_max_batch_size := rl_max_batch_size r |}.
Definition rl_set_unacked_batches (v : Z) (r : Relay) : Relay :=
  {| rl_buffered := rl_buffered r; rl_pending_batch := rl_pending_batch r; rl_disconnected_since
     := rl_disconnected_since r; rl_upstream_done := rl_upstream_done r; rl_unacked_batches :=
     v; rl_last_ack_at := rl_last_ack_at r; rl_chunk_count := rl_chunk_count r; rl_batch_count
     := rl_batch_count r; rl_max_batch_size := rl_max_batch_size r |}.
Definition rl_set_last_ack_at (v : Z) (r : Relay) : Relay :=
  {| rl_buffered := rl_buffered r; rl_pending_batch := rl_pending_batch r; rl_disconnected_since
     := rl_disconnected_since r; rl_upstream_done := rl_upstream_done r; rl_unacked_batches :=
     rl_unacked_batches r; rl_last_ack_at := v; rl_chunk_count := rl_chunk_count r;
     rl_batch_count := rl_batch_count r; rl_max_batch_size := rl_max_batch_size r |}.
Definition rl_set_chunk_count (v : Z) (r : Relay) : Relay :=
  {| rl_buffered := rl_buffered r; rl_pending_batch := rl_pending_batch r; rl_disconnected_since
     := rl_disconnected_since r; rl_upstream_done := rl_upstream_done r; rl_unacked_batches :=
     rl_unacked_batches r; rl_last_ack_at := rl_last_ack_at r; rl_chunk_count := v;
     rl_batch_count := rl_batch_count r; rl_max_batch_size := rl_max_batch_size r |}.
Definition rl_set_batch_count (v : nat) (r : Relay) : Relay :=
  {| rl_buffered := rl_buffered r; rl_pending_batch := rl_pending_batch r; rl_disconnected_since
     := rl_disconnected_since r; rl_upstream_done := rl_upstream_done r; rl_unacked_batches :=
     rl_unacked_batches r; rl_last_ack_at := rl_last_ack_at r; rl_chunk_count := rl_chunk_count
     r; rl_batch_count := v; rl_max_batch_size := rl_max_batch_size r |}.
Definition rl_set_max_batch_size (v : nat) (r : Relay) : Relay :=
  {| rl_buffered := rl_buffered r; rl_pending_batch := rl_pending_batch r; rl_disconnected_since
     := rl_disconnected_since r; rl_upstream_done := rl_upstream_done r; rl_unacked_batches :=
     rl_unacked_batches r; rl_last_ack_at := rl_last_ack_at r; rl_chunk_count := rl_chunk_count
     r; rl_batch_count := rl_batch_count r; rl_max_batch_size := v |}.

Record ProviderStreamStatus := {
  pst_session_id : string;
  pst_request_id : string;
  pst_provider : string;
  pst_model : string;
  pst_phase : ProviderStreamPhase;
  pst_elapsed_ms : Z;
  pst_idle_ms : Z;
  pst_chunk_count : Z;
  pst_receiver_connected : bool;
  pst_lease_expires_in_ms : Z;
  pst_last_error : option string;
}.

Definition active_stream_status (now : Z) (a : ActiveProviderStream) : ProviderStreamStatus :=
  {| pst_session_id := ap_session_id a; pst_request_id := ap_request_id a;
     pst_provider := ap_provider a; pst_model := ap_model a; pst_phase := ap_phase a;
     pst_elapsed_ms := duration_since now (ap_started_at a);
     pst_idle_ms := duration_since now (ap_last_progress_at a);
     pst_chunk_count := ap_chunk_count a; pst_receiver_connected := ap_receiver_connected a;
     pst_lease_expires_in_ms := duration_since (ap_lease_expires_at a) now;
     pst_last_error := ap_last_error a |}.

Definition relay_start (now : Z) : Relay :=
  {| rl_buffered := []; rl_pending_batch := []; rl_disconnected_since := None;
     rl_upstream_done := false; rl_unacked_batches := 0; rl_last_ack_at := now;
     rl_chunk_count := 0; rl_batch_count := 0; rl_max_batch_size := 0 |}.

Definition push_buffered (m : StreamRelayMessage) (r : Relay) : Relay :=
  rl_set_buffered (rl_buffered r ++ [m]) r.

Definition flush_batch (r : Relay) : Relay :=
  match rl_pending_batch r with
  | [] => r
  | c :: cs =>
      let m := match cs with [] => SrChunk c | _ => SrChunkBatch (c :: cs) end in
      push_buffered m (rl_set_pending_batch [] (rl_set_batch_count (S (rl_batch_count r))
        (rl_set_max_batch_size (Nat.max (rl_max_batch_size r) (S (length cs))) r)))
  end.

Abbreviation ActiveStreams := (gmap (string * string) ActiveProviderStream).

Definition update_active_stream (key : string * string)
    (f : ActiveProviderStream -> ActiveProviderStream) (streams : ActiveStreams) : ActiveStreams :=
  alter f key streams.
Definition remove_active_stream (key : string * string) (streams : ActiveStreams) : ActiveStreams :=
  delete key streams.

(** ** Messages of [ProviderHostActor] on running streams *)

Definition provider_stream_status (now : Z) (session_id : string) (request_id : option string)
    (streams : ActiveStreams) : option ProviderStreamStatus :=
  match request_id with
  | Some r => active_stream_status now <$> streams !! (session_id, r)
  | None => (fun kv => active_stream_status now kv.2) <$>
      List.find (fun kv => String.eqb kv.1.1 session_id) (map_to_list streams)
  end.

(** The streams that [cancel_streams] selects. *)
Definition selected_stream (session_id : string) (request_id : option string) (key : string * string) : bool :=
  String.eqb key.1 session_id
  && match request_id with None => true | Some r => String.eqb key.2 r end.

Definition cancel_stream (reason : string) (a : ActiveProviderStream) : ActiveProviderStream :=
  ap_set_cancelled true (ap_set_last_error (Some reason) (ap_set_phase PsCancelling a)).

Definition cancel_streams (session_id : string) (request_id reason : option string)
    (streams : ActiveStreams) : nat * ActiveStreams :=
  let reason := default "cancel requested" reason in
  let to_cancel := List.filter (selected_stream session_id request_id) (map fst (map_to_list streams)) in
  (length to_cancel, foldl (fun s k => alter (cancel_stream reason) k s) streams to_cancel).

Definition renew_stream_lease (now : Z) (session_id request_id : string) (lease_ttl_secs : Z)
    (streams : ActiveStreams) : bool * ActiveStreams :=
  match streams !! (session_id, request_id) with
  | None => (false, streams)
  | Some a => (true, <[(session_id, request_id) :=
      ap_set_lease_expires_at (now + 1000 * Z.max lease_ttl_secs 1) a]> streams)
  end.

Definition cancelled_payload : LLMErrorPayload :=
  to_payload (Transport ConnectionClosed "provider stream cancelled").

(** [{:?}] of a [Duration] is the standard library's; it is a parameter. *)
Class DurationText := duration_debug : Z -> string.

Definition grace_expired_message `{DurationText} (grace : Z) : string :=
  "reconnect grace expired after " +:+ duration_debug grace.

Section host.
Context `{N : Network} `{D : DurationText}.

Record HostState := { hs_streams : ActiveStreams; hs_net : NetState }.

Definition hs_update (key : string * string) (f : ActiveProviderStream -> ActiveProviderStream)
    (h : HostState) : HostState :=
  {| hs_streams := update_active_stream key f (hs_streams h); hs_net := hs_net h |}.
Definition hs_with_net (n : NetState) (h : HostState) : HostState :=
  {| hs_streams := hs_streams h; hs_net := n |}.

(** What a [ProviderStreamRequest] fixes for its task. *)
Record StreamConfig := {
  sc_session_id : string;
  sc_request_id : string;
  sc_provider : string;
  sc_model : string;
  sc_reconnect_grace_secs : Z;
  sc_lease_ttl_secs : Z;
}.

Definition sc_key (cfg : StreamConfig) : string * string := (sc_session_id cfg, sc_request_id cfg).
Definition reconnect_grace (cfg : StreamConfig) : Z := 1000 * Z.max (sc_reconnect_grace_secs cfg) 1.
Definition lease_ttl (cfg : StreamConfig) : Z := 1000 * Z.max (sc_lease_ttl_secs cfg) 1.

(** The branches of the [select!], each up to the push of the terminal
    message.  Cancelled: *)
Definition select_cancelled (cfg : StreamConfig) (s : Relay * HostState) : Relay * HostState :=
  let '(r, h) := s in
  (push_buffered (SrTransportFailed cancelled_payload) (flush_batch (rl_set_upstream_done true r)),
   hs_update (sc_key cfg) (fun a =>
     ap_set_last_error (or_else (ap_last_error a) (Some "cancelled")) (ap_set_phase PsCancelling a)) h).

(** The heartbeat; the flag says that the lease has expired, and the loop
    continues without relaying. *)
Definition select_tick (cfg : StreamConfig) (s : Relay * HostState) : bool * (Relay * HostState) :=
  let '(r, h) := s in
  let now := clock (hs_net h) in
  match hs_streams h !! sc_key cfg with
  | None => (false, (r, h))
  | Some a =>
      if ap_lease_expires_at a <=? now
      then (true, (r, hs_update (sc_key cfg) (fun a =>
             ap_set_cancelled true (ap_set_last_error (Some "stream lease expired")
               (ap_set_phase PsLeaseExpired a))) h))
      else
        let status := active_stream_status now a in
        (false, (push_buffered (SrHeartbeat (pst_phase status) (pst_elapsed_ms status)
                   (pst_idle_ms status) (pst_chunk_count status)) r,
                 hs_update (sc_key cfg) (ap_set_last_heartbeat_at now) h))
  end.

Definition is_disconnected (r : Relay) : bool :=
  match rl_disconnected_since r with Some _ => true | None => false end.

(** The next item of the provider's stream.  [None] is its end and also, when
    a batch is pending, the timeout after which the batch is flushed
    ([unwrap_or_default]). *)
Definition select_next (cfg : StreamConfig) (next : option (result LLMError StreamChunk))
    (s : Relay * HostState) : Relay * HostState :=
  let '(r, h) := s in
  let now := clock (hs_net h) in
  let key := sc_key cfg in
  match next with
  | Some (Ok chunk) =>
      let done := chunk_is_done chunk in
      let r := if done then rl_set_upstream_done true r else r in
      let r := rl_set_pending_batch (rl_pending_batch r ++ [chunk]) r in
      let r := if rl_upstream_done r || (MAX_BATCH_SIZE <=? length (rl_pending_batch r))%nat
               then flush_batch r else r in
      let h := hs_update key (fun a =>
        ap_set_chunk_count (usize_saturating_add (ap_chunk_count a) (if done then 0 else 1))
          (ap_set_receiver_connected (negb (is_disconnected r))
            (ap_set_last_progress_at now (ap_set_phase PsStreaming a)))) h in
      (r, if done then hs_update key (fun a => ap_set_last_progress_at now (ap_set_phase PsCompleted a)) h
          else h)
  | Some (Err e) =>
      (push_buffered (SrProviderError (to_payload e)) (rl_set_upstream_done true (flush_batch r)),
       hs_update key (fun a => ap_set_last_progress_at now
         (ap_set_last_error (Some (llm_error_display e)) (ap_set_phase PsFailed a))) h)
  | None =>
      match rl_pending_batch r with
      | [] => (rl_set_upstream_done true r,
               hs_update key (fun a => ap_set_last_progress_at now (ap_set_phase PsCompleted a)) h)
      | _ => (flush_batch r, h)
      end
  end.

(** *** The relaying loop *)

Inductive RelayNext := RelayAgain | RelayDone | RelayStop.

(** A message that could not be relayed. *)
Definition relay_failed (cfg : StreamConfig) (e : string) (s : Relay * HostState)
    : RelayNext * (Relay * HostState) :=
  let '(r, h) := s in
  let '(r, h) :=
    if is_disconnected r then (r, h)
    else
      let r := rl_set_disconnected_since (Some (clock (hs_net h))) r in
      let '(_, n) := tell (sc_request_id cfg) (SrTransportDisconnected e) false (hs_net h) in
      (r, hs_update (sc_key cfg) (fun a => ap_set_last_error (Some e)
            (ap_set_receiver_connected false (ap_set_phase PsReceiverDisconnected a))) (hs_with_net n h)) in
  (RelayAgain, (r, hs_with_net (sleep 250 (hs_net h)) h)).

(** A message that was relayed. *)
Definition relay_sent (cfg : StreamConfig) (m : StreamRelayMessage) (should_ack : bool)
    (s : Relay * HostState) : RelayNext * (Relay * HostState) :=
  let '(r, h) := s in
  let now := clock (hs_net h) in
  let r := if is_chunk_message m && negb should_ack
           then rl_set_unacked_batches (u32_saturating_add (rl_unacked_batches r) 1) r
           else rl_set_last_ack_at now (rl_set_unacked_batches 0 r) in
  let r := rl_set_buffered (tail (rl_buffered r)) r in
  let relayed := Z.of_nat (length (message_chunks m)) in
  let r := rl_set_chunk_count (usize_add (rl_chunk_count r) relayed) r in
  let h := if 0 <? relayed
           then hs_update (sc_key cfg) (fun a => ap_set_last_progress_at now
                  (ap_set_chunk_count (rl_chunk_count r) a)) h
           else h in
  ((if keep_stream_message_buffered m && relay_message_is_terminal m then RelayStop else RelayAgain), (r, h)).

(** The part of an iteration after the reconnection. *)
Definition relay_front (cfg : StreamConfig) (s : Relay * HostState) : RelayNext * (Relay * HostState) :=
  let '(r, h) := s in
  match rl_buffered r with
  | [] => (RelayDone, (r, h))
  | m :: _ =>
      let should_ack := should_ack_relay_message m (rl_unacked_batches r)
        (duration_since (clock (hs_net h)) (rl_last_ack_at r)) ACK_WINDOW_BATCHES ACK_WINDOW_INTERVAL in
      match tell (sc_request_id cfg) m should_ack (hs_net h) with
      | (Some e, n) => relay_failed cfg e (r, hs_with_net n h)
      | (None, n) => relay_sent cfg m should_ack (r, hs_with_net n h)
      end
  end.

(** The reconnection failed. *)
Definition reconnect_failed (cfg : StreamConfig) (since : Z) (s : Relay * HostState)
    : RelayNext * (Relay * HostState) :=
  let '(r, h) := s in
  let h := hs_update (sc_key cfg) (fun a =>
    ap_set_receiver_connected false (ap_set_phase PsReceiverDisconnected a)) h in
  let '(r, h) :=
    if reconnect_grace cfg <=? duration_since (clock (hs_net h)) since
    then (rl_set_upstream_done true (push_buffered (SrTransportFailed
            (to_payload (Transport Timeout (grace_expired_message (reconnect_grace cfg))))) r),
          hs_update (sc_key cfg) (fun a => ap_set_last_error (Some "reconnect grace expired")
            (ap_set_phase PsGraceExpired a)) h)
    else (r, h) in
  ((if rl_upstream_done r then RelayStop else RelayAgain),
   (r, hs_with_net (sleep 250 (hs_net h)) h)).

(** One iteration of the relaying loop. *)
Definition relay_iteration (cfg : StreamConfig) (s : Relay * HostState) : RelayNext * (Relay * HostState) :=
  let '(r, h) := s in
  match rl_disconnected_since r with
  | None => relay_front cfg (r, h)
  | Some since =>
      let replay_count := length (List.filter keep_stream_message_buffered (rl_buffered r)) in
      match tell (sc_request_id cfg) (SrTransportReconnected replay_count) true (hs_net h) with
      | (None, n) =>
          let h := hs_update (sc_key cfg) (fun a => ap_set_receiver_connected true
            (ap_set_phase (if ap_chunk_count a =? 0 then PsWaitingFirstChunk else PsStreaming) a))
            (hs_with_net n h) in
          relay_front cfg (rl_set_last_ack_at (clock n) (rl_set_unacked_batches 0
            (rl_set_disconnected_since None r)), h)
      | (Some _, n) => reconnect_failed cfg since (r, hs_with_net n h)
      end
  end.

(** *** The task

    Its place is the [select!], the relaying loop, or its end.  Handlers of the
    actor run between its steps, and time passes ([HeWait]). *)
Inductive RelayPlace := AtSelect | AtRelay | AtEnd.

Record HostSystem := { sy_place : RelayPlace; sy_relay : Relay; sy_host : HostState }.

Inductive HostEvent :=
| HeCancelled
| HeTick
| HeNext (next : option (result LLMError StreamChunk))
| HeRelay
| HeWait (duration : Z)
| HeCancelStreams (session_id : string) (request_id reason : option string)
| HeRenewLease (session_id request_id : string) (lease_ttl_secs : Z).

Definition stream_cancelled (cfg : StreamConfig) (h : HostState) : bool :=
  match hs_streams h !! sc_key cfg with Some a => ap_cancelled a | None => false end.

Definition sy_at (p : RelayPlace) (s : Relay * HostState) : HostSystem :=
  {| sy_place := p; sy_relay := s.1; sy_host := s.2 |}.

Definition hs_with_streams (m : ActiveStreams) (h : HostState) : HostState :=
  {| hs_streams := m; hs_net := hs_net h |}.

(** The end of the task. *)
Definition finish_task (cfg : StreamConfig) (s : Relay * HostState) : HostSystem :=
  sy_at AtEnd (s.1, hs_with_streams (remove_active_stream (sc_key cfg) (hs_streams s.2)) s.2).

(** After the relaying loop: the test at the end of an outer iteration. *)
Definition after_relaying (cfg : StreamConfig) (s : Relay * HostState) : HostSystem :=
  match rl_upstream_done s.1, rl_buffered s.1, rl_pending_batch s.1 with
  | true, [], [] => finish_task cfg s
  | _, _, _ => sy_at AtSelect s
  end.

(** One step; [None] when the event cannot happen there. *)
Definition host_step (cfg : StreamConfig) (e : HostEvent) (s : HostSystem) : option HostSystem :=
  let rh := (sy_relay s, sy_host s) in
  match e, sy_place s with
  | HeCancelled, AtSelect =>
      if stream_cancelled cfg (sy_host s) && negb (rl_upstream_done (sy_relay s))
      then Some (sy_at AtRelay (select_cancelled cfg rh)) else None
  | HeTick, AtSelect =>
      let '(expired, rh') := select_tick cfg rh in
      Some (sy_at (if expired then AtSelect else AtRelay) rh')
  | HeNext next, AtSelect =>
      if rl_upstream_done (sy_relay s) then None else Some (sy_at AtRelay (select_next cfg next rh))
  | HeRelay, AtRelay =>
      match relay_iteration cfg rh with
      | (RelayAgain, rh') => Some (sy_at AtRelay rh')
      | (RelayDone, rh') => Some (after_relaying cfg rh')
      | (RelayStop, rh') => Some (finish_task cfg rh')
      end
  | HeWait d, _ =>
      Some {| sy_place := sy_place s; sy_relay := sy_relay s; sy_host :=
        hs_with_net (sleep (Z.max 0 d) (hs_net (sy_host s))) (sy_host s) |}
  | HeCancelStreams sid rid reason, _ =>
      Some {| sy_place := sy_place s; sy_relay := sy_relay s; sy_host :=
        hs_with_streams (cancel_streams sid rid reason (hs_streams (sy_host s))).2 (sy_host s) |}
  | HeRenewLease sid rid ttl, _ =>
      Some {| sy_place := sy_place s; sy_relay := sy_relay s; sy_host :=
        hs_with_streams (renew_stream_lease (clock (hs_net (sy_host s))) sid rid ttl
                           (hs_streams (sy_host s))).2 (sy_host s) |}
  | _, _ => None
  end.

Fixpoint host_run (cfg : StreamConfig) (es : list HostEvent) (s : HostSystem) : option HostSystem :=
  match es with
  | [] => Some s
  | e :: es' => s' ← host_step cfg e s; host_run cfg es' s'
  end.

(** The chunks the provider's stream gave to a run. *)
Definition upstream_chunks (es : list HostEvent) : list StreamChunk :=
  omap (fun e => match e with HeNext (Some (Ok c)) => Some c | _ => None end) es.

(** [RemoteProviderHostError]; reading a payload back from text is serde_json's. *)
Inductive RemoteProviderHostError :=
| HostProviderChat (operation reason : string)
| HostInternal (message : string).

Definition host_error_payload (parse : string -> option LLMErrorPayload) (e : RemoteProviderHostError)
    : LLMErrorPayload :=
  match e with
  | HostProviderChat _ reason =>
      match parse reason with Some p => p | None => to_payload (ProviderError reason) end
  | HostInternal message => to_payload (ProviderError message)
  end.

(** The handler of [ProviderStreamRequest]; [setup] is what building the
    provider and opening its stream gave. *)
Definition handle_stream_request (parse : string -> option LLMErrorPayload) (cfg : StreamConfig)
    (setup : result RemoteProviderHostError unit) (h : HostState) : HostSystem :=
  let now := clock (hs_net h) in
  let entry := {| ap_session_id := sc_session_id cfg; ap_request_id := sc_request_id cfg;
    ap_provider := sc_provider cfg; ap_model := sc_model cfg; ap_phase := PsOpeningUpstream;
    ap_started_at := now; ap_last_progress_at := now; ap_last_heartbeat_at := now;
    ap_chunk_count := 0; ap_receiver_connected := true; ap_lease_expires_at := now + lease_ttl cfg;
    ap_last_error := None; ap_cancelled := false |} in
  let h := hs_with_streams (<[sc_key cfg := entry]> (hs_streams h)) h in
  match setup with
  | Err e =>
      let '(_, n) := tell (sc_request_id cfg) (SrProviderError (host_error_payload parse e)) false (hs_net h) in
      finish_task cfg (relay_start now, hs_with_net n h)
  | Ok _ => sy_at AtSelect (relay_start now, hs_update (sc_key cfg) (ap_set_phase PsWaitingFirstChunk) h)
  end.

End host.

(** ** The client's stream *)

Record RemoteProviderStreamState := {
  ps_disconnected_since : option Z;
  ps_chunk_index : Z;
  ps_pending_chunks : list StreamChunk;
  ps_first_chunk_recorded : bool;
  ps_terminal_seen : bool;
}.

Definition stream_state_new : RemoteProviderStreamState :=
  {| ps_disconnected_since := None; ps_chunk_index := 0; ps_pending_chunks := [];
     ps_first_chunk_recorded := false; ps_terminal_seen := false |}.

Definition ps_set_pending (cs : list StreamChunk) (s : RemoteProviderStreamState) : RemoteProviderStreamState :=
  {| ps_disconnected_since := ps_disconnected_since s; ps_chunk_index := ps_chunk_index s;
     ps_pending_chunks := cs; ps_first_chunk_recorded := ps_first_chunk_recorded s;
     ps_terminal_seen := ps_terminal_seen s |}.
Definition ps_set_disconnected (d : option Z) (s : RemoteProviderStreamState) : RemoteProviderStreamState :=
  {| ps_disconnected_since := d; ps_chunk_index := ps_chunk_index s;
     ps_pending_chunks := ps_pending_chunks s; ps_first_chunk_recorded := ps_first_chunk_recorded s;
     ps_terminal_seen := ps_terminal_seen s |}.

(** [record_first_chunk]: the latency of the first chunk, once. *)
Definition record_first_chunk (elapsed : Z) (s : RemoteProviderStreamState)
    : option Z * RemoteProviderStreamState :=
  if ps_first_chunk_recorded s then (None, s)
  else (Some elapsed,
        {| ps_disconnected_since := ps_disconnected_since s; ps_chunk_index := ps_chunk_index s;
           ps_pending_chunks := ps_pending_chunks s; ps_first_chunk_recorded := true;
           ps_terminal_seen := ps_terminal_seen s |}).

Definition note_chunk_received (chunk : StreamChunk) (elapsed : Z) (s : RemoteProviderStreamState)
    : Z * option Z * RemoteProviderStreamState :=
  let s := {| ps_disconnected_since := ps_disconnected_since s;
              ps_chunk_index := usize_add (ps_chunk_index s) 1;
              ps_pending_chunks := ps_pending_chunks s;
              ps_first_chunk_recorded := ps_first_chunk_recorded s;
              ps_terminal_seen := ps_terminal_seen s || chunk_is_done chunk |} in
  let '(first_chunk_ms, s) := record_first_chunk elapsed s in
  (ps_chunk_index s, first_chunk_ms, s).

Definition take_pending (elapsed : Z) (s : RemoteProviderStreamState)
    : option (StreamChunk * Z * option Z) * RemoteProviderStreamState :=
  match ps_pending_chunks s with
  | [] => (None, s)
  | chunk :: rest =>
      let '(i, first_chunk_ms, s') := note_chunk_received chunk elapsed (ps_set_pending rest s) in
      (Some (chunk, i, first_chunk_ms), s')
  end.

Definition push_batch_and_take_first (elapsed : Z) (chunks : list StreamChunk) (s : RemoteProviderStreamState)
    : option (StreamChunk * Z * option Z * nat) * RemoteProviderStreamState :=
  let '(first_chunk_ms, s) := match chunks with [] => (None, s) | _ => record_first_chunk elapsed s end in
  match take_pending elapsed (ps_set_pending (ps_pending_chunks s ++ chunks) s) with
  | (Some (chunk, i, _), s') => (Some (chunk, i, first_chunk_ms, length chunks), s')
  | (None, s') => (None, s')
  end.

Definition note_disconnect (now : Z) (s : RemoteProviderStreamState) : RemoteProviderStreamState :=
  ps_set_disconnected (or_else (ps_disconnected_since s) (Some now)) s.
Definition note_reconnect (s : RemoteProviderStreamState) : RemoteProviderStreamState :=
  ps_set_disconnected None s.

Definition reconnect_remaining (now grace : Z) (s : RemoteProviderStreamState) : option Z :=
  (fun since => Z.max 0 (grace - duration_since now since)) <$> ps_disconnected_since s.

Definition ps_is_disconnected (s : RemoteProviderStreamState) : bool :=
  match ps_disconnected_since s with Some _ => true | None => false end.

Definition stream_is_finished (s : RemoteProviderStreamState) : bool :=
  ps_terminal_seen s && match ps_pending_chunks s with [] => true | _ => false end.

Definition bool_debug (b : bool) : string := if b then "true" else "false".

Definition closed_error (peer_alive : bool) (s : RemoteProviderStreamState) : LLMError :=
  Transport ConnectionClosed ("stream receiver closed before terminal chunk (peer_alive="
    +:+ bool_debug peer_alive +:+ ", disconnected=" +:+ bool_debug (ps_is_disconnected s) +:+ ")").

(** [poll_stream_message], without its traces. *)
Definition poll_stream_message (now stream_start : Z) (next : option StreamRelayMessage) (peer_alive : bool)
    (s : RemoteProviderStreamState) : result LLMError (option StreamChunk) * RemoteProviderStreamState :=
  let elapsed := duration_since now stream_start in
  match next with
  | Some (SrChunk chunk) =>
      let '(_, _, s') := note_chunk_received chunk elapsed s in (Ok (Some chunk), s')
  | Some (SrChunkBatch chunks) =>
      match push_batch_and_take_first elapsed chunks s with
      | (Some (chunk, _, _, _), s') => (Ok (Some chunk), s')
      | (None, s') => (Ok None, s')
      end
  | Some (SrHeartbeat _ _ _ _) => (Ok None, s)
  | Some (SrProviderError error) => (Err (from_payload error), s)
  | Some (SrTransportDisconnected _) => (Ok None, note_disconnect now s)
  | Some (SrTransportReconnected _) => (Ok None, note_reconnect s)
  | Some (SrTransportFailed error) => (Err (from_payload error), s)
  | None => (Err (closed_error peer_alive s), s)
  end.

(** One turn of the loop that waits for a message: when it starts, what its
    [select!] gives, and when. *)
Inductive ClientInput :=
| CiItem (next : option StreamRelayMessage) (peer_alive : bool)
| CiRenewDue
| CiGraceElapsed.

Record ClientTurn := { ct_start : Z; ct_at : Z; ct_input : ClientInput }.

(** [cs_renewals] counts the renewals of the lease that were asked for. *)
Record ClientStream := { cs_state : RemoteProviderStreamState; cs_renew_due : Z; cs_renewals : nat }.

Inductive ClientOutput := CoChunk (c : StreamChunk) | CoError (e : LLMError) | CoEnd | CoWaiting.

Section client.
Context `{D : DurationText}.
Variables (reconnect_grace_ms lease_renew_every stream_start : Z).

Definition reconnect_timeout_error : LLMError :=
  Transport Timeout (grace_expired_message reconnect_grace_ms).

Definition cs_with (s : RemoteProviderStreamState) (c : ClientStream) : ClientStream :=
  {| cs_state := s; cs_renew_due := cs_renew_due c; cs_renewals := cs_renewals c |}.
Definition cs_renew (now : Z) (c : ClientStream) : ClientStream :=
  {| cs_state := cs_state c; cs_renew_due := now + lease_renew_every; cs_renewals := S (cs_renewals c) |}.

(** The loop, over the turns that come; it waits for more when they run out. *)
Fixpoint client_wait (turns : list ClientTurn) (c : ClientStream)
    : ClientOutput * ClientStream * list ClientTurn :=
  match turns with
  | [] => (CoWaiting, c, [])
  | t :: rest =>
      let c := if cs_renew_due c <=? ct_start t then cs_renew (ct_start t) c else c in
      match reconnect_remaining (ct_start t) reconnect_grace_ms (cs_state c), ct_input t with
      | Some 0, _ => (CoError reconnect_timeout_error, c, turns)
      | _, CiRenewDue => client_wait rest (cs_renew (ct_at t) c)
      | Some _, CiGraceElapsed => (CoError reconnect_timeout_error, c, rest)
      | None, CiGraceElapsed => client_wait rest c
      | _, CiItem next peer_alive =>
          match poll_stream_message (ct_at t) stream_start next peer_alive (cs_state c) with
          | (Ok (Some chunk), s) => (CoChunk chunk, cs_with s c, rest)
          | (Ok None, s) => client_wait rest (cs_with s c)
          | (Err e, s) => (CoError e, cs_with s c, rest)
          end
      end
  end.

(** One [next()] of the stream that [chat_stream_with_tools] returns, [now]. *)
Definition client_next (now : Z) (turns : list ClientTurn) (c : ClientStream)
    : ClientOutput * ClientStream * list ClientTurn :=
  if stream_is_finished (cs_state c) then (CoEnd, c, turns)
  else match take_pending (duration_since now stream_start) (cs_state c) with
       | (Some (chunk, _, _), s) => (CoChunk chunk, cs_with s c, turns)
       | (None, _) => client_wait turns c
       end.

(** At most [n] items of the stream, up to its end. *)
Fixpoint client_run (n : nat) (now : Z) (turns : list ClientTurn) (c : ClientStream)
    : list ClientOutput * ClientStream * list ClientTurn :=
  match n with
  | O => ([], c, turns)
  | S n =>
      match client_next now turns c with
      | (CoEnd, c', rest) => ([CoEnd], c', rest)
      | (CoWaiting, c', rest) => ([], c', rest)
      | (o, c', rest) => let '(os, c'', rest') := client_run n now rest c' in (o :: os, c'', rest')
      end
  end.
End client.

Definition client_start (lease_renew_every now : Z) : ClientStream :=
  {| cs_state := stream_state_new; cs_renew_due := now + lease_renew_every; cs_renewals := 0 |}.

(** [RemoteProviderClientConfig::lease_renew_every] *)
Definition lease_renew_every_of (lease_ttl_secs : Z) : Z := 1000 * Z.max (lease_ttl_secs / 3) 1.

Definition output_chunks (os : list ClientOutput) : list StreamChunk :=
  omap (fun o => match o with CoChunk c => Some c | _ => None end) os.

Definition turn_messages (ts : list ClientTurn) : list StreamRelayMessage :=
  omap (fun t => match ct_input t with CiItem (Some m) _ => Some m | _ => None end) ts.

(** ** The parameters of a remote request and the host's backends

    (provider_host_support.rs, provider_backend.rs, provider_backend_helpers.rs) *)

(** [serde_json]'s objects; the order of their keys is not read here. *)
Class JsonObject := {
  JsonValue : Type;
  as_object : JsonValue -> option (gmap string JsonValue);
  of_object : gmap string JsonValue -> JsonValue;
}.

Section params.
Context `{JO : JsonObject}.

Definition nonempty_object (o : gmap string JsonValue) : option JsonValue :=
  if bool_decide (o = ∅) then None else Some (of_object o).

(** [params_for_remote_provider], given the object that [LLMParams] serializes to. *)
Definition params_for_remote_provider (params : option JsonValue) : option JsonValue :=
  v ← params; o ← as_object v;
  nonempty_object (delete "name" (delete "model" (delete "provider" (delete "api_key" o)))).

Definition sanitized_request_params (request : JsonValue) : option JsonValue :=
  match as_object request with
  | Some o => nonempty_object (delete "_remote_session_id" (delete "api_key" o))
  | None => Some request
  end.

Definition merge_remote_provider_params (request_params host_defaults : option JsonValue) : option JsonValue :=
  match host_defaults, (request_params ≫= sanitized_request_params) with
  | None, None => None
  | Some defaults, None => Some defaults
  | None, Some request => Some request
  | Some defaults, Some request =>
      match as_object defaults with
      | Some base =>
          nonempty_object (match as_object request with Some overlay => overlay ∪ base | None => base end)
      | None => Some defaults
      end
  end.

Record ProviderBuildRequest := {
  br_provider_name : string;
  br_model : string;
  br_params : option JsonValue;
}.

Record ProviderBackend (P : Type) := {
  be_host_default_params : string -> string -> option JsonValue;
  be_build_provider : ProviderBuildRequest -> result RemoteProviderHostError P;
}.
Arguments be_host_default_params {P} _.
Arguments be_build_provider {P} _.

Definition build_provider_for_request {P} (b : ProviderBackend P) (provider_name model : string)
    (request_params : option JsonValue) : result RemoteProviderHostError P :=
  be_build_provider b {| br_provider_name := provider_name; br_model := model;
    br_params := merge_remote_provider_params request_params
                   (be_host_default_params b provider_name model) |}.

(** [ModelAllowlistBackend]; [None] allows every model of the provider. *)
Record ModelAllowlistBackend (P : Type) := {
  ma_inner : ProviderBackend P;
  ma_allowed : gmap string (option (gset string));
}.
Arguments ma_inner {P} _.
Arguments ma_allowed {P} _.

Definition allowlist_new {P} (inner : ProviderBackend P) : ModelAllowlistBackend P :=
  {| ma_inner := inner; ma_allowed := ∅ |}.

Definition allow_provider {P} (provider : string) (a : ModelAllowlistBackend P) : ModelAllowlistBackend P :=
  {| ma_inner := ma_inner a; ma_allowed := <[provider := None]> (ma_allowed a) |}.
Definition allow_models {P} (provider : string) (models : list string) (a : ModelAllowlistBackend P)
    : ModelAllowlistBackend P :=
  {| ma_inner := ma_inner a; ma_allowed := <[provider := Some (list_to_set models)]> (ma_allowed a) |}.

Definition allows {P} (a : ModelAllowlistBackend P) (provider model : string) : bool :=
  match ma_allowed a !! provider with
  | Some None => true
  | Some (Some models) => bool_decide (model ∈ models)
  | None => false
  end.

(** [host_default_params] is the trait's default. *)
Definition allowlist_backend {P} (a : ModelAllowlistBackend P) : ProviderBackend P :=
  {| be_host_default_params := fun _ _ => None;
     be_build_provider := fun req =>
       if allows a (br_provider_name req) (br_model req) then be_build_provider (ma_inner a) req
       else Err (HostInternal ("provider/model not shared: provider='" +:+ br_provider_name req
                               +:+ "' model='" +:+ br_model req +:+ "'")) |}.
End params.
Arguments be_host_default_params {JO P} _.
Arguments be_build_provider {JO P} _.
Arguments ma_inner {JO P} _.
Arguments ma_allowed {JO P} _.
