(* ===== verification/RemoteProps.v ===== *)
(** Remote provider streams: order and loss at the router, what the host
    relays, the end of its loops, what the client yields, and the composition of
    the three; the parameters of a remote request. *)
From S2P Require Import Prelude Numbers Text Chat LlmErrors RemoteStreams.

Local Open Scope Z_scope.

(** ** The router *)

Section router_order.
Context `{C : Channels} {L : ChannelLaws C}.

(** No channel is ever full. *)
Definition never_full : Prop := forall tx m w, (try_send tx m w).1 <> SendFull.

Definition overflows (s : RoutedRequest * ChannelState) (e : RequestEvent) : bool :=
  match e with
  | RqMessage _ _ => (rr_replay_buffer_size s.1 <=? length (rr_replay_buffer s.1))%nat
  | _ => false
  end.

Fixpoint never_overflows (es : list RequestEvent) (s : RoutedRequest * ChannelState) : bool :=
  match es with
  | [] => true
  | e :: es' => negb (overflows s e) && never_overflows es' (request_step s e)
  end.

Definition drained (r : RoutedRequest) : Prop := rr_consumer_tx r <> None -> rr_replay_buffer r = [].

(** The messages the buffer keeps when another one is to be added. *)
Definition kept (r : RoutedRequest) : list StreamRelayMessage :=
  if (rr_replay_buffer_size r <=? length (rr_replay_buffer r))%nat
  then tail (rr_replay_buffer r) else rr_replay_buffer r.

Lemma rr_set_terminal m r : rr_replay_buffer (set_terminal_phase m r) = rr_replay_buffer r
  /\ rr_replay_buffer_size (set_terminal_phase m r) = rr_replay_buffer_size r
  /\ rr_consumer_tx (set_terminal_phase m r) = rr_consumer_tx r.
Proof. unfold set_terminal_phase. by destruct (terminal_request_phase m). Qed.

Lemma buffer_message_eqs m r : rr_replay_buffer (buffer_message m r) = kept r ++ [m]
  /\ rr_replay_buffer_size (buffer_message m r) = rr_replay_buffer_size r
  /\ rr_consumer_tx (buffer_message m r) = rr_consumer_tx r.
Proof.
  unfold buffer_message. destruct (relay_message_is_terminal m); [|done].
  destruct (rr_set_terminal m (rr_set_buffer (kept r ++ [m]) r)) as (? & ? & ?). done.
Qed.

Lemma send_cases tx m w o w' : try_send tx m w = (o, w') ->
  (o = SendOk /\ accepted w' = accepted w ++ [m]) \/ (o <> SendOk /\ accepted w' = accepted w).
Proof.
  intros H. destruct o; [left|right|right]; (split; [done|]).
  - by eapply try_send_ok.
  - by eapply try_send_refused; [done|].
  - by eapply try_send_refused; [done|].
Qed.

Lemma replay_stepped tx : forall buffer t r w t' r' w',
  rr_consumer_tx r = Some tx -> replay_loop tx buffer t r w = (t', r', w') ->
  exists sent, accepted w' = accepted w ++ sent /\ buffer = sent ++ rr_replay_buffer r'
    /\ rr_replay_buffer_size r' = rr_replay_buffer_size r /\ (never_full -> drained r').
Proof.
  induction buffer as [|m buffer IH]; intros t r w t' r' w' Htx; cbn.
  - intros [= <- <- <-]. exists []. rewrite app_nil_r. cbn. repeat split; by intros.
  - destruct (try_send tx m w) as [o w1] eqn:Hs. pose proof (send_cases _ _ _ _ _ Hs) as Hc.
    destruct o; [destruct Hc as [[_ Ha]|[? _]]; [|done]|destruct Hc as [[? _]|[_ Ha]]; [done|]..].
    + intros Hr. destruct (IH _ _ _ _ _ _ Htx Hr) as (sent & H1 & H2 & H3 & H4).
      exists (m :: sent). rewrite H1, Ha, <- app_assoc.
      split_and!; [done|cbn; by f_equal|done|done].
    + intros [= <- <- <-]. exists []. rewrite app_nil_r. cbn. repeat split; try done.
      intros Hf. exfalso. apply (Hf tx m w). by rewrite Hs.
    + intros [= <- <- <-]. exists []. rewrite app_nil_r. cbn. repeat split; try done. intros _ Hn. by cbn in Hn.
Qed.

Lemma attach_moves tx r w r' w' : attach_consumer tx r w = (r', w') ->
  exists sent, accepted w' = accepted w ++ sent /\ rr_replay_buffer r = sent ++ rr_replay_buffer r'
    /\ rr_replay_buffer_size r' = rr_replay_buffer_size r /\ (never_full -> drained r').
Proof.
  unfold attach_consumer. set (r1 := rr_set_consumer (Some tx) r).
  set (r2 := if bool_decide _ then _ else _).
  assert (rr_consumer_tx r2 = Some tx /\ rr_replay_buffer r2 = rr_replay_buffer r
    /\ rr_replay_buffer_size r2 = rr_replay_buffer_size r) as (H1 & H2 & H3)
    by (subst r2; by destruct (bool_decide _)).
  destruct (replay_loop tx (rr_replay_buffer r2) false r2 w) as [[t r3] w3] eqn:Hl.
  destruct (replay_stepped _ _ _ _ _ _ _ _ H1 Hl) as (sent & Ha & Hb & Hc & Hd).
  set (e := match rr_replay_buffer r3 with [] => true | _ => false end).
  intros [= <- <-]. exists sent. rewrite <- H2, <- H3. unfold drained in *.
  destruct (e && negb _), (t && e); cbn; split_and!; auto; intros; done.
Qed.

Lemma deliver_moves now m r w r' w' : deliver_or_buffer now m r w = (r', w') ->
  exists sent, accepted w' = accepted w ++ sent
    /\ sent ++ rr_replay_buffer r' ⊆+ rr_replay_buffer r ++ [m]
    /\ rr_replay_buffer_size r' = rr_replay_buffer_size r
    /\ (never_full -> drained r -> drained r' /\ sent ++ rr_replay_buffer r' = kept r ++ [m]).
Proof.
  unfold deliver_or_buffer. set (r1 := match m with SrChunk _ => _ | _ => _ end).
  assert (rr_consumer_tx r1 = rr_consumer_tx r /\ rr_replay_buffer r1 = rr_replay_buffer r
    /\ rr_replay_buffer_size r1 = rr_replay_buffer_size r /\ kept r1 = kept r) as (H1 & H2 & H3 & H4)
    by (unfold kept; subst r1; by destruct m; try destruct (bool_decide _)).
  assert (Hk : kept r ++ [m] ⊆+ rr_replay_buffer r ++ [m]).
  { apply submseteq_app; [|done]. unfold kept. case_match; [|done].
    destruct (rr_replay_buffer r); [done|by apply submseteq_cons]. }
  destruct (rr_consumer_tx r1) as [tx|] eqn:Htx.
  - destruct (try_send tx m w) as [o w1] eqn:Hs. pose proof (send_cases _ _ _ _ _ Hs) as Hc.
    destruct o; [destruct Hc as [[_ Ha]|[? _]]; [|done]|destruct Hc as [[? _]|[_ Ha]]; [done|]..];
      intros [= <- <-].
    + destruct (rr_set_terminal m r1) as (T1 & T2 & T3). exists [m].
      assert (rr_replay_buffer (if relay_message_is_terminal m
        then rr_set_consumer None (set_terminal_phase m r1) else r1) = rr_replay_buffer r) as ->
        by (destruct (relay_message_is_terminal m); cbn; congruence).
      split_and!; [done|by rewrite (comm (++))|destruct (relay_message_is_terminal m); cbn; congruence|].
      intros _ Hd. assert (Hb : rr_replay_buffer r = []) by (apply Hd; congruence).
      unfold kept, drained. rewrite Hb. split; [|by destruct (_ <=? _)%nat].
      intros _. destruct (relay_message_is_terminal m); cbn; congruence.
    + exists []. rewrite app_nil_r.
      destruct (buffer_message_eqs m (rr_set_phase RpConsumerDisconnected r1)) as (B1 & B2 & B3).
      rewrite B1, B2. change (kept (rr_set_phase RpConsumerDisconnected r1)) with (kept r1). rewrite H4.
      split_and!; [done|done|done|]. intros Hf. exfalso. apply (Hf tx m w). by rewrite Hs.
    + exists []. rewrite app_nil_r.
      destruct (buffer_message_eqs m (rr_set_phase RpConsumerDisconnected (rr_set_consumer None r1)))
        as (B1 & B2 & B3).
      rewrite B1, B2. change (kept (rr_set_phase _ _)) with (kept r1). rewrite H4.
      split_and!; [done|done|done|]. intros _ _. split; [|done]. intros Hn. by rewrite B3 in Hn.
  - intros [= <- <-]. exists []. rewrite app_nil_r.
    destruct (buffer_message_eqs m r1) as (B1 & B2 & B3). rewrite B1, B2, H4.
    split_and!; [done|done|done|]. intros _ _. split; [|done]. intros Hn. by rewrite B3 in Hn.
Qed.

Lemma deliver_buffer now m r w r' w' : deliver_or_buffer now m r w = (r', w') ->
  rr_replay_buffer r' = rr_replay_buffer r \/ rr_replay_buffer r' = kept r ++ [m].
Proof.
  unfold deliver_or_buffer. set (r1 := match m with SrChunk _ => _ | _ => _ end).
  assert (rr_replay_buffer r1 = rr_replay_buffer r /\ kept r1 = kept r) as [H1 H2]
    by (unfold kept; subst r1; by destruct m; try destruct (bool_decide _)).
  destruct (rr_consumer_tx r1) as [tx|]; [destruct (try_send tx m w) as [[] w1]|]; intros [= <- <-].
  - left. destruct (rr_set_terminal m r1) as (T1 & _). destruct (relay_message_is_terminal m); cbn; congruence.
  - right. destruct (buffer_message_eqs m (rr_set_phase RpConsumerDisconnected r1)) as (-> & _). by rewrite <- H2.
  - right. destruct (buffer_message_eqs m (rr_set_phase RpConsumerDisconnected (rr_set_consumer None r1))) as (-> & _).
    by rewrite <- H2.
  - right. destruct (buffer_message_eqs m r1) as (-> & _). by rewrite H2.
Qed.

Lemma detach_moves r : rr_replay_buffer (detach_consumer r) = rr_replay_buffer r
  /\ rr_replay_buffer_size (detach_consumer r) = rr_replay_buffer_size r
  /\ rr_consumer_tx (detach_consumer r) = None.
Proof. unfold detach_consumer. by case_match. Qed.

Lemma messages_in_cons e es : messages_in (e :: es) = messages_in [e] ++ messages_in es.
Proof. by destruct e. Qed.

(** The messages, over a run. *)
Lemma request_run_subset es : forall r w r' w', request_run es (r, w) = (r', w') ->
  exists sent, accepted w' = accepted w ++ sent
    /\ sent ++ rr_replay_buffer r' ⊆+ rr_replay_buffer r ++ messages_in es.
Proof.
  induction es as [|e es IH]; intros r w r' w'; cbn [request_run foldl].
  - intros [= <- <-]. exists []. by rewrite !app_nil_r.
  - destruct (request_step (r, w) e) as [r1 w1] eqn:Hs. intros Hr.
    destruct (IH _ _ _ _ Hr) as (sent & Ha & Hsub).
    assert (exists s1, accepted w1 = accepted w ++ s1 /\ s1 ++ rr_replay_buffer r1
      ⊆+ rr_replay_buffer r ++ messages_in [e]) as (s1 & Ha1 & Hsub1).
    { destruct e as [now m|tx|]; cbn in Hs |- *.
      - destruct (deliver_moves _ _ _ _ _ _ Hs) as (s1 & ? & ? & _). by exists s1.
      - destruct (attach_moves _ _ _ _ _ Hs) as (s1 & ? & -> & _). exists s1. by rewrite app_nil_r.
      - injection Hs as <- <-. destruct (detach_moves r) as (-> & _). exists []. by rewrite !app_nil_r. }
    exists (s1 ++ sent). rewrite Ha, Ha1, <- !app_assoc. split; [done|].
    rewrite messages_in_cons, (app_assoc (rr_replay_buffer r)). etrans; [apply submseteq_skips_l, Hsub|].
    rewrite app_assoc. by apply submseteq_skips_r.
Qed.

Section in_order.
Context (Hfull : never_full).

Lemma kept_suffix r : kept r `sublist_of` rr_replay_buffer r.
Proof. unfold kept. case_match; [|done]. destruct (rr_replay_buffer r); [done|by apply sublist_cons]. Qed.

Lemma request_run_order es : forall r w r' w', request_run es (r, w) = (r', w') -> drained r ->
  drained r' /\ exists sent, accepted w' = accepted w ++ sent
    /\ sent ++ rr_replay_buffer r' `sublist_of` rr_replay_buffer r ++ messages_in es
    /\ (never_overflows es (r, w) = true ->
        sent ++ rr_replay_buffer r' = rr_replay_buffer r ++ messages_in es).
Proof.
  induction es as [|e es IH]; intros r w r' w'; cbn [request_run foldl never_overflows].
  - intros [= <- <-] Hd. split; [done|]. exists []. cbn. by rewrite !app_nil_r.
  - destruct (request_step (r, w) e) as [r1 w1] eqn:Hs. intros Hr Hd.
    assert (drained r1 /\ exists s1, accepted w1 = accepted w ++ s1
      /\ s1 ++ rr_replay_buffer r1 `sublist_of` rr_replay_buffer r ++ messages_in [e]
      /\ (overflows (r, w) e = false -> s1 ++ rr_replay_buffer r1 = rr_replay_buffer r ++ messages_in [e]))
      as (Hd1 & s1 & Ha1 & Hsub1 & Heq1).
    { destruct e as [now m|tx|]; cbn in Hs |- *.
      - destruct (deliver_moves _ _ _ _ _ _ Hs) as (s1 & ? & _ & _ & Hm).
        destruct (Hm Hfull Hd) as [Hd1 Hk]. split; [done|]. exists s1. rewrite Hk. split_and!; [done| |].
        + apply sublist_app; [apply kept_suffix|done].
        + unfold kept. by intros ->.
      - destruct (attach_moves _ _ _ _ _ Hs) as (s1 & ? & -> & _ & Hm). split; [auto|].
        exists s1. by rewrite app_nil_r.
      - injection Hs as <- <-. destruct (detach_moves r) as (Hb & _ & Ht).
        split; [by intros Hn; rewrite Ht in Hn|]. exists []. rewrite Hb. by rewrite !app_nil_r. }
    destruct (IH _ _ _ _ Hr Hd1) as (Hd' & sent & Ha & Hsub & Heq). split; [done|].
    exists (s1 ++ sent). rewrite Ha, Ha1, messages_in_cons, <- (app_assoc s1 sent), !(app_assoc (rr_replay_buffer r)).
    split_and!; [by rewrite app_assoc| |].
    + etrans; [apply sublist_app; [done|apply Hsub]|]. rewrite app_assoc. by apply sublist_app.
    + intros [Ho Hn]%andb_true_iff. apply negb_true_iff in Ho.
      by rewrite (Heq Hn), app_assoc, (Heq1 Ho).
Qed.
End in_order.
End router_order.

(** ** The host *)

Lemma relayed_chunks_app ms ms' : relayed_chunks (ms ++ ms') = relayed_chunks ms ++ relayed_chunks ms'.
Proof. unfold relayed_chunks. apply bind_app. Qed.

Lemma relayed_chunks_snoc ms m : relayed_chunks (ms ++ [m]) = relayed_chunks ms ++ message_chunks m.
Proof. rewrite relayed_chunks_app. cbn. by rewrite app_nil_r. Qed.

Definition not_done (c : StreamChunk) : Prop := chunk_is_done c = false.

(** Nothing follows a [Done]. *)
Definition done_ends (cs : list StreamChunk) : Prop :=
  exists init rest, cs = init ++ rest /\ Forall not_done init
    /\ (rest = [] \/ exists c, rest = [c] /\ chunk_is_done c = true).

Lemma existsb_not_done cs : Forall not_done cs -> existsb chunk_is_done cs = false.
Proof. induction 1 as [|c cs H _ IH]; cbn; [done|]. by rewrite H. Qed.

(** What a link guarantees of what is handed to it: nothing; that a message it
    reports as failed does not arrive, so that the others are at most lost; or
    that, besides, the others all arrive. *)
Inductive Guarantee := Anything | OnlyLosses | Everything.

Definition upto {A} (g : Guarantee) : relation (list A) :=
  match g with Anything => fun _ _ => True | OnlyLosses => sublist | Everything => eq end.

#[export] Instance upto_preorder {A} g : PreOrder (@upto A g).
Proof. destruct g; cbn; [by split|apply _|apply _]. Qed.

Lemma upto_app {A} g (l1 l2 k1 k2 : list A) : upto g l1 k1 -> upto g l2 k2 -> upto g (l1 ++ l2) (k1 ++ k2).
Proof. destruct g; cbn; [done|by apply sublist_app|by intros -> ->]. Qed.

Lemma sublist_chunks ms ms' : ms `sublist_of` ms' -> relayed_chunks ms `sublist_of` relayed_chunks ms'.
Proof.
  induction 1 as [|m ms ms' _ IH|m ms ms' _ IH]; cbn; [done| |].
  - by apply sublist_app.
  - by apply sublist_inserts_l.
Qed.

Definition chunks_of (l : list (string * StreamRelayMessage)) : list StreamChunk := relayed_chunks (map snd l).

Lemma upto_chunks g l l' : upto g l l' -> upto g (chunks_of l) (chunks_of l').
Proof.
  destruct g; cbn; [done| |by intros ->]. intros H. apply sublist_chunks.
  induction H; cbn; by constructor.
Qed.

Lemma chunks_of_app l l' : chunks_of (l ++ l') = chunks_of l ++ chunks_of l'.
Proof. unfold chunks_of. by rewrite map_app, relayed_chunks_app. Qed.

Record link_keeps `{N : Network} (g : Guarantee) : Prop := {
  lk_tell id m ack n n' : tell id m ack n = (None, n') -> upto g (handed n') (handed n ++ [(id, m)]);
  lk_failed id m ack n e n' : tell id m ack n = (Some e, n') -> upto g (handed n') (handed n);
  lk_sleep d n : upto g (handed (sleep d n)) (handed n);
}.

(** A message whose relaying failed does not arrive. *)
Definition failures_exact `{N : Network} : Prop :=
  forall id m ack n e n', tell id m ack n = (Some e, n') -> handed n' `sublist_of` handed n.

Section host_props.
Context `{N : Network} {NL : NetworkLaws N} {D : DurationText}.
Variable cfg : StreamConfig.

Lemma keeps_anything : link_keeps Anything.
Proof. by split. Qed.
Lemma keeps_losses : failures_exact -> link_keeps OnlyLosses.
Proof. intros He. split; intros *; [apply tell_handed|apply He|apply sleep_handed]. Qed.

Section invariant.
Context (g : Guarantee) (link : link_keeps g).

Abbreviation net_chunks h := (chunks_of (handed (hs_net h))).

Record relay_inv (up : list StreamChunk) (r : Relay) (h : HostState) : Prop := {
  ri_chunks : upto g (net_chunks h ++ relayed_chunks (rl_buffered r) ++ rl_pending_batch r) up;
  ri_pending : Forall not_done (rl_pending_batch r);
  ri_stopped : rl_upstream_done r = true -> rl_pending_batch r = [];
  ri_since t : rl_disconnected_since r = Some t -> t <= clock (hs_net h);
  ri_done : done_ends up;
  ri_open : rl_upstream_done r = false -> Forall not_done up;
}.

(** What remains once the task gave up. *)
Record relay_core (up : list StreamChunk) (r : Relay) (h : HostState) : Prop := {
  rc_chunks : upto g (net_chunks h ++ relayed_chunks (rl_buffered r) ++ rl_pending_batch r) up;
  rc_done : done_ends up;
}.

Lemma relay_inv_core up r h : relay_inv up r h -> relay_core up r h.
Proof. by intros []. Qed.

(** A [tell] of a message without chunks, whatever comes of it. *)
Lemma tell_notice id m ack n e n' : tell id m ack n = (e, n') -> message_chunks m = [] ->
  upto g (chunks_of (handed n')) (chunks_of (handed n)).
Proof.
  intros Ht Hm. destruct e as [e|]; [by eapply upto_chunks, lk_failed|].
  etrans; [by eapply upto_chunks, lk_tell|]. rewrite chunks_of_app. unfold chunks_of at 2. cbn.
  by rewrite Hm, !app_nil_r.
Qed.

(** Notices on the way, and time, change nothing. *)
Lemma relay_inv_net up r h h' : relay_inv up r h -> upto g (net_chunks h') (net_chunks h) ->
  clock (hs_net h) <= clock (hs_net h') -> relay_inv up r h'.
Proof.
  intros [Hc Hp Hst Hsi Hd Ho] Ht Hk. constructor; try done.
  - etrans; [|exact Hc]. by apply upto_app.
  - intros t Hr. specialize (Hsi t Hr). lia.
Qed.

Lemma relay_inv_sleep up r h d : 0 <= d -> relay_inv up r h -> relay_inv up r (hs_with_net (sleep d (hs_net h)) h).
Proof.
  intros Hd Hi. apply (relay_inv_net up r h); [done|by apply upto_chunks, lk_sleep|].
  pose proof (sleep_clock d (hs_net h)). cbn. lia.
Qed.

Lemma relay_inv_push up r h m : relay_inv up r h -> message_chunks m = [] -> relay_inv up (push_buffered m r) h.
Proof.
  intros [Hc Hp Hst Hsi Hd Ho] Hm. constructor; try done; cbn.
  by rewrite relayed_chunks_snoc, Hm, app_nil_r.
Qed.

Lemma flush_chunks r : relayed_chunks (rl_buffered (flush_batch r)) ++ rl_pending_batch (flush_batch r)
  = relayed_chunks (rl_buffered r) ++ rl_pending_batch r.
Proof.
  unfold flush_batch. destruct (rl_pending_batch r) as [|c [|c' cs]] eqn:Hp; cbn; [by rewrite Hp|..];
    rewrite relayed_chunks_snoc; cbn; by rewrite ?app_nil_r.
Qed.

Lemma flush_eqs r : rl_pending_batch (flush_batch r) = []
  /\ rl_upstream_done (flush_batch r) = rl_upstream_done r
  /\ rl_disconnected_since (flush_batch r) = rl_disconnected_since r
  /\ exists ms, rl_buffered (flush_batch r) = rl_buffered r ++ ms /\ (length ms <= 1)%nat
       /\ relayed_chunks ms = rl_pending_batch r.
Proof.
  unfold flush_batch. destruct (rl_pending_batch r) as [|c cs] eqn:Hp; cbn.
  - split_and!; try done. exists []. rewrite app_nil_r. repeat split; try done; cbn; lia.
  - split_and!; try done. eexists [_]. split_and!; [done|cbn; lia|by destruct cs; cbn; rewrite ?app_nil_r].
Qed.

(** Flushing, and stopping after it. *)
Lemma relay_inv_flush up r h (b : bool) : relay_inv up r h ->
  relay_inv up (flush_batch (if b then rl_set_upstream_done true r else r)) h.
Proof.
  intros [Hc Hp Hst Hsi Hd Ho]. set (r1 := if b then _ else _).
  assert (Hb : rl_buffered r1 = rl_buffered r /\ rl_pending_batch r1 = rl_pending_batch r
    /\ rl_disconnected_since r1 = rl_disconnected_since r) by (subst r1; by destruct b).
  destruct Hb as (Hb1 & Hb2 & Hb3). destruct (flush_eqs r1) as (E1 & E2 & E3 & _).
  constructor; try done.
  - by rewrite flush_chunks, Hb1, Hb2.
  - by rewrite E1.
  - by rewrite E3, Hb3.
  - rewrite E2. subst r1. by destruct b.
Qed.

Lemma relay_inv_same up r r' h h' : relay_inv up r h -> hs_net h' = hs_net h ->
  rl_buffered r' = rl_buffered r -> rl_pending_batch r' = rl_pending_batch r ->
  rl_upstream_done r' = rl_upstream_done r ->
  (rl_disconnected_since r' = rl_disconnected_since r \/ rl_disconnected_since r' = None) ->
  relay_inv up r' h'.
Proof.
  intros [Hc Hp Hst Hsi Hd Ho] Hn Hb Hpe Hu Hdi.
  constructor; rewrite ?Hn, ?Hb, ?Hpe, ?Hu; try done.
  intros t Ht. apply Hsi. destruct Hdi as [E|E]; congruence.
Qed.

Lemma select_cancelled_inv up r h r' h' : relay_inv up r h ->
  select_cancelled cfg (r, h) = (r', h') -> relay_inv up r' h'.
Proof.
  intros Hi [= <- <-]. apply relay_inv_push; [|done].
  apply (relay_inv_net _ _ h); [|done|done]. by apply (relay_inv_flush _ _ _ true).
Qed.

Lemma select_tick_inv up r h b r' h' : relay_inv up r h ->
  select_tick cfg (r, h) = (b, (r', h')) -> relay_inv up r' h' /\ (b = true -> r' = r /\ hs_net h' = hs_net h).
Proof.
  intros Hi. unfold select_tick. destruct (hs_streams h !! sc_key cfg) as [a|]; [case_match|];
    intros [= <- <- <-]; (split; [|done]).
  - by apply (relay_inv_net _ _ h).
  - apply relay_inv_push; [|done]. by apply (relay_inv_net _ _ h).
  - done.
Qed.

Lemma done_ends_snoc up c : Forall not_done up -> done_ends (up ++ [c]).
Proof.
  intros Hu. destruct (chunk_is_done c) eqn:Hc.
  - exists up, [c]. split_and!; [done|done|]. right. by exists c.
  - exists (up ++ [c]), []. rewrite app_nil_r. split_and!; [done| |by left].
    apply Forall_app_2; [done|]. by constructor.
Qed.

(** A chunk that was read. *)
Lemma select_chunk_inv up r h c r' h' : relay_inv up r h -> rl_upstream_done r = false ->
  select_next cfg (Some (Ok c)) (r, h) = (r', h') -> relay_inv (up ++ [c]) r' h'.
Proof.
  intros [Hc Hp Hst Hsi Hd Ho] Hu. unfold select_next.
  set (r1 := if chunk_is_done c then _ else _).
  set (r2 := rl_set_pending_batch (rl_pending_batch r1 ++ [c]) r1).
  set (flush := rl_upstream_done r2 || _). set (r3 := if flush then flush_batch r2 else r2).
  assert (H1 : rl_buffered r2 = rl_buffered r /\ rl_pending_batch r2 = rl_pending_batch r ++ [c]
    /\ rl_disconnected_since r2 = rl_disconnected_since r /\ rl_upstream_done r2 = chunk_is_done c)
    by (subst r2 r1; destruct (chunk_is_done c); by rewrite <- ?Hu).
  destruct H1 as (B1 & P1 & D1 & U1). destruct (flush_eqs r2) as (E1 & E2 & E3 & _).
  assert (Hflush : flush = chunk_is_done c || (MAX_BATCH_SIZE <=? length (rl_pending_batch r2))%nat)
    by (subst flush; by rewrite U1).
  assert (Hi : relay_inv (up ++ [c]) r3 h).
  { constructor.
    - assert (E : relayed_chunks (rl_buffered r3) ++ rl_pending_batch r3
        = (relayed_chunks (rl_buffered r) ++ rl_pending_batch r) ++ [c]).
      { rewrite <- app_assoc, <- P1, <- B1. subst r3. destruct flush; [by rewrite flush_chunks|done]. }
      rewrite E, app_assoc. by apply upto_app.
    - subst r3. destruct flush eqn:Hf; [by rewrite E1|]. symmetry in Hflush.
      apply orb_false_iff in Hflush as [Hd' _]. rewrite P1. apply Forall_app_2; [done|]. by constructor.
    - subst r3. destruct flush; [done|]. intros Hdn. rewrite <- U1, Hdn in Hflush. done.
    - intros t. subst r3. destruct flush; rewrite ?E3, D1; apply Hsi.
    - by apply done_ends_snoc, Ho.
    - intros Hn. apply Forall_app_2; [by apply Ho|]. constructor; [|done]. unfold not_done.
      rewrite <- U1, <- Hn. subst r3. destruct flush; congruence. }
  intros [= <- <-]. fold r3. destruct (chunk_is_done c); by apply (relay_inv_net _ _ h).
Qed.

Lemma select_rest_inv up r h next r' h' : relay_inv up r h ->
  (forall c, next <> Some (Ok c)) -> select_next cfg next (r, h) = (r', h') -> relay_inv up r' h'.
Proof.
  intros Hi Hn. destruct next as [[c|e]|]; [by edestruct Hn|..]; cbn.
  - intros [= <- <-]. apply relay_inv_push; [|done]. apply (relay_inv_net _ _ h); [|done|done].
    pose proof (relay_inv_flush _ _ _ false Hi) as [Hc Hp Hst Hsi Hd Ho].
    constructor; try done. intros _. apply (flush_eqs r).
  - destruct (rl_pending_batch r) as [|c cs] eqn:Hp; intros [= <- <-].
    + apply (relay_inv_net _ _ h); [|done|done]. destruct Hi as [Hc Hpe Hst Hsi Hd Ho]. by constructor.
    + by apply (relay_inv_flush _ _ _ false).
Qed.

(** The relaying loop. *)
Lemma relay_failed_inv up r h e o r' h' : relay_inv up r h ->
  relay_failed cfg e (r, h) = (o, (r', h')) -> relay_inv up r' h'.
Proof.
  intros Hi. unfold relay_failed. destruct (is_disconnected r).
  - intros [= <- <- <-]. by apply relay_inv_sleep.
  - destruct (tell _ _ _ _) as [x n] eqn:Ht. intros [= <- <- <-].
    pose proof (tell_notice _ _ _ _ _ _ Ht eq_refl) as Hm. pose proof (tell_clock _ _ _ _ _ _ Ht) as Hk.
    set (h1 := hs_update (sc_key cfg) _ (hs_with_net n h)). apply (relay_inv_sleep _ _ h1); [lia|].
    apply (relay_inv_net _ _ h); [|done|done].
    destruct Hi as [Hc Hp Hst Hsi Hd Ho]. constructor; try done. cbn. by intros t [= <-].
Qed.

Lemma relay_sent_inv up r h h0 m rest ack o r' h' : relay_inv up r h0 -> rl_buffered r = m :: rest ->
  upto g (net_chunks h) (net_chunks h0 ++ message_chunks m) -> clock (hs_net h0) <= clock (hs_net h) ->
  relay_sent cfg m ack (r, h) = (o, (r', h')) -> relay_inv up r' h' /\ rl_buffered r' = rest
    /\ hs_net h' = hs_net h /\ rl_upstream_done r' = rl_upstream_done r.
Proof.
  intros [Hc Hp Hst Hsi Hd Ho] Hb Ht Hk. unfold relay_sent.
  set (r1 := if is_chunk_message m && negb ack then _ else _). set (r2 := rl_set_buffered _ r1). intros [= <- <- <-].
  assert (H1 : rl_buffered r2 = rest /\ rl_pending_batch r2 = rl_pending_batch r
    /\ rl_disconnected_since r2 = rl_disconnected_since r /\ rl_upstream_done r2 = rl_upstream_done r)
    by (subst r2 r1; destruct (_ && _); cbn; by rewrite Hb).
  clearbody r2. destruct H1 as (B1 & P1 & D1 & U1).
  assert (Hn : forall b f, hs_net (if b : bool then hs_update (sc_key cfg) f h else h) = hs_net h)
    by by intros [].
  split_and!; [|done|apply Hn|done].
  constructor; rewrite ?Hn; cbn; rewrite ?B1, ?P1, ?U1; try done.
  - etrans; [|exact Hc]. rewrite Hb. change (m :: rest) with ([m] ++ rest).
    rewrite (relayed_chunks_app [m] rest), <- (app_assoc _ (relayed_chunks rest)),
      (app_assoc (net_chunks h0)).
    apply upto_app; [|done]. etrans; [exact Ht|]. cbn. by rewrite app_nil_r.
  - intros t. rewrite D1. intros Htt. specialize (Hsi t Htt). lia.
Qed.

Lemma relay_failed_again e s o s' : relay_failed cfg e s = (o, s') -> o = RelayAgain.
Proof.
  destruct s as [r h]. unfold relay_failed. destruct (is_disconnected r); [by intros [= <- <-]|].
  destruct (tell _ _ _ _). by intros [= <- <-].
Qed.

Lemma relay_sent_next m ack s o s' : relay_sent cfg m ack s = (o, s') ->
  o = (if keep_stream_message_buffered m && relay_message_is_terminal m then RelayStop else RelayAgain)
  /\ o <> RelayDone.
Proof. destruct s as [r h]. unfold relay_sent. intros [= <- <-]. split; [done|by case_match]. Qed.

Lemma relay_front_inv up r h o r' h' : relay_inv up r h ->
  relay_front cfg (r, h) = (o, (r', h')) -> relay_inv up r' h' /\ (o = RelayDone -> rl_buffered r' = []).
Proof.
  intros Hi. unfold relay_front. destruct (rl_buffered r) as [|m rest] eqn:Hb; [by intros [= <- <- <-]|].
  destruct (tell _ _ _ _) as [[e|] n] eqn:Ht; pose proof (tell_clock _ _ _ _ _ _ Ht) as Hk; intros Hr.
  - assert (Hn : relay_inv up r (hs_with_net n h))
      by (apply (relay_inv_net _ _ h); [done|by eapply upto_chunks, lk_failed|done]).
    split; [by eapply relay_failed_inv|]. intros ->. by apply relay_failed_again in Hr.
  - edestruct (relay_sent_inv up r (hs_with_net n h) h m rest) as (? & _); [done|done| |done|done|].
    + cbn. etrans; [by eapply upto_chunks, lk_tell|]. rewrite chunks_of_app. unfold chunks_of at 2. cbn.
      by rewrite app_nil_r.
    + split; [done|]. intros ->. by destruct (relay_sent_next _ _ _ _ _ Hr).
Qed.

Lemma reconnect_failed_inv up r h since o r' h' : relay_inv up r h ->
  reconnect_failed cfg since (r, h) = (o, (r', h')) ->
  (o = RelayAgain /\ relay_inv up r' h') \/ (o = RelayStop /\ relay_core up r' h').
Proof.
  intros Hi. unfold reconnect_failed. set (h1 := hs_update _ _ h).
  assert (Hi1 : relay_inv up r h1) by by apply (relay_inv_net _ _ h).
  destruct (_ <=? _); intros [= <- <- <-].
  - right. split; [done|]. set (m := SrTransportFailed _).
    apply (relay_inv_push _ _ _ m) in Hi1; [|done].
    apply (relay_inv_sleep _ _ _ 250) in Hi1; [|lia]. by destruct Hi1 as [Hc _ _ _ Hd _].
  - apply (relay_inv_sleep _ _ _ 250) in Hi1; [|lia].
    destruct (rl_upstream_done r); [right|left]; (split; [done|]); [by apply relay_inv_core|done].
Qed.

Lemma relay_iteration_inv up r h o r' h' : relay_inv up r h ->
  relay_iteration cfg (r, h) = (o, (r', h')) ->
  relay_core up r' h' /\ (o <> RelayStop -> relay_inv up r' h') /\ (o = RelayDone -> rl_buffered r' = []).
Proof.
  intros Hi. unfold relay_iteration. destruct (rl_disconnected_since r) as [since|] eqn:Hds.
  - destruct (tell _ _ _ _) as [[e|] n] eqn:Ht; intros Hr;
      (assert (Hn : relay_inv up r (hs_with_net n h));
       [apply (relay_inv_net _ _ h); [done|by eapply tell_notice|by eapply tell_clock]|]).
    + destruct (reconnect_failed_inv _ _ _ _ _ _ _ Hn Hr) as [[-> Hi']|[-> Hi']];
        split_and!; try done; by apply relay_inv_core.
    + eapply relay_front_inv in Hr as [Hi' ?]; [split_and!; try done; by apply relay_inv_core|].
      eapply relay_inv_same; [exact Hn|..]; try done. by right.
  - intros Hr. eapply relay_front_inv in Hr as [Hi' ?]; [|done]. split_and!; try done. by apply relay_inv_core.
Qed.

Record system_inv (up : list StreamChunk) (s : HostSystem) : Prop := {
  si_core : relay_core up (sy_relay s) (sy_host s);
  si_running : sy_place s <> AtEnd -> relay_inv up (sy_relay s) (sy_host s);
  si_select : sy_place s = AtSelect -> rl_buffered (sy_relay s) = [] /\ rl_upstream_done (sy_relay s) = false;
}.

Lemma system_inv_at up p s : relay_inv up s.1 s.2 -> p = AtRelay -> system_inv up (sy_at p s).
Proof. intros Hi ->. constructor; cbn; [by apply relay_inv_core|done|done]. Qed.

Lemma host_step_inv up e s s' : system_inv up s -> host_step cfg e s = Some s' ->
  system_inv (up ++ upstream_chunks [e]) s'.
Proof.
  intros [Hcore Hrun Hsel]. destruct s as [p r h]. cbn [sy_place sy_relay sy_host] in *.
  assert (Hstreams : forall m, system_inv up {| sy_place := p; sy_relay := r; sy_host := hs_with_streams m h |}).
  { intros m. constructor; cbn; [by destruct Hcore| |done].
    intros Hp. by apply (relay_inv_net _ _ h); [apply Hrun|..]. }
  assert (Hwait : forall d, system_inv up {| sy_place := p; sy_relay := r;
    sy_host := hs_with_net (sleep (Z.max 0 d) (hs_net h)) h |}).
  { intros d. constructor; cbn; [|intros Hp; apply relay_inv_sleep; [lia|by apply Hrun]|done].
    destruct Hcore as [Hc Hd]. split; [|done]. etrans; [|exact Hc].
    apply upto_app; [|done]. by apply upto_chunks, lk_sleep. }
  destruct e as [| |next| |d|sid rid reason|sid rid ttl], p;
    cbn -[select_tick select_cancelled select_next relay_iteration]; try done;
    rewrite ?app_nil_r; intros Hs; try (injection Hs as <-; apply Hstreams || apply Hwait);
    specialize (Hrun ltac:(done)).
  - destruct (_ && _); [|done]. injection Hs as <-. apply system_inv_at; [|done].
    by eapply select_cancelled_inv.
  - destruct (select_tick cfg (r, h)) as [b [r' h']] eqn:Ht. injection Hs as <-.
    destruct (select_tick_inv _ _ _ _ _ _ Hrun Ht) as [Hi Hb]. destruct b; [|by apply system_inv_at].
    destruct (Hb eq_refl) as [-> _]. constructor; cbn; [by apply relay_inv_core|done|].
    intros _. by apply Hsel.
  - destruct (rl_upstream_done r) eqn:Hu; [done|]. injection Hs as <-.
    apply system_inv_at; [|done].
    pose proof (surjective_pairing (select_next cfg next (r, h))) as Hn.
    destruct next as [[c|err]|]; cbn -[select_next]; rewrite ?app_nil_r;
      [by apply (select_chunk_inv _ _ _ _ _ _ Hrun Hu Hn)|..];
      (apply (select_rest_inv _ _ _ _ _ _ Hrun) in Hn; [done|by intros ? [=]]).
  - destruct (relay_iteration cfg (r, h)) as [o [r' h']] eqn:Hr.
    destruct (relay_iteration_inv _ _ _ _ _ _ Hrun Hr) as (Hc & Hi & Hb).
    assert (Hend : system_inv up (finish_task cfg (r', h')))
      by (constructor; cbn; [by destruct Hc|done|done]).
    destruct o; cbn in Hs; injection Hs as <-; [apply system_inv_at; [by apply Hi|done]| |done].
    unfold after_relaying. cbn. rewrite (Hb eq_refl).
    destruct (rl_upstream_done r') eqn:Hu.
    + by rewrite (ri_stopped _ _ _ (Hi ltac:(done)) Hu).
    + constructor; cbn; [done|intros _; by apply Hi|]. intros _. split; [by apply Hb|done].
Qed.

Lemma upstream_chunks_cons e es : upstream_chunks (e :: es) = upstream_chunks [e] ++ upstream_chunks es.
Proof. unfold upstream_chunks. rewrite !omap_cons. by destruct (match e with HeNext _ => _ | _ => _ end). Qed.

Lemma host_run_inv es : forall up s s', system_inv up s -> host_run cfg es s = Some s' ->
  system_inv (up ++ upstream_chunks es) s'.
Proof.
  induction es as [|e es IH]; intros up s s' Hi.
  - cbn. intros [= <-]. by rewrite app_nil_r.
  - cbn [host_run]. intros (s1 & H1 & H2)%bind_Some.
    rewrite upstream_chunks_cons, app_assoc. eapply IH; [by eapply host_step_inv|done].
Qed.

Lemma host_run_app es es' s : host_run cfg (es ++ es') s = s' ← host_run cfg es s; host_run cfg es' s'.
Proof. revert s. induction es as [|e es IH]; intros s; cbn; [done|]. by destruct (host_step cfg e s); cbn. Qed.

Lemma start_inv parse h : handed (hs_net h) = [] -> system_inv [] (handle_stream_request parse cfg (Ok tt) h).
Proof.
  intros Ht. assert (Hi : relay_inv [] (relay_start (clock (hs_net h)))
    (sy_host (handle_stream_request parse cfg (Ok tt) h))).
  { constructor; cbn; rewrite ?Ht; try done. exists [], []. by split_and!; [..|left]. }
  constructor; cbn; [by apply relay_inv_core|done|done].
Qed.
End invariant.

(** *** The end of the relaying loop *)

Definition net_step (n n' : NetState) : Prop :=
  (exists id m ack, n' = (tell id m ack n).2) \/ (exists d, n' = sleep d n).

(** From [n] on no send reports an error; and every send that waits for an
    acknowledgement does.  One that does not wait may be taken for sent. *)
Definition up_from (n : NetState) : Prop :=
  forall n' id m ack, rtc net_step n n' -> (tell id m ack n').1 = None.
Definition down_from (n : NetState) : Prop :=
  forall n' id m, rtc net_step n n' -> (tell id m true n').1 <> None.

Lemma net_step_tell id m ack n r n' : tell id m ack n = (r, n') -> rtc net_step n n'.
Proof. intros Ht. apply rtc_once. left. exists id, m, ack. by rewrite Ht. Qed.
Lemma net_step_sleep d n : rtc net_step n (sleep d n).
Proof. apply rtc_once. right. by exists d. Qed.

Lemma up_from_step n n' : up_from n -> rtc net_step n n' -> up_from n'.
Proof. intros Hu Hs n1 id m ack Hr. apply Hu. by etrans. Qed.
Lemma down_from_step n n' : down_from n -> rtc net_step n n' -> down_from n'.
Proof. intros Hu Hs n1 id m Hr. apply Hu. by etrans. Qed.

Lemma host_run_relay n s : host_run cfg (replicate (S n) HeRelay) s
  = s' ← host_step cfg HeRelay s; host_run cfg (replicate n HeRelay) s'.
Proof. done. Qed.

Lemma step_relay r h : host_step cfg HeRelay (sy_at AtRelay (r, h)) = Some
  (match relay_iteration cfg (r, h) with
   | (RelayAgain, rh) => sy_at AtRelay rh
   | (RelayDone, rh) => after_relaying cfg rh
   | (RelayStop, rh) => finish_task cfg rh
   end).
Proof. unfold host_step. cbn -[relay_iteration]. by destruct (relay_iteration cfg (r, h)) as [[] rh]. Qed.

(** An iteration on a link that is down, after a disconnection. *)
Lemma down_iteration r h since : down_from (hs_net h) -> rl_disconnected_since r = Some since ->
  exists o r' h', relay_iteration cfg (r, h) = (o, (r', h')) /\ rtc net_step (hs_net h) (hs_net h')
    /\ (o = RelayStop \/ (o = RelayAgain /\ rl_disconnected_since r' = Some since
          /\ clock (hs_net h) + 250 <= clock (hs_net h')
          /\ clock (hs_net h) - since < reconnect_grace cfg)).
Proof.
  intros Hd Hs. unfold relay_iteration. rewrite Hs.
  set (m := SrTransportReconnected _).
  destruct (tell (sc_request_id cfg) m true (hs_net h)) as [e n] eqn:Ht.
  pose proof (Hd _ (sc_request_id cfg) m (rtc_refl _ _)) as He. rewrite Ht in He.
  destruct e as [e|]; [|done]. pose proof (tell_clock _ _ _ _ _ _ Ht) as Hk. pose proof (sleep_clock 250 n) as Hk'.
  assert (Hn : rtc net_step (hs_net h) (sleep 250 n)) by (etrans; [by eapply net_step_tell|apply net_step_sleep]).
  unfold reconnect_failed. cbn.
  destruct (reconnect_grace cfg <=? duration_since (clock n) since) eqn:Hg.
  - eexists _, _, _. split; [done|]. split; [done|]. by left.
  - apply Z.leb_gt in Hg. unfold duration_since in Hg.
    eexists _, _, _. split; [done|]. split; [done|].
    destruct (rl_upstream_done r); [by left|right]. split_and!; [done|done|cbn; lia|lia].
Qed.

Lemma down_ends j : forall r h since, down_from (hs_net h) -> rl_disconnected_since r = Some since ->
  reconnect_grace cfg - (clock (hs_net h) - since) <= 250 * Z.of_nat j ->
  exists k s', (k <= S j)%nat /\ host_run cfg (replicate k HeRelay) (sy_at AtRelay (r, h)) = Some s'
    /\ sy_place s' = AtEnd.
Proof.
  induction j as [|j IH]; intros r h since Hd Hs Hg;
    destruct (down_iteration r h since Hd Hs) as (o & r' & h' & Hi & Hn & [->|(-> & Hs' & Hk & Hl)]).
  1, 3: exists 1%nat; eexists; split; [lia|]; rewrite host_run_relay, step_relay, Hi; by split.
  - lia.
  - destruct (IH r' h' since) as (k & s' & Hle & Hr & Hp); [by eapply down_from_step|done|lia|].
    exists (S k), s'. split; [lia|]. rewrite host_run_relay, step_relay, Hi. by split.
Qed.

Definition grace_iterations : nat := Z.to_nat (4 * Z.max (sc_reconnect_grace_secs cfg) 1).

Lemma grace_in_sleeps : reconnect_grace cfg = 250 * Z.of_nat grace_iterations.
Proof. unfold grace_iterations, reconnect_grace. lia. Qed.

(** The next message of the buffer is sent with an acknowledgement. *)
Definition front_acked (r : Relay) (h : HostState) : bool :=
  match rl_buffered r with
  | [] => false
  | m :: _ => should_ack_relay_message m (rl_unacked_batches r)
      (duration_since (clock (hs_net h)) (rl_last_ack_at r)) ACK_WINDOW_BATCHES ACK_WINDOW_INTERVAL
  end.

Lemma acked_not_terminal m u t w i : should_ack_relay_message m u t w i = false -> relay_message_is_terminal m = false.
Proof. unfold should_ack_relay_message. by destruct (relay_message_is_terminal m). Qed.

(** The first iteration that fails, or that takes a message for sent. *)
Lemma first_down r h m rest : down_from (hs_net h) -> rl_disconnected_since r = None -> rl_buffered r = m :: rest ->
  exists r' h', relay_iteration cfg (r, h) = (RelayAgain, (r', h')) /\ down_from (hs_net h')
    /\ ((exists t, rl_disconnected_since r' = Some t /\ t <= clock (hs_net h'))
        \/ (rl_disconnected_since r' = None /\ rl_buffered r' = rest /\ front_acked r h = false
             /\ relay_message_is_terminal m = false)).
Proof.
  intros Hd Hs Hb. unfold front_acked. rewrite Hb. unfold relay_iteration. rewrite Hs. unfold relay_front.
  rewrite Hb. set (ack := should_ack_relay_message _ _ _ _ _).
  destruct (tell (sc_request_id cfg) m ack (hs_net h)) as [[e|] n] eqn:Ht;
    pose proof (down_from_step _ _ Hd (net_step_tell _ _ _ _ _ _ Ht)) as Hdn.
  - unfold relay_failed. assert (Hnd : is_disconnected r = false) by (unfold is_disconnected; by rewrite Hs).
    rewrite Hnd. cbn. destruct (tell _ (SrTransportDisconnected e) false n) as [e2 n2] eqn:Ht2.
    pose proof (tell_clock _ _ _ _ _ _ Ht2). pose proof (sleep_clock 250 n2).
    eexists _, _. split; [done|]. cbn. split; [|left; eexists; split; [done|lia]].
    eapply down_from_step; [done|]. etrans; [by eapply net_step_tell|apply net_step_sleep].
  - assert (Ha : ack = false).
    { destruct ack; [|done]. pose proof (Hd _ (sc_request_id cfg) m (rtc_refl _ _)) as He. by rewrite Ht in He. }
    pose proof (acked_not_terminal _ _ _ _ _ Ha) as Hm. unfold relay_sent. rewrite Hm, andb_false_r.
    assert (Hnet : forall b f, hs_net (if b : bool then hs_update (sc_key cfg) f (hs_with_net n h) else hs_with_net n h) = n)
      by by intros [].
    eexists _, _. split; [done|]. rewrite Hnet. split; [done|]. right.
    split_and!; [by destruct (_ && _)|by destruct (_ && _); cbn; rewrite Hb|done|done].
Qed.

(** The place where a dead link leaves the task. *)
Definition dead_end (r : Relay) (h : HostState) (s' : HostSystem) : Prop :=
  sy_place s' = AtEnd
  \/ (sy_place s' = AtSelect /\ rl_buffered (sy_relay s') = []
      /\ rl_disconnected_since r = None /\ front_acked r h = false
      /\ Forall (fun m => relay_message_is_terminal m = false) (rl_buffered r)).

Lemma dead_link buf : forall r h, down_from (hs_net h) -> rl_buffered r = buf ->
  (forall t, rl_disconnected_since r = Some t -> t <= clock (hs_net h)) ->
  exists k s', (k <= length buf + grace_iterations + 1)%nat
    /\ host_run cfg (replicate k HeRelay) (sy_at AtRelay (r, h)) = Some s' /\ dead_end r h s'.
Proof.
  pose proof grace_in_sleeps as Hg. induction buf as [|m rest IH]; intros r h Hd Hb Hpast;
    (destruct (rl_disconnected_since r) as [since|] eqn:Hs;
      [specialize (Hpast _ eq_refl);
       destruct (down_ends grace_iterations r h since Hd Hs) as (k & s' & ? & ? & ?); [lia|];
       exists k, s'; split_and!; [lia|done|by left]|]).
  - exists 1%nat. eexists. split; [lia|]. rewrite host_run_relay, step_relay. unfold relay_iteration, relay_front.
    rewrite Hs, Hb. split; [done|]. unfold after_relaying. cbn. rewrite Hb.
    assert (Hsel : dead_end r h (sy_at AtSelect (r, h))).
    { right. cbn. unfold front_acked. rewrite Hb. by split_and!. }
    destruct (rl_upstream_done r); [|exact Hsel]. destruct (rl_pending_batch r); [by left|exact Hsel].
  - destruct (first_down r h m rest Hd Hs Hb) as (r' & h' & Hi & Hd' & [(t & Ht & Hle)|(Hs' & Hb' & Ha & Hm)]).
    + destruct (down_ends grace_iterations r' h' t Hd' Ht) as (k & s' & Hk & Hr & Hp); [lia|].
      exists (S k), s'. split; [cbn; lia|]. split; [|by left]. by rewrite host_run_relay, step_relay, Hi.
    + destruct (IH r' h' Hd' Hb') as (k & s' & Hk & Hr & He); [by rewrite Hs'|].
      exists (S k), s'. split; [cbn; lia|]. split; [by rewrite host_run_relay, step_relay, Hi|].
      destruct He as [He|(H1 & H2 & _ & _ & H3)]; [by left|right].
      split_and!; [done|done|done|done|]. rewrite Hb. rewrite Hb' in H3. by constructor.
Qed.

(** An iteration on a link that is up relays the front; a terminal message arrives. *)
Lemma up_front r h m rest : up_from (hs_net h) -> rl_buffered r = m :: rest ->
  exists r' h', relay_front cfg (r, h)
      = ((if keep_stream_message_buffered m && relay_message_is_terminal m then RelayStop else RelayAgain), (r', h'))
    /\ rl_buffered r' = rest /\ rl_pending_batch r' = rl_pending_batch r /\ up_from (hs_net h')
    /\ (relay_message_is_terminal m = true ->
        last (told (hs_net h')) = Some (sc_request_id cfg, m) /\ in_flight (hs_net h') = []).
Proof.
  intros Hu Hb. unfold relay_front. rewrite Hb. set (ack := should_ack_relay_message _ _ _ _ _).
  destruct (tell (sc_request_id cfg) m ack (hs_net h)) as [e n] eqn:Ht.
  pose proof (Hu _ (sc_request_id cfg) m ack (rtc_refl _ _)) as He. rewrite Ht in He. cbn in He. subst e.
  unfold relay_sent. eexists _, _. split; [done|].
  assert (Hnet : forall b f, hs_net (if b : bool then hs_update (sc_key cfg) f (hs_with_net n h) else hs_with_net n h) = n)
    by by intros [].
  rewrite Hnet. cbn. split_and!.
  - destruct (_ && _); cbn; by rewrite Hb.
  - by destruct (_ && _).
  - by eapply up_from_step, net_step_tell.
  - intros Hm. assert (Ha : ack = true) by (subst ack; unfold should_ack_relay_message; by rewrite Hm).
    rewrite Ha in Ht. by eapply tell_acked.
Qed.

Lemma up_iteration r h m rest : up_from (hs_net h) -> rl_buffered r = m :: rest ->
  exists r' h', relay_iteration cfg (r, h)
      = ((if keep_stream_message_buffered m && relay_message_is_terminal m then RelayStop else RelayAgain), (r', h'))
    /\ rl_buffered r' = rest /\ rl_pending_batch r' = rl_pending_batch r /\ up_from (hs_net h')
    /\ (relay_message_is_terminal m = true ->
        last (told (hs_net h')) = Some (sc_request_id cfg, m) /\ in_flight (hs_net h') = []).
Proof.
  intros Hu Hb. unfold relay_iteration. destruct (rl_disconnected_since r) as [since|] eqn:Hs; [|by apply up_front].
  set (n0 := length _). destruct (tell (sc_request_id cfg) (SrTransportReconnected n0) true (hs_net h)) as [e n] eqn:Ht.
  pose proof (Hu _ (sc_request_id cfg) (SrTransportReconnected n0) true (rtc_refl _ _)) as He.
  rewrite Ht in He. cbn in He. subst e. destruct (up_front (rl_set_last_ack_at (clock n)
    (rl_set_unacked_batches 0 (rl_set_disconnected_since None r))) (hs_update (sc_key cfg) (fun a =>
      ap_set_receiver_connected true (ap_set_phase (if ap_chunk_count a =? 0 then PsWaitingFirstChunk else PsStreaming) a))
      (hs_with_net n h)) m rest) as (r' & h' & Hr); [by eapply up_from_step, net_step_tell|done|].
  by exists r', h'.
Qed.

(** *** A cancelled stream *)

Definition keeps_cancelled (f : ActiveProviderStream -> ActiveProviderStream) : Prop :=
  forall a, ap_cancelled a = true -> ap_cancelled (f a) = true.

Lemma cancelled_update key f h : keeps_cancelled f -> stream_cancelled cfg h = true ->
  stream_cancelled cfg (hs_update key f h) = true.
Proof.
  intros Hf. unfold stream_cancelled, hs_update, update_active_stream. cbn.
  destruct (decide (key = sc_key cfg)) as [->|Hne]; [|by rewrite lookup_alter_ne].
  rewrite lookup_alter_eq. destruct (hs_streams h !! sc_key cfg) as [a|]; cbn; [apply Hf|done].
Qed.

Lemma cancelled_net n h : stream_cancelled cfg (hs_with_net n h) = stream_cancelled cfg h.
Proof. done. Qed.

Ltac keep_cancelled := repeat first
  [ assumption | rewrite cancelled_net | apply cancelled_update; [by intros ? ?|] | case_match ].

Lemma cancelled_failed e s o s' : stream_cancelled cfg s.2 = true -> relay_failed cfg e s = (o, s') ->
  stream_cancelled cfg s'.2 = true.
Proof.
  destruct s as [r h]. cbn. intros Hc. unfold relay_failed.
  destruct (is_disconnected r); [|destruct (tell _ _ _ _)]; intros [= <- <-]; cbn [snd]; keep_cancelled.
Qed.

Lemma cancelled_front r h o s' : stream_cancelled cfg h = true -> relay_front cfg (r, h) = (o, s') ->
  stream_cancelled cfg s'.2 = true.
Proof.
  intros Hc. unfold relay_front. destruct (rl_buffered r) as [|m rest]; [by intros [= <- <-]|].
  destruct (tell _ _ _ _) as [[e|] n].
  - by apply cancelled_failed.
  - unfold relay_sent. intros [= <- <-]. cbn [snd]. keep_cancelled.
Qed.

Lemma cancelled_iteration r h o s' : stream_cancelled cfg h = true -> relay_iteration cfg (r, h) = (o, s') ->
  stream_cancelled cfg s'.2 = true.
Proof.
  intros Hc. unfold relay_iteration. destruct (rl_disconnected_since r) as [since|]; [|by apply cancelled_front].
  destruct (tell _ _ _ _) as [[e|] n].
  - unfold reconnect_failed. destruct (_ <=? _); intros [= <- <-]; cbn [snd]; keep_cancelled.
  - apply cancelled_front. keep_cancelled.
Qed.

Lemma cancelled_tick r h b s' : stream_cancelled cfg h = true -> select_tick cfg (r, h) = (b, s') ->
  stream_cancelled cfg s'.2 = true.
Proof.
  intros Hc. unfold select_tick. destruct (hs_streams h !! sc_key cfg) as [a|]; [case_match|];
    intros [= <- <-]; cbn [snd]; keep_cancelled.
Qed.

Lemma cancelled_next next r h : stream_cancelled cfg h = true ->
  stream_cancelled cfg (select_next cfg next (r, h)).2 = true.
Proof. intros Hc. unfold select_next. destruct next as [[c|e]|]; cbn [snd]; keep_cancelled. Qed.

Lemma cancelled_streams sid rid reason h : stream_cancelled cfg h = true ->
  stream_cancelled cfg (hs_with_streams (cancel_streams sid rid reason (hs_streams h)).2 h) = true.
Proof.
  unfold cancel_streams. cbn [snd]. generalize (List.filter (selected_stream sid rid) (map fst (map_to_list (hs_streams h)))).
  intros keys. generalize (default "cancel requested" reason). intros why.
  intros Hc. assert (Hc' : stream_cancelled cfg (hs_with_streams (hs_streams h) h) = true) by exact Hc.
  revert Hc'. clear Hc. generalize (hs_streams h). induction keys as [|key keys IH]; intros streams Hc; [done|].
  apply IH. exact (cancelled_update key (cancel_stream why) (hs_with_streams streams h) ltac:(by intros ? ?) Hc).
Qed.

Lemma cancelled_renewed now sid rid ttl h : stream_cancelled cfg h = true ->
  stream_cancelled cfg (hs_with_streams (renew_stream_lease now sid rid ttl (hs_streams h)).2 h) = true.
Proof.
  unfold renew_stream_lease. destruct (hs_streams h !! (sid, rid)) as [a|] eqn:Ha; [|done].
  unfold stream_cancelled. cbn. destruct (decide ((sid, rid) = sc_key cfg)) as [<-|Hne].
  - rewrite lookup_insert_eq, Ha. done.
  - by rewrite lookup_insert_ne.
Qed.

(** Until the task ends a cancellation is not taken back. *)
Lemma host_step_cancelled e s s' : stream_cancelled cfg (sy_host s) = true -> host_step cfg e s = Some s' ->
  sy_place s' <> AtEnd -> stream_cancelled cfg (sy_host s') = true.
Proof.
  destruct s as [p r h]. cbn [sy_host]. intros Hc.
  destruct e as [| |next| |d|sid rid reason|sid rid ttl], p; unfold host_step;
    cbn [sy_place sy_relay sy_host]; try done; intros Hs Hp;
    try (injection Hs as <-; cbn [sy_host];
      first [by apply cancelled_streams|by apply cancelled_renewed|by rewrite cancelled_net]).
  - destruct (_ && _); [|done]. injection Hs as <-. cbn [sy_at sy_host select_cancelled snd]. keep_cancelled.
  - destruct (select_tick cfg (r, h)) as [b rh] eqn:Ht. injection Hs as <-. by eapply cancelled_tick.
  - destruct (rl_upstream_done r); [done|]. injection Hs as <-. by apply cancelled_next.
  - destruct (relay_iteration cfg (r, h)) as [o rh] eqn:Hi. apply cancelled_iteration in Hi; [|done].
    destruct o; injection Hs as <-; [done| |done]. revert Hp. unfold after_relaying. by repeat case_match.
Qed.

Lemma host_step_ended e s s' : host_step cfg e s = Some s' -> sy_place s = AtEnd -> sy_place s' = AtEnd.
Proof. destruct s as [p r h]. cbn. intros Hs ->. by destruct e; cbn in Hs; simplify_eq. Qed.

Lemma host_run_ended es : forall s s', host_run cfg es s = Some s' -> sy_place s = AtEnd -> sy_place s' = AtEnd.
Proof.
  induction es as [|e es IH]; intros s s'; cbn [host_run]; [by intros [= <-]|].
  intros (s1 & H1 & H2)%bind_Some Hp. by eapply IH, host_step_ended.
Qed.

Lemma host_run_cancelled es : forall s s', stream_cancelled cfg (sy_host s) = true ->
  host_run cfg es s = Some s' -> sy_place s' <> AtEnd -> stream_cancelled cfg (sy_host s') = true.
Proof.
  induction es as [|e es IH]; intros s s' Hc; cbn [host_run]; [by intros [= <-]|].
  intros (s1 & H1 & H2)%bind_Some Hp. eapply IH; [|done..]. eapply host_step_cancelled; [done..|].
  intros He. by apply Hp, (host_run_ended es s1).
Qed.

(** The tick that finds the lease expired. *)
Lemma lease_tick s s1 a : sy_place s = AtSelect -> hs_streams (sy_host s) !! sc_key cfg = Some a ->
  ap_lease_expires_at a <= clock (hs_net (sy_host s)) -> host_step cfg HeTick s = Some s1 ->
  stream_cancelled cfg (sy_host s1) = true.
Proof.
  destruct s as [p r h]. cbn [sy_place sy_host]. intros -> Ha Hl. unfold host_step. cbn [sy_place sy_relay sy_host].
  unfold select_tick. rewrite Ha, (proj2 (Z.leb_le _ _)) by done. intros [= <-].
  unfold stream_cancelled, hs_update, update_active_stream. cbn. by rewrite lookup_alter_eq, Ha.
Qed.

(** After the cancellation: the pending chunks and the notice are relayed. *)
Definition ended_by (m : StreamRelayMessage) (s' : HostSystem) : Prop :=
  sy_place s' = AtEnd /\ hs_streams (sy_host s') !! sc_key cfg = None
  /\ last (map snd (told (hs_net (sy_host s')))) = Some m
  /\ in_flight (hs_net (sy_host s')) = []
  /\ rl_buffered (sy_relay s') = [] /\ rl_pending_batch (sy_relay s') = [].

Lemma last_relayed m r h : up_from (hs_net h) -> rl_buffered r = [m] -> rl_pending_batch r = [] ->
  relay_message_is_terminal m = true -> keep_stream_message_buffered m = true ->
  exists s', host_run cfg [HeRelay] (sy_at AtRelay (r, h)) = Some s' /\ ended_by m s'.
Proof.
  intros Hup Hb Hp Hm Hk. destruct (up_iteration r h m [] Hup Hb) as (r' & h' & Hit & Hb' & Hp' & _ & Ht).
  destruct (Ht Hm) as [Hl Hf]. eexists. change [HeRelay] with (replicate 1 HeRelay).
  rewrite host_run_relay, step_relay, Hit, Hk, Hm. split; [done|]. unfold ended_by. cbn.
  split_and!; [done|by apply lookup_delete_eq| |done|done|congruence].
  change (map snd (told (hs_net h'))) with (snd <$> told (hs_net h')). by rewrite fmap_last, Hl.
Qed.

Lemma ending_relays r h : up_from (hs_net h) -> rl_buffered r = [] -> Forall not_done (rl_pending_batch r) ->
  let r1 := push_buffered (SrTransportFailed cancelled_payload) (flush_batch (rl_set_upstream_done true r)) in
  exists k s', (k <= 2)%nat /\ host_run cfg (replicate k HeRelay) (sy_at AtRelay (r1, h)) = Some s'
    /\ ended_by (SrTransportFailed cancelled_payload) s'.
Proof.
  intros Hup Hb Hnd r1.
  destruct (flush_eqs (rl_set_upstream_done true r)) as (E1 & _ & _ & ms & E4 & E5 & E6).
  cbn in E4, E6. rewrite Hb in E4. cbn in E4.
  destruct ms as [|m [|m' ms]]; cbn in E5; [| |lia].
  - destruct (last_relayed (SrTransportFailed cancelled_payload) r1 h) as (s' & ? & ?);
      [done|cbn; by rewrite E4|done..|]. exists 1%nat, s'. split; [lia|done].
  - assert (Hm : relay_message_is_terminal m = false).
    { unfold flush_batch in E4. cbn in E4. destruct (rl_pending_batch r) as [|c cs]; cbn in E4; [by rewrite Hb in E4|].
      rewrite Hb in E4. injection E4 as <-.
      destruct cs; [by apply Forall_cons in Hnd as [? _]|exact (existsb_not_done _ Hnd)]. }
    destruct (up_iteration r1 h m [SrTransportFailed cancelled_payload] Hup) as (r2 & h2 & Hit & Hb2 & Hp2 & Hup2 & _);
      [cbn; by rewrite E4|]. rewrite Hm, andb_false_r in Hit.
    destruct (last_relayed (SrTransportFailed cancelled_payload) r2 h2) as (s' & Hs' & Hrest);
      [done|done|by rewrite Hp2|done|done|].
    exists 2%nat, s'. split; [lia|]. split; [|done].
    rewrite host_run_relay, step_relay, Hit. exact Hs'.
Qed.
End host_props.

(** ** The client *)

Lemma note_chunk_eqs c t s i f s' : note_chunk_received c t s = (i, f, s') ->
  ps_pending_chunks s' = ps_pending_chunks s
  /\ ps_terminal_seen s' = ps_terminal_seen s || chunk_is_done c
  /\ ps_disconnected_since s' = ps_disconnected_since s.
Proof.
  unfold note_chunk_received, record_first_chunk. cbn.
  destruct (ps_first_chunk_recorded s); by intros [= <- <- <-].
Qed.

Lemma take_pending_cases t s :
  match take_pending t s with
  | (Some (c, _, _), s') => ps_pending_chunks s = c :: ps_pending_chunks s'
      /\ ps_terminal_seen s' = ps_terminal_seen s || chunk_is_done c
      /\ ps_disconnected_since s' = ps_disconnected_since s
  | (None, s') => ps_pending_chunks s = [] /\ s' = s
  end.
Proof.
  unfold take_pending. destruct (ps_pending_chunks s) as [|c rest] eqn:Hp; [done|].
  destruct (note_chunk_received c t (ps_set_pending rest s)) as [[i f] s'] eqn:Hn.
  destruct (note_chunk_eqs _ _ _ _ _ _ Hn) as (-> & -> & ->). done.
Qed.

Definition next_chunks (next : option StreamRelayMessage) : list StreamChunk :=
  match next with Some m => message_chunks m | None => [] end.

(** What polling one message does. *)
Lemma poll_cases now t next alive s : ps_pending_chunks s = [] ->
  match poll_stream_message now t next alive s with
  | (Ok (Some c), s') => next_chunks next = c :: ps_pending_chunks s'
      /\ ps_terminal_seen s' = ps_terminal_seen s || chunk_is_done c
      /\ ps_disconnected_since s' = ps_disconnected_since s
  | (_, s') => next_chunks next = [] /\ ps_pending_chunks s' = [] /\ ps_terminal_seen s' = ps_terminal_seen s
  end.
Proof.
  intros Hp. destruct next as [[c|cs| | | | |]|]; cbn; try done.
  - destruct (note_chunk_received _ _ _) as [[i f] s'] eqn:Hn.
    destruct (note_chunk_eqs _ _ _ _ _ _ Hn) as (-> & -> & ->). by rewrite Hp.
  - unfold push_batch_and_take_first.
    set (fs := match cs with [] => (None, s) | _ => record_first_chunk _ s end).
    assert (Hfs : ps_pending_chunks fs.2 = [] /\ ps_terminal_seen fs.2 = ps_terminal_seen s
      /\ ps_disconnected_since fs.2 = ps_disconnected_since s).
    { subst fs. destruct cs; [done|]. unfold record_first_chunk. by destruct (ps_first_chunk_recorded s). }
    destruct fs as [f s1]. destruct Hfs as (H1 & H2 & H3). cbn in H1, H2, H3. rewrite H1. cbn.
    pose proof (take_pending_cases (duration_since now t) (ps_set_pending cs s1)) as Ht.
    destruct (take_pending _ _) as [[[[c i] g]|] s2]; cbn in Ht.
    + destruct Ht as (-> & -> & ->). by rewrite H2, H3.
    + destruct Ht as (-> & ->). cbn. by rewrite H2.
Qed.

Section client_props.
Context `{D : DurationText}.
Variables (grace every start : Z).

Abbreviation pending c := (ps_pending_chunks (cs_state c)).
Abbreviation seen c := (ps_terminal_seen (cs_state c)).

(** A call that took [used] of the turns and gave [os]. *)
Record took (c : ClientStream) (turns : list ClientTurn) (os : list ClientOutput) (c' : ClientStream)
    (rest : list ClientTurn) : Prop := {
  tk_turns : exists used, turns = used ++ rest
    /\ output_chunks os ++ pending c' = pending c ++ relayed_chunks (turn_messages used);
  tk_seen : seen c' = seen c || existsb chunk_is_done (output_chunks os);
}.

Lemma turn_messages_cons t ts : relayed_chunks (turn_messages (t :: ts)) =
  match ct_input t with CiItem next _ => next_chunks next | _ => [] end ++ relayed_chunks (turn_messages ts).
Proof.
  unfold turn_messages. rewrite omap_cons. by destruct (ct_input t) as [[m|] a| |].
Qed.

Lemma client_wait_took : forall turns c o c' rest, pending c = [] ->
  client_wait grace every start turns c = (o, c', rest) -> took c turns [o] c' rest /\ o <> CoEnd.
Proof.
  induction turns as [|t turns IH]; intros c o c' rest Hp; cbn [client_wait].
  - intros [= <- <- <-]. split; [|done]. constructor; cbn; [|by rewrite orb_false_r].
    exists []. split; [done|]. cbn. by rewrite app_nil_r.
  - set (c1 := if cs_renew_due c <=? ct_start t then _ else c).
    assert (H1 : pending c1 = [] /\ seen c1 = seen c) by (subst c1; by case_match).
    destruct H1 as [Hp1 Hs1]. clearbody c1.
    assert (Hstop : forall o rest', (forall ch, o <> CoChunk ch) ->
      (rest' = t :: turns \/ (rest' = turns /\ match ct_input t with CiItem next _ => next_chunks next = [] | _ => True end)) ->
      took c (t :: turns) [o] c1 rest').
    { intros o' rest' Ho Hr. assert (output_chunks [o'] = []) as Hoc by (destruct o'; [by edestruct Ho|done..]).
      constructor; rewrite Hoc; cbn; [|by rewrite orb_false_r, Hs1].
      rewrite Hp1, Hp. destruct Hr as [->|[-> Hn]]; [by exists []|]. exists [t]. split; [done|].
      rewrite turn_messages_cons. destruct (ct_input t); by rewrite ?Hn. }
    assert (Hgo : forall c2 o c' rest, pending c2 = [] -> seen c2 = seen c ->
      match ct_input t with CiItem next _ => next_chunks next = [] | _ => True end ->
      client_wait grace every start turns c2 = (o, c', rest) -> took c (t :: turns) [o] c' rest /\ o <> CoEnd).
    { intros c2 o' c2' rest' Hp2 Hs2 Hn Hw. destruct (IH _ _ _ _ Hp2 Hw) as [[(used & -> & Hu) Hse] Hne].
      split; [|done]. constructor; [|by rewrite Hse, Hs2]. exists (t :: used). split; [done|].
      rewrite turn_messages_cons, Hu, Hp, Hp2. by destruct (ct_input t); rewrite ?Hn. }
    assert (Hpoll : forall next alive, ct_input t = CiItem next alive ->
      match poll_stream_message (ct_at t) start next alive (cs_state c1) with
      | (Ok (Some chunk), s) => (CoChunk chunk, cs_with s c1, turns)
      | (Ok None, s) => client_wait grace every start turns (cs_with s c1)
      | (Err e, s) => (CoError e, cs_with s c1, turns)
      end = (o, c', rest) -> took c (t :: turns) [o] c' rest /\ o <> CoEnd).
    { intros next alive Hi. pose proof (poll_cases (ct_at t) start next alive (cs_state c1) Hp1) as Hc.
      destruct (poll_stream_message _ _ _ _ _) as [[[ch|]|e] s].
      - destruct Hc as (Hn & Hse & _). intros [= <- <- <-]. split; [|done]. constructor; cbn.
        + exists [t]. split; [done|]. rewrite turn_messages_cons, Hi, Hn, Hp. cbn. by rewrite app_nil_r.
        + by rewrite Hse, Hs1, orb_false_r.
      - destruct Hc as (Hn & Hps & Hse). apply Hgo; [done|cbn; congruence|by rewrite Hi].
      - destruct Hc as (Hn & Hps & Hse). intros [= <- <- <-]. split; [|done]. constructor; cbn.
        + exists [t]. split; [done|]. by rewrite turn_messages_cons, Hi, Hn, Hp, Hps.
        + by rewrite Hse, Hs1, orb_false_r. }
    destruct (reconnect_remaining (ct_start t) grace (cs_state c1)) as [[|p|p]|], (ct_input t) as [next alive| |] eqn:Hi;
      try (intros [= <- <- <-]; split; [apply Hstop; [done|]; by (left + right)|done]);
      try (by apply Hpoll); by apply Hgo.
Qed.

Lemma finished_eqs s : stream_is_finished s = true -> ps_terminal_seen s = true /\ ps_pending_chunks s = [].
Proof.
  unfold stream_is_finished. intros [H1 H2]%andb_true_iff. split; [done|]. by destruct (ps_pending_chunks s).
Qed.

Lemma client_next_took now turns c o c' rest : client_next grace every start now turns c = (o, c', rest) ->
  took c turns [o] c' rest /\ (o = CoEnd -> seen c' = true /\ pending c' = []).
Proof.
  unfold client_next. destruct (stream_is_finished (cs_state c)) eqn:Hf.
  - intros [= <- <- <-]. apply finished_eqs in Hf. split; [|done].
    constructor; cbn; [|by rewrite orb_false_r]. exists []. split; [done|]. cbn. by rewrite app_nil_r.
  - pose proof (take_pending_cases (duration_since now start) (cs_state c)) as Ht.
    destruct (take_pending _ _) as [[[[ch i] f]|] s].
    + destruct Ht as (H1 & H2 & _). intros [= <- <- <-]. split; [|done].
      constructor; cbn; [|by rewrite H2, orb_false_r].
      exists []. split; [done|]. cbn. by rewrite H1, app_nil_r.
    + destruct Ht as [Hp _]. intros Hw. destruct (client_wait_took _ _ _ _ _ Hp Hw) as [Htk Hne]. by split.
Qed.

Lemma output_chunks_app os os' : output_chunks (os ++ os') = output_chunks os ++ output_chunks os'.
Proof. unfold output_chunks. apply omap_app. Qed.

Lemma took_trans c turns os c1 rest1 os' c' rest : took c turns os c1 rest1 -> took c1 rest1 os' c' rest ->
  took c turns (os ++ os') c' rest.
Proof.
  intros [(u & -> & H1) Hs1] [(u' & -> & H2) Hs2]. constructor.
  - exists (u ++ u'). split; [by rewrite app_assoc|].
    unfold turn_messages in *. rewrite omap_app, relayed_chunks_app, output_chunks_app, <- app_assoc, H2, app_assoc, H1.
    by rewrite <- app_assoc.
  - by rewrite Hs2, Hs1, output_chunks_app, existsb_app, orb_assoc.
Qed.

Lemma client_run_took n now : forall turns c os c' rest,
  client_run grace every start n now turns c = (os, c', rest) ->
  took c turns os c' rest /\ (CoEnd ∈ os -> seen c' = true /\ pending c' = []).
Proof.
  induction n as [|n IH]; intros turns c os c' rest; cbn [client_run].
  - intros [= <- <- <-]. split; [|by intros ?%elem_of_nil].
    constructor; cbn; [|by rewrite orb_false_r]. exists []. split; [done|]. cbn. by rewrite app_nil_r.
  - destruct (client_next grace every start now turns c) as [[o c1] rest1] eqn:Hn.
    destruct (client_next_took _ _ _ _ _ _ Hn) as [Ht He].
    assert (Hmore : (let '(os, c'', rest') := client_run grace every start n now rest1 c1 in (o :: os, c'', rest'))
      = (os, c', rest) -> o <> CoEnd -> took c turns os c' rest /\ (CoEnd ∈ os -> seen c' = true /\ pending c' = [])).
    { destruct (client_run _ _ _ n now rest1 c1) as [[os2 c2] rest2] eqn:Hr. intros [= <- <- <-] Hne.
      destruct (IH _ _ _ _ _ Hr) as [Ht2 He2]. split; [by apply (took_trans _ _ [o] c1 rest1)|].
      intros [?|?]%elem_of_cons; [congruence|auto]. }
    destruct o; [by intros Hx; apply Hmore in Hx|by intros Hx; apply Hmore in Hx| |].
    + intros [= <- <- <-]. split; [done|]. intros _. by apply He.
    + intros [= <- <- <-]. split; [|by intros ?%elem_of_nil]. by destruct Ht as [? ?]; constructor.
Qed.

(** *** A stream that arrives whole *)

Definition quiet_turn (t : ClientTurn) : Prop :=
  match ct_input t with
  | CiItem (Some m) _ => is_chunk_message m = true \/ (exists p e i k, m = SrHeartbeat p e i k)
  | CiRenewDue => True
  | _ => False
  end.

Lemma push_batch_connected t cs s : ps_disconnected_since (push_batch_and_take_first t cs s).2 = ps_disconnected_since s.
Proof.
  unfold push_batch_and_take_first.
  set (fs := match cs with [] => (None, s) | _ => record_first_chunk _ s end).
  assert (Hfs : ps_disconnected_since fs.2 = ps_disconnected_since s)
    by (subst fs; destruct cs; [done|]; unfold record_first_chunk; by destruct (ps_first_chunk_recorded s)).
  destruct fs as [f s1]. cbn in Hfs.
  pose proof (take_pending_cases t (ps_set_pending (ps_pending_chunks s1 ++ cs) s1)) as Ht.
  destruct (take_pending _ _) as [[[[c i] g]|] s2]; cbn in Ht |- *;
    [by destruct Ht as (_ & _ & ->)|by destruct Ht as (_ & ->)].
Qed.

Lemma poll_quiet now t m alive s :
  is_chunk_message m = true \/ (exists p e i k, m = SrHeartbeat p e i k) ->
  ps_disconnected_since (poll_stream_message now t (Some m) alive s).2 = ps_disconnected_since s
  /\ forall e, (poll_stream_message now t (Some m) alive s).1 <> Err e.
Proof.
  intros [Hq|(p & e & i & k & ->)]; [|done]. destruct m; try done; cbn.
  - destruct (note_chunk_received _ _ _) as [[i f] s'] eqn:Hn.
    destruct (note_chunk_eqs _ _ _ _ _ _ Hn) as (_ & _ & Hd). by split.
  - pose proof (push_batch_connected (duration_since now t) chunks s) as H.
    by destruct (push_batch_and_take_first _ _ _) as [[[[[x i] f] l]|] s'].
Qed.

Abbreviation connected c := (ps_disconnected_since (cs_state c) = None).

Lemma client_wait_next ch more : forall turns c, connected c -> pending c = [] ->
  Forall quiet_turn turns -> relayed_chunks (turn_messages turns) = ch :: more ->
  exists c' rest, client_wait grace every start turns c = (CoChunk ch, c', rest)
    /\ connected c' /\ Forall quiet_turn rest
    /\ pending c' ++ relayed_chunks (turn_messages rest) = more
    /\ seen c' = seen c || chunk_is_done ch.
Proof.
  induction turns as [|t turns IH]; intros c Hcon Hp Hq Hm; [done|].
  apply Forall_cons in Hq as [Hq Hqs]. rewrite turn_messages_cons in Hm. cbn [client_wait].
  set (c1 := if cs_renew_due c <=? ct_start t then _ else c).
  assert (H1 : cs_state c1 = cs_state c) by (subst c1; by destruct (_ <=? _)).
  clearbody c1. unfold reconnect_remaining. rewrite H1, Hcon. cbn [fmap option_fmap option_map].
  unfold quiet_turn in Hq. destruct (ct_input t) as [[m|] alive| |]; try done;
    cbn -[next_chunks] in Hm.
  - pose proof (poll_cases (ct_at t) start (Some m) alive (cs_state c) Hp) as Hc.
    assert (Hd : ps_disconnected_since (poll_stream_message (ct_at t) start (Some m) alive (cs_state c)).2 = None
      /\ forall e, (poll_stream_message (ct_at t) start (Some m) alive (cs_state c)).1 <> Err e).
    { destruct (poll_quiet (ct_at t) start m alive (cs_state c) Hq) as [Hd1 Hd2]. split; [by rewrite Hd1|done]. }
    destruct (poll_stream_message _ _ _ _ _) as [[[x|]|e] s]; cbn in Hd; destruct Hd as [Hd Hne].
    + destruct Hc as (Hx & Hse & _). rewrite Hx in Hm. cbn in Hm. injection Hm as -> Hm.
      eexists _, _. split; [done|]. cbn. by rewrite Hse, Hd.
    + destruct Hc as (Hx & Hps & Hse). rewrite Hx in Hm.
      destruct (IH (cs_with s c1)) as (c' & rest & Hw & Hc' & Hq' & Hp' & Hs'); try done.
      exists c', rest. split_and!; try done. by rewrite Hs'; cbn; rewrite Hse.
    + by edestruct Hne.
  - destruct (IH (cs_renew every (ct_at t) c1)) as (c' & rest & Hw & Hc' & Hq' & Hp' & Hs'); cbn; rewrite ?H1; try done.
    exists c', rest. split_and!; try done. by rewrite Hs'; cbn; rewrite H1.
Qed.

Lemma client_run_whole now cs d : forall turns c n, connected c -> seen c = false ->
  Forall quiet_turn turns -> Forall not_done cs -> chunk_is_done d = true ->
  pending c ++ relayed_chunks (turn_messages turns) = cs ++ [d] -> (length cs + 2 <= n)%nat ->
  exists c' rest, client_run grace every start n now turns c = (map CoChunk (cs ++ [d]) ++ [CoEnd], c', rest).
Proof.
  assert (Hnext : forall turns c ch more, connected c -> seen c = false -> Forall quiet_turn turns ->
    pending c ++ relayed_chunks (turn_messages turns) = ch :: more ->
    exists c' rest, client_next grace every start now turns c = (CoChunk ch, c', rest)
      /\ connected c' /\ Forall quiet_turn rest
      /\ pending c' ++ relayed_chunks (turn_messages rest) = more /\ seen c' = chunk_is_done ch).
  { intros turns c ch more Hcon Hs Hq Hm. unfold client_next.
    unfold stream_is_finished. rewrite Hs. cbn [andb].
    pose proof (take_pending_cases (duration_since now start) (cs_state c)) as Ht.
    destruct (take_pending _ _) as [[[[x i] f]|] s].
    - destruct Ht as (Hp & Hse & Hdi). rewrite Hp in Hm. injection Hm as -> <-.
      eexists _, _. split; [done|]. cbn. by rewrite Hdi, Hse, Hs.
    - destruct Ht as [Hp _]. rewrite Hp in Hm.
      destruct (client_wait_next ch more turns c Hcon Hp Hq Hm) as (c' & rest & Hw & H1 & H2 & H3 & H4).
      exists c', rest. by rewrite H4, Hs. }
  induction cs as [|ch cs IH]; intros turns c n Hcon Hs Hq Hnd Hd Hm Hn.
  - destruct (Hnext turns c d [] Hcon Hs Hq Hm) as (c1 & rest & H1 & _ & _ & H2 & H3).
    destruct n as [|[|n]]; cbn in Hn; [lia|lia|]. exists c1, rest. cbn [client_run]. rewrite H1.
    unfold client_next, stream_is_finished. rewrite H3, Hd.
    apply app_eq_nil in H2 as [H2 _]. by rewrite H2.
  - apply Forall_cons in Hnd as [Hch Hnd].
    destruct (Hnext turns c ch _ Hcon Hs Hq Hm) as (c1 & rest & H1 & H2 & H3 & H4 & H5).
    destruct n as [|n]; cbn in Hn; [lia|]. cbn [client_run]. rewrite H1.
    destruct (IH rest c1 n H2) as (c' & rest' & ->); try done; [by rewrite H5|lia|].
    by exists c', rest'.
Qed.
End client_props.

(** ** Concrete channels and links *)

(** A channel whose outcomes are scripted; it accepts once the script ends. *)
Definition script_send (_ : unit) (m : StreamRelayMessage) (w : list SendOutcome * list StreamRelayMessage)
    : SendOutcome * (list SendOutcome * list StreamRelayMessage) :=
  match w.1 with
  | [] | SendOk :: _ => (SendOk, (tail w.1, w.2 ++ [m]))
  | o :: os => (o, (os, w.2))
  end.

#[export] Instance script_channels : Channels := {|
  Sender := unit; ChannelState := list SendOutcome * list StreamRelayMessage;
  try_send := script_send; accepted := snd |}.

#[export] Instance script_channels_laws : ChannelLaws script_channels.
Proof.
  split.
  - intros [] m [os l] w'. cbn. unfold script_send. cbn. by destruct os as [|[] os]; intros [= <-].
  - intros [] m [os l] o w'. cbn. unfold script_send. cbn. by destruct os as [|[] os]; intros [= <- <-].
Qed.

(** A channel that is closed as its script says and is never full. *)
Definition roomy_send (_ : unit) (m : StreamRelayMessage) (w : list bool * list StreamRelayMessage)
    : SendOutcome * (list bool * list StreamRelayMessage) :=
  match w.1 with
  | true :: os => (SendClosed, (os, w.2))
  | os => (SendOk, (tail os, w.2 ++ [m]))
  end.

Definition roomy_channels : Channels := {|
  Sender := unit; ChannelState := list bool * list StreamRelayMessage;
  try_send := roomy_send; accepted := snd |}.

Lemma roomy_channels_laws : ChannelLaws roomy_channels.
Proof.
  split.
  - intros [] m [os l] w'. cbn. unfold roomy_send. cbn. by destruct os as [|[] os]; intros [= <-].
  - intros [] m [os l] o w'. cbn. unfold roomy_send. cbn. by destruct os as [|[] os]; intros [= <- <-].
Qed.

Lemma roomy_never_full : @never_full roomy_channels.
Proof. intros [] m [os l]. cbn. unfold roomy_send. cbn. by destruct os as [|[] os]. Qed.

(** A link that reports a failure for the messages [refuses] says, each [tell]
    taking half a second; [lost_ack] tells that what it refuses arrives all the
    same, and [loses] which messages that were sent without acknowledgement do
    not arrive. *)
Record Wire := { wi_told : list (string * StreamRelayMessage); wi_clock : Z }.

Abbreviation Refusals := (Wire -> StreamRelayMessage -> bool -> bool).

Definition wire_tell (refuses : Refusals) (lost_ack : bool) (loses : Wire -> bool) (id : string)
    (m : StreamRelayMessage) (ack : bool) (n : Wire) : option string * Wire :=
  let arrives := if refuses n m ack then lost_ack else ack || negb (loses n) in
  ((if refuses n m ack then Some "timed out" else None),
   {| wi_told := if arrives then wi_told n ++ [(id, m)] else wi_told n; wi_clock := wi_clock n + 500 |}).

Definition faulty_network (refuses : Refusals) (lost_ack : bool) (loses : Wire -> bool) : Network := {|
  NetState := Wire; tell := wire_tell refuses lost_ack loses; told := wi_told; in_flight _ := [];
  clock := wi_clock; sleep d n := {| wi_told := wi_told n; wi_clock := wi_clock n + Z.max 0 d |} |}.

Definition no_losses : Wire -> bool := fun _ => false.
Definition wire_network (refuses : Refusals) (lost_ack : bool) : Network :=
  faulty_network refuses lost_ack no_losses.

Lemma faulty_network_laws refuses lost_ack loses : NetworkLaws (faulty_network refuses lost_ack loses).
Proof.
  split; cbn; unfold wire_tell, handed; cbn.
  - intros id m ack n r n' [= <- <-]. rewrite !app_nil_r. cbn. case_match; [done|]. by apply sublist_inserts_r.
  - intros id m ack n r n' [= <- <-]. cbn. case_match; [by eexists|done].
  - intros id m n n'. destruct (refuses n m true); [done|]. intros [= <-]. cbn. split; [apply last_snoc|done].
  - intros id m ack n r n' [= <- <-]. cbn. lia.
  - done.
  - done.
  - intros d n. lia.
Qed.

Lemma faulty_exact refuses loses : @failures_exact (faulty_network refuses false loses).
Proof.
  intros id m ack n e n'. unfold handed. cbn. unfold wire_tell. destruct (refuses n m ack); [|done].
  intros [= <- <-]. cbn. done.
Qed.

Lemma wire_keeps refuses : @link_keeps (wire_network refuses false) Everything.
Proof.
  split; unfold handed; cbn; unfold wire_tell.
  - intros id m ack n n'. destruct (refuses n m ack); [done|]. intros [= <-]. cbn.
    by rewrite orb_true_r, !app_nil_r.
  - intros id m ack n e n'. destruct (refuses n m ack); [|done]. by intros [= <- <-].
  - done.
Qed.

#[export] Instance toy_duration : DurationText := fun _ => "30s".

Definition toy_stream : StreamConfig :=
  {| sc_session_id := "s"; sc_request_id := "r"; sc_provider := "p"; sc_model := "m";
     sc_reconnect_grace_secs := 1; sc_lease_ttl_secs := 1 |}.

Definition never : Refusals := fun _ _ _ => false.
Definition fresh_wire : Wire := {| wi_told := []; wi_clock := 0 |}.
Definition text (s : string) : StreamChunk := ScText s.
Definition stop : StreamChunk := ScDone FrStop.

Definition toy_host refuses lost_ack loses : @HostState (faulty_network refuses lost_ack loses) :=
  @Build_HostState (faulty_network refuses lost_ack loses) ∅ fresh_wire.
Definition toy_start refuses lost_ack loses : @HostSystem (faulty_network refuses lost_ack loses) :=
  handle_stream_request (fun _ => None) toy_stream (Ok tt) (toy_host refuses lost_ack loses).
Definition toy_events : list HostEvent :=
  [HeNext (Some (Ok (text "a"))); HeRelay; HeNext (Some (Ok (text "b"))); HeRelay;
   HeNext None; HeRelay; HeRelay; HeNext (Some (Ok stop)); HeRelay].

Definition told_by {refuses lost_ack loses} (s : option (@HostSystem (faulty_network refuses lost_ack loses))) : list StreamRelayMessage :=
  match s with Some s => map snd (wi_told (hs_net (sy_host s))) | None => [] end.

Example toy_told : told_by (host_run (N := wire_network never false) toy_stream toy_events (toy_start never false no_losses))
  = [SrChunkBatch [text "a"; text "b"]; SrChunk stop].
Proof. vm_compute. reflexivity. Qed.

(** ** The properties *)

Lemma relayed_prefix ms ms' : ms `prefix_of` ms' -> relayed_chunks ms `prefix_of` relayed_chunks ms'.
Proof. intros [k ->]. rewrite relayed_chunks_app. by eexists. Qed.

Lemma done_ends_last pre d post : done_ends (pre ++ d :: post) -> chunk_is_done d = true -> post = [].
Proof.
  intros (init & rest & He & Hi & Hr) Hd. revert init He Hi.
  induction pre as [|x pre IH]; intros [|y init] He Hi; cbn in He.
  - destruct Hr as [->|(c & -> & _)]; [done|]. by injection He.
  - injection He as <- _. apply Forall_cons in Hi as [Hi _]. unfold not_done in Hi. congruence.
  - destruct Hr as [->|(c & -> & _)]; [done|]. injection He as _ He. by destruct pre.
  - injection He as _ He. apply Forall_cons in Hi as [_ Hi]. by apply (IH init).
Qed.

(** A prefix that has the [Done] is the whole. *)
Lemma prefix_with_done cs cs' : cs `prefix_of` cs' -> done_ends cs' -> existsb chunk_is_done cs = true -> cs = cs'.
Proof.
  intros [k ->] Hd (d & Hin & Hdone)%existsb_exists. apply in_split in Hin as (l1 & l2 & ->).
  rewrite <- app_assoc in Hd. apply done_ends_last in Hd; [|done].
  apply app_eq_nil in Hd as [_ ->]. by rewrite app_nil_r.
Qed.

(** C30: a remote stream is the provider's stream.  Take a run of the host's task
    from a fresh link that keeps the order of what it delivers and whose failed
    sends do not arrive, any handlers running in between; the messages that
    reached the router, in the order they arrived; any attaching and detaching
    of consumers, as long as no channel is full and the replay buffer does not
    overflow; and what the client reads from its channel.  A send without
    acknowledgement may be lost: the chunks the client yields are chunks of the
    provider's stream, in its order, none twice.  If nothing that was reported
    as sent is lost, they are its first ones, and when the client's stream has
    ended without an error, they are all of them. *)
Theorem remote_stream_is_faithful `{C : Channels} {CL : ChannelLaws C} `{N : Network} {NL : NetworkLaws N}
    {D : DurationText} (parse : string -> option LLMErrorPayload) (cfg : StreamConfig) (h : HostState)
    (es : list HostEvent) (sys : HostSystem) (request_id : string) (size : nat) (t0 : Z)
    (rs : list RequestEvent) (w w' : ChannelState) (req : RoutedRequest)
    (grace every start t1 now : Z) (n : nat) (turns rest : list ClientTurn) (os : list ClientOutput)
    (c : ClientStream)
    (exact : failures_exact)
    (room : never_full)
    (fresh : handed (hs_net h) = [] /\ accepted w = [])
    (host : host_run cfg es (handle_stream_request parse cfg (Ok tt) h) = Some sys)
    (in_order : messages_in rs `prefix_of` map snd (told (hs_net (sy_host sys))))
    (router : request_run rs (routed_request_new request_id size t0, w) = (req, w'))
    (no_overflow : never_overflows rs (routed_request_new request_id size t0, w) = true)
    (read : turn_messages turns `prefix_of` accepted w')
    (client : client_run grace every start n now turns (client_start every t1) = (os, c, rest)) :
  output_chunks os `sublist_of` upstream_chunks es
  /\ (link_keeps Everything ->
      output_chunks os `prefix_of` upstream_chunks es
      /\ (CoEnd ∈ os -> output_chunks os = upstream_chunks es)).
Proof.
  destruct fresh as [Hh Hw].
  destruct (request_run_order room rs _ _ _ _ router) as (_ & sent & Ha & _ & Hx); [done|].
  specialize (Hx no_overflow). cbn in Hx. rewrite Hw in Ha. cbn in Ha.
  destruct (client_run_took _ _ _ _ _ _ _ _ _ _ client) as [[(used & Hu & Ho) Hs] He]. cbn in Ho, Hs.
  assert (Hp : output_chunks os `prefix_of` chunks_of (handed (hs_net (sy_host sys)))).
  { unfold handed. rewrite chunks_of_app. apply prefix_app_r.
    etrans; [|apply relayed_prefix, in_order]. rewrite <- Hx, relayed_chunks_app, <- Ha. apply prefix_app_r.
    etrans; [|apply relayed_prefix, read].
    assert (Hused : turn_messages used `prefix_of` turn_messages turns)
      by (rewrite Hu; unfold turn_messages; rewrite omap_app; by apply prefix_app_r).
    etrans; [|apply relayed_prefix, Hused]. rewrite <- Ho. by apply prefix_app_r. }
  assert (Hinv : forall g, link_keeps g -> relay_core g (upstream_chunks es) (sy_relay sys) (sy_host sys))
    by (intros g Hg; exact (si_core _ _ _ (host_run_inv cfg g Hg es [] _ _ (start_inv cfg g parse h Hh) host))).
  split.
  - destruct (Hinv _ (keeps_losses exact)) as [Hc _]. cbn in Hc.
    etrans; [|exact Hc]. destruct Hp as [k ->]. by do 2 apply sublist_inserts_r.
  - intros Hall. destruct (Hinv _ Hall) as [Hc Hd]. cbn in Hc.
    assert (Hup : output_chunks os `prefix_of` upstream_chunks es) by (rewrite <- Hc; by apply prefix_app_r).
    split; [done|]. intros [Hse _]%He. apply prefix_with_done; [done|done|]. by rewrite <- Hs.
Qed.

Definition toy_turn (m : StreamRelayMessage) : ClientTurn :=
  {| ct_start := 1; ct_at := 1; ct_input := CiItem (Some m) true |}.

(** The consumer is attached after the first message, and its channel closes
    and is replaced before the second. *)
Definition toy_routed : list (@RequestEvent roomy_channels) :=
  [@RqMessage roomy_channels 0 (SrChunkBatch [text "a"; text "b"]); @RqAttach roomy_channels tt;
   @RqMessage roomy_channels 0 (SrChunk stop); @RqAttach roomy_channels tt].

Definition toy_outputs : list ClientOutput := [CoChunk (text "a"); CoChunk (text "b"); CoChunk stop; CoEnd].

Lemma remote_stream_is_faithful_witness :
  output_chunks toy_outputs = [text "a"; text "b"; stop] /\
  output_chunks toy_outputs = upstream_chunks toy_events.
Proof.
  split; [reflexivity|].
  refine (proj2 (proj2 (remote_stream_is_faithful (C := roomy_channels) (CL := roomy_channels_laws)
    (N := wire_network never false) (NL := faulty_network_laws never false no_losses)
    (fun _ => None) toy_stream (toy_host never false no_losses) toy_events _ "r" 10 0 toy_routed
    ([false; true], []) _ _ 30000 20000 0 0 0 9 [toy_turn (SrChunkBatch [text "a"; text "b"]); toy_turn (SrChunk stop)]
    _ toy_outputs _ (faulty_exact never no_losses) roomy_never_full _ _ _ _ _ _ _) (wire_keeps never)) _).
  - by split.
  - vm_compute. reflexivity.
  - exists []. vm_compute. reflexivity.
  - vm_compute. reflexivity.
  - vm_compute. reflexivity.
  - exists []. vm_compute. reflexivity.
  - vm_compute. reflexivity.
  - do 3 right. left.
Defined.

(** The buffer stays within its size. *)
Lemma request_run_bounded `{C : Channels} {L : ChannelLaws C} es : forall r w r' w', request_run es (r, w) = (r', w') ->
  (length (rr_replay_buffer r) <= Nat.max 1 (rr_replay_buffer_size r))%nat ->
  (length (rr_replay_buffer r') <= Nat.max 1 (rr_replay_buffer_size r))%nat.
Proof.
  induction es as [|e es IH]; intros r w r' w'; cbn [request_run foldl]; [by intros [= <- <-]|].
  destruct (request_step (r, w) e) as [r1 w1] eqn:Hs. intros Hr Hl.
  assert ((length (rr_replay_buffer r1) <= Nat.max 1 (rr_replay_buffer_size r))%nat
    /\ rr_replay_buffer_size r1 = rr_replay_buffer_size r) as [Hl1 Hz].
  { destruct e as [now m|tx|]; cbn in Hs.
    - destruct (deliver_moves _ _ _ _ _ _ Hs) as (s & _ & _ & Hz & _). split; [|done].
      destruct (deliver_buffer _ _ _ _ _ _ Hs) as [->| ->]; [done|].
      unfold kept. rewrite length_app. cbn. case_match eqn:Hle; [|apply Nat.leb_gt in Hle; lia].
      apply Nat.leb_le in Hle. destruct (rr_replay_buffer r); cbn in *; lia.
    - destruct (attach_moves _ _ _ _ _ Hs) as (s & _ & Hb & Hz & _). split; [|done].
      rewrite Hb, length_app in Hl. lia.
    - injection Hs as <- <-. by destruct (detach_moves r) as (-> & -> & _). }
  rewrite <- Hz in *. by eapply IH.
Qed.

(** C31: the router keeps the order of a request's messages.  Whatever comes,
    messages and consumers that attach, detach, close or are full, what the
    consumers were given and what is buffered are messages that came, none
    twice, and the buffer stays within its size.  As long as no channel is full,
    what was given followed by the buffer is in the order of arrival, a message
    is missing only if the buffer overflowed, and while a consumer is attached
    nothing waits in the buffer. *)
Theorem routed_messages_in_order `{C : Channels} {L : ChannelLaws C} (es : list RequestEvent)
    (request_id : string) (size : nat) (now : Z) (w w' : ChannelState) (r' : RoutedRequest)
    (run : request_run es (routed_request_new request_id size now, w) = (r', w')) :
  exists sent, accepted w' = accepted w ++ sent
    /\ sent ++ rr_replay_buffer r' ⊆+ messages_in es
    /\ (length (rr_replay_buffer r') <= Nat.max 1 size)%nat
    /\ (never_full ->
        sent ++ rr_replay_buffer r' `sublist_of` messages_in es
        /\ (never_overflows es (routed_request_new request_id size now, w) = true ->
            sent ++ rr_replay_buffer r' = messages_in es)
        /\ (rr_consumer_tx r' <> None -> rr_replay_buffer r' = [])).
Proof.
  destruct (request_run_subset es _ _ _ _ run) as (sent & Ha & Hs).
  pose proof (request_run_bounded es _ _ _ _ run) as Hb. cbn in Hb, Hs.
  exists sent. split_and!; [done|done|apply Hb; lia|]. intros Hf.
  destruct (request_run_order Hf es _ _ _ _ run) as (Hd & sent' & Ha' & Hsub & Hx); [done|].
  rewrite Ha in Ha'. apply app_inv_head in Ha' as <-. by split_and!.
Qed.

Definition toy_routed_end : @RoutedRequest roomy_channels * list bool * list StreamRelayMessage :=
  let '(r, w) := request_run toy_routed (routed_request_new "r" 10 0, ([false; true], [])) in (r, w.1, w.2).

Lemma routed_messages_in_order_witness :
  toy_routed_end.2 = messages_in toy_routed /\
  exists sent, accepted (Channels := roomy_channels) (toy_routed_end.1.2, toy_routed_end.2)
    = accepted (Channels := roomy_channels) ([false; true], []) ++ sent
    /\ sent ++ rr_replay_buffer toy_routed_end.1.1 ⊆+ messages_in toy_routed.
Proof.
  split; [vm_compute; reflexivity|].
  assert (Hr : request_run (C := roomy_channels) toy_routed (routed_request_new "r" 10 0, ([false; true], []))
    = (toy_routed_end.1.1, (toy_routed_end.1.2, toy_routed_end.2))) by (vm_compute; reflexivity).
  destruct (routed_messages_in_order (C := roomy_channels) (L := roomy_channels_laws) toy_routed "r" 10 0
    ([false; true], []) (toy_routed_end.1.2, toy_routed_end.2) toy_routed_end.1.1 Hr) as (sent & H & Hs & _).
  exists sent. exact (conj H Hs).
Defined.

(** C33: when the link to the router is dead, so that every send that waits for
    its acknowledgement fails from there on, the relaying loop ends: after at
    most as many iterations as messages are buffered, four for each second of
    the grace and one, the task has given up, or it is back at its [select!]
    with an empty buffer.  The latter only if the disconnection was not noticed
    before, the first message was sent without acknowledgement and no message
    was terminal: what is sent without acknowledgement is taken for relayed. *)
Theorem dead_link_ends_stream `{N : Network} {NL : NetworkLaws N} {D : DurationText} (cfg : StreamConfig)
    (s : HostSystem) (at_relay : sy_place s = AtRelay)
    (past : forall t, rl_disconnected_since (sy_relay s) = Some t -> t <= clock (hs_net (sy_host s)))
    (down : down_from (hs_net (sy_host s))) :
  exists k s', (k <= length (rl_buffered (sy_relay s))
                     + Z.to_nat (4 * Z.max (sc_reconnect_grace_secs cfg) 1) + 1)%nat
    /\ host_run cfg (replicate k HeRelay) s = Some s'
    /\ (sy_place s' = AtEnd
        \/ (sy_place s' = AtSelect /\ rl_buffered (sy_relay s') = []
            /\ rl_disconnected_since (sy_relay s) = None
            /\ front_acked (sy_relay s) (sy_host s) = false
            /\ Forall (fun m => relay_message_is_terminal m = false) (rl_buffered (sy_relay s)))).
Proof.
  destruct s as [p r h]. cbn in at_relay, past, down |- *. subst p.
  apply (dead_link cfg _ r h down eq_refl past).
Qed.

(** A dead link: what waits for an acknowledgement fails, the rest is lost. *)
Definition no_acks : Refusals := fun _ _ ack => ack.
Definition all_lost : Wire -> bool := fun _ => true.

Definition toy_relaying refuses lost_ack loses (ms : list StreamRelayMessage) :
    @HostSystem (faulty_network refuses lost_ack loses) :=
  sy_at AtRelay (rl_set_buffered ms (relay_start 0), sy_host (toy_start refuses lost_ack loses)).

Lemma dead_wire n : @down_from (faulty_network no_acks false all_lost) n.
Proof. by intros n' id m _. Qed.

Lemma dead_link_ends_stream_witness :
  sy_place (toy_relaying no_acks false all_lost [SrChunk (text "a"); SrChunk stop]) = AtRelay /\
  exists k s', (k <= 7)%nat
    /\ host_run (N := faulty_network no_acks false all_lost) toy_stream (replicate k HeRelay)
         (toy_relaying no_acks false all_lost [SrChunk (text "a"); SrChunk stop]) = Some s'
    /\ sy_place s' = AtEnd.
Proof.
  split; [reflexivity|].
  destruct (dead_link_ends_stream (N := faulty_network no_acks false all_lost)
    (NL := faulty_network_laws no_acks false all_lost) toy_stream
    (toy_relaying no_acks false all_lost [SrChunk (text "a"); SrChunk stop]) eq_refl)
    as (k & s' & Hk & Hr & [He|(_ & _ & _ & _ & Hf)]).
  - intros t H. discriminate H.
  - apply dead_wire.
  - exists k, s'. exact (conj Hk (conj Hr He)).
  - exfalso. apply Forall_cons in Hf as [_ Hf]. apply Forall_cons in Hf as [Hf _]. discriminate Hf.
Defined.

(** C32: a stream whose lease has expired is ended.  In a run of the host that is at
    its [select!] with an expired lease, the next tick of the heartbeat cancels
    the task.  The [select!] may then take other branches that are ready; but
    whatever happens, at each later return to it the branch of the
    cancellation can be taken.  Once it is taken, on a link that reports no
    error from there on, the task relays what it still had and a notice that
    the stream was cancelled, and ends: in at most two iterations, with that
    notice the last message that arrived, and without an entry left.  On a
    link that was fresh, keeps the order and loses nothing, what arrived has
    all the chunks that were read. *)
Theorem expired_lease_ends_stream `{N : Network} {NL : NetworkLaws N} {D : DurationText}
    (parse : string -> option LLMErrorPayload) (cfg : StreamConfig) (h : HostState) (es es' : list HostEvent)
    (s s1 : HostSystem) (a : ActiveProviderStream)
    (fresh : handed (hs_net h) = [])
    (run : host_run cfg es (handle_stream_request parse cfg (Ok tt) h) = Some s)
    (at_select : sy_place s = AtSelect)
    (entry : hs_streams (sy_host s) !! sc_key cfg = Some a)
    (expired : ap_lease_expires_at a <= clock (hs_net (sy_host s)))
    (later : host_run cfg (HeTick :: es') s = Some s1)
    (back : sy_place s1 = AtSelect)
    (up : up_from (hs_net (sy_host s1))) :
  exists k s', (k <= 2)%nat /\ host_run cfg (HeCancelled :: replicate k HeRelay) s1 = Some s'
    /\ sy_place s' = AtEnd
    /\ hs_streams (sy_host s') !! sc_key cfg = None
    /\ last (map snd (told (hs_net (sy_host s')))) = Some (SrTransportFailed cancelled_payload)
    /\ (link_keeps Everything ->
        relayed_chunks (map snd (told (hs_net (sy_host s')))) = upstream_chunks es ++ upstream_chunks es').
Proof.
  assert (Hinv : forall g es2 s2, link_keeps g -> host_run cfg es2 s1 = Some s2 ->
    system_inv g (upstream_chunks es ++ upstream_chunks es' ++ upstream_chunks es2) s2).
  { intros g es2 s2 Hg Hr. pose proof (host_run_inv cfg g Hg es [] _ _ (start_inv cfg g parse h fresh) run) as H1.
    pose proof (host_run_inv cfg g Hg _ _ _ _ H1 later) as H2.
    rewrite upstream_chunks_cons in H2. pose proof (host_run_inv cfg g Hg _ _ _ _ H2 Hr) as H3.
    cbn in H3. by rewrite <- app_assoc in H3. }
  destruct (Hinv Anything [] s1 keeps_anything eq_refl) as [_ Hi Hsel].
  pose proof later as Hc. cbn [host_run] in Hc. apply bind_Some in Hc as (s0 & Ht & Hc).
  apply host_run_cancelled in Hc; [|by eapply (lease_tick cfg s s0 a)|by rewrite back].
  destruct s1 as [p r h1]. cbn in back, up, Hi, Hsel, Hc |- *. subst p.
  destruct (Hsel eq_refl) as [Hb Hu]. specialize (Hi ltac:(done)).
  set (h2 := hs_update (sc_key cfg) (fun a => ap_set_last_error (or_else (ap_last_error a) (Some "cancelled"))
    (ap_set_phase PsCancelling a)) h1).
  destruct (ending_relays cfg r h2 up Hb (ri_pending _ _ _ _ Hi)) as (k & s' & Hk & Hs & Hend & Hno & Hl & Hf & Hb' & Hp').
  exists k, s'. split; [done|].
  assert (Hrun : host_run cfg (HeCancelled :: replicate k HeRelay)
    {| sy_place := AtSelect; sy_relay := r; sy_host := h1 |} = Some s').
  { cbn [host_run]. unfold host_step at 1. cbn [sy_place sy_relay sy_host]. rewrite Hc, Hu. exact Hs. }
  split_and!; [exact Hrun|done|done|done|]. intros Hall.
  destruct (Hinv Everything _ _ Hall Hrun) as [[Hch _] _ _]. cbn [upto] in Hch.
  assert (Hz : upstream_chunks (HeCancelled :: replicate k HeRelay) = [])
    by (clear; rewrite upstream_chunks_cons; induction k as [|k IH]; [done|]; cbn [replicate];
        rewrite (upstream_chunks_cons HeRelay), app_assoc; exact IH).
  rewrite Hz, Hb', Hp', !app_nil_r in Hch. unfold handed in Hch. rewrite Hf in Hch.
  by rewrite app_nil_r in Hch.
Qed.

(** A chunk is pending while two heartbeats pass; the lease expires in a pause of
    the provider, and after its tick another chunk is taken. *)
Definition toy_idle : list HostEvent :=
  [HeNext (Some (Ok (text "a"))); HeRelay; HeTick; HeRelay; HeRelay; HeWait 2000].
Definition toy_late : list HostEvent := [HeNext (Some (Ok (text "b"))); HeRelay].

Lemma never_down lost_ack n : @up_from (wire_network never lost_ack) n.
Proof. by intros n' id m ack _. Qed.

Lemma expired_lease_ends_stream_witness :
  exists s, host_run (N := wire_network never false) toy_stream (toy_idle ++ HeTick :: toy_late)
      (toy_start never false no_losses) = Some s /\
  exists k s', (k <= 2)%nat
    /\ host_run (N := wire_network never false) toy_stream (HeCancelled :: replicate k HeRelay) s = Some s'
    /\ sy_place s' = AtEnd
    /\ last (map snd (told (hs_net (sy_host s')))) = Some (SrTransportFailed cancelled_payload)
    /\ relayed_chunks (map snd (told (hs_net (sy_host s')))) = [text "a"; text "b"].
Proof.
  destruct (host_run (N := wire_network never false) toy_stream toy_idle (toy_start never false no_losses)) as [s|] eqn:Hs;
    [|vm_compute in Hs; discriminate Hs].
  destruct (host_run (N := wire_network never false) toy_stream (HeTick :: toy_late) s) as [s1|] eqn:Hs1;
    [|vm_compute in Hs; injection Hs as <-; vm_compute in Hs1; discriminate Hs1].
  exists s1. split; [rewrite host_run_app, Hs; exact Hs1|].
  assert (Hf : sy_place s = AtSelect /\ sy_place s1 = AtSelect
    /\ exists a, hs_streams (sy_host s) !! sc_key toy_stream = Some a
      /\ ap_lease_expires_at a <= wi_clock (hs_net (sy_host s))).
  { vm_compute in Hs. injection Hs as <-. vm_compute in Hs1. injection Hs1 as <-.
    split; [reflexivity|]. split; [reflexivity|]. eexists. split; [vm_compute; reflexivity|].
    vm_compute. discriminate. }
  destruct Hf as (Hp & Hp1 & a & Ha & Hl).
  destruct (expired_lease_ends_stream (N := wire_network never false) (NL := faulty_network_laws never false no_losses)
    (fun _ => None) toy_stream (toy_host never false no_losses) toy_idle toy_late s s1 a eq_refl Hs Hp Ha Hl Hs1 Hp1
    (never_down _ _)) as (k & s' & Hk & Hr & He & _ & Hlast & Hch).
  exists k, s'. exact (conj Hk (conj Hr (conj He (conj Hlast (Hch (wire_keeps never)))))).
Defined.

(** ** The parameters of a request *)

Class JsonObjectLaws `(JO : JsonObject) : Prop := { as_object_of o : as_object (of_object o) = Some o }.

Definition field `{JO : JsonObject} (key : string) (v : option JsonValue) : option JsonValue :=
  v ← v; o ← as_object v; o !! key.

Section params_props.
Context `{JO : JsonObject} {JL : JsonObjectLaws JO}.

Lemma field_nonempty key o : field key (nonempty_object o) = o !! key.
Proof.
  unfold nonempty_object. destruct (bool_decide (o = ∅)) eqn:He; [apply bool_decide_eq_true in He; by rewrite He, lookup_empty|]. cbn. by rewrite as_object_of.
Qed.

Lemma field_sanitized key v :
  field key (sanitized_request_params v)
  = if bool_decide (key = "api_key" \/ key = "_remote_session_id") then None else field key (Some v).
Proof.
  unfold sanitized_request_params.
  assert (Hf : field key (Some v) = as_object v ≫= (fun o => o !! key)) by done.
  rewrite Hf. destruct (as_object v) as [o|] eqn:Ho; cbn.
  - rewrite field_nonempty. case_bool_decide as Hk.
    + destruct Hk as [-> | ->]; [rewrite lookup_delete_ne by done|]; apply lookup_delete_eq.
    + by rewrite !lookup_delete_ne by (intros <-; tauto).
  - unfold field. cbn. rewrite Ho. cbn. by case_bool_decide.
Qed.

(** C39: the parameters a remote request runs with are, field by field, the
    request's where it has them and the host's defaults otherwise, with two
    exceptions that a request cannot set: the API key and the internal session
    id are those of the host's defaults, or absent.  (The defaults, when there
    are any, are an object.) *)
Theorem host_key_is_protected (request_params host_defaults : option JsonValue) (key : string)
    (object_defaults : forall d, host_defaults = Some d -> as_object d <> None) :
  field key (merge_remote_provider_params request_params host_defaults)
  = if bool_decide (key = "api_key" \/ key = "_remote_session_id") then field key host_defaults
    else or_else (field key request_params) (field key host_defaults).
Proof.
  set (sent := request_params ≫= sanitized_request_params).
  assert (Hs : field key sent = if bool_decide (key = "api_key" \/ key = "_remote_session_id") then None
    else field key request_params).
  { subst sent. destruct request_params as [v|]; cbn; [apply field_sanitized|by case_bool_decide]. }
  transitivity (or_else (field key sent) (field key host_defaults)); [|rewrite Hs; by case_bool_decide].
  unfold merge_remote_provider_params. fold sent. destruct host_defaults as [d|].
  - destruct sent as [v|] eqn:Hv; cbn; [|done].
    destruct (as_object d) as [base|] eqn:Hb; [|by edestruct object_defaults].
    rewrite field_nonempty. unfold field. cbn. rewrite ?Hb. cbn.
    destruct (as_object v) as [o|]; cbn; [|done]. rewrite lookup_union. by destruct (o !! key), (base !! key).
  - destruct sent; cbn; [by rewrite or_else_None_r|done].
Qed.
End params_props.

(** Values that are texts and objects. *)
Inductive toy_tree := TreeText (s : string) | TreeObject (o : gmap string toy_tree).

#[export] Instance toy_objects : JsonObject := {|
  JsonValue := toy_tree;
  as_object v := match v with TreeObject o => Some o | TreeText _ => None end;
  of_object := TreeObject |}.

#[export] Instance toy_objects_laws : JsonObjectLaws toy_objects.
Proof. by split. Qed.

Definition toy_request : toy_tree :=
  TreeObject (<["api_key" := TreeText "mine"]> (<["temperature" := TreeText "0.2"]> ∅)).
Definition toy_defaults : toy_tree := TreeObject (<["api_key" := TreeText "host"]> ∅).

Lemma host_key_is_protected_witness :
  field "api_key" (Some toy_defaults) = Some (TreeText "host") /\
  field "api_key" (merge_remote_provider_params (Some toy_request) (Some toy_defaults))
    = (if bool_decide ("api_key" = "api_key" \/ "api_key" = "_remote_session_id")
       then field "api_key" (Some toy_defaults)
       else or_else (field "api_key" (Some toy_request)) (field "api_key" (Some toy_defaults))).
Proof.
  split; [vm_compute; reflexivity|].
  apply (host_key_is_protected (JL := toy_objects_laws) (Some toy_request) (Some toy_defaults) "api_key").
  intros d Hd. injection Hd as <-. discriminate.
Defined.

(** ** What does not hold *)

(** A full channel keeps its consumer: the next message overtakes the one that
    was put aside, and the client's stream ends without it. *)
Lemma full_consumer_reorders :
  let es := [@RqAttach script_channels tt; @RqMessage script_channels 0 (SrChunk (text "a"));
             @RqMessage script_channels 0 (SrChunk (text "b")); @RqMessage script_channels 0 (SrChunk stop)] in
  let '(r, w) := request_run es (routed_request_new "r" 10 0, ([SendOk; SendFull], [])) in
  accepted (Channels := script_channels) w = [SrChunk (text "a"); SrChunk stop]
  /\ rr_replay_buffer r = [SrChunk (text "b")] /\ rr_phase r = RpCompleted
  /\ (client_run 1000 1000 0 9 0 (map toy_turn w.2) (client_start 1000 0)).1.1
     = [CoChunk (text "a"); CoChunk stop; CoEnd].
Proof. vm_compute. repeat split; reflexivity. Qed.

Definition refuse_first_stop : Refusals := fun n m _ => relay_message_is_terminal m && (wi_clock n <? 400).

(** An acknowledgement that is lost makes the host relay the chunk again, and
    nothing recognizes it as the same. *)
Lemma lost_ack_duplicates :
  told_by (host_run (N := wire_network refuse_first_stop true) toy_stream
    [HeNext (Some (Ok stop)); HeRelay; HeRelay] (toy_start refuse_first_stop true no_losses))
  = [SrChunk stop; SrTransportDisconnected "timed out"; SrTransportReconnected 1; SrChunk stop].
Proof. vm_compute. reflexivity. Qed.

Definition lost_at_first (n : Wire) : bool := wi_clock n <? 400.

(** A batch that is sent without acknowledgement and lost is missing, and nothing
    tells: the acknowledged [Done] ends the client's stream without an error. *)
Lemma lost_batch_goes_unnoticed :
  let s := host_run (N := faulty_network never false lost_at_first) toy_stream toy_events
    (toy_start never false lost_at_first) in
  sy_place <$> s = Some AtEnd
  /\ told_by s = [SrChunk stop]
  /\ upstream_chunks toy_events = [text "a"; text "b"; stop]
  /\ (client_run 1000 1000 0 9 0 (map toy_turn (told_by s)) (client_start 1000 0)).1.1 = [CoChunk stop; CoEnd].
Proof. vm_compute. repeat split; reflexivity. Qed.

Definition patient_stream : StreamConfig :=
  {| sc_session_id := "s"; sc_request_id := "r"; sc_provider := "p"; sc_model := "m";
     sc_reconnect_grace_secs := 30; sc_lease_ttl_secs := 60 |}.

Definition down_for_a_while : Refusals := fun n _ ack => ack && (wi_clock n <? 1500).
Definition lost_for_a_while (n : Wire) : bool := wi_clock n <? 1500.

(** When the provider's stream is done, the first reconnection that fails ends
    the task: of a grace of thirty seconds less than two have passed, and the
    last chunk is not relayed. *)
Lemma finished_stream_has_no_grace :
  let s := host_run (N := faulty_network down_for_a_while false lost_for_a_while) patient_stream
    [HeNext (Some (Ok stop)); HeRelay; HeRelay]
    (handle_stream_request (N := faulty_network down_for_a_while false lost_for_a_while) (fun _ => None)
       patient_stream (Ok tt) (toy_host down_for_a_while false lost_for_a_while)) in
  told_by s = []
  /\ (fun s => (sy_place s, rl_buffered (sy_relay s), clock (hs_net (sy_host s)))) <$> s
     = Some (AtEnd, [SrChunk stop], 2000).
Proof. vm_compute. repeat split; reflexivity. Qed.

(** A link that takes notices but fails for chunks whose acknowledgement is awaited. *)
Definition no_chunks : Refusals := fun _ m ack => ack && is_chunk_message m.

Lemma no_chunks_iteration r h : rl_buffered r = [SrChunk stop] ->
  exists r' h', relay_iteration (N := wire_network no_chunks false) toy_stream (r, h) = (RelayAgain, (r', h'))
    /\ rl_buffered r' = [SrChunk stop].
Proof.
  intros Hb. unfold relay_iteration, relay_front. destruct (rl_disconnected_since r) as [since|] eqn:Hs.
  - cbn. rewrite Hb. eexists _, _. by split.
  - rewrite Hb. cbn. unfold is_disconnected. rewrite Hs. eexists _, _. by split.
Qed.

(** The host stops at the [Done]: the usage that a provider sends after it is
    never read. *)
Lemma usage_after_done_is_not_read usage :
  host_run (N := wire_network never false) toy_stream
    [HeNext (Some (Ok stop)); HeRelay; HeNext (Some (Ok (ScUsage usage)))] (toy_start never false no_losses) = None.
Proof. vm_compute. reflexivity. Qed.

(** Each reconnection forgets since when the link was down, so that on such a
    link the relaying loop never ends, whatever the grace; and neither a
    cancellation nor the end of the lease is looked at in it. *)
Lemma relay_loop_livelock k : exists s,
  host_run (N := wire_network no_chunks false) toy_stream (replicate k HeRelay)
    (toy_relaying no_chunks false no_losses [SrChunk stop]) = Some s /\ sy_place s = AtRelay.
Proof.
  assert (Hloop : forall r h, rl_buffered r = [SrChunk stop] -> exists s,
    host_run (N := wire_network no_chunks false) toy_stream (replicate k HeRelay) (sy_at AtRelay (r, h)) = Some s
    /\ sy_place s = AtRelay); [|by apply Hloop].
  induction k as [|k IH]; intros r h Hb; [by eexists|].
  destruct (no_chunks_iteration r h Hb) as (r' & h' & Hi & Hb').
  destruct (IH r' h' Hb') as (s & Hr & Hp). exists s. split; [|done].
  rewrite host_run_relay, step_relay, Hi. exact Hr.
Qed.

(** The allowlist hides the defaults of the backend it wraps. *)
Lemma allowlist_drops_defaults `{JO : JsonObject} {P} (a : ModelAllowlistBackend P) provider model params :
  allows a provider model = true ->
  build_provider_for_request (allowlist_backend a) provider model params
  = be_build_provider (ma_inner a) {| br_provider_name := provider; br_model := model;
                           br_params := params ≫= sanitized_request_params |}.
Proof.
  intros Ha. unfold build_provider_for_request. cbn. rewrite Ha. do 2 f_equal.
  by destruct (params ≫= sanitized_request_params).
Qed.

(** The response of a remote chat is the provider's. *)
Lemma finish_reason_roundtrip r : parse_finish_reason (finish_reason_debug r) = r.
Proof. by destruct r. Qed.

Lemma response_roundtrip r : cr_tool_calls r <> Some [] -> response_of_wire (wire_of_response r) = r.
Proof.
  intros Hc. destruct r as [t calls fr th u]. unfold response_of_wire, wire_of_response. cbn in *. f_equal.
  - by destruct calls as [[]|].
  - destruct fr; cbn; [by rewrite finish_reason_roundtrip|done].
Qed.
