(* ===== verification/Providers.v ===== *)
(** Providers over HTTP: how a streamed response is cut into lines and given to
    a provider's parser (querymt/adapters.rs, querymt/chat/http.rs), and the
    providers of Anthropic (crates/providers/anthropic/src/lib.rs) and of
    OpenAI (crates/providers/openai/src/api.rs): the requests they make of the
    messages, the parsers of their streams, their responses.  What serde reads
    of a JSON text, or writes, is a parameter. *)
From S2P Require Import Prelude Numbers Text Json Chat LlmErrors TextOps Invites.

Local Open Scope Z_scope.

(** ** The lines of a streamed response *)

(** [ChatStreamParser]; a parser that fails keeps the state it had reached. *)
Record ChatStreamParser (S : Type) := {
  parse_chunk : Bytes -> S -> result LLMError (list StreamChunk) * S;
  parser_finish : S -> result LLMError (list StreamChunk) * S;
}.
Arguments parse_chunk {S} _.
Arguments parser_finish {S} _.

(** The lines of the buffer, with their line feed, and what is left. *)
Fixpoint split_buffer (line : Bytes) (buffer : Bytes) : list Bytes * Bytes :=
  match buffer with
  | [] => ([], line)
  | b :: rest =>
      if b =? 10 then let '(ls, remaining) := split_buffer [] rest in ((line ++ [b]) :: ls, remaining)
      else split_buffer (line ++ [b]) rest
  end.

Section adapter.
Context {S : Type} (parser : ChatStreamParser S).

Fixpoint parse_lines (ls : list Bytes) (chunks : list StreamChunk) (s : S)
    : result LLMError (list StreamChunk) * S :=
  match ls with
  | [] => (Ok chunks, s)
  | line :: rest =>
      match parse_chunk parser line s with
      | (Ok parsed, s') => parse_lines rest (chunks ++ parsed) s'
      | (Err e, s') => (Err e, s')
      end
  end.

(** The state of the [scan]. *)
Record ScanState := { sn_buffer : Bytes; sn_done : bool; sn_parser : S }.

(** One item of the body's stream; [None] once the stream is done. *)
Definition scan_step (st : ScanState) (item : result LLMError Bytes)
    : option (result LLMError (list StreamChunk)) * ScanState :=
  if sn_done st then (None, st)
  else
    match item with
    | Err e => (Some (Err e), {| sn_buffer := sn_buffer st; sn_done := true; sn_parser := sn_parser st |})
    | Ok bytes =>
        let '(ls, remaining) := split_buffer [] (sn_buffer st ++ bytes) in
        match parse_lines ls [] (sn_parser st) with
        | (Err e, s) =>
            (Some (Err e), {| sn_buffer := sn_buffer st ++ bytes; sn_done := true; sn_parser := s |})
        | (Ok chunks, s) =>
            match bytes with
            | [] =>
                let '(r, s) := parser_finish parser s in
                (Some (match r with Ok tail => Ok (chunks ++ tail) | Err e => Err e end),
                 {| sn_buffer := remaining; sn_done := true; sn_parser := s |})
            | _ => (Some (Ok chunks), {| sn_buffer := remaining; sn_done := false; sn_parser := s |})
            end
        end
    end.

(** [flat_map]: the items of one step. *)
Definition stream_items (r : result LLMError (list StreamChunk)) : list (result LLMError StreamChunk) :=
  match r with Ok chunks => map Ok chunks | Err e => [Err e] end.

Fixpoint scan_stream (st : ScanState) (items : list (result LLMError Bytes)) : list (result LLMError StreamChunk) :=
  match items with
  | [] => []
  | item :: rest =>
      match scan_step st item with
      | (None, _) => []
      | (Some r, st') => stream_items r ++ scan_stream st' rest
      end
  end.

(** The stream of [chat_stream_with_tools]; a line feed and an empty piece are
    put after the body. *)
Definition adapter_stream (body : list (result LLMError Bytes)) (s : S) : list (result LLMError StreamChunk) :=
  scan_stream {| sn_buffer := []; sn_done := false; sn_parser := s |} (body ++ [Ok [10]; Ok []]).
End adapter.

(** ** Text *)

(** [String::from_utf8_lossy]: what is no character becomes U+FFFD.  Each turn
    drops a byte at least: as much fuel as there are bytes is enough. *)
Fixpoint utf8_lossy (fuel : nat) (b : Bytes) : Bytes :=
  match fuel, b with
  | Datatypes.S fuel', lead :: rest =>
      match utf8_char lead rest with
      | Ok n => take n b ++ utf8_lossy fuel' (drop n b)
      | Err (Some n) => [239; 191; 189] ++ utf8_lossy fuel' (drop n b)
      | Err None => [239; 191; 189]
      end
  | _, _ => []
  end.
Definition from_utf8_lossy (b : Bytes) : string := text_of (utf8_lossy (length b) b).

(** ** Anthropic: the stream *)

Record AnthropicStreamContentBlock := {
  acb_block_type : string;
  acb_id : option string;
  acb_name : option string;
}.

Record AnthropicDelta := {
  ad_text : option string;
  ad_partial_json : option string;
  ad_thinking : option string;
  ad_signature : option string;
  ad_stop_reason : option string;
}.

(** [message]: the usage of the nested message. *)
Record AnthropicStreamResponse := {
  asr_response_type : string;
  asr_index : option Z;
  asr_content_block : option AnthropicStreamContentBlock;
  asr_delta : option AnthropicDelta;
  asr_usage : option Usage;
  asr_message : option (option Usage);
}.

Record AnthropicToolUseState := { at_id : string; at_name : string; at_arguments_buffer : string }.

(** The buffers; a thinking block has its signature. *)
Record AnthropicStreamParser := {
  ant_oauth : bool;
  ant_tools : gmap Z AnthropicToolUseState;
  ant_thinking : gmap Z string;
}.

Definition TOOL_PREFIX : string := "mcp_".

Definition strip_tool_prefix (name : string) : string := default name (strip_prefix TOOL_PREFIX name).

Definition map_stop_reason (stop_reason : string) : FinishReason :=
  if String.eqb stop_reason "end_turn" || String.eqb stop_reason "stop_sequence" then FrStop
  else if String.eqb stop_reason "max_tokens" then FrLength
  else if String.eqb stop_reason "tool_use" then FrToolCalls
  else if String.eqb stop_reason "refusal" || String.eqb stop_reason "pause_turn" then FrOther
  else FrUnknown.

Definition ant_set_tools (m : gmap Z AnthropicToolUseState) (p : AnthropicStreamParser) : AnthropicStreamParser :=
  {| ant_oauth := ant_oauth p; ant_tools := m; ant_thinking := ant_thinking p |}.
Definition ant_set_thinking (m : gmap Z string) (p : AnthropicStreamParser) : AnthropicStreamParser :=
  {| ant_oauth := ant_oauth p; ant_tools := ant_tools p; ant_thinking := m |}.

Definition option_list {A} (o : option A) : list A := match o with Some x => [x] | None => [] end.

Definition function_call (id name arguments : string) : ToolCall :=
  {| tc_id := id; tc_call_type := "function"; tc_function := {| fc_name := name; fc_arguments := arguments |} |}.

(** The branches of the [match] on the type of an event. *)
Definition content_block_start (index : Z) (block : AnthropicStreamContentBlock) (p : AnthropicStreamParser)
    : list StreamChunk * AnthropicStreamParser :=
  if String.eqb (acb_block_type block) "tool_use" then
    let name := default "" (acb_name block) in
    let name := if ant_oauth p then strip_tool_prefix name else name in
    let id := default "" (acb_id block) in
    ([ScToolUseStart index id name],
     ant_set_tools (<[index := {| at_id := id; at_name := name; at_arguments_buffer := "" |}]> (ant_tools p)) p)
  else if String.eqb (acb_block_type block) "thinking" then
    ([], ant_set_thinking (<[index := ""]> (ant_thinking p)) p)
  else ([], p).

Definition push_arguments (s : string) (t : AnthropicToolUseState) : AnthropicToolUseState :=
  {| at_id := at_id t; at_name := at_name t; at_arguments_buffer := at_arguments_buffer t +:+ s |}.

Definition content_block_delta (index : Z) (delta : AnthropicDelta) (p : AnthropicStreamParser)
    : list StreamChunk * AnthropicStreamParser :=
  match ad_text delta, ad_thinking delta, ad_signature delta, ad_partial_json delta with
  | Some text, _, _, _ => ([ScText text], p)
  | None, Some thinking, _, _ => ([ScThinking thinking], p)
  | None, None, Some signature, _ =>
      ([], ant_set_thinking (alter (fun s => s +:+ signature) index (ant_thinking p)) p)
  | None, None, None, Some partial_json =>
      ([ScToolUseInputDelta index partial_json],
       ant_set_tools (alter (push_arguments partial_json) index (ant_tools p)) p)
  | None, None, None, None => ([], p)
  end.

Definition content_block_stop (index : Z) (p : AnthropicStreamParser) : list StreamChunk * AnthropicStreamParser :=
  let complete := match ant_tools p !! index with
    | Some t => [ScToolUseComplete index (function_call (at_id t) (at_name t)
        (if is_empty_str (at_arguments_buffer t) then "{}" else at_arguments_buffer t))]
    | None => []
    end in
  let signature := match ant_thinking p !! index with
    | Some s => if is_empty_str s then [] else [ScThinkingSignature s]
    | None => []
    end in
  (complete ++ signature,
   ant_set_thinking (delete index (ant_thinking p)) (ant_set_tools (delete index (ant_tools p)) p)).

Definition message_delta (usage : option Usage) (delta : option AnthropicDelta) : list StreamChunk :=
  map ScUsage (option_list usage)
  ++ map (fun r => ScDone (map_stop_reason r)) (option_list (delta ≫= ad_stop_reason)).

Definition anthropic_event (e : AnthropicStreamResponse) (p : AnthropicStreamParser)
    : list StreamChunk * AnthropicStreamParser :=
  let type := asr_response_type e in
  if String.eqb type "message_start" then (map ScUsage (option_list (mjoin (asr_message e))), p)
  else if String.eqb type "content_block_start" then
    match asr_index e, asr_content_block e with
    | Some index, Some block => content_block_start index block p
    | _, _ => ([], p)
    end
  else if String.eqb type "content_block_delta" then
    match asr_index e, asr_delta e with
    | Some index, Some delta => content_block_delta index delta p
    | _, _ => ([], p)
    end
  else if String.eqb type "content_block_stop" then
    match asr_index e with Some index => content_block_stop index p | None => ([], p) end
  else if String.eqb type "message_delta" then (message_delta (asr_usage e) (asr_delta e), p)
  else ([], p).

Section anthropic_stream.
(** [serde_json::from_str::<AnthropicStreamResponse>], with the error's text. *)
Context (read_event : string -> result string AnthropicStreamResponse).

(** The data of a line, when it is one of an event. *)
Definition anthropic_data (line : string) : option string :=
  data ← strip_prefix "data: " line;
  let data := trim data in
  if is_empty_str data || String.eqb data "[DONE]" then None else Some data.

Fixpoint anthropic_lines (ls : list string) (chunks : list StreamChunk) (p : AnthropicStreamParser)
    : result LLMError (list StreamChunk) * AnthropicStreamParser :=
  match ls with
  | [] => (Ok chunks, p)
  | line :: rest =>
      match anthropic_data line with
      | None => anthropic_lines rest chunks p
      | Some data =>
          match read_event data with
          | Err e => (Err (ResponseFormatError ("Failed to parse Anthropic stream data: " +:+ e) data), p)
          | Ok event =>
              let '(parsed, p') := anthropic_event event p in
              anthropic_lines rest (chunks ++ parsed) p'
          end
      end
  end.

Definition anthropic_parse_chunk (chunk : Bytes) (p : AnthropicStreamParser)
    : result LLMError (list StreamChunk) * AnthropicStreamParser :=
  match from_utf8 chunk with
  | Err e => (Err (GenericError e), p)
  | Ok text => anthropic_lines (lines text) [] p
  end.

(** [finish] is the trait's default. *)
Definition anthropic_parser : ChatStreamParser AnthropicStreamParser :=
  {| parse_chunk := anthropic_parse_chunk; parser_finish := fun p => (Ok [], p) |}.

Definition anthropic_stream_parser (oauth : bool) : AnthropicStreamParser :=
  {| ant_oauth := oauth; ant_tools := ∅; ant_thinking := ∅ |}.
End anthropic_stream.

(** ** Anthropic: requests and responses *)

Inductive AuthType := AuApiKey | AuOAuth.

#[export] Instance AuthType_eq_dec : EqDecision AuthType.
Proof. solve_decision. Defined.

Definition starts_with_digit (s : string) : bool :=
  match s with String c _ => in_range 48 57 c | EmptyString => false end.

Definition detect_auth_type (api_key : string) (explicit_auth_type : option AuthType) : AuthType :=
  match explicit_auth_type with
  | Some a => a
  | None =>
      match strip_prefix "sk-ant-oat" api_key with
      | Some rest => if starts_with_digit rest then AuOAuth else AuApiKey
      | None => AuApiKey
      end
  end.

Inductive ToolChoice := TcAny | TcAuto | TcTool (name : string) | TcNone.

Inductive CacheTTL := FiveMinutes | OneHour.
Record CacheControlEphemeral := { cc_control_type : string; cc_ttl : option CacheTTL }.

Section anthropic.
Context `{J : Json}.
(** [Value::is_object], the base64 text of bytes, and [serde_json::to_string]. *)
Context (is_object : Value -> bool) (base64 : string -> string) (value_text : Value -> string).

Record ImageSource := { is_source_type : string; is_media_type : string; is_data : string }.

Inductive ToolResultContent := TrText (text : string) | TrImage (source : ImageSource).

(** The blocks of a message; each has the type its constructor says. *)
Inductive MessageBlock :=
| AmText (text : string)
| AmImage (source : ImageSource)
| AmImageUrl (url : string)
| AmDocument (source : ImageSource)
| AmThinking (thinking signature : string)
| AmToolUse (id name : string) (input : Value)
| AmToolResult (tool_use_id : string) (is_error : option bool) (content : list ToolResultContent).

Record MessageContent := { mc_block : MessageBlock; mc_cache_control : option CacheControlEphemeral }.

Record AnthropicMessage := { ams_role : string; ams_content : list MessageContent }.

(** A block of a system prompt; its citations are copied and not read. *)
Record TextBlockParam := { tb_text : string; tb_cache_control : option CacheControlEphemeral }.

Inductive AnthropicSystemPrompt := SysText (s : string) | SysBlocks (blocks : list TextBlockParam).

Definition text_block (s : string) : TextBlockParam := {| tb_text := s; tb_cache_control := None |}.

Record Anthropic := {
  an_api_key : string;
  an_auth_type : option AuthType;
  an_model : string;
  an_max_tokens : Z;
  an_system : option AnthropicSystemPrompt;
  an_stream : option bool;
  an_top_k : option Z;
  an_tools : option (list Tool);
  an_tool_choice : option ToolChoice;
  an_reasoning_effort : option ReasoningEffort;
  an_reasoning_budget_tokens : option Z;
  an_key_resolver : option string;
}.

(** [resolver.current()] is the value of the resolver's key. *)
Definition resolved_key (a : Anthropic) : string := default (an_api_key a) (an_key_resolver a).
Definition determine_auth_type (a : Anthropic) : AuthType := detect_auth_type (resolved_key a) (an_auth_type a).
Definition is_oauth (a : Anthropic) : bool := bool_decide (determine_auth_type a = AuOAuth).

Definition OAUTH_SYSTEM_PROMPT : string := "You are Claude Code, Anthropic's official CLI for Claude.".

Definition sanitize_system_prompt (a : Anthropic) : option AnthropicSystemPrompt :=
  if negb (is_oauth a) then an_system a
  else Some (SysBlocks (text_block OAUTH_SYSTEM_PROMPT ::
    match an_system a with
    | None => []
    | Some (SysText s) => [text_block s]
    | Some (SysBlocks blocks) => blocks
    end)).

Definition prefix_tool_name (a : Anthropic) (name : string) : string :=
  if is_oauth a then TOOL_PREFIX +:+ name else name.

Definition is_adaptive_reasoning_model (a : Anthropic) : bool :=
  existsb (contains (an_model a)) ["opus-4-6"; "opus-4.6"; "sonnet-4-6"; "sonnet-4.6"].

Definition effort_budget_tokens (e : ReasoningEffort) : Z :=
  match e with ReLow => 1024 | ReMedium => 8000 | ReHigh => 16000 | ReMax => 31999 end.

Record ThinkingConfig := { th_thinking_type : string; th_budget_tokens : option Z }.

Definition thinking_config (a : Anthropic) : option ThinkingConfig :=
  (fun effort =>
     if is_adaptive_reasoning_model a then {| th_thinking_type := "adaptive"; th_budget_tokens := None |}
     else {| th_thinking_type := "enabled"; th_budget_tokens :=
               Some (default (effort_budget_tokens effort) (an_reasoning_budget_tokens a)) |})
  <$> an_reasoning_effort a.

Definition image_source (media_type data : string) : ImageSource :=
  {| is_source_type := "base64"; is_media_type := media_type; is_data := base64 data |}.

Definition tool_result_content (c : Content) : option ToolResultContent :=
  match c with
  | CText text => Some (TrText text)
  | CImage mime_type data => Some (TrImage (image_source mime_type data))
  | _ => None
  end.

(** One block of a message; a block that Anthropic does not take is skipped. *)
Definition message_block (a : Anthropic) (c : Content) : option MessageBlock :=
  match c with
  | CText text => if is_empty_str text then None else Some (AmText text)
  | CThinking text signature => AmThinking text <$> signature
  | CImage mime_type data => Some (AmImage (image_source mime_type data))
  | CImageUrl url => Some (AmImageUrl url)
  | CPdf data => Some (AmDocument (image_source "application/pdf" data))
  | CToolUse id name arguments =>
      Some (AmToolUse id (prefix_tool_name a name) (if is_object arguments then arguments else object_empty))
  | CToolResult id _ is_error inner =>
      Some (AmToolResult id (if is_error then Some true else None) (omap tool_result_content inner))
  | CAudio _ _ | CResourceLink _ _ _ _ => None
  end.

Definition cache_control (hint : CacheHint) : CacheControlEphemeral :=
  match hint with
  | Ephemeral ttl => {| cc_control_type := "ephemeral";
      cc_ttl := (fun s => if 300 <? s then OneHour else FiveMinutes) <$> ttl |}
  end.

(** The cache control goes to the last block. *)
Fixpoint mark_last (cc : CacheControlEphemeral) (l : list MessageContent) : list MessageContent :=
  match l with
  | [] => []
  | [b] => [{| mc_block := mc_block b; mc_cache_control := Some cc |}]
  | b :: rest => b :: mark_last cc rest
  end.

Definition anthropic_message (a : Anthropic) (m : ChatMessage) : AnthropicMessage :=
  let content := map (fun b => {| mc_block := b; mc_cache_control := None |}) (omap (message_block a) (cm_content m)) in
  {| ams_role := match cm_role m with User => "user" | Assistant => "assistant" end;
     ams_content := match cm_cache m with Some hint => mark_last (cache_control hint) content | None => content end |}.

Record AnthropicTool := { atl_name : string; atl_description : string; atl_schema : Value }.

Definition anthropic_tool (a : Anthropic) (t : Tool) : AnthropicTool :=
  {| atl_name := prefix_tool_name a (ft_name (tool_function t));
     atl_description := ft_description (tool_function t);
     atl_schema := ft_parameters (tool_function t) |}.

(** The fields of [tool_choice], in no particular order. *)
Definition tool_choice_fields (a : Anthropic) : option (list (string * string)) :=
  (fun c => match c with
            | TcAuto => [("type", "auto")]
            | TcAny => [("type", "any")]
            | TcTool name => [("type", "tool"); ("name", prefix_tool_name a name)]
            | TcNone => [("type", "none")]
            end) <$> an_tool_choice a.

(** The request: its body without [temperature] and [top_p], which are copied
    or set to one, its headers and its URL. *)
Record AnthropicRequest := {
  arq_messages : list AnthropicMessage;
  arq_model : string;
  arq_max_tokens : option Z;
  arq_system : option AnthropicSystemPrompt;
  arq_stream : option bool;
  arq_top_k : option Z;
  arq_tools : option (list AnthropicTool);
  arq_tool_choice : option (list (string * string));
  arq_thinking : option ThinkingConfig;
  arq_url : string;
  arq_headers : list (string * string);
}.

Definition auth_headers (a : Anthropic) : list (string * string) :=
  match determine_auth_type a with
  | AuOAuth => [("authorization", "Bearer " +:+ resolved_key a);
                ("anthropic-beta", "oauth-2025-04-20,interleaved-thinking-2025-05-14");
                ("user-agent", "claude-cli/2.1.2 (external, cli)")]
  | AuApiKey => [("x-api-key", resolved_key a)]
  end ++ [("anthropic-version", "2023-06-01")].

Definition anthropic_chat_request (a : Anthropic) (messages : list ChatMessage) (tools : option (list Tool))
    : result LLMError AnthropicRequest :=
  if is_empty_str (resolved_key a) then Err (AuthError "Missing Anthropic API key")
  else
    let anthropic_tools := map (anthropic_tool a) <$> or_else tools (an_tools a) in
    Ok {| arq_messages := map (anthropic_message a) messages;
          arq_model := an_model a;
          arq_max_tokens := Some (an_max_tokens a);
          arq_system := sanitize_system_prompt a;
          arq_stream := an_stream a;
          arq_top_k := an_top_k a;
          arq_tools := anthropic_tools;
          arq_tool_choice := match anthropic_tools with Some _ => tool_choice_fields a | None => None end;
          arq_thinking := thinking_config a;
          arq_url := "https://api.anthropic.com/v1/messages" +:+ (if is_oauth a then "?beta=true" else "");
          arq_headers := ("content-type", "application/json") :: auth_headers a |}.

Definition an_streaming (a : Anthropic) : Anthropic :=
  {| an_api_key := an_api_key a; an_auth_type := an_auth_type a; an_model := an_model a;
     an_max_tokens := an_max_tokens a; an_system := an_system a; an_stream := Some true;
     an_top_k := an_top_k a; an_tools := an_tools a; an_tool_choice := an_tool_choice a;
     an_reasoning_effort := an_reasoning_effort a;
     an_reasoning_budget_tokens := an_reasoning_budget_tokens a; an_key_resolver := an_key_resolver a |}.

Definition anthropic_chat_stream_request (a : Anthropic) := anthropic_chat_request (an_streaming a).

(** The response of a call that is not streamed. *)
Record AnthropicContent := {
  aco_text : option string;
  aco_content_type : option string;
  aco_thinking : option string;
  aco_name : option string;
  aco_input : option Value;
  aco_id : option string;
}.

Record AnthropicCompleteResponse := {
  acr_content : list AnthropicContent;
  acr_stop_reason : string;
  acr_usage : option Usage;
}.

Definition has_type (type : string) (c : AnthropicContent) : bool :=
  bool_decide (aco_content_type c = Some type).

Definition response_text (r : AnthropicCompleteResponse) : string :=
  join nl (omap (fun c => if has_type "text" c || bool_decide (aco_content_type c = None)
                          then aco_text c else None) (acr_content r)).

Definition response_tool_calls (r : AnthropicCompleteResponse) : option (list ToolCall) :=
  match omap (fun c =>
      if has_type "tool_use" c then Some (function_call (default "" (aco_id c)) (default "" (aco_name c))
        (value_text (default value_null (aco_input c)))) else None) (acr_content r) with
  | [] => None
  | calls => Some calls
  end.

Definition complete_finish_reason (r : AnthropicCompleteResponse) : FinishReason :=
  let s := acr_stop_reason r in
  if String.eqb s "end_turn" then FrStop
  else if String.eqb s "max_tokens" then FrLength
  else if String.eqb s "stop_sequence" then FrStop
  else if String.eqb s "tool_use" then FrToolCalls
  else if String.eqb s "refusal" || String.eqb s "pause_turn" then FrOther
  else FrUnknown.

Definition anthropic_response (r : AnthropicCompleteResponse) : ChatResponse :=
  {| cr_text := Some (response_text r);
     cr_tool_calls := response_tool_calls r;
     cr_finish_reason := Some (complete_finish_reason r);
     cr_thinking := List.find (has_type "thinking") (acr_content r) ≫= aco_thinking;
     cr_usage := acr_usage r |}.

(** [parse_chat] of a successful response: the names are those of the tools. *)
Definition anthropic_parse_chat (a : Anthropic) (r : AnthropicCompleteResponse) : AnthropicCompleteResponse :=
  if is_oauth a then
    {| acr_content := map (fun c => {| aco_text := aco_text c; aco_content_type := aco_content_type c;
         aco_thinking := aco_thinking c; aco_name := strip_tool_prefix <$> aco_name c;
         aco_input := aco_input c; aco_id := aco_id c |}) (acr_content r);
       acr_stop_reason := acr_stop_reason r; acr_usage := acr_usage r |}
  else r.
End anthropic.

(** ** OpenAI: authentication *)

Inductive OpenAIAuthType := OaApiKey | OaOAuth | OaNoAuth.

#[export] Instance OpenAIAuthType_eq_dec : EqDecision OpenAIAuthType.
Proof. solve_decision. Defined.

(** The host of a URL is [base_url.host_str()]. *)
Definition is_openai_host (host : option string) : bool := bool_decide (host = Some "api.openai.com").

(** [token.split('.').count()] *)
Definition dot_segments (token : string) : nat := length (toy_split (toy_char 46) token).

Definition openai_determine_auth_type (token : string) (explicit : option OpenAIAuthType) (host : option string)
    : OpenAIAuthType :=
  if negb (is_openai_host host) then OaApiKey
  else
    match explicit with
    | Some auth_type => auth_type
    | None =>
        if is_prefix_of "sk-" token then OaApiKey
        else if Nat.eqb (dot_segments token) 3 || is_prefix_of "eyJ" token then OaOAuth
        else OaApiKey
    end.

Definition determine_effective_auth (token : string) (explicit : option OpenAIAuthType) (host : option string)
    : result LLMError OpenAIAuthType :=
  if bool_decide (explicit = Some OaNoAuth) then
    if is_openai_host host then Err (AuthError "OpenAI (api.openai.com) requires authentication") else Ok OaNoAuth
  else if is_openai_host host then
    if is_empty_str token then Err (AuthError "Missing OpenAI auth token")
    else Ok (openai_determine_auth_type token explicit host)
  else if is_empty_str token then Ok OaNoAuth
  else Ok OaApiKey.

(** The headers a request gets, after those it has. *)
Definition maybe_add_auth_header (headers : list (string * string)) (auth : OpenAIAuthType) (token : string)
    : result LLMError (list (string * string)) :=
  match auth with
  | OaNoAuth => Ok headers
  | _ =>
      if is_empty_str token then Err (AuthError "Missing OpenAI auth token")
      else Ok (headers ++ [("authorization", "Bearer " +:+ token)])
  end.

(** ** OpenAI: requests *)

Definition openai_effort_str (e : ReasoningEffort) : string :=
  match e with ReLow => "low" | ReMedium => "medium" | ReHigh => "high" | ReMax => "xhigh" end.

Section openai.
Context `{J : Json}.
(** [serde_json::to_string] of the arguments of a call. *)
Context (args_text : Value -> string).

(** A call, with the [type] "function". *)
Record OpenAIFunctionCall := { ofc_id : string; ofc_name : string; ofc_arguments : string }.

(** A part of a content array. *)
Inductive OpenAIMessageContent := OmText (text : string) | OmImageUrl (url : string).

Inductive OpenAIContent := OcParts (parts : list OpenAIMessageContent) | OcText (text : string).

Record OpenAIChatMessage := {
  om_role : string;
  om_content : option OpenAIContent;
  om_tool_calls : option (list OpenAIFunctionCall);
  om_tool_call_id : option string;
  om_reasoning_content : option string;
}.

(** The text blocks, joined by line feeds. *)
Definition joined_text (blocks : list Content) : string := join nl (omap as_text blocks).

Definition openai_tool_result (c : Content) : option OpenAIChatMessage :=
  match c with
  | CToolResult id _ _ content =>
      Some {| om_role := "tool"; om_content := Some (OcText (joined_text content)); om_tool_calls := None;
              om_tool_call_id := Some id; om_reasoning_content := None |}
  | _ => None
  end.

Definition openai_tool_call (c : Content) : option OpenAIFunctionCall :=
  match c with
  | CToolUse id name arguments =>
      Some {| ofc_id := id; ofc_name := name; ofc_arguments := args_text arguments |}
  | _ => None
  end.

Definition is_image (c : Content) : bool := match c with CImageUrl _ | CImage _ _ => true | _ => false end.

Definition openai_part (c : Content) : option OpenAIMessageContent :=
  match c with CText text => Some (OmText text) | CImageUrl url => Some (OmImageUrl url) | _ => None end.

(** The messages one message becomes. *)
Definition convert_chat_message_to_openai (m : ChatMessage) : list OpenAIChatMessage :=
  let role := match cm_role m with User => "user" | Assistant => "assistant" end in
  let message content calls := {| om_role := role; om_content := content; om_tool_calls := calls;
    om_tool_call_id := None; om_reasoning_content := cm_thinking m |} in
  if has_tool_result m then
    let text := joined_text (List.filter (fun b => negb (is_tool_result b)) (cm_content m)) in
    omap openai_tool_result (cm_content m)
    ++ (if is_empty_str text then [] else [message (Some (OcText text)) None])
  else if has_tool_use m then
    let text := cm_text m in
    let tool_calls := omap openai_tool_call (cm_content m) in
    [message (if is_empty_str text then None else Some (OcText text))
             (match tool_calls with [] => None | _ => Some tool_calls end)]
  else if existsb is_image (cm_content m) then
    [message (Some (OcParts (omap openai_part (cm_content m)))) None]
  else [message (Some (OcText (cm_text m))) None].

(** [OpenAIProviderConfig], but for what is copied to the request unread
    ([temperature], [top_p], [json_schema], [extra_body]); of the base URL, its
    host and what joining "chat/completions" to it gives. *)
Record OpenAI := {
  oa_api_key : string;
  oa_auth_type : option OpenAIAuthType;
  oa_host : option string;
  oa_chat_url : result string string;
  oa_model : string;
  oa_max_tokens : option Z;
  oa_system : list string;
  oa_stream : option bool;
  oa_top_k : option Z;
  oa_tools : option (list Tool);
  oa_tool_choice : option ToolChoice;
  oa_reasoning_effort : option ReasoningEffort;
}.

Record OpenAIRequest := {
  orq_model : string;
  orq_messages : list OpenAIChatMessage;
  orq_max_tokens : option Z;
  orq_stream : bool;
  orq_top_k : option Z;
  orq_tools : option (list Tool);
  orq_tool_choice : option ToolChoice;
  orq_reasoning_effort : option string;
  orq_url : string;
  orq_headers : list (string * string);
}.

Definition system_message (part : string) : OpenAIChatMessage :=
  {| om_role := "system"; om_content := Some (OcParts [OmText part]); om_tool_calls := None;
     om_tool_call_id := None; om_reasoning_content := None |}.

Definition openai_chat_request (cfg : OpenAI) (messages : list ChatMessage) (tools : option (list Tool))
    : result LLMError OpenAIRequest :=
  match determine_effective_auth (oa_api_key cfg) (oa_auth_type cfg) (oa_host cfg) with
  | Err e => Err e
  | Ok auth =>
      let openai_msgs := flat_map convert_chat_message_to_openai messages in
      let openai_msgs := fold_left (fun msgs part => system_message part :: msgs) (rev (oa_system cfg)) openai_msgs in
      let request_tools := or_else tools (oa_tools cfg) in
      match oa_chat_url cfg with
      | Err e => Err (HttpError e)
      | Ok url =>
          match maybe_add_auth_header [("content-type", "application/json")] auth (oa_api_key cfg) with
          | Err e => Err e
          | Ok headers =>
              Ok {| orq_model := oa_model cfg; orq_messages := openai_msgs;
                    orq_max_tokens := oa_max_tokens cfg; orq_stream := default false (oa_stream cfg);
                    orq_top_k := oa_top_k cfg; orq_tools := request_tools;
                    orq_tool_choice := match request_tools with Some _ => oa_tool_choice cfg | None => None end;
                    orq_reasoning_effort := openai_effort_str <$> oa_reasoning_effort cfg;
                    orq_url := url; orq_headers := headers |}
          end
      end
  end.
End openai.

(** ** OpenAI: responses and the stream *)

(** The details of the tokens are their single fields. *)
Record OpenAIRawUsage := {
  ru_prompt_tokens : Z;
  ru_completion_tokens : Z;
  ru_cached_tokens : option Z;
  ru_reasoning_tokens : option Z;
  ru_prompt_cache_hit_tokens : option Z;
}.

Definition into_usage (u : OpenAIRawUsage) : Usage :=
  let cache_read := Z.max (default 0 (ru_cached_tokens u)) (default 0 (ru_prompt_cache_hit_tokens u)) in
  let reasoning := default 0 (ru_reasoning_tokens u) in
  {| u_input := u32_saturating_sub (ru_prompt_tokens u) cache_read;
     u_output := u32_saturating_sub (ru_completion_tokens u) reasoning;
     u_reasoning := reasoning; u_cache_read := cache_read; u_cache_write := 0 |}.

Record OpenAIChatChoice := {
  oc_finish_reason : string;
  oc_content : option string;
  oc_thinking : option string;
  oc_tool_calls : option (list ToolCall);
}.

Record OpenAIChatResponse := { or_choices : list OpenAIChatChoice; or_usage : option OpenAIRawUsage }.

Definition openai_finish_reason (s : string) : FinishReason :=
  if String.eqb s "stop" then FrStop
  else if String.eqb s "length" then FrLength
  else if String.eqb s "content_filter" then FrContentFilter
  else if String.eqb s "tool_calls" || String.eqb s "function_call" then FrToolCalls
  else FrUnknown.

Definition openai_response (r : OpenAIChatResponse) : ChatResponse :=
  {| cr_text := head (or_choices r) ≫= oc_content;
     cr_tool_calls := head (or_choices r) ≫= oc_tool_calls;
     cr_finish_reason := (fun c => openai_finish_reason (oc_finish_reason c)) <$> head (or_choices r);
     cr_thinking := head (or_choices r) ≫= oc_thinking;
     cr_usage := into_usage <$> or_usage r |}.

Record OpenAIStreamToolCall := {
  os_index : option Z;
  os_id : option string;
  os_name : option string;
  os_arguments : string;
}.

Record OpenAIStreamChoice := {
  osc_content : option string;
  osc_thinking : option string;
  osc_tool_calls : option (list OpenAIStreamToolCall);
  osc_finish_reason : option string;
}.

Record OpenAIStreamChunk := { osk_choices : list OpenAIStreamChoice; osk_usage : option OpenAIRawUsage }.

Record OpenAIToolUseState := {
  ot_id : string;
  ot_name : string;
  ot_arguments_buffer : string;
  ot_started : bool;
}.
Definition ot_default : OpenAIToolUseState :=
  {| ot_id := ""; ot_name := ""; ot_arguments_buffer := ""; ot_started := false |}.

Definition nonempty (f : string -> StreamChunk) (o : option string) : list StreamChunk :=
  match o with Some s => if is_empty_str s then [] else [f s] | None => [] end.

Definition openai_tool_delta (tc : OpenAIStreamToolCall) (states : gmap Z OpenAIToolUseState)
    : list StreamChunk * gmap Z OpenAIToolUseState :=
  let index := default 0 (os_index tc) in
  let state := default ot_default (states !! index) in
  let id := default (ot_id state) (os_id tc) in
  let name := default (ot_name state) (os_name tc) in
  let starts := match os_name tc with Some _ => negb (ot_started state) | None => false end in
  ((if starts then [ScToolUseStart index id name] else [])
   ++ nonempty (ScToolUseInputDelta index) (Some (os_arguments tc)),
   <[index := {| ot_id := id; ot_name := name;
                 ot_arguments_buffer := ot_arguments_buffer state +:+ os_arguments tc;
                 ot_started := starts || ot_started state |}]> states).

Fixpoint openai_tool_deltas (tcs : list OpenAIStreamToolCall) (states : gmap Z OpenAIToolUseState)
    : list StreamChunk * gmap Z OpenAIToolUseState :=
  match tcs with
  | [] => ([], states)
  | tc :: rest =>
      let '(chunks, states) := openai_tool_delta tc states in
      let '(more, states) := openai_tool_deltas rest states in
      (chunks ++ more, states)
  end.

Section openai_stream.
(** [serde_json::from_str::<OpenAIStreamChunk>], with the error's text, and the
    order in which [HashMap::drain] gives the entries of a map. *)
Context (read_chunk : string -> result string OpenAIStreamChunk).
Context (drain : gmap Z OpenAIToolUseState -> list (Z * OpenAIToolUseState)).

(** The calls that are complete when the map is drained. *)
Definition drain_completions (states : gmap Z OpenAIToolUseState) : list StreamChunk :=
  omap (fun '(index, state) =>
    if ot_started state
    then Some (ScToolUseComplete index (function_call (ot_id state) (ot_name state) (ot_arguments_buffer state)))
    else None) (drain states).

Definition stream_finish_reason (s : string) : FinishReason :=
  if String.eqb s "tool_calls" then FrToolCalls
  else if String.eqb s "stop" then FrStop
  else if String.eqb s "length" then FrLength
  else if String.eqb s "content_filter" then FrContentFilter
  else FrUnknown.

(** The chunks of a choice, the states after it, and whether it ends. *)
Definition openai_choice (c : OpenAIStreamChoice) (states : gmap Z OpenAIToolUseState)
    : list StreamChunk * gmap Z OpenAIToolUseState * bool :=
  let '(calls, states) := openai_tool_deltas (default [] (osc_tool_calls c)) states in
  let chunks := nonempty ScThinking (osc_thinking c) ++ nonempty ScText (osc_content c) ++ calls in
  match osc_finish_reason c with
  | Some reason => (chunks ++ drain_completions states ++ [ScDone (stream_finish_reason reason)], ∅, true)
  | None => (chunks, states, false)
  end.

Fixpoint openai_choices (cs : list OpenAIStreamChoice) (states : gmap Z OpenAIToolUseState)
    : list StreamChunk * gmap Z OpenAIToolUseState * bool :=
  match cs with
  | [] => ([], states, false)
  | c :: rest =>
      let '(chunks, states, done) := openai_choice c states in
      let '(more, states, done') := openai_choices rest states in
      (chunks ++ more, states, done || done')
  end.

Fixpoint openai_lines (ls : list string) (results : list StreamChunk) (states : gmap Z OpenAIToolUseState)
    : result LLMError (list StreamChunk) * gmap Z OpenAIToolUseState :=
  match ls with
  | [] => (Ok results, states)
  | line :: rest =>
      match strip_prefix "data: " (trim line) with
      | None => openai_lines rest results states
      | Some data =>
          if String.eqb data "[DONE]" then (Ok (results ++ drain_completions states ++ [ScDone FrStop]), ∅)
          else
            match read_chunk data with
            | Err e => (Err (ResponseFormatError ("Failed to parse OpenAI stream chunk: " +:+ e) data), states)
            | Ok chunk =>
                let usage := map (fun u => ScUsage (into_usage u)) (option_list (osk_usage chunk)) in
                let '(parsed, states', done) := openai_choices (osk_choices chunk) states in
                let results' := results ++ usage ++ parsed in
                if done : bool then (Ok results', states') else openai_lines rest results' states'
            end
      end
  end.

Definition parse_openai_sse_chunk (chunk : Bytes) (states : gmap Z OpenAIToolUseState)
    : result LLMError (list StreamChunk) * gmap Z OpenAIToolUseState :=
  match chunk with
  | [] => (Ok [], states)
  | _ => openai_lines (lines (from_utf8_lossy chunk)) [] states
  end.

Definition openai_parser : ChatStreamParser (gmap Z OpenAIToolUseState) :=
  {| parse_chunk := parse_openai_sse_chunk; parser_finish := fun s => (Ok [], s) |}.
End openai_stream.
