(* ===== verification/Codex.v ===== *)
(** The Codex provider (crates/providers/codex/src/api.rs): the items a request
    is made of, the parser of the stream of the Responses API with the calls
    and the reasoning it tracks, and the response that is not streamed. *)
From S2P Require Import Prelude Numbers Text Json Chat LlmErrors TextOps Invites Providers.

Local Open Scope Z_scope.

(** ** Usage *)

(** The details of the tokens are their single fields. *)
Record CodexRawUsage := {
  xu_input_tokens : Z;
  xu_output_tokens : Z;
  xu_cached_tokens : option Z;
  xu_reasoning_tokens : option Z;
}.

Definition codex_usage (u : CodexRawUsage) : Usage :=
  let cache_read := default 0 (xu_cached_tokens u) in
  let reasoning := default 0 (xu_reasoning_tokens u) in
  {| u_input := u32_saturating_sub (xu_input_tokens u) cache_read;
     u_output := u32_saturating_sub (xu_output_tokens u) reasoning;
     u_reasoning := reasoning; u_cache_read := cache_read; u_cache_write := 0 |}.

(** ** The state of a stream *)

Record CodexToolUseState := {
  cx_item_id : option string;
  cx_id : option string;
  cx_name : option string;
  cx_arguments : string;
  cx_started : bool;
  cx_emitted_thinking : list string;
  cx_emitted_thinking_text : string;
  cx_streamed_thinking_seen : bool;
}.
Definition cx_default : CodexToolUseState :=
  {| cx_item_id := None; cx_id := None; cx_name := None; cx_arguments := ""; cx_started := false;
     cx_emitted_thinking := []; cx_emitted_thinking_text := ""; cx_streamed_thinking_seen := false |}.

(** The key under which the reasoning is kept. *)
Definition usize_max : Z := 2 ^ 64 - 1.

(** [buffer.entry(index).or_default()] *)
Definition cx_entry (i : Z) (b : gmap Z CodexToolUseState) : CodexToolUseState := default cx_default (b !! i).

Definition cx_set_arguments (s : string) (t : CodexToolUseState) : CodexToolUseState :=
  {| cx_item_id := cx_item_id t; cx_id := cx_id t; cx_name := cx_name t; cx_arguments := s;
     cx_started := cx_started t; cx_emitted_thinking := cx_emitted_thinking t;
     cx_emitted_thinking_text := cx_emitted_thinking_text t;
     cx_streamed_thinking_seen := cx_streamed_thinking_seen t |}.
Definition cx_set_started (t : CodexToolUseState) : CodexToolUseState :=
  {| cx_item_id := cx_item_id t; cx_id := cx_id t; cx_name := cx_name t; cx_arguments := cx_arguments t;
     cx_started := true; cx_emitted_thinking := cx_emitted_thinking t;
     cx_emitted_thinking_text := cx_emitted_thinking_text t;
     cx_streamed_thinking_seen := cx_streamed_thinking_seen t |}.
(** The ids and the name an item brings, where it does. *)
Definition cx_identify (item_id id name : option string) (t : CodexToolUseState) : CodexToolUseState :=
  {| cx_item_id := or_else item_id (cx_item_id t); cx_id := or_else id (cx_id t);
     cx_name := or_else name (cx_name t); cx_arguments := cx_arguments t;
     cx_started := cx_started t; cx_emitted_thinking := cx_emitted_thinking t;
     cx_emitted_thinking_text := cx_emitted_thinking_text t;
     cx_streamed_thinking_seen := cx_streamed_thinking_seen t |}.
Definition cx_emitted (seen : bool) (text : string) (t : CodexToolUseState) : CodexToolUseState :=
  {| cx_item_id := cx_item_id t; cx_id := cx_id t; cx_name := cx_name t; cx_arguments := cx_arguments t;
     cx_started := cx_started t; cx_emitted_thinking := cx_emitted_thinking t ++ [text];
     cx_emitted_thinking_text := cx_emitted_thinking_text t +:+ text;
     cx_streamed_thinking_seen := seen |}.

(** ** Reasoning *)

Definition mark_streamed_thinking_emitted (text : string) (b : gmap Z CodexToolUseState)
    : gmap Z CodexToolUseState :=
  <[usize_max := cx_emitted true text (cx_entry usize_max b)]> b.

(** What of a text is still to be emitted, when anything is. *)
Definition thinking_to_emit (text : string) (t : CodexToolUseState) : option string :=
  if cx_streamed_thinking_seen t then
    let emitted := cx_emitted_thinking_text t in
    if String.eqb emitted text || contains emitted text then None
    else Some (default text (strip_prefix emitted text))
  else if existsb (String.eqb text) (cx_emitted_thinking t) then None
  else Some text.

Definition mark_final_thinking_emitted (text : string) (b : gmap Z CodexToolUseState)
    : option string * gmap Z CodexToolUseState :=
  let t := cx_entry usize_max b in
  match thinking_to_emit text t with
  | None => (None, <[usize_max := t]> b)
  | Some rest => (Some rest, <[usize_max := cx_emitted (cx_streamed_thinking_seen t) rest t]> b)
  end.

Definition clear_thinking_state (b : gmap Z CodexToolUseState) : gmap Z CodexToolUseState := delete usize_max b.

Definition joined_non_empty (pieces : list string) : option string :=
  match pieces with [] => None | _ => Some (sconcat pieces) end.

Definition text_piece (o : option string) : list string :=
  match o with Some t => if is_empty_str t then [] else [t] | None => [] end.

(** ** Calls *)

(** The call is announced once its id and its name are known. *)
Definition codex_start (index : Z) (t : CodexToolUseState) : list StreamChunk * CodexToolUseState :=
  match cx_started t, cx_id t, cx_name t with
  | false, Some id, Some name => ([ScToolUseStart index id name], cx_set_started t)
  | _, _, _ => ([], t)
  end.

Definition emit_tool_complete (index : Z) (t : CodexToolUseState) : list StreamChunk :=
  match cx_id t, cx_name t with
  | Some id, Some name => [ScToolUseComplete index (function_call id name (cx_arguments t))]
  | _, _ => []
  end.

Definition emit_arguments_delta (index : Z) (arguments : string) (t : CodexToolUseState)
    : list StreamChunk * CodexToolUseState :=
  match strip_prefix (cx_arguments t) arguments with
  | Some delta =>
      if is_empty_str delta then ([], t)
      else ([ScToolUseInputDelta index delta], cx_set_arguments (cx_arguments t +:+ delta) t)
  | None => ([ScToolUseInputDelta index arguments], cx_set_arguments arguments t)
  end.

(** The first index that is free; there is one among as many as there are
    entries, and one more. *)
Fixpoint free_index (fuel : nat) (index : Z) (b : gmap Z CodexToolUseState) : Z :=
  match fuel with
  | O => index
  | S fuel' => match b !! index with Some _ => free_index fuel' (index + 1) b | None => index end
  end.

Definition resolve_tool_index (output_index : option Z) (b : gmap Z CodexToolUseState) : Z :=
  match output_index with Some index => index | None => free_index (size b) 0 b end.

Section codex_stream.
Context `{J : Json}.
(** [Value::as_array] *)
Context (as_array : Value -> option (list Value)).
(** What serde reads of a line and of a usage, when it does. *)

Record CodexSseEvent := {
  ce_kind : string;
  ce_delta : option string;
  ce_arguments : option string;
  ce_response : option Value;
  ce_item : option Value;
  ce_output_index : option Z;
  ce_item_id : option string;
}.

Context (read_codex_event : string -> option CodexSseEvent) (read_codex_usage : Value -> option CodexRawUsage).
(** The order in which a [HashMap]'s iterator gives the entries. *)
Context (entries : gmap Z CodexToolUseState -> list (Z * CodexToolUseState)).

Definition array_of (v : Value) (key : string) : list Value := default [] (value_get v key ≫= as_array).

Definition collect_reasoning_text_from_value (v : Value) : list string :=
  text_piece (value_get_str v "text")
  ++ flat_map (fun key => text_piece (value_get_str v key)) ["reasoning"; "reasoning_content"]
  ++ flat_map (fun item => text_piece (value_get_str item "text")) (array_of v "summary")
  ++ flat_map (fun item =>
       match value_get_str item "type" with
       | Some t => if String.eqb t "reasoning_text" || String.eqb t "text"
                   then text_piece (value_get_str item "text") else []
       | None => []
       end) (array_of v "content").

Definition extract_reasoning_text_from_value (v : Value) : option string :=
  joined_non_empty (collect_reasoning_text_from_value v).

Definition has_item_type (type : string) (item : Value) : bool :=
  bool_decide (value_get_str item "type" = Some type).

Definition extract_reasoning_text_from_response (response : Value) : option string :=
  joined_non_empty (flat_map (fun item =>
    if has_item_type "reasoning" item then collect_reasoning_text_from_value item else [])
    (array_of response "output")).

Definition resolve_tool_index_with_item (output_index : option Z) (item_id : option string)
    (b : gmap Z CodexToolUseState) : Z :=
  match output_index with
  | Some index => index
  | None =>
      match item_id ≫= (fun id => List.find (fun e => bool_decide (cx_item_id e.2 = Some id)) (entries b)) with
      | Some (index, _) => index
      | None => resolve_tool_index None b
      end
  end.

Definition identified (item : Value) (t : CodexToolUseState) : CodexToolUseState :=
  cx_identify (value_get_str item "id") (value_get_str item "call_id") (value_get_str item "name") t.

Definition handle_output_item_event (item : Value) (output_index : option Z) (b : gmap Z CodexToolUseState)
    : list StreamChunk * gmap Z CodexToolUseState :=
  if negb (has_item_type "function_call" item) then ([], b)
  else
    let index := resolve_tool_index output_index b in
    let '(start, t) := codex_start index (identified item (cx_entry index b)) in
    match value_get_str item "arguments" with
    | Some arguments =>
        if is_empty_str (trim arguments) then (start, <[index := t]> b)
        else
          let '(delta, t) := emit_arguments_delta index arguments t in
          (start ++ delta ++ emit_tool_complete index t, <[index := t]> b)
    | None => (start, <[index := t]> b)
    end.

Definition handle_function_call_arguments_delta (output_index : option Z) (item_id : option string)
    (delta : string) (b : gmap Z CodexToolUseState) : list StreamChunk * gmap Z CodexToolUseState :=
  let index := resolve_tool_index_with_item output_index item_id b in
  let '(start, t) := codex_start index (cx_entry index b) in
  (start ++ [ScToolUseInputDelta index delta], <[index := cx_set_arguments (cx_arguments t +:+ delta) t]> b).

Definition handle_function_call_arguments_done (output_index : option Z) (item_id arguments : option string)
    (b : gmap Z CodexToolUseState) : list StreamChunk * gmap Z CodexToolUseState :=
  let index := resolve_tool_index_with_item output_index item_id b in
  match b !! index with
  | None => ([], b)
  | Some t =>
      let '(start, t) := codex_start index t in
      let '(delta, t) :=
        match arguments with
        | Some arguments =>
            if is_empty_str (trim arguments) then ([], t) else emit_arguments_delta index arguments t
        | None => ([], t)
        end in
      (start ++ delta ++ emit_tool_complete index t, <[index := t]> b)
  end.

(** One item of the final response, at its place in the output. *)
Definition emit_tool_call (idx : Z) (item : Value) (b : gmap Z CodexToolUseState)
    : list StreamChunk * gmap Z CodexToolUseState :=
  if negb (has_item_type "function_call" item) then ([], b)
  else
    let index := resolve_tool_index (Some idx) b in
    let '(start, t) := codex_start index (identified item (cx_entry index b)) in
    let arguments := default "" (value_get_str item "arguments") in
    let '(delta, t) := if is_empty_str arguments then ([], t) else emit_arguments_delta index arguments t in
    (start ++ delta ++ emit_tool_complete index t, <[index := t]> b).

Fixpoint emit_tool_calls (idx : Z) (items : list Value) (b : gmap Z CodexToolUseState)
    : list StreamChunk * gmap Z CodexToolUseState :=
  match items with
  | [] => ([], b)
  | item :: rest =>
      let '(chunks, b) := emit_tool_call idx item b in
      let '(more, b) := emit_tool_calls (idx + 1) rest b in
      (chunks ++ more, b)
  end.

Definition emit_tool_calls_from_response (response : Value) : gmap Z CodexToolUseState ->
    list StreamChunk * gmap Z CodexToolUseState := emit_tool_calls 0 (array_of response "output").

(** [values().any(|s| s.started)], and the reason of the end it gives. *)
Definition any_started (b : gmap Z CodexToolUseState) : bool := existsb (fun e => cx_started e.2) (entries b).
Definition codex_finish_reason (b : gmap Z CodexToolUseState) : FinishReason :=
  if any_started b then FrToolCalls else FrStop.

(** The reasoning that ends an item or a response. *)
Definition final_thinking (text : option string) (b : gmap Z CodexToolUseState)
    : list StreamChunk * gmap Z CodexToolUseState :=
  match text with
  | None => ([], b)
  | Some text =>
      match mark_final_thinking_emitted text b with
      | (Some rest, b) => ([ScThinking rest], b)
      | (None, b) => ([], b)
      end
  end.

Definition completed_event (response : option Value) (b : gmap Z CodexToolUseState)
    : list StreamChunk * gmap Z CodexToolUseState :=
  let '(chunks, b) :=
    match response with
    | None => ([], b)
    | Some response =>
        let '(calls, b) := emit_tool_calls_from_response response b in
        let '(thinking, b) := final_thinking (extract_reasoning_text_from_response response) b in
        let usage := value_get response "usage" ≫= read_codex_usage in
        (calls ++ thinking ++ map (fun u => ScUsage (codex_usage u)) (option_list usage), b)
    end in
  (chunks ++ [ScDone (codex_finish_reason b)], clear_thinking_state b).

Definition failure_message (response : option Value) : string :=
  default "Codex response failed" (r ← response; e ← value_get r "error"; value_get_str e "message").

Definition codex_event (e : CodexSseEvent) (b : gmap Z CodexToolUseState)
    : result LLMError (list StreamChunk * gmap Z CodexToolUseState) :=
  let kind := ce_kind e in
  if contains kind "reasoning" && contains kind "delta" then
    match ce_delta e with
    | Some delta =>
        if is_empty_str delta then Ok ([], b)
        else Ok ([ScThinking delta], mark_streamed_thinking_emitted delta b)
    | None => Ok ([], b)
    end
  else if String.eqb kind "response.output_text.delta" then Ok (map ScText (option_list (ce_delta e)), b)
  else if String.eqb kind "response.output_item.done" then
    match ce_item e with
    | None => Ok ([], b)
    | Some item =>
        if has_item_type "reasoning" item then Ok (final_thinking (extract_reasoning_text_from_value item) b)
        else Ok (handle_output_item_event item (ce_output_index e) b)
    end
  else if String.eqb kind "response.output_item.added" then
    match ce_item e with
    | None => Ok ([], b)
    | Some item => Ok (handle_output_item_event item (ce_output_index e) b)
    end
  else if String.eqb kind "response.function_call_arguments.delta" then
    match ce_delta e with
    | None => Ok ([], b)
    | Some delta => Ok (handle_function_call_arguments_delta (ce_output_index e) (ce_item_id e) delta b)
    end
  else if String.eqb kind "response.function_call_arguments.done" then
    Ok (handle_function_call_arguments_done (ce_output_index e) (ce_item_id e) (ce_arguments e) b)
  else if String.eqb kind "response.completed" then Ok (completed_event (ce_response e) b)
  else if String.eqb kind "response.failed" then Err (ProviderError (failure_message (ce_response e)))
  else Ok ([], b).

Fixpoint codex_lines (ls : list string) (results : list StreamChunk) (b : gmap Z CodexToolUseState)
    : result LLMError (list StreamChunk) * gmap Z CodexToolUseState :=
  match ls with
  | [] => (Ok results, b)
  | line :: rest =>
      match strip_prefix "data: " (trim line) with
      | None => codex_lines rest results b
      | Some data =>
          if String.eqb data "[DONE]"
          then codex_lines rest (results ++ [ScDone (codex_finish_reason b)]) (clear_thinking_state b)
          else
            match read_codex_event data with
            | None => codex_lines rest results b
            | Some event =>
                match codex_event event b with
                | Err e => (Err e, clear_thinking_state b)
                | Ok (chunks, b') => codex_lines rest (results ++ chunks) b'
                end
            end
      end
  end.

Definition codex_parse_stream_chunk_with_state (chunk : Bytes) (b : gmap Z CodexToolUseState)
    : result LLMError (list StreamChunk) * gmap Z CodexToolUseState :=
  match chunk with
  | [] => (Ok [], b)
  | _ => codex_lines (lines (from_utf8_lossy chunk)) [] b
  end.

Definition codex_parser : ChatStreamParser (gmap Z CodexToolUseState) :=
  {| parse_chunk := codex_parse_stream_chunk_with_state; parser_finish := fun b => (Ok [], b) |}.
End codex_stream.

(** ** Requests *)

Definition codex_effort_str (e : ReasoningEffort) : string :=
  match e with ReLow => "low" | ReMedium => "medium" | ReHigh => "high" | ReMax => "xhigh" end.

Section codex.
Context `{J : Json}.
(** [serde_json::to_string] of the arguments of a call, the base64 text of
    bytes, its decoding (with the text of the error), JSON of bytes, and the
    texts of the files of instructions. *)
Context (args_text : Value -> string) (base64 : string -> string) (base64_decode : string -> result string Bytes).
Context (json_of_bytes : Bytes -> result string Value) (instructions_file : string -> string).

Inductive CodexToolOutputPart := XpOutputText (text : string) | XpInputImage (image_url : string).

Inductive CodexFunctionCallOutput := XoText (text : string) | XoParts (parts : list CodexToolOutputPart).

Inductive CodexInputContent := XcInputText (text : string) | XcOutputText (text : string) | XcInputImage (image_url : string).

Inductive CodexInputItem :=
| XiMessage (role : string) (content : list CodexInputContent)
| XiFunctionCall (call_id name arguments : string)
| XiFunctionCallOutput (call_id : string) (output : CodexFunctionCallOutput).

Definition data_url (mime_type data : string) : string := "data:" +:+ mime_type +:+ ";base64," +:+ base64 data.

(** Pass 1: a block of the message itself. *)
Definition codex_content (is_user : bool) (c : Content) : option CodexInputContent :=
  match c with
  | CText text =>
      if is_empty_str text then None
      else Some (if is_user then XcInputText text else XcOutputText text)
  | CImage mime_type data => Some (XcInputImage (data_url mime_type data))
  | CImageUrl url => Some (XcInputImage url)
  | _ => None
  end.

Definition tool_output_part (c : Content) : option CodexToolOutputPart :=
  match c with
  | CText text => Some (XpOutputText text)
  | CImage mime_type data => Some (XpInputImage (data_url mime_type data))
  | CImageUrl url => Some (XpInputImage url)
  | CPdf data =>
      Some (XpOutputText ("[PDF tool output not yet serialized natively (" +:+ nat_dec (slen data) +:+ " bytes)]"))
  | CAudio mime_type data =>
      Some (XpOutputText ("[Audio tool output not yet serialized natively (" +:+ mime_type +:+ ": "
                          +:+ nat_dec (slen data) +:+ " bytes)]"))
  | _ => None
  end.

Definition is_non_text (c : Content) : bool :=
  match c with CImage _ _ | CImageUrl _ | CPdf _ | CAudio _ _ => true | _ => false end.

Definition tool_output (content : list Content) : CodexFunctionCallOutput :=
  if existsb is_non_text content then XoParts (omap tool_output_part content)
  else XoText (join nl (omap as_text content)).

(** Pass 2: the calls and the results are items of their own. *)
Definition codex_call_item (c : Content) : option CodexInputItem :=
  match c with
  | CToolUse id name arguments => Some (XiFunctionCall id name (args_text arguments))
  | CToolResult id _ _ content => Some (XiFunctionCallOutput id (tool_output content))
  | _ => None
  end.

Definition codex_items (m : ChatMessage) : list CodexInputItem :=
  let is_user := match cm_role m with User => true | Assistant => false end in
  match omap (codex_content is_user) (cm_content m) with
  | [] => []
  | content => [XiMessage (if is_user then "user" else "assistant") content]
  end ++ omap codex_call_item (cm_content m).

(** [CodexProviderConfig], but for what is copied to the request unread
    ([temperature], [top_p]) and [extra_body]; of the base URL, what joining
    "responses" to it gives.  [api_key] is the resolver's where there is one. *)
Record Codex := {
  xc_api_key : string;
  xc_key_resolver : option string;
  xc_responses_url : result string string;
  xc_model : string;
  xc_max_tokens : option Z;
  xc_instructions : option string;
  xc_system : option string;
  xc_top_k : option Z;
  xc_tools : option (list Tool);
  xc_tool_choice : option ToolChoice;
}.

Definition codex_api_key (cfg : Codex) : string := default (xc_api_key cfg) (xc_key_resolver cfg).

Definition resolve_instructions (model : string) (override_text : option string) : string :=
  let among l := existsb (String.eqb model) l in
  let file :=
    if among ["gpt-5.1-codex-max"; "bengalfox"] then "instructions_gpt_5_1_codex_max.txt"
    else if among ["gpt-5.1-codex"; "gpt-5.1-codex-mini"; "gpt-5-codex"; "gpt-5-codex-mini"; "codex-mini-latest"]
    then "instructions_gpt_5_1_codex.txt"
    else if among ["gpt-5.2"; "gpt-5.2-codex"; "boomslang"] then "instructions_gpt_5_2.txt"
    else if among ["gpt-5.1"] then "instructions_gpt_5_1.txt"
    else if among ["gpt-5"] then "instructions_gpt_5.txt"
    else "instructions_gpt_5_1_codex.txt" in
  match override_text with
  | Some text => if is_empty_str (trim text) then instructions_file file else text
  | None => instructions_file file
  end.

Definition DEFAULT_INSTRUCTIONS_DIRECTORY : string := "querymt".

Definition system_item (system : string) : CodexInputItem :=
  XiMessage "user" [XcInputText ("# AGENTS.md instructions for " +:+ DEFAULT_INSTRUCTIONS_DIRECTORY +:+ nl +:+ nl
    +:+ "<INSTRUCTIONS>" +:+ nl +:+ system +:+ nl +:+ "</INSTRUCTIONS>")].

Definition codex_inputs (cfg : Codex) (messages : list ChatMessage) : list CodexInputItem :=
  match xc_system cfg with
  | Some system => if is_empty_str (trim system) then [] else [system_item system]
  | None => []
  end ++ flat_map codex_items messages.

(** A tool, with [strict] false. *)
Record CodexTool := {
  xt_tool_type : string;
  xt_name : string;
  xt_description : string;
  xt_parameters : Value;
}.

Definition to_codex_tool (t : Tool) : CodexTool :=
  {| xt_tool_type := tool_type t; xt_name := ft_name (tool_function t);
     xt_description := ft_description (tool_function t); xt_parameters := ft_parameters (tool_function t) |}.

(** The account is a claim of the access token. *)
Definition chatgpt_account_id (access_token : string) : result LLMError string :=
  match toy_split (toy_char 46) access_token with
  | _ :: payload :: _ =>
      match base64_decode payload with
      | Err e => Err (InvalidRequest ("Invalid OAuth access token payload: " +:+ e))
      | Ok decoded =>
          match json_of_bytes decoded with
          | Err e => Err (InvalidRequest ("Invalid OAuth access token payload JSON: " +:+ e))
          | Ok payload_value =>
              match auth ← value_get payload_value "https://api.openai.com/auth";
                    value_get_str auth "chatgpt_account_id" with
              | Some id => Ok id
              | None => Err (InvalidRequest "OAuth access token is missing chatgpt_account_id")
              end
          end
      end
  | _ => Err (InvalidRequest "Invalid OAuth access token")
  end.

(** The request; [store] is false and [stream] true. *)
Record CodexRequest := {
  xr_model : string;
  xr_input : list CodexInputItem;
  xr_instructions : string;
  xr_store : bool;
  xr_max_output_tokens : option Z;
  xr_stream : bool;
  xr_top_k : option Z;
  xr_tools : option (list CodexTool);
  xr_tool_choice : option ToolChoice;
  xr_url : string;
  xr_headers : list (string * string);
}.

Definition codex_chat_request (cfg : Codex) (messages : list ChatMessage) (tools : option (list Tool))
    : result LLMError CodexRequest :=
  let request_tools := or_else (map to_codex_tool <$> tools) (map to_codex_tool <$> xc_tools cfg) in
  match xc_responses_url cfg with
  | Err e => Err (HttpError e)
  | Ok url =>
      match chatgpt_account_id (codex_api_key cfg) with
      | Err e => Err e
      | Ok account_id =>
          Ok {| xr_model := xc_model cfg; xr_input := codex_inputs cfg messages;
                xr_instructions := resolve_instructions (xc_model cfg) (xc_instructions cfg);
                xr_store := false; xr_max_output_tokens := xc_max_tokens cfg; xr_stream := true;
                xr_top_k := xc_top_k cfg; xr_tools := request_tools;
                xr_tool_choice := match request_tools with Some _ => xc_tool_choice cfg | None => None end;
                xr_url := url;
                xr_headers := [("authorization", "Bearer " +:+ codex_api_key cfg); ("ChatGPT-Account-ID", account_id);
                  ("OpenAI-Beta", "responses=experimental"); ("originator", "codex_cli_rs");
                  ("content-type", "application/json")] |}
      end
  end.
End codex.

(** ** The response that is not streamed *)

Record CodexOutputContent := { xq_content_type : string; xq_text : option string }.

Record CodexOutput := {
  xo_output_type : string;
  xo_content : option (list CodexOutputContent);
  xo_text : option string;
  xo_summary : option (list (option string));
}.

Record CodexChatResponse := { xs_output : list CodexOutput; xs_usage : option CodexRawUsage }.

(** The texts of the contents of some types. *)
Definition texts_of (types : list string) (o : CodexOutput) : list string :=
  flat_map (fun c => if existsb (String.eqb (xq_content_type c)) types then text_piece (xq_text c) else [])
    (default [] (xo_content o)).

Definition collect_codex_output_reasoning (o : CodexOutput) : list string :=
  (if String.eqb (xo_output_type o) "reasoning"
   then text_piece (xo_text o) ++ flat_map text_piece (default [] (xo_summary o))
        ++ texts_of ["reasoning_text"; "text"] o
   else [])
  ++ (if String.eqb (xo_output_type o) "message"
      then texts_of ["reasoning"; "reasoning_text"; "thinking"] o else []).

(** An empty text is a piece of the text. *)
Definition codex_text (r : CodexChatResponse) : option string :=
  joined_non_empty (flat_map (fun o =>
    if String.eqb (xo_output_type o) "message"
    then omap (fun c => if existsb (String.eqb (xq_content_type c)) ["output_text"; "text"] then xq_text c else None)
           (default [] (xo_content o))
    else []) (xs_output r)).

Definition codex_response (r : CodexChatResponse) : ChatResponse :=
  {| cr_text := codex_text r;
     cr_tool_calls := None;
     cr_finish_reason := None;
     cr_thinking := joined_non_empty (flat_map collect_codex_output_reasoning (xs_output r));
     cr_usage := codex_usage <$> xs_usage r |}.

(** [codex_parse_chat_with_state] of a successful response; the state is one
    nobody else has. *)
Definition codex_parse_chat (read_response : Bytes -> result string CodexChatResponse) (body : Bytes)
    : result LLMError ChatResponse :=
  let raw := from_utf8_lossy body in
  if contains raw "data: " then
    Err (NotImplemented "Codex backend is streaming-only; call chat_stream(_with_tools)")
  else
    match read_response body with
    | Ok r => Ok (codex_response r)
    | Err e => Err (ResponseFormatError ("Failed to decode Codex API response: " +:+ e) raw)
    end.
