(* ===== verification/ProviderProps.v ===== *)
(** Properties of the providers: a streamed response does not depend on how the
    network cuts it, the calls a stream completes are the ones it announced,
    and the pairing of calls and results is kept by the requests. *)
From S2P Require Import Prelude Numbers Text Json Chat LlmErrors Domain Invites Providers Codex.
From S2P Require Import WireProps.

Local Open Scope Z_scope.

(** ** The lines of a streamed response *)

Lemma split_buffer_app line b1 b2 :
  split_buffer line (b1 ++ b2) =
    let '(ls1, r1) := split_buffer line b1 in
    let '(ls2, r2) := split_buffer r1 b2 in (ls1 ++ ls2, r2).
Proof.
  revert line. induction b1 as [|b b1 IH]; intros line; simpl; [by destruct (split_buffer line b2)|].
  destruct (b =? 10); [|by rewrite IH]. rewrite IH.
  destruct (split_buffer [] b1) as [ls1 r1]. by destruct (split_buffer r1 b2).
Qed.

Lemma split_buffer_skip r line b : 10 ∉ r -> split_buffer line (r ++ b) = split_buffer (line ++ r) b.
Proof.
  revert line. induction r as [|c r IH]; intros line H; [by rewrite app_nil_r|].
  rewrite elem_of_cons in H. cbn [app split_buffer]. destruct (Z.eqb_spec c 10) as [->|_]; [naive_solver|].
  rewrite IH by naive_solver. by rewrite <- app_assoc.
Qed.

(** The lines are the bytes up to the last line feed, each with one line feed
    at its end; what is left has none. *)
Definition is_line (l : Bytes) : Prop := exists t, l = t ++ [10] /\ (10 ∉ t).

Lemma split_buffer_lines line b ls r :
  split_buffer line b = (ls, r) -> 10 ∉ line -> (10 ∉ r) /\ concat ls ++ r = (line ++ b)%list /\ Forall is_line ls.
Proof.
  revert line ls r. induction b as [|c b IH]; intros line ls r; simpl.
  - intros [= <- <-] H. by rewrite app_nil_r.
  - destruct (Z.eqb_spec c 10) as [->|Hc].
    + destruct (split_buffer [] b) as [ls' r'] eqn:E. intros [= <- <-] H.
      destruct (IH [] ls' r' E) as (Hr & Hcat & Hl); [apply not_elem_of_nil|]. split_and!; [done|..].
      * simpl. rewrite <- !app_assoc, Hcat. done.
      * constructor; [by exists line|done].
    + intros E H. apply IH in E as (Hr & Hcat & Hl).
      2: { rewrite elem_of_app, list_elem_of_singleton. intros [Hi|Hi]; [by apply H|by apply Hc]. }
      split_and!; [done| |done]. by rewrite Hcat, <- app_assoc.
Qed.

Section framing.
Context {S : Type} (parser : ChatStreamParser S).

Lemma parse_lines_acc ls acc s :
  parse_lines parser ls acc s =
    match parse_lines parser ls [] s with (Ok chunks, s') => (Ok (acc ++ chunks), s') | e => e end.
Proof.
  revert acc s. induction ls as [|l ls IH]; intros acc s; cbn [parse_lines]; [by rewrite app_nil_r|].
  destruct (parse_chunk parser l s) as [[cs|e] s1]; [|done]. rewrite IH, (IH ([] ++ cs)).
  destruct (parse_lines parser ls [] s1) as [[ds|e] s2]; [|done]. by rewrite app_assoc.
Qed.

Lemma parse_lines_app l1 l2 s :
  parse_lines parser (l1 ++ l2) [] s =
    match parse_lines parser l1 [] s with
    | (Ok c1, s1) => match parse_lines parser l2 [] s1 with (Ok c2, s2) => (Ok (c1 ++ c2), s2) | e => e end
    | e => e
    end.
Proof.
  revert s. induction l1 as [|l l1 IH]; intros s; cbn [app parse_lines].
  - by destruct (parse_lines parser l2 [] s) as [[]].
  - destruct (parse_chunk parser l s) as [[cs|e] s1]; [|done].
    rewrite parse_lines_acc, (parse_lines_acc l1), IH.
    destruct (parse_lines parser l1 [] s1) as [[c1|e] s2]; [|done].
    destruct (parse_lines parser l2 [] s2) as [[c2|e] s3]; [|done]. by rewrite app_assoc.
Qed.

(** The chunks of the lines before the first that does not parse. *)
Fixpoint parsed_before (ls : list Bytes) (s : S) : list StreamChunk :=
  match ls with
  | [] => []
  | l :: rest =>
      match parse_chunk parser l s with (Ok cs, s') => cs ++ parsed_before rest s' | (Err _, _) => [] end
  end.

Lemma parsed_before_app l1 l2 s c1 s1 :
  parse_lines parser l1 [] s = (Ok c1, s1) -> parsed_before (l1 ++ l2) s = c1 ++ parsed_before l2 s1.
Proof.
  revert s c1. induction l1 as [|l l1 IH]; intros s c1; cbn [app parse_lines parsed_before]; [by intros [= <- <-]|].
  destruct (parse_chunk parser l s) as [[cs|e] s2]; [|done]. rewrite parse_lines_acc.
  destruct (parse_lines parser l1 [] s2) as [[c2|e] s3] eqn:E; [|done]. intros [= <- <-].
  by rewrite (IH _ _ E), app_assoc.
Qed.

Definition scanning (buffer : Bytes) (s : S) : ScanState := {| sn_buffer := buffer; sn_done := false; sn_parser := s |}.

(** One piece that is not empty. *)
Lemma scan_piece r p items s ls r' :
  10 ∉ r -> p <> [] -> split_buffer r p = (ls, r') ->
  scan_stream parser (scanning r s) (Ok p :: items) =
    match parse_lines parser ls [] s with
    | (Ok chunks, s') => map Ok chunks ++ scan_stream parser (scanning r' s') items
    | (Err e, _) => [Err e]
    end.
Proof.
  intros Hr Hp Hs. cbn [scan_stream]. unfold scan_step. cbn [sn_done sn_buffer sn_parser scanning].
  rewrite split_buffer_skip by done. cbn [app]. rewrite Hs.
  destruct (parse_lines parser ls [] s) as [[chunks|e] s']; [by destruct p|].
  cbn [stream_items]. by destruct items.
Qed.

(** The pieces of a body, before other items. *)
Lemma scan_pieces ps items r s :
  10 ∉ r -> Forall (fun p => p <> []) ps ->
  let '(ls, r') := split_buffer r (concat ps) in
  match parse_lines parser ls [] s with
  | (Ok chunks, s') =>
      scan_stream parser (scanning r s) (map Ok ps ++ items) =
        map Ok chunks ++ scan_stream parser (scanning r' s') items
  | (Err e, _) => exists sent, sent `prefix_of` parsed_before ls s /\
      scan_stream parser (scanning r s) (map Ok ps ++ items) = map Ok sent ++ [Err e]
  end.
Proof.
  intros Hr Hps. revert r s Hr. induction Hps as [|p ps Hp _ IH]; intros r s Hr; [done|].
  cbn [concat map app]. rewrite split_buffer_app.
  destruct (split_buffer r p) as [ls1 r1] eqn:E1.
  assert (10 ∉ r1) as Hr1 by (by eapply split_buffer_lines).
  specialize (IH r1). destruct (split_buffer r1 (concat ps)) as [ls2 r2].
  rewrite (scan_piece r p _ s ls1 r1) by done. rewrite parse_lines_app.
  destruct (parse_lines parser ls1 [] s) as [[c1|e] s1] eqn:El1.
  - specialize (IH s1 Hr1). destruct (parse_lines parser ls2 [] s1) as [[c2|e] s2].
    + by rewrite IH, map_app, <- app_assoc.
    + destruct IH as (sent & Hsent & ->). exists (c1 ++ sent). rewrite map_app, <- app_assoc. split; [|done].
      rewrite (parsed_before_app _ _ _ _ _ El1). by apply prefix_app.
  - exists []. split; [apply prefix_nil|done].
Qed.

(** The items after the body, once it has been read. *)
Lemma scan_end s : scan_stream parser (scanning [] s) [Ok []] = stream_items (parser_finish parser s).1.
Proof.
  cbn [scan_stream]. unfold scan_step. cbn [sn_done sn_buffer sn_parser scanning app split_buffer parse_lines].
  destruct (parser_finish parser s) as [[tail|e] s']; cbn [fst stream_items]; by rewrite app_nil_r.
Qed.

(** An empty piece ends the stream, whatever comes after it. *)
Lemma scan_empty r s items : 10 ∉ r ->
  scan_stream parser (scanning r s) (Ok [] :: items) = stream_items (parser_finish parser s).1.
Proof.
  intros Hr. cbn [scan_stream]. unfold scan_step. cbn [sn_done sn_buffer sn_parser scanning].
  rewrite split_buffer_skip by done. cbn [split_buffer app parse_lines].
  destruct (parser_finish parser s) as [[tail|e] s']; cbn [fst stream_items app];
    destruct items; cbn; by rewrite ?app_nil_r.
Qed.
End framing.

(** C34: however the network cuts a response into pieces that are not empty, the
    parser is given the same lines - all the bytes of the response, in order,
    each line with one line feed, its last - and the stream is what the parser
    makes of them, then what it finishes with; when a line does not parse the
    stream ends with that line's error, after chunks of the lines before it.
    An empty piece ends the stream: what is not a whole line before it, and
    everything after it, is not read, and the stream is what the parser makes
    of the whole lines before it, then what it finishes with. *)
Theorem stream_is_cut_anyhow {S} (parser : ChatStreamParser S) (ps : list Bytes) s :
  Forall (fun p => p <> []) ps ->
  let '(ls, rest) := split_buffer [] (concat ps ++ [10]) in
  rest = [] /\ concat ls = concat ps ++ [10] /\ Forall is_line ls /\
  match parse_lines parser ls [] s with
  | (Ok chunks, s') =>
      adapter_stream parser (map Ok ps) s = map Ok chunks ++ stream_items (parser_finish parser s').1
  | (Err e, _) => exists sent, sent `prefix_of` parsed_before parser ls s /\
      adapter_stream parser (map Ok ps) s = map Ok sent ++ [Err e]
  end /\
  forall more, let whole := (split_buffer [] (concat ps)).1 in
  match parse_lines parser whole [] s with
  | (Ok chunks, s') =>
      adapter_stream parser (map Ok ps ++ Ok [] :: more) s =
        map Ok chunks ++ stream_items (parser_finish parser s').1
  | (Err e, _) => exists sent, sent `prefix_of` parsed_before parser whole s /\
      adapter_stream parser (map Ok ps ++ Ok [] :: more) s = map Ok sent ++ [Err e]
  end.
Proof.
  intros Hps. unfold adapter_stream.
  pose proof (scan_pieces parser (ps ++ [[10]]) [Ok []] [] s ltac:(apply not_elem_of_nil)
    ltac:(apply Forall_app; by repeat constructor)) as H.
  rewrite map_app, <- app_assoc, concat_app in H. cbn [concat map app] in H.
  destruct (split_buffer [] (concat ps ++ [10])) as [ls rest] eqn:E.
  assert (rest = []) as ->.
  { rewrite split_buffer_app in E. simpl in E.
    destruct (split_buffer [] (concat ps)). by simplify_eq. }
  apply split_buffer_lines in E as (_ & Hcat & Hl); [|apply not_elem_of_nil].
  rewrite app_nil_r in Hcat. split_and!; [done..| |].
  - destruct (parse_lines parser ls [] s) as [[chunks|e] s']; [|exact H].
    rewrite <- scan_end. exact H.
  - intros more. clear H Hcat Hl. rewrite <- app_assoc, <- app_comm_cons.
    pose proof (scan_pieces parser ps (Ok [] :: more ++ [Ok [10]; Ok []]) [] s
      ltac:(apply not_elem_of_nil) Hps) as H.
    destruct (split_buffer [] (concat ps)) as [whole r] eqn:E. cbn [fst].
    destruct (parse_lines parser whole [] s) as [[chunks|e] s']; [|exact H].
    rewrite scan_empty in H; [exact H|]. apply split_buffer_lines in E; [by destruct E|].
    apply not_elem_of_nil.
Qed.

(** ** What a stream yields, chunk by chunk *)

Definition oks (out : list (result LLMError StreamChunk)) : list StreamChunk :=
  omap (fun r => match r with Ok c => Some c | Err _ => None end) out.

Lemma oks_ok l : oks (map Ok l) = l.
Proof. unfold oks. induction l as [|c l IH]; [done|]. by rewrite map_cons, omap_cons, IH. Qed.

Lemma oks_app a b : oks (a ++ b) = oks a ++ oks b.
Proof. apply omap_app. Qed.

(** [Q] holds of every chunk and of those before it. *)
Definition each_chunk (Q : list StreamChunk -> StreamChunk -> Prop) (l : list StreamChunk) : Prop :=
  forall l1 c l2, l = l1 ++ c :: l2 -> Q l1 c.

Lemma each_chunk_snoc Q l c : each_chunk Q l -> Q l c -> each_chunk Q (l ++ [c]).
Proof.
  intros Hl Hc l1 d l2 E. destruct l2 as [|x l2 _] using rev_ind.
  - by apply app_inj_tail in E as [-> ->].
  - rewrite app_comm_cons, app_assoc in E. apply app_inj_tail in E as [-> _]. by eapply Hl.
Qed.

Lemma each_chunk_nil Q : each_chunk Q [].
Proof. intros l1 c l2 E. by destruct l1. Qed.

(** A relation of the chunks so far and the parser's state that every line
    keeps holds of the whole stream. *)
Section kept_by_lines.
Context {S : Type} (parser : ChatStreamParser S) (Inv : list StreamChunk -> S -> Prop).
Context (line_keeps : forall pre line s cs s',
  parse_chunk parser line s = (Ok cs, s') -> Inv pre s -> Inv (pre ++ cs) s').
Context (finish_keeps : forall pre s cs s', parser_finish parser s = (Ok cs, s') -> Inv pre s -> Inv (pre ++ cs) s').

Lemma lines_keep ls pre s cs s' :
  parse_lines parser ls [] s = (Ok cs, s') -> Inv pre s -> Inv (pre ++ cs) s'.
Proof.
  revert pre s cs. induction ls as [|l ls IH]; intros pre s cs; cbn [parse_lines].
  - intros [= <- <-]. by rewrite app_nil_r.
  - destruct (parse_chunk parser l s) as [[c1|e] s1] eqn:E; [|done]. rewrite parse_lines_acc.
    destruct (parse_lines parser ls [] s1) as [[c2|e] s2] eqn:E2; [|done]. intros [= <- <-] H.
    cbn [app]. rewrite app_assoc. eapply IH; [done|]. by eapply line_keeps.
Qed.

Lemma scan_keeps items st pre :
  Inv pre (sn_parser st) -> exists s', Inv (pre ++ oks (scan_stream parser st items)) s'.
Proof.
  revert st pre. induction items as [|item items IH]; intros st pre H; cbn [scan_stream].
  { exists (sn_parser st). by rewrite app_nil_r. }
  assert (forall e, exists s', Inv (pre ++ oks ([Err e])) s') as Herr.
  { intros e. exists (sn_parser st). by rewrite app_nil_r. }
  assert (forall e st', sn_done st' = true ->
    stream_items (Err e) ++ scan_stream parser st' items = [Err e]) as Hdone.
  { intros e st' Hd. destruct items as [|i items']; [done|]. cbn [scan_stream]. unfold scan_step. by rewrite Hd. }
  unfold scan_step. destruct (sn_done st); [exists (sn_parser st); by rewrite app_nil_r|].
  destruct item as [bytes|e]; [|rewrite Hdone by done; apply Herr].
  destruct (split_buffer [] (sn_buffer st ++ bytes)) as [ls remaining].
  destruct (parse_lines parser ls [] (sn_parser st)) as [[cs|e] s1] eqn:E; [|rewrite Hdone by done; apply Herr].
  pose proof (lines_keep _ _ _ _ _ E H) as H1. destruct bytes as [|b bytes].
  - destruct (parser_finish parser s1) as [[tl|e] s2] eqn:Ef; [|rewrite Hdone by done; apply Herr].
    cbn [stream_items]. rewrite oks_app, oks_ok, app_assoc. apply (IH _ _). cbn [sn_parser].
    rewrite app_assoc. by eapply finish_keeps.
  - cbn [stream_items]. rewrite oks_app, oks_ok, app_assoc. by apply (IH _ _).
Qed.

Lemma adapter_keeps body s : Inv [] s -> exists s', Inv (oks (adapter_stream parser body s)) s'.
Proof. intros H. by apply (scan_keeps _ (scanning [] s) []). Qed.
End kept_by_lines.

(** ** Tool calls *)

(** What the deltas of an index add up to. *)
Definition delta_of (i : Z) (c : StreamChunk) : option string :=
  match c with ScToolUseInputDelta j s => if j =? i then Some s else None | _ => None end.
Definition deltas (i : Z) (l : list StreamChunk) : string := sconcat (omap (delta_of i) l).

Definition starts (i : Z) (c : StreamChunk) : Prop := exists id name, c = ScToolUseStart i id name.
Definition completes (i : Z) (c : StreamChunk) : Prop := exists tc, c = ScToolUseComplete i tc.

Lemma deltas_app i a b : deltas i (a ++ b) = deltas i a +:+ deltas i b.
Proof. unfold deltas. by rewrite omap_app, sconcat_app. Qed.

Lemma deltas_one i c : deltas i [c] = default "" (delta_of i c).
Proof. unfold deltas. rewrite omap_cons. destruct (delta_of i c); simpl; [by rewrite sapp_nil_r|done]. Qed.

(** A chunk that neither opens nor closes a call of the index. *)
Definition quiet (i : Z) (c : StreamChunk) : Prop := ~ starts i c /\ ~ completes i c.

(** The call was announced, and its arguments are the deltas since; without a
    delta they are an empty object. *)
Definition announced (i : Z) (tc : ToolCall) (pre : list StreamChunk) : Prop :=
  exists before id name after,
    pre = before ++ ScToolUseStart i id name :: after /\ Forall (quiet i) after /\
    tc = function_call id name (if is_empty_str (deltas i after) then "{}" else deltas i after).

Definition call_announced (pre : list StreamChunk) (c : StreamChunk) : Prop :=
  match c with ScToolUseComplete i tc => announced i tc pre | _ => True end.

Definition open_at (i : Z) (t : AnthropicToolUseState) (pre : list StreamChunk) : Prop :=
  exists before after,
    pre = before ++ ScToolUseStart i (at_id t) (at_name t) :: after /\ Forall (quiet i) after /\
    at_arguments_buffer t = deltas i after.

Definition assembling (pre : list StreamChunk) (p : AnthropicStreamParser) : Prop :=
  each_chunk call_announced pre /\ forall i t, ant_tools p !! i = Some t -> open_at i t pre.

Lemma open_at_start i id name pre :
  open_at i {| at_id := id; at_name := name; at_arguments_buffer := "" |} (pre ++ [ScToolUseStart i id name]).
Proof. by exists pre, []. Qed.

Lemma open_at_snoc i t pre c : open_at i t pre -> quiet i c ->
  open_at i (push_arguments (default "" (delta_of i c)) t) (pre ++ [c]).
Proof.
  intros (before & after & -> & Hq & Hb) Hc. exists before, (after ++ [c]). simpl. split_and!.
  - by rewrite <- app_assoc.
  - apply Forall_app. split; [done|]. by apply Forall_singleton.
  - by rewrite Hb, deltas_app, deltas_one.
Qed.

Lemma push_nothing t : push_arguments "" t = t.
Proof. destruct t. unfold push_arguments. simpl. by rewrite sapp_nil_r. Qed.

Lemma assembling_snoc pre p p' c :
  assembling pre p -> call_announced pre c ->
  (forall i t, ant_tools p' !! i = Some t -> open_at i t (pre ++ [c])) -> assembling (pre ++ [c]) p'.
Proof. intros [Hc _] Hn Ho. split; [by apply each_chunk_snoc|done]. Qed.

Lemma open_at_other i t pre c :
  open_at i t pre -> quiet i c -> delta_of i c = None -> open_at i t (pre ++ [c]).
Proof. intros H Hq Hd. apply (open_at_snoc _ _ _ _ H) in Hq. rewrite Hd in Hq. by rewrite <- (push_nothing t). Qed.

Lemma quiet_start i j id name : i <> j -> quiet i (ScToolUseStart j id name).
Proof. intros H. split; [intros (? & ? & [=])|intros (? & [=])]. by apply H. Qed.
Lemma quiet_delta i j s : quiet i (ScToolUseInputDelta j s).
Proof. split; [intros (? & ? & [=])|intros (? & [=])]. Qed.
Lemma quiet_complete i j tc : i <> j -> quiet i (ScToolUseComplete j tc).
Proof. intros H. split; [intros (? & ? & [=])|intros (? & [=])]. by apply H. Qed.

(** A chunk of no call. *)
Definition plain (c : StreamChunk) : Prop :=
  match c with
  | ScToolUseStart _ _ _ | ScToolUseInputDelta _ _ | ScToolUseComplete _ _ => False
  | _ => True
  end.

Lemma plain_quiet i c : plain c -> quiet i c /\ delta_of i c = None.
Proof.
  intros Hp. split; [split|]; [intros (? & ? & ->)|intros (? & ->)|destruct c]; done.
Qed.

Lemma assembling_plain cs pre p p' :
  Forall plain cs -> ant_tools p' = ant_tools p -> assembling pre p -> assembling (pre ++ cs) p'.
Proof.
  intros H Hp. revert pre. induction H as [|c cs Hc _ IH]; intros pre Ha.
  - rewrite app_nil_r. destruct Ha as [Ha Ho]. split; [done|]. by rewrite Hp.
  - replace (pre ++ c :: cs) with ((pre ++ [c]) ++ cs) by (by rewrite <- app_assoc). apply IH.
    apply (assembling_snoc pre p); [done|by destruct c|]. intros i t Ht. apply Ha in Ht.
    destruct (plain_quiet i c Hc) as [Hq Hd]. by apply open_at_other.
Qed.

Lemma start_assembles pre p index block cs p' :
  content_block_start index block p = (cs, p') -> assembling pre p -> assembling (pre ++ cs) p'.
Proof.
  unfold content_block_start. intros E H.
  destruct (String.eqb _ "tool_use"); [|destruct (String.eqb _ "thinking"); injection E as <- <-;
    by apply (assembling_plain _ _ p)].
  injection E as <- <-. apply (assembling_snoc pre p); [done..|]. cbn [ant_tools ant_set_tools].
  intros i t. destruct (decide (i = index)) as [->|Hi].
  - rewrite lookup_insert_eq. intros [= <-]. apply open_at_start.
  - rewrite lookup_insert_ne by done. intros Ht%H.
    apply open_at_other; [done|by apply quiet_start|done].
Qed.

Lemma delta_assembles pre p index delta cs p' :
  content_block_delta index delta p = (cs, p') -> assembling pre p -> assembling (pre ++ cs) p'.
Proof.
  unfold content_block_delta. intros E H.
  assert (forall l p1, Forall plain l -> ant_tools p1 = ant_tools p -> (l, p1) = (cs, p') ->
    assembling (pre ++ cs) p') as Hplain by (intros l p1 Hl Hp [= <- <-]; by apply (assembling_plain _ _ p)).
  destruct (ad_text delta); [by eapply Hplain; [| |exact E]; repeat constructor|].
  destruct (ad_thinking delta); [by eapply Hplain; [| |exact E]; repeat constructor|].
  destruct (ad_signature delta); [by eapply Hplain; [| |exact E]; repeat constructor|].
  destruct (ad_partial_json delta) as [s|]; [injection E as <- <-|by eapply Hplain; [| |exact E]].
  apply (assembling_snoc pre p); [done..|]. cbn [ant_tools ant_set_tools]. intros i t.
  pose proof (quiet_delta i index s) as Hq.
  destruct (decide (index = i)) as [->|Hi].
  - rewrite lookup_alter_eq. destruct (ant_tools p !! i) as [t0|] eqn:E; [|done]. intros [= <-].
    apply H in E. apply (open_at_snoc _ _ _ _ E) in Hq. simpl in Hq. by rewrite Z.eqb_refl in Hq.
  - rewrite lookup_alter_ne by done. intros Ht%H. apply open_at_other; [done..|]. simpl.
    by rewrite (proj2 (Z.eqb_neq _ _) Hi).
Qed.

Lemma stop_assembles pre p index cs p' :
  content_block_stop index p = (cs, p') -> assembling pre p -> assembling (pre ++ cs) p'.
Proof.
  unfold content_block_stop. intros [= <- <-] H. rewrite app_assoc.
  apply (assembling_plain _ _ (ant_set_tools (delete index (ant_tools p)) p)); [|done|].
  { destruct (ant_thinking p !! index) as [s|]; [destruct (is_empty_str s)|]; by repeat constructor. }
  destruct (ant_tools p !! index) as [t|] eqn:E.
  - apply (assembling_snoc pre p); [done|..].
    + destruct H as [_ H]. apply H in E as (before & after & -> & Hq & Hb).
      exists before, (at_id t), (at_name t), after. by rewrite <- Hb.
    + cbn [ant_tools ant_set_tools]. intros i t' [Hi Ht]%lookup_delete_Some. apply H in Ht.
      apply open_at_other; [done|by apply quiet_complete|done].
  - rewrite app_nil_r. destruct H as [Hc Ho]. split; [done|]. cbn [ant_tools ant_set_tools].
    intros i t' [_ Ht]%lookup_delete_Some. by apply Ho.
Qed.

Lemma event_assembles pre p e cs p' :
  anthropic_event e p = (cs, p') -> assembling pre p -> assembling (pre ++ cs) p'.
Proof.
  unfold anthropic_event. intros E H.
  assert (forall l, Forall plain l -> (l, p) = (cs, p') -> assembling (pre ++ cs) p') as Hplain.
  { intros l Hl [= <- <-]. by apply (assembling_plain _ _ p). }
  repeat case_match; try (by eapply Hplain; [|exact E]; repeat constructor).
  - eapply Hplain; [|exact E]. destruct (mjoin (asr_message e)); by repeat constructor.
  - by eapply start_assembles.
  - by eapply delta_assembles.
  - by eapply stop_assembles.
  - eapply Hplain; [|exact E]. unfold message_delta. apply Forall_app. split.
    + destruct (asr_usage e); by repeat constructor.
    + destruct (asr_delta e ≫= ad_stop_reason); by repeat constructor.
Qed.

Section anthropic_calls.
Context (read_event : string -> result string AnthropicStreamResponse).

Lemma lines_assemble ls chunks p pre cs p' :
  anthropic_lines read_event ls chunks p = (Ok cs, p') -> assembling (pre ++ chunks) p -> assembling (pre ++ cs) p'.
Proof.
  revert chunks p. induction ls as [|l ls IH]; intros chunks p; cbn [anthropic_lines]; [by intros [= <- <-]|].
  destruct (anthropic_data l) as [data|]; [|apply IH].
  destruct (read_event data) as [event|e]; [|done].
  destruct (anthropic_event event p) as [parsed p1] eqn:E. intros Hl H. apply (IH _ _ Hl).
  rewrite app_assoc. by eapply event_assembles.
Qed.
End anthropic_calls.

(** C35: whatever the response is and however it is cut, every call that
    Anthropic's stream completes was announced before it, with its id and its
    name, and its arguments are what the stream has given of them since, an
    empty object when that is nothing. *)
Theorem anthropic_calls_are_announced read_event oauth body pre i tc post :
  oks (adapter_stream (anthropic_parser read_event) body (anthropic_stream_parser oauth))
    = pre ++ ScToolUseComplete i tc :: post ->
  announced i tc pre.
Proof.
  intros Hout.
  destruct (adapter_keeps (anthropic_parser read_event) assembling) with
    (body := body) (s := anthropic_stream_parser oauth) as (s' & Hc & _).
  - intros pre' line s cs s'. cbn [parse_chunk anthropic_parser]. unfold anthropic_parse_chunk.
    destruct (from_utf8 line) as [text|]; [|done]. intros Hl H.
    apply (lines_assemble _ _ _ _ _ _ _ Hl). by rewrite app_nil_r.
  - cbn [parser_finish anthropic_parser]. intros pre' s cs s' [= <- <-] H. by rewrite app_nil_r.
  - split; [apply each_chunk_nil|]. intros j t Hj. cbn [ant_tools anthropic_stream_parser] in Hj.
    by rewrite lookup_empty in Hj.
  - exact (Hc _ _ _ Hout).
Qed.

(** ** OpenAI's calls *)

(** The chunks since the last [Done]. *)
Definition round_step (r : list StreamChunk) (c : StreamChunk) : list StreamChunk :=
  match c with ScDone _ => [] | _ => r ++ [c] end.
Definition round (l : list StreamChunk) : list StreamChunk := fold_left round_step l [].

Definition starts_in (i : Z) (l : list StreamChunk) : Prop := Exists (starts i) l.
Definition completes_in (i : Z) (l : list StreamChunk) : Prop := Exists (completes i) l.

(** What the stream says of its calls: a call starts once in a round, it
    completes once, after it has started, with the deltas of the round for its
    arguments, and no round is done before every call it started is complete. *)
Definition call_in_order (pre : list StreamChunk) (c : StreamChunk) : Prop :=
  match c with
  | ScToolUseStart i _ _ => ~ starts_in i (round pre)
  | ScToolUseComplete i tc =>
      starts_in i (round pre) /\ ~ completes_in i (round pre) /\
      tc_arguments tc = deltas i (round pre) /\ tc_call_type tc = "function"
  | ScDone _ => forall i, starts_in i (round pre) -> completes_in i (round pre)
  | _ => True
  end.

Lemma round_snoc l c : round (l ++ [c]) = round_step (round l) c.
Proof. unfold round. by rewrite fold_left_app. Qed.

Lemma round_more l c : (forall r, c <> ScDone r) -> round (l ++ [c]) = round l ++ [c].
Proof. intros H. rewrite round_snoc. destruct c; try done. by destruct (H finish_reason). Qed.

Lemma starts_in_snoc i l c : starts_in i (l ++ [c]) <-> starts_in i l \/ starts i c.
Proof. unfold starts_in. rewrite Exists_app, Exists_cons, Exists_nil. tauto. Qed.
Lemma completes_in_snoc i l c : completes_in i (l ++ [c]) <-> completes_in i l \/ completes i c.
Proof. unfold completes_in. rewrite Exists_app, Exists_cons, Exists_nil. tauto. Qed.

(** The state of an index, as the chunks of the round show it. *)
Definition shown (i : Z) (t : OpenAIToolUseState) (r : list StreamChunk) : Prop :=
  ot_arguments_buffer t = deltas i r /\ (ot_started t = true <-> starts_in i r) /\ ~ completes_in i r.

Definition state_of (i : Z) (states : gmap Z OpenAIToolUseState) : OpenAIToolUseState := default ot_default (states !! i).

Definition tracking (pre : list StreamChunk) (states : gmap Z OpenAIToolUseState) : Prop :=
  each_chunk call_in_order pre /\ forall i, shown i (state_of i states) (round pre).

Lemma tracking_nil : tracking [] ∅.
Proof.
  split; [apply each_chunk_nil|]. intros i. split_and!; [done|..].
  - split; [done|]. intros H. by apply Exists_nil in H.
  - intros H. by apply Exists_nil in H.
Qed.

Lemma tracking_plain cs pre states :
  Forall (fun c => plain c /\ forall r, c <> ScDone r) cs -> tracking pre states -> tracking (pre ++ cs) states.
Proof.
  intros H. revert pre. induction H as [|c cs [Hc Hd] _ IH]; intros pre Ht; [by rewrite app_nil_r|].
  replace (pre ++ c :: cs) with ((pre ++ [c]) ++ cs) by (by rewrite <- app_assoc). apply IH.
  destruct Ht as [He Hs].
  split; [apply each_chunk_snoc; [done|by destruct c; try done; destruct (Hd finish_reason)]|].
  intros i. destruct (plain_quiet i c Hc) as [[Hq1 Hq2] Hi]. destruct (Hs i) as (Hb & Hst & Hco).
  rewrite round_more by done. split_and!.
  - by rewrite deltas_app, deltas_one, Hi, sapp_nil_r.
  - rewrite starts_in_snoc. tauto.
  - rewrite completes_in_snoc. tauto.
Qed.

Lemma nonempty_plain f o pre states :
  (forall s, plain (f s) /\ forall r, f s <> ScDone r) -> tracking pre states -> tracking (pre ++ nonempty f o) states.
Proof.
  intros Hf. apply tracking_plain. destruct o as [s|]; [|constructor]. simpl. case_match; [constructor|].
  by apply Forall_singleton.
Qed.

Lemma state_of_insert i j t (m : gmap Z OpenAIToolUseState) :
  state_of i (<[j := t]> m) = if decide (i = j) then t else state_of i m.
Proof.
  unfold state_of. case_decide; [subst; by rewrite lookup_insert_eq|]. by rewrite lookup_insert_ne.
Qed.

(** A chunk of one index leaves what is shown of the others. *)
Lemma shown_other i t r c :
  shown i t r -> quiet i c -> delta_of i c = None -> shown i t (r ++ [c]).
Proof.
  intros (Hb & Hs & Hc) [Hq1 Hq2] Hd. split_and!.
  - by rewrite deltas_app, deltas_one, Hd, sapp_nil_r.
  - rewrite starts_in_snoc. tauto.
  - rewrite completes_in_snoc. tauto.
Qed.

(** The call's name comes with the first delta that has one. *)
Lemma start_tracks pre states i id name :
  tracking pre states -> ot_started (state_of i states) = false ->
  tracking (pre ++ [ScToolUseStart i id name])
    (<[i := {| ot_id := id; ot_name := name; ot_arguments_buffer := ot_arguments_buffer (state_of i states);
               ot_started := true |}]> states).
Proof.
  intros [He Hs] Hf. split.
  - apply each_chunk_snoc; [done|]. simpl. intros H. apply (Hs i) in H. by rewrite Hf in H.
  - intros j. rewrite round_more, state_of_insert by done. destruct (Hs j) as (Hb & Hst & Hc).
    case_decide as Hj; [subst j|by apply shown_other; [|apply quiet_start|]]. split_and!; cbn.
    + by rewrite deltas_app, deltas_one, sapp_nil_r.
    + rewrite starts_in_snoc. split; [|done]. intros _. right. by exists id, name.
    + rewrite completes_in_snoc. intros [H|(tc & H)]; [by apply Hc|done].
Qed.

Lemma arguments_track pre states i t s :
  tracking pre states ->
  ot_arguments_buffer t = ot_arguments_buffer (state_of i states) +:+ s ->
  ot_started t = ot_started (state_of i states) ->
  tracking (pre ++ nonempty (ScToolUseInputDelta i) (Some s)) (<[i := t]> states).
Proof.
  intros [He Hs] Hbuf Hst. simpl. destruct (is_empty_str s) eqn:E.
  - rewrite app_nil_r. split; [done|]. intros j. rewrite state_of_insert. case_decide; [subst|done].
    destruct s; [|done]. rewrite sapp_nil_r in Hbuf. unfold shown. rewrite Hbuf, Hst. apply Hs.
  - split; [by apply each_chunk_snoc|]. intros j. rewrite round_more, state_of_insert by done.
    destruct (Hs j) as (Hb & Hstj & Hc). case_decide as Hj; [subst j|].
    + pose proof (quiet_delta i i s) as [Hq1 Hq2]. rewrite <- Hst in Hstj. split_and!.
      * by rewrite deltas_app, deltas_one, Hbuf, Hb; simpl; rewrite Z.eqb_refl.
      * rewrite starts_in_snoc. tauto.
      * rewrite completes_in_snoc. tauto.
    + apply shown_other; [done|apply quiet_delta|]. simpl. by rewrite (proj2 (Z.eqb_neq _ _)) by done.
Qed.

Lemma tool_delta_tracks pre states tc cs states' :
  openai_tool_delta tc states = (cs, states') -> tracking pre states -> tracking (pre ++ cs) states'.
Proof.
  unfold openai_tool_delta. intros E H. injection E as <- <-. fold (state_of (default 0 (os_index tc)) states).
  set (i := default 0 (os_index tc)).
  destruct (os_name tc) as [name|]; [destruct (ot_started (state_of i states)) eqn:Est|]; cbn [negb orb].
  - by apply arguments_track.
  - rewrite app_assoc. pose proof (start_tracks pre states i (default (ot_id (state_of i states)) (os_id tc)) name H Est) as Hs.
    pose proof (arguments_track _ _ i {| ot_id := default (ot_id (state_of i states)) (os_id tc); ot_name := name;
      ot_arguments_buffer := ot_arguments_buffer (state_of i states) +:+ os_arguments tc; ot_started := true |}
      (os_arguments tc) Hs) as Ha.
    rewrite insert_insert_eq, state_of_insert, decide_True in Ha by done. by apply Ha.
  - by apply arguments_track.
Qed.

Lemma tool_deltas_track pre states tcs cs states' :
  openai_tool_deltas tcs states = (cs, states') -> tracking pre states -> tracking (pre ++ cs) states'.
Proof.
  revert pre states cs. induction tcs as [|tc tcs IH]; intros pre states cs; cbn [openai_tool_deltas].
  - intros [= <- <-]. by rewrite app_nil_r.
  - destruct (openai_tool_delta tc states) as [c1 st1] eqn:E1.
    destruct (openai_tool_deltas tcs st1) as [c2 st2] eqn:E2. intros [= <- <-] H.
    rewrite app_assoc. eapply IH; [done|]. by eapply tool_delta_tracks.
Qed.

Section openai_calls.
Context (read_chunk : string -> result string OpenAIStreamChunk).
Context (drain : gmap Z OpenAIToolUseState -> list (Z * OpenAIToolUseState)).
(** [HashMap::drain] gives every entry once, in any order. *)
Context (drain_law : forall m, drain m ≡ₚ map_to_list m).

Definition completion (e : Z * OpenAIToolUseState) : option StreamChunk :=
  let '(index, state) := e in
  if ot_started state
  then Some (ScToolUseComplete index (function_call (ot_id state) (ot_name state) (ot_arguments_buffer state)))
  else None.

(** The entries of the map, one after the other. *)
Lemma completions_track l pre :
  each_chunk call_in_order pre -> NoDup l.*1 -> Forall (fun e => shown e.1 e.2 (round pre)) l ->
  let cs : list StreamChunk := omap completion l in
  each_chunk call_in_order (pre ++ cs) /\
  forall i, (starts_in i (round (pre ++ cs)) -> starts_in i (round pre)) /\
    (completes_in i (round pre) -> completes_in i (round (pre ++ cs))) /\
    (forall t, (i, t) ∈ l -> ot_started t = true -> completes_in i (round (pre ++ cs))).
Proof.
  revert pre. induction l as [|[j t] l IH]; intros pre He Hnd Hl.
  { cbn. rewrite app_nil_r. split; [done|]. intros i. split_and!; [done..|]. by intros t ?%not_elem_of_nil. }
  cbn [fmap list_fmap fst] in Hnd. apply NoDup_cons in Hnd as [Hj Hnd].
  inversion Hl as [|? ? [Hb [Hst Hc]] Hl']; subst. cbn [fst snd] in *. cbn zeta. rewrite omap_cons.
  destruct (completion (j, t)) as [c|] eqn:Ec; unfold completion in Ec; destruct (ot_started t) eqn:Et; try done.
  - injection Ec as Ec.
    replace (pre ++ c :: omap completion l) with ((pre ++ [c]) ++ omap completion l) by (by rewrite <- app_assoc).
    assert (round (pre ++ [c]) = round pre ++ [c]) as Hr by (apply round_more; by subst c).
    destruct (IH (pre ++ [c])) as [H1 H2].
    + apply each_chunk_snoc; [done|]. subst c. split_and!; try done. by apply Hst.
    + done.
    + rewrite Hr. rewrite Forall_forall in Hl' |- *. intros [i t'] Hi. cbn [fst snd].
      subst c. apply shown_other; [by apply (Hl' (i, t'))| |done]. apply quiet_complete. intros ->. apply Hj.
      by apply (list_elem_of_fmap_2 fst _ (j, t')).
    + subst c. split; [done|]. intros i. specialize (H2 i). rewrite Hr, starts_in_snoc, completes_in_snoc in H2.
      destruct H2 as (Ha & Hb' & Hd). split_and!.
      * intros H. destruct (Ha H) as [|(? & ? & [=])]. done.
      * intros H. apply Hb'. by left.
      * intros t' [[= -> ->]|Hi]%elem_of_cons Ht'; [apply Hb'; right; by eexists|by eapply Hd].
  - destruct (IH pre He Hnd Hl') as [H1 H2]. split; [done|]. intros i. destruct (H2 i) as (Ha & Hb' & Hd).
    split_and!; [done..|]. intros t' [[= -> ->]|Hi]%elem_of_cons Ht'; [by rewrite Et in Ht'|by eapply Hd].
Qed.

Lemma drain_tracks pre states r :
  tracking pre states -> tracking (pre ++ drain_completions drain states ++ [ScDone r]) ∅.
Proof.
  intros [He Hs]. change (drain_completions drain states) with (omap completion (drain states)).
  assert (NoDup (drain states).*1) as Hnd by (rewrite drain_law; apply NoDup_fst_map_to_list).
  destruct (completions_track (drain states) pre He Hnd) as [H1 H2].
  { apply Forall_forall. intros [i t] Hi. rewrite drain_law in Hi. apply elem_of_map_to_list in Hi.
    specialize (Hs i). unfold state_of in Hs. by rewrite Hi in Hs. }
  rewrite app_assoc. split.
  - apply each_chunk_snoc; [done|]. simpl. intros i Hi. destruct (H2 i) as (Ha & _ & Hd).
    apply Ha in Hi. destruct (Hs i) as (_ & Hst & _). apply Hst in Hi. unfold state_of in Hi.
    destruct (states !! i) as [t|] eqn:Et; [|done]. apply (Hd t); [|done].
    rewrite drain_law. by apply elem_of_map_to_list.
  - intros i. rewrite round_snoc. apply tracking_nil.
Qed.

Lemma choice_tracks pre states c cs states' done :
  openai_choice drain c states = (cs, states', done) -> tracking pre states -> tracking (pre ++ cs) states'.
Proof.
  unfold openai_choice. destruct (openai_tool_deltas _ states) as [calls st1] eqn:E. intros Hc H.
  assert (tracking (pre ++ nonempty ScThinking (osc_thinking c) ++ nonempty ScText (osc_content c) ++ calls) st1) as Ht.
  { rewrite !app_assoc. eapply tool_deltas_track; [exact E|]. by do 2 (apply nonempty_plain; [by split|]). }
  destruct (osc_finish_reason c) as [reason|]; injection Hc as <- <- _; [|done].
  rewrite app_assoc. by apply drain_tracks.
Qed.

Lemma choices_track pre states l cs states' done :
  openai_choices drain l states = (cs, states', done) -> tracking pre states -> tracking (pre ++ cs) states'.
Proof.
  revert pre states cs done. induction l as [|c l IH]; intros pre states cs d; cbn [openai_choices].
  - intros [= <- <- _]. by rewrite app_nil_r.
  - destruct (openai_choice drain c states) as [[c1 st1] d1] eqn:E1.
    destruct (openai_choices drain l st1) as [[c2 st2] d2] eqn:E2. intros [= <- <- _] H.
    rewrite app_assoc. eapply IH; [done|]. by eapply choice_tracks.
Qed.

Lemma openai_lines_track ls results states pre cs states' :
  openai_lines read_chunk drain ls results states = (Ok cs, states') ->
  tracking (pre ++ results) states -> tracking (pre ++ cs) states'.
Proof.
  revert results states. induction ls as [|l ls IH]; intros results states; cbn [openai_lines]; [by intros [= <- <-]|].
  destruct (strip_prefix "data: " (trim l)) as [data|]; [|apply IH].
  destruct (String.eqb data "[DONE]").
  { intros [= <- <-] H. rewrite app_assoc. by apply drain_tracks. }
  destruct (read_chunk data) as [chunk|]; [|done].
  destruct (openai_choices drain (osk_choices chunk) states) as [[parsed st1] d] eqn:E. intros Hl H.
  assert (tracking (pre ++ results ++ map (fun u => ScUsage (into_usage u)) (option_list (osk_usage chunk)) ++ parsed) st1) as Ht.
  { rewrite !app_assoc. eapply choices_track; [exact E|]. apply tracking_plain; [|done].
    destruct (osk_usage chunk); by repeat constructor. }
  destruct d; [injection Hl as <- <-; done|]. by apply (IH _ _ Hl).
Qed.
End openai_calls.

(** C36: whatever the response is and however it is cut, a call of OpenAI's
    stream starts once in a round, completes once and after it has started,
    with arguments that are all the deltas of its index in the round, and the
    stream is not done before every call it started is complete; the order in
    which the calls of a round complete may be any. *)
Theorem openai_calls_complete_in_order read_chunk drain body pre c post :
  (forall m, drain m ≡ₚ map_to_list m) ->
  oks (adapter_stream (openai_parser read_chunk drain) body ∅) = pre ++ c :: post ->
  call_in_order pre c.
Proof.
  intros Hdrain Hout.
  destruct (adapter_keeps (openai_parser read_chunk drain) tracking) with
    (body := body) (s := ∅ : gmap Z OpenAIToolUseState) as (s' & Hc & _).
  - intros pre' line s cs s'. cbn [parse_chunk openai_parser]. unfold parse_openai_sse_chunk.
    destruct line as [|b line]; [intros [= <- <-] H; by rewrite app_nil_r|]. intros Hl H.
    apply (openai_lines_track _ _ Hdrain _ _ _ _ _ _ Hl). by rewrite app_nil_r.
  - cbn [parser_finish openai_parser]. intros pre' s cs s' [= <- <-] H. by rewrite app_nil_r.
  - apply tracking_nil.
  - exact (Hc _ _ _ Hout).
Qed.

(** ** Requests *)

Section requests.
Context {J : Json}.
Context (is_object : Value -> bool) (base64 : string -> string) (args_text : Value -> string).

(** The pairing as Anthropic checks it: the results of a message answer the
    calls of the one before. *)
Definition sent_use_id (b : MessageContent) : option string :=
  match mc_block b with AmToolUse id _ _ => Some id | _ => None end.
Definition sent_result_id (b : MessageContent) : option string :=
  match mc_block b with AmToolResult id _ _ => Some id | _ => None end.

Fixpoint open_anthropic (pending : list string) (l : list AnthropicMessage) : option (list string) :=
  match l with
  | [] => Some pending
  | m :: rest =>
      if bool_decide (omap sent_result_id (ams_content m) = pending)
      then open_anthropic (omap sent_use_id (ams_content m)) rest else None
  end.

(** What Anthropic refuses: an empty text, and an input that is no object. *)
Definition sendable (b : MessageContent) : Prop :=
  match mc_block b with
  | AmText text => text <> ""
  | AmToolUse _ _ input => is_object input = true
  | _ => True
  end.

(** The pairing as OpenAI checks it: each tool message answers the next of the
    calls, before any other message. *)
Fixpoint open_openai (pending : list string) (l : list OpenAIChatMessage) : option (list string) :=
  match l with
  | [] => Some pending
  | m :: rest =>
      match om_tool_call_id m, pending with
      | Some id, expected :: pending' => if String.eqb id expected then open_openai pending' rest else None
      | None, [] => open_openai (map ofc_id (default [] (om_tool_calls m))) rest
      | _, _ => None
      end
  end.

Lemma mark_last_blocks cc l : map mc_block (mark_last cc l) = map mc_block l.
Proof.
  induction l as [|b l IH]; [done|]. destruct l as [|b2 l]; [done|].
  change (mark_last cc (b :: b2 :: l)) with (b :: mark_last cc (b2 :: l)). cbn [map] in *. by f_equal.
Qed.

Lemma omap_of_blocks {B} (f : MessageBlock -> option B) (l : list MessageContent) :
  omap (fun b => f (mc_block b)) l = omap f (map mc_block l).
Proof. induction l as [|b l IH]; [done|]. cbn [map]. by rewrite !omap_cons, IH. Qed.

Lemma anthropic_blocks a (m : ChatMessage) :
  map mc_block (ams_content (anthropic_message is_object base64 a m)) =
    omap (message_block is_object base64 a) (cm_content m).
Proof.
  unfold anthropic_message. cbn [ams_content]. destruct (cm_cache m);
    rewrite ?mark_last_blocks, map_map; apply map_id.
Qed.

Lemma anthropic_ids a (m : ChatMessage) :
  omap sent_result_id (ams_content (anthropic_message is_object base64 a m)) = chat_answered m /\
  omap sent_use_id (ams_content (anthropic_message is_object base64 a m)) = chat_used m.
Proof.
  unfold sent_result_id, sent_use_id, chat_answered, chat_used.
  rewrite (omap_of_blocks (fun b => match b with AmToolResult id _ _ => Some id | _ => None end)),
    (omap_of_blocks (fun b => match b with AmToolUse id _ _ => Some id | _ => None end)), anthropic_blocks.
  induction (cm_content m) as [|c l [IH1 IH2]]; [done|]. rewrite !(omap_cons (message_block _ _ _)), !omap_cons.
  destruct c as [text| | | | |text sig| | |]; cbn [message_block block_use_id block_result_id];
    try (by rewrite IH1, IH2); try (by rewrite !omap_cons, IH1, IH2).
  - destruct (is_empty_str text); [done|]. by rewrite !omap_cons.
  - destruct sig; [|done]. cbn [fmap option_fmap option_map]. by rewrite !omap_cons.
Qed.

Lemma open_anthropic_messages a pending (l : list ChatMessage) :
  open_anthropic pending (map (anthropic_message is_object base64 a) l) = open_chat pending l.
Proof.
  revert pending. induction l as [|m l IH]; intros pending; [done|]. cbn [map open_anthropic open_chat].
  destruct (anthropic_ids a m) as [-> ->]. by rewrite IH.
Qed.

Lemma anthropic_sendable a (m : ChatMessage) :
  is_object object_empty = true -> Forall sendable (ams_content (anthropic_message is_object base64 a m)).
Proof.
  intros Ho. apply Forall_forall. intros b Hb.
  apply (list_elem_of_fmap_2 mc_block) in Hb. change (mc_block <$> ?l) with (map mc_block l) in Hb.
  rewrite anthropic_blocks in Hb. apply list_elem_of_omap in Hb as (c & _ & Hc). unfold sendable.
  destruct c as [text| | | | |text sig| | |]; cbn [message_block] in Hc; try (by injection Hc as <-); try done.
  - destruct text; [done|]. injection Hc as <-. done.
  - by destruct sig; [injection Hc as <-|].
  - injection Hc as <-. by destruct (is_object arguments) eqn:E.
Qed.

Lemma open_results ids (l : list Content) rest :
  omap block_result_id l = ids ->
  open_openai ids (omap openai_tool_result l ++ rest) = open_openai [] rest.
Proof.
  revert ids. induction l as [|c l IH]; intros ids; [by intros <-|]. rewrite !omap_cons.
  destruct c; cbn [block_result_id openai_tool_result]; try apply IH. intros <-.
  cbn [app open_openai om_tool_call_id]. rewrite String.eqb_refl. by apply IH.
Qed.

Lemma uses_of_calls (l : list Content) :
  map ofc_id (omap (openai_tool_call args_text) l) = omap block_use_id l.
Proof.
  induction l as [|c l IH]; [done|]. rewrite !omap_cons. destruct c; cbn; by rewrite IH.
Qed.

Lemma answers_iff (m : ChatMessage) : has_tool_result m = false -> chat_answered m = [].
Proof.
  unfold has_tool_result, chat_answered. induction (cm_content m) as [|c l IH]; [done|]. cbn [existsb].
  rewrite omap_cons. intros [Hc Hl]%orb_false_iff. destruct c; try done; by apply IH.
Qed.

Lemma uses_iff (m : ChatMessage) : has_tool_use m = false -> chat_used m = [].
Proof.
  unfold has_tool_use, chat_used. induction (cm_content m) as [|c l IH]; [done|]. cbn [existsb].
  rewrite omap_cons. intros [Hc Hl]%orb_false_iff. destruct c; try done; by apply IH.
Qed.

Lemma answers_nonempty (m : ChatMessage) : has_tool_result m = true -> chat_answered m <> [].
Proof.
  unfold has_tool_result, chat_answered. induction (cm_content m) as [|c l IH]; [done|]. cbn [existsb].
  rewrite omap_cons. by destruct c.
Qed.

(** A message does not both call and answer. *)
Definition one_sided (m : ChatMessage) : Prop := chat_used m = [] \/ chat_answered m = [].

Lemma open_converted pending m rest :
  one_sided m -> chat_answered m = pending ->
  open_openai pending (convert_chat_message_to_openai args_text m ++ rest) = open_openai (chat_used m) rest.
Proof.
  intros Hone Ha. unfold convert_chat_message_to_openai. destruct (has_tool_result m) eqn:Er.
  - destruct Hone as [Hu|Hn]; [|by apply answers_nonempty in Er].
    rewrite <- app_assoc, open_results by done. rewrite Hu. by destruct (is_empty_str _).
  - pose proof (answers_iff m Er) as H0. rewrite H0 in Ha. subst pending.
    destruct (has_tool_use m) eqn:Eu.
    + cbn [app open_openai om_tool_call_id om_tool_calls]. f_equal.
      unfold chat_used. rewrite <- (uses_of_calls (cm_content m)). by destruct (omap _ (cm_content m)).
    + rewrite (uses_iff m Eu). by destruct (existsb is_image (cm_content m)).
Qed.

Lemma open_openai_messages pending q (l : list ChatMessage) :
  Forall one_sided l -> open_chat pending l = Some q ->
  open_openai pending (flat_map (convert_chat_message_to_openai args_text) l) = Some q.
Proof.
  intros H. revert pending. induction H as [|m l Hm _ IH]; intros pending; [done|]. cbn [open_chat flat_map].
  case_bool_decide as Ha; [|done]. intros Hq. rewrite open_converted by done. by apply IH.
Qed.

(** The pairing of Codex's items: an output answers the oldest call that is
    open, whatever messages are between. *)
Fixpoint open_codex (pending : list string) (l : list CodexInputItem) : option (list string) :=
  match l with
  | [] => Some pending
  | XiMessage _ _ :: rest => open_codex pending rest
  | XiFunctionCall id _ _ :: rest => open_codex (pending ++ [id]) rest
  | XiFunctionCallOutput id _ :: rest =>
      match pending with
      | expected :: pending' => if String.eqb id expected then open_codex pending' rest else None
      | [] => None
      end
  end.

Lemma open_codex_results ids (l : list Content) rest :
  omap block_use_id l = [] -> omap block_result_id l = ids ->
  open_codex ids (omap (codex_call_item args_text base64) l ++ rest) = open_codex [] rest.
Proof.
  revert ids. induction l as [|c l IH]; intros ids; [by intros _ <-|]. rewrite !omap_cons.
  destruct c; cbn [block_use_id block_result_id codex_call_item]; try (by apply IH); try done.
  intros Hu <-. cbn [app open_codex]. rewrite String.eqb_refl. by apply IH.
Qed.

Lemma open_codex_calls p (l : list Content) rest :
  omap block_result_id l = [] ->
  open_codex p (omap (codex_call_item args_text base64) l ++ rest) = open_codex (p ++ omap block_use_id l) rest.
Proof.
  revert p. induction l as [|c l IH]; intros p; [by rewrite app_nil_r|]. rewrite !omap_cons.
  destruct c; cbn [block_use_id block_result_id codex_call_item]; try (by apply IH); try done.
  intros Hr. cbn [app open_codex]. rewrite IH by done. by rewrite <- app_assoc.
Qed.

Lemma open_codex_items pending m rest :
  one_sided m -> chat_answered m = pending ->
  open_codex pending (codex_items args_text base64 m ++ rest) = open_codex (chat_used m) rest.
Proof.
  intros Hone Ha.
  unfold codex_items. rewrite <- app_assoc.
  destruct (omap (codex_content _ _) (cm_content m)); cbn [app open_codex]; (destruct Hone as [Hu|Hn];
    [by rewrite open_codex_results, Hu
    |rewrite Hn in Ha; subst pending; by rewrite open_codex_calls]).
Qed.

Lemma open_codex_messages pending q (l : list ChatMessage) :
  Forall one_sided l -> open_chat pending l = Some q ->
  open_codex pending (flat_map (codex_items args_text base64) l) = Some q.
Proof.
  intros H. revert pending. induction H as [|m l Hm _ IH]; intros pending; [done|]. cbn [open_chat flat_map].
  case_bool_decide as Ha; [|done]. intros Hq. rewrite open_codex_items by done. by apply IH.
Qed.

Lemma open_system system (l : list OpenAIChatMessage) :
  open_openai [] (fold_left (fun msgs part => system_message part :: msgs) system l) = open_openai [] l.
Proof. revert l. induction system as [|p system IH]; intros l; [done|]. cbn [fold_left]. by rewrite IH. Qed.
End requests.

(** The prefix of a tool's name is taken off the names that come back. *)
Lemma prefix_comes_off {J : Json} a name :
  is_oauth a = true -> strip_tool_prefix (prefix_tool_name a name) = name.
Proof. intros H. unfold prefix_tool_name. by rewrite H. Qed.

Lemma stop_reasons_agree {J : Json} (r : AnthropicCompleteResponse) :
  complete_finish_reason r = map_stop_reason (acr_stop_reason r).
Proof.
  unfold complete_finish_reason, map_stop_reason.
  destruct (String.eqb_spec (acr_stop_reason r) "end_turn") as [->|]; [done|].
  destruct (String.eqb_spec (acr_stop_reason r) "max_tokens") as [->|]; [done|].
  by destruct (String.eqb_spec (acr_stop_reason r) "stop_sequence") as [->|].
Qed.

(** C38: a request keeps the pairing of the messages it is made of, provided no
    message both calls and answers: Anthropic's leaves the same calls open, with
    no empty text and no input that is not an object; OpenAI's too, where every
    result is a message of its own right after the message of its call; and
    Codex's, where calls and results are items of their own. *)
Theorem requests_stay_paired {J : Json} is_object base64 args_text base64_decode json_of_bytes instructions_file
    a cfg codex tools (messages : list ChatMessage) q r r' r'' :
  is_object object_empty = true -> Forall one_sided messages -> open_chat [] messages = Some q ->
  anthropic_chat_request is_object base64 a messages tools = Ok r ->
  openai_chat_request args_text cfg messages tools = Ok r' ->
  codex_chat_request args_text base64 base64_decode json_of_bytes instructions_file codex messages tools = Ok r'' ->
  open_anthropic [] (arq_messages r) = Some q /\
  Forall (fun m => Forall (sendable is_object) (ams_content m)) (arq_messages r) /\
  open_openai [] (orq_messages r') = Some q /\
  open_codex [] (xr_input r'') = Some q.
Proof.
  unfold anthropic_chat_request, openai_chat_request, codex_chat_request. intros Ho Hone Hq Ha Hb Hc.
  destruct (is_empty_str (resolved_key a)); [done|]. injection Ha as <-. cbn [arq_messages].
  destruct (xc_responses_url codex); [|done]. destruct (chatgpt_account_id _ _ _); [|done].
  injection Hc as <-. cbn [xr_input].
  repeat (case_match; [|done]). injection Hb as <-. cbn [orq_messages].
  rewrite open_anthropic_messages, open_system. split_and!; [done| |by apply open_openai_messages|].
  - apply Forall_forall. intros m (m0 & -> & _)%list_elem_of_fmap. by apply anthropic_sendable.
  - unfold codex_inputs. pose proof (open_codex_messages base64 args_text [] q messages Hone Hq) as Hx.
    destruct (xc_system codex) as [system|]; [destruct (is_empty_str (trim system))|]; exact Hx.
Qed.

(** ** Concrete streams and messages *)

Definition a_delta (s : string) : AnthropicDelta :=
  {| ad_text := None; ad_partial_json := Some s; ad_thinking := None; ad_signature := None; ad_stop_reason := None |}.
Definition an_event (type : string) block delta : AnthropicStreamResponse :=
  {| asr_response_type := type; asr_index := Some 0; asr_content_block := block; asr_delta := delta;
     asr_usage := None; asr_message := None |}.

(** A call of a tool, one event to a line. *)
Definition sample_event (data : string) : result string AnthropicStreamResponse :=
  if String.eqb data "start" then
    Ok (an_event "content_block_start"
      (Some {| acb_block_type := "tool_use"; acb_id := Some "c1"; acb_name := Some "mcp_lookup" |}) None)
  else if String.eqb data "args" then Ok (an_event "content_block_delta" None (Some (a_delta "{a:b}")))
  else if String.eqb data "stop" then Ok (an_event "content_block_stop" None None)
  else Err "unknown event".

(** The pieces end within a line. *)
Definition sample_pieces : list Bytes :=
  [bytes_of "data: st"; bytes_of ("art" +:+ nl +:+ "data: args" +:+ nl +:+ "data:"); bytes_of " stop"].

Lemma stream_is_cut_anyhow_witness :
  adapter_stream (anthropic_parser sample_event) (map Ok sample_pieces) (anthropic_stream_parser true) =
    [Ok (ScToolUseStart 0 "c1" "lookup"); Ok (ScToolUseInputDelta 0 "{a:b}");
     Ok (ScToolUseComplete 0 (function_call "c1" "lookup" "{a:b}"))].
Proof.
  pose proof (stream_is_cut_anyhow (anthropic_parser sample_event) sample_pieces (anthropic_stream_parser true)
    ltac:(by repeat constructor)) as H.
  destruct (split_buffer [] (concat sample_pieces ++ [10])) as [ls rest] eqn:E. vm_compute in E.
  injection E as <- <-. destruct H as (_ & _ & _ & H & _). vm_compute in H. exact H.
Defined.

Lemma anthropic_calls_are_announced_witness :
  announced 0 (function_call "c1" "lookup" "{a:b}") [ScToolUseStart 0 "c1" "lookup"; ScToolUseInputDelta 0 "{a:b}"].
Proof.
  apply (anthropic_calls_are_announced sample_event true (map Ok sample_pieces) _ _ _ []). vm_compute. reflexivity.
Defined.

Definition a_choice (name : option string) (arguments : string) (finish : option string) : OpenAIStreamChunk :=
  {| osk_choices := [{| osc_content := None; osc_thinking := None;
       osc_tool_calls := Some [{| os_index := Some 0; os_id := Some "c1"; os_name := name; os_arguments := arguments |}];
       osc_finish_reason := finish |}];
     osk_usage := None |}.

Definition sample_chunk (data : string) : result string OpenAIStreamChunk :=
  if String.eqb data "start" then Ok (a_choice (Some "lookup") "{a:" None)
  else if String.eqb data "args" then Ok (a_choice None "b}" (Some "tool_calls"))
  else Err "unknown chunk".

Definition sample_lines : list Bytes := [bytes_of ("data: start" +:+ nl +:+ nl +:+ "data: args" +:+ nl)].

Lemma openai_calls_complete_in_order_witness :
  call_in_order
    [ScToolUseStart 0 "c1" "lookup"; ScToolUseInputDelta 0 "{a:"; ScToolUseInputDelta 0 "b}";
     ScToolUseComplete 0 (function_call "c1" "lookup" "{a:b}")] (ScDone FrToolCalls).
Proof.
  apply (openai_calls_complete_in_order sample_chunk map_to_list (map Ok sample_lines) _ _ []); [done|].
  vm_compute. reflexivity.
Defined.

(** The small instance, with objects within the texts of objects. *)
Definition nested_json : Json := {|
  Value := toy_value;
  object_empty := TObj [];
  value_null := TStr "null";
  from_str s := Ok (toy_parse s);
  value_get v key :=
    match match v with TStr s => toy_parse s | TObj _ => v end with
    | TStr _ => None
    | TObj fs => option_map (fun kv => TStr kv.2) (List.find (fun kv => String.eqb kv.1 key) fs)
    end;
  value_as_str v := match v with TStr s => Some s | TObj _ => None end;
  value_string := TStr;
  value_object fs := TObj (map (fun kv => (kv.1, toy_to_string kv.2)) fs);
  value_to_string := toy_to_string;
|}.

Section requests_example.
#[local] Existing Instance nested_json.

Definition toy_is_object (v : Value) : bool := match v with TObj _ => true | TStr _ => false end.
Definition toy_text (v : Value) : string := toy_to_string v.

Definition sample_anthropic : Anthropic :=
  {| an_api_key := "sk-ant-oat01"; an_auth_type := None; an_model := "claude"; an_max_tokens := 100;
     an_system := None; an_stream := None; an_top_k := None; an_tools := None; an_tool_choice := None;
     an_reasoning_effort := None; an_reasoning_budget_tokens := None; an_key_resolver := None |}.

Definition sample_openai : OpenAI :=
  {| oa_api_key := "sk-1"; oa_auth_type := None; oa_host := Some "api.openai.com";
     oa_chat_url := Ok "https://api.openai.com/v1/chat/completions"; oa_model := "gpt"; oa_max_tokens := None;
     oa_system := ["Be brief"]; oa_stream := None; oa_top_k := None; oa_tools := None; oa_tool_choice := None;
     oa_reasoning_effort := None |}.

Definition sample_messages : list ChatMessage :=
  [from_user [CText "look it up"]; from_assistant [CText ""; CToolUse "c1" "lookup" (TStr "x")];
   from_user [CToolResult "c1" None false [CText "found"]; CText "go on"]].

Definition sample_claims (payload : Bytes) : result string Value :=
  Ok (TObj [("https://api.openai.com/auth", text_of payload)]).
Definition sample_codex : Codex :=
  {| xc_api_key := "head.{chatgpt_account_id:acc}.tail"; xc_key_resolver := None;
     xc_responses_url := Ok "https://chatgpt.com/backend-api/codex/responses"; xc_model := "gpt-5";
     xc_max_tokens := None; xc_instructions := None; xc_system := Some "Be brief"; xc_top_k := None;
     xc_tools := None; xc_tool_choice := None |}.

Definition as_is (s : string) : string := s.
Definition as_bytes (s : string) : result string Bytes := Ok (bytes_of s).

Lemma requests_stay_paired_witness :
  match anthropic_chat_request toy_is_object as_is sample_anthropic sample_messages None,
        openai_chat_request toy_text sample_openai sample_messages None,
        codex_chat_request toy_text as_is as_bytes sample_claims as_is sample_codex sample_messages None with
  | Ok r, Ok r', Ok r'' => open_anthropic [] (arq_messages r) = Some [] /\
      Forall (fun m => Forall (sendable toy_is_object) (ams_content m)) (arq_messages r) /\
      open_openai [] (orq_messages r') = Some [] /\ open_codex [] (xr_input r'') = Some []
  | _, _, _ => False
  end.
Proof.
  eapply (requests_stay_paired toy_is_object as_is toy_text as_bytes sample_claims as_is sample_anthropic
    sample_openai sample_codex None sample_messages []); [reflexivity| |vm_compute; reflexivity..].
  constructor; [by left|]. constructor; [by right|]. constructor; [by left|constructor].
Defined.
End requests_example.
