(* ===== verification/CodexProps.v ===== *)
(** Properties of the Codex provider: the calls its stream completes are started
    ones, its end tells whether there were any, and the reasoning that ends a
    response is not given twice. *)
From S2P Require Import Prelude Numbers Text Json Chat LlmErrors TextOps Invites Providers Codex.
From S2P Require Import ProviderProps.

Local Open Scope Z_scope.

(** ** Calls *)

(** A call starts once; it completes after its start, and its arguments are the
    last of what its deltas add up to; the end says whether a call has started.
    The index of the reasoning is not counted: its entry is cleared at an end. *)
Definition codex_call_in_order (pre : list StreamChunk) (c : StreamChunk) : Prop :=
  match c with
  | ScToolUseStart i _ _ => i <> usize_max -> ~ starts_in i pre
  | ScToolUseComplete i tc =>
      starts_in i pre /\ tc_call_type tc = "function" /\
      exists replaced, deltas i pre = replaced +:+ tc_arguments tc
  | ScDone r =>
      (r = FrToolCalls /\ exists i, starts_in i pre) \/
      (r = FrStop /\ forall i, i <> usize_max -> ~ starts_in i pre)
  | _ => True
  end.

(** What the chunks say of the state of an index. *)
Definition told (i : Z) (t : CodexToolUseState) (pre : list StreamChunk) : Prop :=
  (cx_started t = true -> starts_in i pre) /\
  (exists replaced, deltas i pre = replaced +:+ cx_arguments t) /\
  (i <> usize_max -> starts_in i pre -> cx_started t = true).

Definition codex_tracking (pre : list StreamChunk) (b : gmap Z CodexToolUseState) : Prop :=
  each_chunk codex_call_in_order pre /\ forall i, told i (cx_entry i b) pre.

(** The same while the state of one index is at hand. *)
Definition focus (i : Z) (t : CodexToolUseState) (pre : list StreamChunk) (b : gmap Z CodexToolUseState) : Prop :=
  each_chunk codex_call_in_order pre /\ told i t pre /\ forall j, j <> i -> told j (cx_entry j b) pre.

Lemma cx_entry_insert i j t b : cx_entry i (<[j := t]> b) = if decide (i = j) then t else cx_entry i b.
Proof.
  unfold cx_entry. case_decide; [subst; by rewrite lookup_insert_eq|]. by rewrite lookup_insert_ne.
Qed.

Lemma focus_enter i pre b : codex_tracking pre b -> focus i (cx_entry i b) pre b.
Proof. intros [He Ht]. split_and!; [done|apply Ht|intros j _; apply Ht]. Qed.

Lemma focus_leave i t pre b : focus i t pre b -> codex_tracking pre (<[i := t]> b).
Proof.
  intros (He & Ht & Ho). split; [done|]. intros j. rewrite cx_entry_insert. case_decide; [by subst|by apply Ho].
Qed.

(** Only the calls of a state are told. *)
Lemma focus_same i t t' pre b :
  cx_started t' = cx_started t -> cx_arguments t' = cx_arguments t -> focus i t pre b -> focus i t' pre b.
Proof. intros Hs Ha (He & Ht & Ho). split_and!; try done. unfold told. by rewrite Hs, Ha. Qed.

Lemma told_other i t pre c : told i t pre -> ~ starts i c -> delta_of i c = None -> told i t (pre ++ [c]).
Proof.
  intros (H1 & (r & H2) & H3) Hs Hd. unfold told. rewrite starts_in_snoc. split_and!.
  - intros H. left. by apply H1.
  - exists r. by rewrite deltas_app, deltas_one, Hd, sapp_nil_r.
  - intros Hi [H|H]; [by apply H3|done].
Qed.

Lemma focus_plain i t pre b c : plain c -> codex_call_in_order pre c -> focus i t pre b -> focus i t (pre ++ [c]) b.
Proof.
  intros Hp Hc (He & Ht & Ho).
  assert (forall j t0, told j t0 pre -> told j t0 (pre ++ [c])) as Hk.
  { intros j t0 H. destruct (plain_quiet j c Hp) as [[Hq _] Hd]. by apply told_other. }
  split_and!; [by apply each_chunk_snoc|by apply Hk|]. intros j Hj. by apply Hk, Ho.
Qed.

Lemma tracking_codex_plain pre b c :
  plain c -> codex_call_in_order pre c -> codex_tracking pre b -> codex_tracking (pre ++ [c]) b.
Proof.
  intros Hp Hc [He Ht]. split; [by apply each_chunk_snoc|]. intros i.
  destruct (plain_quiet i c Hp) as [[Hq _] Hd]. by apply told_other.
Qed.

(** A call that can complete has started. *)
Definition ready (t : CodexToolUseState) : Prop :=
  cx_started t = true \/ cx_id t = None \/ cx_name t = None.

Lemma focus_start i t pre b cs t' :
  codex_start i t = (cs, t') -> focus i t pre b -> focus i t' (pre ++ cs) b /\ ready t'.
Proof.
  unfold codex_start, ready. intros E H.
  destruct (cx_started t) eqn:Es; [injection E as <- <-; rewrite app_nil_r; auto|].
  destruct (cx_id t) as [id|] eqn:Ei; [|injection E as <- <-; rewrite app_nil_r; auto].
  destruct (cx_name t) as [name|] eqn:En; injection E as <- <-; [|rewrite app_nil_r; auto].
  destruct H as (He & (H1 & (r & H2) & H3) & Ho). split; [split_and!|by left].
  - apply each_chunk_snoc; [done|]. simpl. intros Hi Hst. rewrite (H3 Hi Hst) in Es. done.
  - unfold told. cbn [cx_set_started cx_started cx_arguments]. rewrite starts_in_snoc. split_and!.
    + intros _. right. by exists id, name.
    + exists r. by rewrite deltas_app, deltas_one, sapp_nil_r.
    + done.
  - intros j Hj. apply told_other; [by apply Ho| |done]. by apply quiet_start.
Qed.

(** A delta, to which the new arguments are what it adds or replaces. *)
Lemma focus_delta i t pre b s arguments :
  (arguments = cx_arguments t +:+ s \/ arguments = s) -> focus i t pre b ->
  focus i (cx_set_arguments arguments t) (pre ++ [ScToolUseInputDelta i s]) b.
Proof.
  intros Ha (He & (H1 & (r & H2) & H3) & Ho). split_and!.
  - by apply each_chunk_snoc.
  - unfold told. cbn [cx_set_arguments cx_started cx_arguments]. rewrite starts_in_snoc.
    assert (~ starts i (ScToolUseInputDelta i s)) as Hn by apply quiet_delta.
    split_and!; [tauto| |tauto]. rewrite deltas_app, deltas_one. cbn [delta_of]. rewrite Z.eqb_refl. cbn [default].
    destruct Ha as [->| ->]; [exists r; by rewrite H2, sapp_assoc|by exists (deltas i pre)].
  - intros j Hj. apply told_other; [by apply Ho|apply quiet_delta|]. simpl. by rewrite (proj2 (Z.eqb_neq _ _)) by congruence.
Qed.

Lemma focus_arguments i t pre b arguments cs t' :
  emit_arguments_delta i arguments t = (cs, t') -> focus i t pre b -> ready t ->
  focus i t' (pre ++ cs) b /\ ready t'.
Proof.
  unfold emit_arguments_delta. intros E H Hr.
  destruct (strip_prefix (cx_arguments t) arguments) as [delta|]; [destruct (is_empty_str delta)|];
    injection E as <- <-.
  - by rewrite app_nil_r.
  - split; [apply focus_delta; [by left|done]|done].
  - split; [apply focus_delta; [by right|done]|done].
Qed.

Lemma focus_complete i t pre b : focus i t pre b -> ready t -> focus i t (pre ++ emit_tool_complete i t) b.
Proof.
  unfold emit_tool_complete, ready. intros H Hr.
  destruct (cx_id t) as [id|]; [|by rewrite app_nil_r]. destruct (cx_name t) as [name|]; [|by rewrite app_nil_r].
  destruct Hr as [Hst|[|]]; [|done..]. destruct H as (He & Ht & Ho). pose proof Ht as (H1 & H2 & _).
  assert (forall j t0, told j t0 pre ->
    told j t0 (pre ++ [ScToolUseComplete i (function_call id name (cx_arguments t))])) as Hk.
  { intros j t0 H0. apply told_other; [done| |done]. by intros (? & ? & [=]). }
  split_and!; [|by apply Hk|intros j Hj; by apply Hk, Ho].
  apply each_chunk_snoc; [done|]. split_and!; [by apply H1|done|done].
Qed.

Section codex_calls.
Context {J : Json} (as_array : Value -> option (list Value)).
Context (read_codex_event : string -> option CodexSseEvent) (read_codex_usage : Value -> option CodexRawUsage).
Context (entries : gmap Z CodexToolUseState -> list (Z * CodexToolUseState)).
(** A map's iterator gives every entry once, in any order. *)
Context (entries_law : forall m, entries m ≡ₚ map_to_list m).

Lemma start_of_item i item pre b start t :
  codex_start i (identified item (cx_entry i b)) = (start, t) -> codex_tracking pre b ->
  focus i t (pre ++ start) b /\ ready t.
Proof.
  intros E H. apply (focus_start _ _ _ _ _ _ E). eapply focus_same; [| |by apply focus_enter]; done.
Qed.

Lemma item_event_tracks item output_index pre b cs b' :
  handle_output_item_event item output_index b = (cs, b') -> codex_tracking pre b -> codex_tracking (pre ++ cs) b'.
Proof.
  unfold handle_output_item_event. intros E H.
  destruct (negb (has_item_type "function_call" item)); [injection E as <- <-; by rewrite app_nil_r|].
  set (i := resolve_tool_index output_index b) in *.
  destruct (codex_start i (identified item (cx_entry i b))) as [start t] eqn:Es.
  destruct (start_of_item _ _ _ _ _ _ Es H) as [Hf Hr].
  destruct (value_get_str item "arguments") as [arguments|]; [|injection E as <- <-; by apply focus_leave].
  destruct (is_empty_str (trim arguments)); [injection E as <- <-; by apply focus_leave|].
  destruct (emit_arguments_delta i arguments t) as [delta t2] eqn:Ed. injection E as <- <-.
  rewrite !app_assoc. destruct (focus_arguments _ _ _ _ _ _ _ Ed Hf Hr). by apply focus_leave, focus_complete.
Qed.

Lemma arguments_delta_tracks output_index item_id delta pre b cs b' :
  handle_function_call_arguments_delta entries output_index item_id delta b = (cs, b') ->
  codex_tracking pre b -> codex_tracking (pre ++ cs) b'.
Proof.
  unfold handle_function_call_arguments_delta. intros E H. set (i := resolve_tool_index_with_item _ _ _ b) in *.
  destruct (codex_start i (cx_entry i b)) as [start t] eqn:Es. injection E as <- <-.
  destruct (focus_start _ _ _ _ _ _ Es (focus_enter i _ _ H)) as [Hf _].
  rewrite app_assoc. apply focus_leave. by apply (focus_delta _ _ _ _ delta); [left|].
Qed.

Lemma arguments_done_tracks output_index item_id arguments pre b cs b' :
  handle_function_call_arguments_done entries output_index item_id arguments b = (cs, b') ->
  codex_tracking pre b -> codex_tracking (pre ++ cs) b'.
Proof.
  unfold handle_function_call_arguments_done. intros E H. set (i := resolve_tool_index_with_item _ _ _ b) in *.
  destruct (b !! i) as [t0|] eqn:Et; [|injection E as <- <-; by rewrite app_nil_r].
  assert (t0 = cx_entry i b) as -> by (unfold cx_entry; by rewrite Et).
  destruct (codex_start i (cx_entry i b)) as [start t] eqn:Es.
  destruct (focus_start _ _ _ _ _ _ Es (focus_enter i _ _ H)) as [Hf Hr].
  set (d := match arguments with Some _ => _ | None => _ end) in E.
  assert (focus i d.2 ((pre ++ start) ++ d.1) b /\ ready d.2) as [Hf2 Hr2].
  { subst d. destruct arguments as [s|]; [destruct (is_empty_str (trim s))|]; cbn [fst snd]; rewrite ?app_nil_r; try done.
    destruct (emit_arguments_delta i s t) as [delta t2] eqn:Ed. by eapply focus_arguments. }
  destruct d as [delta t2]. injection E as <- <-. rewrite !app_assoc. by apply focus_leave, focus_complete.
Qed.

Lemma tool_call_tracks idx item pre b cs b' :
  emit_tool_call idx item b = (cs, b') -> codex_tracking pre b -> codex_tracking (pre ++ cs) b'.
Proof.
  unfold emit_tool_call. intros E H.
  destruct (negb (has_item_type "function_call" item)); [injection E as <- <-; by rewrite app_nil_r|].
  set (i := resolve_tool_index (Some idx) b) in *.
  destruct (codex_start i (identified item (cx_entry i b))) as [start t] eqn:Es.
  destruct (start_of_item _ _ _ _ _ _ Es H) as [Hf Hr].
  set (arguments := default "" (value_get_str item "arguments")) in *.
  set (d := if is_empty_str arguments then ([], t) else emit_arguments_delta i arguments t) in E.
  assert (focus i d.2 ((pre ++ start) ++ d.1) b /\ ready d.2) as [Hf2 Hr2].
  { subst d. destruct (is_empty_str arguments); cbn [fst snd]; [by rewrite app_nil_r|].
    destruct (emit_arguments_delta i arguments t) as [delta t2] eqn:Ed. by eapply focus_arguments. }
  destruct d as [delta t2]. injection E as <- <-. rewrite !app_assoc. by apply focus_leave, focus_complete.
Qed.

Lemma tool_calls_of_response_track items idx pre b cs b' :
  emit_tool_calls idx items b = (cs, b') -> codex_tracking pre b -> codex_tracking (pre ++ cs) b'.
Proof.
  revert idx pre b cs. induction items as [|item items IH]; intros idx pre b cs; cbn [emit_tool_calls].
  - intros [= <- <-] H. by rewrite app_nil_r.
  - destruct (emit_tool_call idx item b) as [c1 b1] eqn:E1.
    destruct (emit_tool_calls (idx + 1) items b1) as [c2 b2] eqn:E2. intros [= <- <-] H.
    rewrite app_assoc. eapply IH; [done|]. by eapply tool_call_tracks.
Qed.

(** The reasoning's entry is no call's. *)
Lemma reasoning_tracks pre b t :
  cx_started t = cx_started (cx_entry usize_max b) -> cx_arguments t = cx_arguments (cx_entry usize_max b) ->
  codex_tracking pre b -> codex_tracking pre (<[usize_max := t]> b).
Proof. intros Hs Ha H. apply focus_leave. eapply focus_same; [done..|]. by apply focus_enter. Qed.

Lemma final_thinking_tracks text pre b cs b' :
  final_thinking text b = (cs, b') -> codex_tracking pre b -> codex_tracking (pre ++ cs) b'.
Proof.
  unfold final_thinking, mark_final_thinking_emitted. intros E H.
  destruct text as [text|]; [|injection E as <- <-; by rewrite app_nil_r].
  destruct (thinking_to_emit text (cx_entry usize_max b)); injection E as <- <-.
  - apply tracking_codex_plain; [done..|]. by apply reasoning_tracks.
  - rewrite app_nil_r. by apply reasoning_tracks.
Qed.

Lemma any_started_spec b : any_started entries b = true <-> exists i t, b !! i = Some t /\ cx_started t = true.
Proof.
  unfold any_started. rewrite existsb_exists. split.
  - intros ([i t] & Hin & Hs). exists i, t. split; [|done].
    apply elem_of_map_to_list. rewrite <- entries_law. by apply list_elem_of_In.
  - intros (i & t & Hi & Hs). exists (i, t). split; [|done]. apply list_elem_of_In.
    rewrite entries_law. by apply elem_of_map_to_list.
Qed.

(** An end: its reason is told, and the reasoning is forgotten. *)
Lemma end_tracks pre b :
  codex_tracking pre b -> codex_tracking (pre ++ [ScDone (codex_finish_reason entries b)]) (clear_thinking_state b).
Proof.
  intros H. assert (codex_tracking (pre ++ [ScDone (codex_finish_reason entries b)]) b) as [He Ht].
  { apply tracking_codex_plain; [done| |done]. destruct H as [_ H]. simpl. unfold codex_finish_reason.
    pose proof (any_started_spec b) as Ha. destruct (any_started entries b).
    - left. split; [done|]. destruct (proj1 Ha eq_refl) as (i & t & Hi & Hs). exists i.
      apply (H i). unfold cx_entry. by rewrite Hi.
    - right. split; [done|]. intros i Hi Hst. destruct (H i) as (_ & _ & H3). specialize (H3 Hi Hst).
      unfold cx_entry in H3. destruct (b !! i) as [t|] eqn:Eb; [|done].
      enough (false = true) by done. apply Ha. by exists i, t. }
  split; [done|]. intros i. unfold clear_thinking_state. destruct (decide (i = usize_max)) as [->|Hi].
  - unfold cx_entry. rewrite lookup_delete_eq. split_and!; [done| |done].
    exists (deltas usize_max (pre ++ [ScDone (codex_finish_reason entries b)])). by rewrite sapp_nil_r.
  - specialize (Ht i). unfold cx_entry in *. by rewrite lookup_delete_ne.
Qed.

Lemma completed_tracks response pre b cs b' :
  completed_event as_array read_codex_usage entries response b = (cs, b') ->
  codex_tracking pre b -> codex_tracking (pre ++ cs) b'.
Proof.
  unfold completed_event. intros E H. destruct response as [r|].
  - destruct (emit_tool_calls_from_response as_array r b) as [c1 b1] eqn:E1.
    destruct (final_thinking _ b1) as [c2 b2] eqn:E2. injection E as <- <-. rewrite app_assoc.
    apply end_tracks. rewrite !app_assoc.
    assert (codex_tracking ((pre ++ c1) ++ c2) b2) as H2.
    { eapply final_thinking_tracks; [done|]. by eapply tool_calls_of_response_track. }
    destruct (value_get r "usage" ≫= read_codex_usage); [|by rewrite app_nil_r].
    by apply tracking_codex_plain.
  - injection E as <- <-. by apply end_tracks.
Qed.

Lemma texts_track cs pre b :
  Forall (fun c => exists s, c = ScText s) cs -> codex_tracking pre b -> codex_tracking (pre ++ cs) b.
Proof.
  intros Hc. revert pre. induction Hc as [|c l [s ->] _ IH]; intros pre H; [by rewrite app_nil_r|].
  replace (pre ++ ScText s :: l) with ((pre ++ [ScText s]) ++ l) by (by rewrite <- app_assoc).
  apply IH. by apply tracking_codex_plain.
Qed.

Lemma codex_event_tracks e pre b cs b' :
  codex_event as_array read_codex_usage entries e b = Ok (cs, b') ->
  codex_tracking pre b -> codex_tracking (pre ++ cs) b'.
Proof.
  unfold codex_event. intros E H.
  assert (forall cs', Ok (cs', b) = Ok (E := LLMError) (cs, b') -> Forall (fun c => exists s, c = ScText s) cs' ->
    codex_tracking (pre ++ cs) b') as Htext.
  { intros cs' [= <- <-] Hc. by apply texts_track. }
  destruct (contains (ce_kind e) "reasoning" && contains (ce_kind e) "delta").
  { destruct (ce_delta e) as [d|]; [destruct (is_empty_str d)|]; injection E as <- <-; rewrite ?app_nil_r; try done.
    apply tracking_codex_plain; [done..|]. by apply reasoning_tracks. }
  repeat case_match; try (by eapply Htext); try (by injection E as <- <-; rewrite app_nil_r).
  - eapply Htext; [done|]. destruct (ce_delta e); repeat constructor. by eexists.
  - injection E as E. by eapply final_thinking_tracks.
  - injection E as E. by eapply item_event_tracks.
  - injection E as E. by eapply item_event_tracks.
  - injection E as E. by eapply arguments_delta_tracks.
  - injection E as E. by eapply arguments_done_tracks.
  - injection E as E. by eapply completed_tracks.
Qed.

Lemma codex_lines_track ls results b pre cs b' :
  codex_lines as_array read_codex_event read_codex_usage entries ls results b = (Ok cs, b') ->
  codex_tracking (pre ++ results) b -> codex_tracking (pre ++ cs) b'.
Proof.
  revert results b. induction ls as [|l ls IH]; intros results b; cbn [codex_lines]; [by intros [= <- <-]|].
  destruct (strip_prefix "data: " (trim l)) as [data|]; [|apply IH].
  destruct (String.eqb data "[DONE]").
  { intros Hl H. apply (IH _ _ Hl). rewrite app_assoc. by apply end_tracks. }
  destruct (read_codex_event data) as [event|]; [|apply IH].
  destruct (codex_event as_array read_codex_usage entries event b) as [[chunks b1]|] eqn:E; [|done].
  intros Hl H. apply (IH _ _ Hl). rewrite app_assoc. by eapply codex_event_tracks.
Qed.
End codex_calls.

(** C37: whatever the response is and however it is cut, in Codex's stream a call
    starts once, completes only after it has started, with arguments that its
    deltas end in, and the end's reason says whether any call has started. *)
Theorem codex_calls_in_order {J : Json} as_array read_codex_event read_codex_usage entries body pre c post :
  (forall m, entries m ≡ₚ map_to_list m) ->
  oks (adapter_stream (codex_parser as_array read_codex_event read_codex_usage entries) body ∅) = pre ++ c :: post ->
  codex_call_in_order pre c.
Proof.
  intros Hentries Hout.
  destruct (adapter_keeps (codex_parser as_array read_codex_event read_codex_usage entries) codex_tracking) with
    (body := body) (s := ∅ : gmap Z CodexToolUseState) as (s' & Hc & _).
  - intros pre' line s cs s'. cbn [parse_chunk codex_parser]. unfold codex_parse_stream_chunk_with_state.
    destruct line as [|b line]; [intros [= <- <-] H; by rewrite app_nil_r|]. intros Hl H.
    apply (codex_lines_track _ _ _ _ Hentries _ _ _ _ _ _ Hl). by rewrite app_nil_r.
  - cbn [parser_finish codex_parser]. intros pre' s cs s' [= <- <-] H. by rewrite app_nil_r.
  - split; [apply each_chunk_nil|]. intros i. split_and!; [done|by exists ""|]. by intros _ H%Exists_nil.
  - exact (Hc _ _ _ Hout).
Qed.

(** ** Reasoning *)

Lemma contains_shorter s needle : contains s needle = true -> (slen needle <= slen s)%nat.
Proof.
  assert (forall p t, is_prefix_of p t = true -> (slen p <= slen t)%nat) as Hp.
  { induction p as [|x p IH]; intros [|y t]; simpl; try done; try lia.
    rewrite andb_true_iff. intros [_ H%IH]. lia. }
  induction s as [|x s IH]; simpl; rewrite orb_true_iff.
  - intros [H%Hp|]; [done|done].
  - intros [H%Hp|H%IH]; [done|lia].
Qed.

(** After streamed reasoning, a final text gives only what it adds to it, and
    nothing when it is part of it. *)
Lemma final_thinking_adds t rest :
  cx_streamed_thinking_seen t = true -> rest <> "" ->
  thinking_to_emit (cx_emitted_thinking_text t +:+ rest) t = Some rest.
Proof.
  intros Hs Hr. unfold thinking_to_emit. rewrite Hs. set (e := cx_emitted_thinking_text t).
  assert (slen e < slen (e +:+ rest))%nat as Hl.
  { rewrite slen_app. destruct rest; [done|]. cbn [slen]. lia. }
  destruct (String.eqb_spec e (e +:+ rest)) as [He|_]; [rewrite <- He in Hl; lia|].
  destruct (contains e (e +:+ rest)) eqn:Ec; [apply contains_shorter in Ec; lia|]. cbn [orb].
  unfold strip_prefix. by rewrite prefix_of_self, str_drop_app.
Qed.

Lemma final_thinking_known t text :
  cx_streamed_thinking_seen t = true -> contains (cx_emitted_thinking_text t) text = true ->
  thinking_to_emit text t = None.
Proof. intros Hs Hc. unfold thinking_to_emit. by rewrite Hs, Hc, orb_true_r. Qed.

(** ** Indices *)

Lemma free_index_spec fuel i (b : gmap Z CodexToolUseState) :
  b !! free_index fuel i b = None \/ forall k, (k <= fuel)%nat -> is_Some (b !! (i + Z.of_nat k)).
Proof.
  revert i. induction fuel as [|fuel IH]; intros i; cbn [free_index].
  - destruct (b !! i) eqn:E; [right|by left]. intros [|k] Hk; [|lia]. by rewrite Z.add_0_r, E.
  - destruct (b !! i) eqn:E; [|by left]. destruct (IH (i + 1)) as [H|H]; [by left|right].
    intros [|k] Hk; [by rewrite Z.add_0_r, E|].
    replace (i + Z.of_nat (S k)) with (i + 1 + Z.of_nat k) by lia. apply H. lia.
Qed.

(** An index without one in the event is a free one. *)
Lemma free_index_is_free (b : gmap Z CodexToolUseState) : b !! resolve_tool_index None b = None.
Proof.
  cbn [resolve_tool_index]. destruct (free_index_spec (size b) 0 b) as [H|H]; [done|exfalso].
  assert (list_to_set (Z.of_nat <$> seq 0 (S (size b))) ⊆@{gset Z} dom b) as Hs%subseteq_size.
  { intros x Hx%elem_of_list_to_set. apply list_elem_of_fmap in Hx as (k & -> & Hk%elem_of_seq).
    apply elem_of_dom. apply (H k). lia. }
  rewrite size_list_to_set, length_fmap, length_seq, size_dom in Hs; [lia|].
  apply NoDup_fmap_2; [intros x y; lia|apply NoDup_seq].
Qed.

(** ** A concrete stream *)

Section codex_example.
#[local] Existing Instance toy_json.

Definition a_codex_event (kind : string) (delta arguments : option string) (item : option Value) : CodexSseEvent :=
  {| ce_kind := kind; ce_delta := delta; ce_arguments := arguments; ce_response := None; ce_item := item;
     ce_output_index := Some 0; ce_item_id := None |}.

Definition sample_codex_event (data : string) : option CodexSseEvent :=
  if String.eqb data "added" then Some (a_codex_event "response.output_item.added" None None
    (Some (TObj [("type", "function_call"); ("call_id", "c1"); ("name", "lookup")])))
  else if String.eqb data "delta" then
    Some (a_codex_event "response.function_call_arguments.delta" (Some "{a:") None None)
  else if String.eqb data "done" then
    Some (a_codex_event "response.function_call_arguments.done" None (Some "{a:b}") None)
  else if String.eqb data "completed" then Some (a_codex_event "response.completed" None None None)
  else None.

Definition codex_lines_sample : list Bytes :=
  [bytes_of ("data: added" +:+ nl +:+ "data: del"); bytes_of ("ta" +:+ nl +:+ "data: done" +:+ nl);
   bytes_of "data: completed"].

Lemma codex_calls_in_order_witness :
  codex_call_in_order
    [ScToolUseStart 0 "c1" "lookup"; ScToolUseInputDelta 0 "{a:"; ScToolUseInputDelta 0 "b}";
     ScToolUseComplete 0 (function_call "c1" "lookup" "{a:b}")] (ScDone FrToolCalls).
Proof.
  apply (codex_calls_in_order (fun _ => None) sample_codex_event (fun _ => None) map_to_list
    (map Ok codex_lines_sample) _ _ []); [done|].
  vm_compute. reflexivity.
Defined.
End codex_example.
